(* ===== verification/_CoqProject ===== *)
-Q . S2P
Prelude.v
GoStrings.v
Signal.v
Sha256.v
Decision.v
Kube.v
KubeModel.v
WorldModel.v
Calls.v
Condition.v
Extrr.v
Capi.v
Mode.v
ClusterController.v
ClusterFacts.v
ReconcileFacts.v
Memory.v
Progress.v
Rounds.v
Prevails.v
Order.v
Settled.v
Marks.v
Held.v
Quarantine.v
Rules.v
Locator.v
LocatorFacts.v
QuarantineController.v
QuarantineFacts.v
Requests.v
Replacement.v
Setup.v
Main.v
MainFacts.v
Operator.v
