(* ===== verification/Prelude.v ===== *)
(** * nvsentinel-capi-remediator: a verification library

    The operator runs in a Cluster API management cluster. It reads what NVSentinel
    concluded about the nodes of every workload cluster and has the Machines behind
    faulty nodes restarted or replaced by marking them for Cluster API's
    MachineHealthChecks; and it carries out requests to replace a Machine whose
    passed-through devices are faulty, after taking those devices out of service. This
    library models that logic function by function, from the Go sources under src/, and
    proves what the operator does and what it never does.

    ** The parts, and the files that model them

    - Prelude (this file): [result], the pair of a value and an error of Go, the state
      monad, sorting, lists.
    - GoStrings: packages strings and sort of Go, on byte strings. Sha256: package
      crypto/sha256 and hex encoding, the 32-bit arithmetic of FIPS 180-4 on [Z].
    - Kube: the API objects as records (the fields the source uses), errors, and the
      three interfaces everything is written against: [KubeLib], helper functions of
      Cluster API and apimachinery; [API] and [InfraAPI], the API servers, the cluster
      cache and the clock; [KubeLaws], the documented behaviour of [KubeLib] that
      theorems use, and [SetNestedSliceLaws] and [NestedStringLaws] for one theorem each. A program is a function of [state (Sys W R)]: [W] the world
      behind the interfaces, an arbitrary type, the trace of the writes and Events
      sent, and the memory [R] of the reconciler. Program logics for it: [spec] (each
      effect sent satisfies a predicate), [runs] (the list of effects sent), [yields] (the
      result alone), [hoare] (effects and worlds).
    - Calls: the calls of the interfaces enumerated, and the logics that need them:
      [keeps] (a property of the system every call keeps, or every call but answers:
      [Kept], [KeptOther]), [triple] (before and after), and [doing], which tells the result,
      the effects sent and the system left, and of which [reads], [sends] and [sends_or] are
      the cases of code that writes nothing, of code that sends a certain effect, and of
      code that sends it or goes on with what is known.
    - Signal (internal/signal/signal.go): a [Signal], its [Key], and a [Source] of them as
      a record of operations, which NewSource of Condition and of Extrr build.
    - Condition (internal/signal/condition/): [Parse] decodes the message NVSentinel's
      connector writes into a node condition; [Collect] polls the nodes. The writing
      connector is [connector_join], after connectorJoin of condition_test.go.
    - Extrr (internal/signal/extrr/): [Parse] and [Collect] of ExternalRemediationRequests,
      and [Answer], the status patch that completes one.
    - Decision (internal/decision/decision.go): the table of actions, its overrides,
      and [Decide], what to do about a signal.
    - Capi (internal/capi/): [Guard], the [Coverage] of a Machine by health checks, and
      the patches: [MarkForRemediation], [Escalate], [Release].
    - Mode (internal/controller/mode.go): which source a workload cluster is read through.
    - ClusterController (internal/controller/cluster_controller.go): [Reconcile] polls
      one Cluster: selects the mode, collects the signals, [handle]s each ([remediate],
      [hand_over], [heldForChecks], [answer_request]), releases the restarts nobody
      asks for any more ([releaseRestarts]), and requeues at [nextLook]. Its maps under a
      mutex are the record [Memory].
    - Quarantine, Rules, Locator (internal/quarantine/): requests and the selection of
      devices; DeviceTaintRules; from a Machine to the devices of its VM. [Locator] is the
      interface of that name as a class; [LocatorLaws] is what the quarantine controller's
      theorems need of one, and the instance [KubeVirtLocator] satisfies it.
    - QuarantineController (internal/controller/quarantine_controller.go): [replace], as
      [ReconcileQuarantine] runs it for a Machine.
    - Setup (SetupWithManager of both controllers, and the watcher of watchRequests): which
      events put which keys on the queue; the predicates of controller-runtime and
      Cluster API are the class [ControllerRuntime].
    - Main (cmd/manager/main.go): [main], from the values of the flags to the end of the
      process; a call of the framework is [perform] of the class [Manager] and may fail.
    - KubeModel, WorldModel: a concrete [KubeLib] satisfying [KubeLaws] and a concrete
      world, in which theorems with hypotheses are instantiated.

    Names are those of the source. Where one Go function is several definitions (a loop, a
    branch), each says which part it is; [sig_], [m_], [r_] and so on prefix the
    fields of records. Reading a map by range is [map_to_list]; that its order does not
    matter is a theorem of Order.

    ** What the theorems show

    - Decision, Signal, Condition, Extrr, Capi, Quarantine prove their own functions right:
      the table and its overrides entry by entry, [Decide] against its specification and
      under truncation; decoding against writing (node conditions, requests, overrides);
      which conditions and requests become signals; answering; coverage;
      marking, escalating and releasing as updates of annotations; the selection of devices;
      bounds of notes and labels.
    - ClusterFacts: what [handle] may send and answer ([handle_patch], [answer_sound], whose
      [declined] and [waits] say why a request is told that it fails, or nothing), and which
      restarts the pass releases, against [keeps_mark] and [restart_over], which speak of
      annotations and nodes and not of the code's tests. [PatchLaws] states what an accepted
      patch answers with and by which name a Machine is read.
    - ReconcileFacts: what a whole reconcile may send whatever the API answers; that it
      always comes back, and in time for the waits; that a dry run is silent, a partial read
      releases nothing but restarts their own nodes show to be over, one look holds a restart
      no longer than its grace; and one defect:
      [failed_escalation_releases_restart].
    - Memory: an invariant of what the cluster controller remembers between reconciles,
      over every sequence of them ([reachable]); what a Cluster that is gone leaves.
    - Progress: what a reconcile does do, given objects that stay as they are read ([steady])
      and a signal that is the only one of its request ([in_sight], with what may change this
      request said call by call) and the first of its node to be more than reported
      ([in_view]): a fault is acted on at the next poll, a restart that is over is answered
      and its mark removed.
    - Rounds: a restart over two polls with anything in between, from the pending request to
      its answer and the Machine as it was before ([restart_is_seen_through]).
    - Prevails: several signals of one node. Whatever those before it did to the Machine
      ([stands_for]), a replacement called for is sent ([replacement_prevails]).
    - Order: no order in which Go may range over the maps of the cluster controller makes a
      difference ([map_order_is_immaterial]).
    - Settled: what code concludes without writing ([settles], [concludes]) does not depend
      on what was concluded before, so a cluster that is found as it was is never spoken of
      again ([settled_cluster_is_quiet]); and the case that is excluded, two requests for
      one check of a node.
    - Marks: an abstract state machine of what a Machine is marked for, driven by patches and
      reads together with what the API server answers ([exchange], of an API that keeps a log,
      [Logged]), and the refinement [reconcile_refines_marks]: every patch of a reconcile is a
      step from the mark the answer before it left.
    - Held: a restart that waits for the checks to forget an earlier mark ([awaits]): the wait
      is remembered, and the poll that finds the grace over marks the Machine.
    - LocatorFacts, QuarantineFacts: the devices found are those the running VM holds
      ([holds_device], the abstract description), and a VM that runs is found; rules round
      trip through the label lookup that finds them, what a replace request may send, that a
      Machine is deleted only when the devices of its VM, or those rules were made of for it,
      are under rules ([deleted_only_when_quarantined]), that a rejection is final.
      [VersionLaws] states what optimistic locking gives.
    - Requests: an abstract machine of one replace request, and the refinement
      [reconcile_refines_requests]; from it, that a deletion is free of races
      ([deletion_is_race_free]) and that a request comes to an end ([steps_left]).
      [storage] states what a resource version identifies.
    - Replacement: what a reconcile of a replace request does do, where nothing stands in its
      way ([obliging], which accepts only patches and deletions of the Machine as it is
      stored): it goes all the way, and the Machine is gone.
    - Setup: over any history of what an informer observes ([delivery]), a pending request
      and a replace request have woken the reconcile they need, and nothing else a request
      goes through wakes it. [enqueued], [watch_enqueued] and [delivery] write out documented
      behaviour of controller-runtime, of the cluster cache and of informers.
    - MainFacts: main takes the steps of its configuration ([steps]) in order, and stops at
      the first the framework answers with an error ([succeed], [ends]); the controllers it
      starts keep to the flags.
    - Operator: the two controllers main starts, running over one world in any order, with
      processes that die ([op_step]); [everything_sent_is_lawful] is the invariant of everything
      sent so far and of what is remembered.

    ** Bounds and fuel

    Recursion is structural throughout: no definition runs on fuel, so every one
    returns; the loops of Sha256 count the words and blocks the standard fixes or the padded
    message has. [retry_times] bounds RetryOnConflict by a number of attempts the library fixes,
    and no theorem depends on how many. Times are nanoseconds in [Z]; time.Time.Sub saturates at 64
    bits, and [time_Sub] with it. Lengths are in bytes, as len of Go.

    ** What is not modelled

    Logging, except for the two notices of [main] about its flags; package flag's reading of
    the command line, the scheme, and what controller-runtime and the cluster cache do inside
    a call: their informers appear as histories of observations, their queue as the keys put on
    it; the closing of connections; cancellation of contexts, which reaches the model as an
    error of a call. Two reconciles of one controller run one after the other, as both are
    registered with one worker; other writers act between calls through [W], which any
    call may change. Cluster API, KubeVirt, NVSentinel and the API servers are parameters. *)

From stdpp Require Export sorting.
From stdpp Require Export base tactics numbers list gmap sets strings pretty.

Declare Scope remediator_scope.
Delimit Scope remediator_scope with rem.
Open Scope remediator_scope.

(** ** Fallible code: Go's [(T, error)] pair. *)

Inductive result (E A : Type) : Type :=
| Ok (a : A)
| Err (e : E).
Arguments Ok {E A} a.
Arguments Err {E A} e.

#[export] Instance result_ret {E} : MRet (result E) := fun A => Ok.
#[export] Instance result_bind {E} : MBind (result E) :=
  fun A B k r => match r with Ok a => k a | Err e => Err e end.
#[export] Instance result_fmap {E} : FMap (result E) :=
  fun A B f r => match r with Ok a => Ok (f a) | Err e => Err e end.
#[export] Instance result_eq_dec `{EqDecision E, EqDecision A} : EqDecision (result E A).
Proof. solve_decision. Defined.

Definition is_ok {E A} (r : result E A) : bool :=
  match r with Ok _ => true | Err _ => false end.

(** ** Stateful code: explicit state passing, composed by [x ← c; k]. *)

Definition state (S A : Type) : Type := S → A * S.

#[export] Instance state_ret {S} : MRet (state S) := fun A a s => (a, s).
#[export] Instance state_bind {S} : MBind (state S) :=
  fun A B k c s => let '(a, s') := c s in k a s'.

(** Sequencing of stateful code that may fail: the first error is returned,
    as after Go's [if err != nil { return err }]. *)
Definition bind_ok {S E A B} (c : state S (result E A)) (k : A → state S (result E B)) :
    state S (result E B) :=
  r ← c; match r with Ok a => k a | Err e => mret (Err e) end.

Notation "x ←? c ; k" := (bind_ok c (fun x => k))
  (at level 100, c at next level, k at level 200, right associativity) : remediator_scope.
(** ** Automation *)

Create HintDb remediator.

(** Splits every boolean conjunction, disjunction and negation of the context
    into propositions. *)
Ltac bool_to_prop :=
  repeat match goal with
  | H : _ && _ = true |- _ => apply andb_true_iff in H; destruct H
  | H : _ || _ = false |- _ => apply orb_false_iff in H; destruct H
  | H : negb _ = true |- _ => apply negb_true_iff in H
  | H : negb _ = false |- _ => apply negb_false_iff in H
  | H : bool_decide _ = true |- _ => apply bool_decide_eq_true_1 in H
  | H : bool_decide _ = false |- _ => apply bool_decide_eq_false_1 in H
  end.

(** Case analysis on every [match] and [if] of the goal, keeping the equations
    and closing contradictory cases. *)
Ltac split_cases :=
  repeat (case_match; simplify_eq/=; try done).

(** ** Sorting

    Go's [sort.Slice], [sort.Strings] and [slices.SortFunc] return a sorted
    permutation of their input. [merge_sort] is such a function; where the order
    is antisymmetric there is only one, so which algorithm Go uses does not
    matter ([sort_by_unique]). *)

Section sorting.
Context {A : Type} (R : relation A) `{!RelDecision R}.

Definition sort_by (l : list A) : list A := merge_sort R l.

Lemma sort_by_Permutation l : sort_by l ≡ₚ l.
Proof using Type. apply merge_sort_Permutation. Qed.

Lemma elem_of_sort_by l x : x ∈ sort_by l ↔ x ∈ l.
Proof using Type. by rewrite sort_by_Permutation. Qed.

Lemma NoDup_sort_by l : NoDup l → NoDup (sort_by l).
Proof using Type. by rewrite sort_by_Permutation. Qed.

Lemma length_sort_by l : length (sort_by l) = length l.
Proof using Type. apply Permutation_length, sort_by_Permutation. Qed.

Lemma Sorted_sort_by `{!Total R} l : Sorted R (sort_by l).
Proof using Type. apply Sorted_merge_sort; apply _. Qed.

Lemma sort_by_unique `{!Transitive R, !Total R, !AntiSymm (=) R} l l' :
  Sorted R l' → l' ≡ₚ l → l' = sort_by l.
Proof using Type.
  intros Hs Hp. apply (Sorted_unique R); [done | by apply Sorted_sort_by |].
  by rewrite sort_by_Permutation.
Qed.
End sorting.

(** Lexicographic order on lists of string keys: how signals and devices are
    compared, field by field. Strings are ordered bytewise, as Go's [<] does. *)
Fixpoint keys_le (l1 l2 : list string) : Prop :=
  match l1, l2 with
  | [], _ => True
  | _ :: _, [] => False
  | x :: l1', y :: l2' => (x ≠ y ∧ String.le x y) ∨ (x = y ∧ keys_le l1' l2')
  end.

#[export] Instance keys_le_dec : RelDecision keys_le.
Proof.
  intros l1; induction l1 as [|x l1 IH]; intros [|y l2]; simpl; [apply _..|].
  pose proof (IH l2) as d. apply _.
Defined.

#[export] Instance keys_le_total : Total keys_le.
Proof.
  intros l1; induction l1 as [|x l1 IH]; intros [|y l2]; simpl; auto.
  destruct (decide (x = y)) as [->|Hne].
  - destruct (IH l2); auto.
  - destruct (total String.le x y); auto.
Qed.

#[export] Instance keys_le_trans : Transitive keys_le.
Proof.
  intros l1; induction l1 as [|x l1 IH]; intros [|y l2] [|z l3]; simpl; try tauto.
  intros [[Hn1 H1]|[-> H1]] [[Hn2 H2]|[-> H2]]; eauto.
  left. split; [|by etrans]. intros ->. apply Hn2. by apply (anti_symm String.le).
Qed.

#[export] Instance keys_le_antisymm : AntiSymm (=) keys_le.
Proof.
  intros l1; induction l1 as [|x l1 IH]; intros [|y l2]; simpl; try tauto.
  intros [[Hn1 H1]|[-> H1]] [[Hn2 H2]|[Heq H2]]; try congruence.
  - destruct Hn1. by apply (anti_symm String.le).
  - subst. f_equal. by apply IH.
Qed.

(** The order of records compared by the keys [f] extracts. *)
Definition by_keys {A} (f : A → list string) : relation A :=
  fun a b => keys_le (f a) (f b).

#[export] Instance by_keys_dec {A} (f : A → list string) : RelDecision (by_keys f).
Proof. intros a b. apply keys_le_dec. Defined.
#[export] Instance by_keys_total {A} (f : A → list string) : Total (by_keys f).
Proof. intros a b. apply keys_le_total. Qed.
#[export] Instance by_keys_trans {A} (f : A → list string) : Transitive (by_keys f).
Proof. intros a b c. apply keys_le_trans. Qed.

Lemma by_keys_antisymm {A} (f : A → list string) :
  Inj (=) (=) f → AntiSymm (=) (by_keys f).
Proof. intros Hf a b ??. by apply Hf, (anti_symm keys_le). Qed.
