(* ===== verification/GoStrings.v ===== *)
(** * The functions of Go's standard library the operator uses on text

    Go strings are byte strings, and so are the [string]s here: one [ascii] per
    byte. Package [strings] is modelled on bytes; where Go decodes UTF-8
    ([TrimSpace], [EqualFold]) the multi-byte encodings it recognises are
    written out, so that the byte functions agree with it on every input.
    [sort.Strings] is [sort_by String.le] of the prelude. *)

From S2P Require Import Prelude.
From Stdlib Require Export Ascii.
Open Scope stdpp_scope.

(** ** Length and concatenation *)

Create Rewrite HintDb strings.

Fixpoint len (s : string) : nat :=
  match s with EmptyString => 0 | String _ s' => S (len s') end.

Lemma app_nil_l_str (s : string) : "" +:+ s = s.
Proof. done. Qed.

Lemma app_cons_str c (s t : string) : String c s +:+ t = String c (s +:+ t).
Proof. done. Qed.

Lemma app_nil_r_str (s : string) : s +:+ "" = s.
Proof. induction s as [|c s IH]; [done|]. by rewrite app_cons_str, IH. Qed.

Lemma app_assoc_str (s t u : string) : (s +:+ t) +:+ u = s +:+ t +:+ u.
Proof. induction s as [|c s IH]; [done|]. by rewrite !app_cons_str, IH. Qed.

Lemma len_app (s t : string) : len (s +:+ t) = len s + len t.
Proof. induction s as [|c s IH]; [done|]. rewrite app_cons_str. simpl. by rewrite IH. Qed.

#[export] Hint Rewrite app_nil_l_str app_cons_str app_nil_r_str app_assoc_str len_app : strings.

Lemma app_inj_l_str (s t u : string) : s +:+ t = s +:+ u → t = u.
Proof. apply (inj (String.app s)). Qed.

Lemma app_inj_r_str (s t u : string) : s +:+ u = t +:+ u → s = t.
Proof.
  revert t. induction s as [|c s IH]; intros [|d t] H; try done.
  - apply (f_equal len) in H. autorewrite with strings in H. simpl in H. lia.
  - apply (f_equal len) in H. autorewrite with strings in H. simpl in H. lia.
  - rewrite !app_cons_str in H. simplify_eq. f_equal. by apply IH.
Qed.

(** Two ways to cut one string: one cut is inside the other's first part. *)
Lemma app_eq_app_str (a b c d : string) :
  a +:+ b = c +:+ d →
  ∃ e, (a = c +:+ e ∧ d = e +:+ b) ∨ (c = a +:+ e ∧ b = e +:+ d).
Proof.
  revert c. induction a as [|x a IH]; intros c H.
  - exists c. right. done.
  - destruct c as [|y c].
    + exists (String x a). left. done.
    + rewrite !app_cons_str in H. simplify_eq.
      destruct (IH c) as [e [[-> ->]|[-> ->]]]; [done|..]; exists e; [left|right]; done.
Qed.

(** The bytes of a string. *)
Fixpoint bytes (s : string) : list ascii :=
  match s with EmptyString => [] | String c s' => c :: bytes s' end.

Fixpoint of_bytes (l : list ascii) : string :=
  match l with [] => "" | c :: l' => String c (of_bytes l') end.

Lemma of_bytes_bytes s : of_bytes (bytes s) = s.
Proof. induction s as [|c s IH]; simpl; [done|]. by f_equal. Qed.

Lemma bytes_app s t : bytes (s +:+ t) = bytes s ++ bytes t.
Proof. induction s as [|c s IH]; [done|]. rewrite app_cons_str. simpl. by rewrite IH. Qed.

Lemma of_bytes_app l k : of_bytes (l ++ k) = of_bytes l +:+ of_bytes k.
Proof. induction l as [|c l IH]; [done|]. simpl. by rewrite app_cons_str, IH. Qed.

Lemma bytes_of_bytes l : bytes (of_bytes l) = l.
Proof. induction l as [|c l IH]; simpl; [done|]. by f_equal. Qed.

Lemma len_bytes s : len s = length (bytes s).
Proof. induction s as [|c s IH]; simpl; [done|]. by f_equal. Qed.

Definition all_bytes (P : ascii → bool) (s : string) : bool := forallb P (bytes s).

Lemma all_bytes_app P s t : all_bytes P (s +:+ t) = all_bytes P s && all_bytes P t.
Proof. unfold all_bytes. rewrite bytes_app. apply forallb_app. Qed.

Definition byte_val (c : ascii) : nat := nat_of_ascii c.

(** [c] as a string of one byte. *)
Definition byte_str (c : ascii) : string := String c "".

(** ** Prefixes and suffixes *)

(** [strings.CutPrefix]: what follows the prefix, if [s] has it. *)
Fixpoint CutPrefix (s p : string) {struct p} : option string :=
  match p, s with
  | EmptyString, _ => Some s
  | String c p', String d s' => if decide (c = d) then CutPrefix s' p' else None
  | String _ _, EmptyString => None
  end.

Lemma CutPrefix_Some s p r : CutPrefix s p = Some r ↔ s = p +:+ r.
Proof.
  revert s. induction p as [|c p IH]; intros s; simpl.
  - rewrite app_nil_l_str. split; intros; congruence.
  - destruct s as [|d s]; [by split|]. rewrite app_cons_str.
    case_decide as Hcd; [subst; rewrite IH|]; split; intros; congruence.
Qed.

Lemma CutPrefix_app p r : CutPrefix (p +:+ r) p = Some r.
Proof. by apply CutPrefix_Some. Qed.

(** [strings.HasPrefix]. *)
Definition HasPrefix (s p : string) : bool :=
  match CutPrefix s p with Some _ => true | None => false end.

Lemma HasPrefix_spec s p : HasPrefix s p = true ↔ ∃ r, s = p +:+ r.
Proof.
  unfold HasPrefix. destruct (CutPrefix s p) as [r|] eqn:E.
  - apply CutPrefix_Some in E. naive_solver.
  - split; [done|]. intros [r Hr]. apply CutPrefix_Some in Hr. congruence.
Qed.

(** What precedes the suffix, if [s] has it ([strings.CutSuffix]). *)
Fixpoint CutSuffix (s suf : string) : option string :=
  if decide (s = suf) then Some ""
  else match s with
       | EmptyString => None
       | String c s' => String c <$> CutSuffix s' suf
       end.

Lemma CutSuffix_Some s suf r : CutSuffix s suf = Some r ↔ s = r +:+ suf.
Proof.
  revert r. induction s as [|c s IH]; intros r; simpl; case_decide as Hs.
  - subst suf. split; [naive_solver|]. destruct r; [done|]. by rewrite app_cons_str.
  - split; [done|]. destruct r; simpl; [by rewrite app_nil_l_str|by rewrite app_cons_str].
  - split; [by intros [= <-]|]. intros H. destruct r as [|d r]; [done|].
    apply (f_equal len) in H. autorewrite with strings in H. subst suf. simpl in H. lia.
  - split.
    + intros (r' & H & ->)%fmap_Some. apply IH in H. rewrite H. by rewrite app_cons_str.
    + destruct r as [|d r]; [by rewrite app_nil_l_str|]. rewrite app_cons_str.
      intros [= -> ->]. apply fmap_Some. exists r. split; [|done]. by apply IH.
Qed.

Definition HasSuffix (s suf : string) : bool :=
  match CutSuffix s suf with Some _ => true | None => false end.

Lemma HasSuffix_spec s p : HasSuffix s p = true ↔ ∃ r, s = r +:+ p.
Proof.
  unfold HasSuffix. destruct (CutSuffix s p) as [r|] eqn:E.
  - apply CutSuffix_Some in E. naive_solver.
  - split; [done|]. intros [r Hr]. apply CutSuffix_Some in Hr. congruence.
Qed.

Definition TrimSuffix (s suf : string) : string := default s (CutSuffix s suf).

Lemma TrimSuffix_app s suf : TrimSuffix (s +:+ suf) suf = s.
Proof.
  unfold TrimSuffix. destruct (CutSuffix (s +:+ suf) suf) as [r|] eqn:E; simpl.
  - apply CutSuffix_Some in E. by apply app_inj_r_str in E.
  - assert (CutSuffix (s +:+ suf) suf = Some s) by (by apply CutSuffix_Some). congruence.
Qed.

(** [strings.Contains]. *)
Fixpoint Contains (s sub : string) : bool :=
  match CutPrefix s sub with
  | Some _ => true
  | None => match s with EmptyString => false | String _ s' => Contains s' sub end
  end.

Lemma Contains_spec s sub : Contains s sub = true ↔ ∃ a b, s = a +:+ sub +:+ b.
Proof.
  induction s as [|c s IH]; simpl; destruct (CutPrefix _ sub) as [r|] eqn:E.
  - apply CutPrefix_Some in E. split; [|done]. exists "", r. done.
  - split; [done|]. intros ([|]&b&H); [|by rewrite app_cons_str in H].
    rewrite app_nil_l_str in H. apply CutPrefix_Some in H. congruence.
  - apply CutPrefix_Some in E. split; [|done]. exists "", r. done.
  - rewrite IH. split.
    + intros (a & b & ->). exists (String c a), b. by rewrite app_cons_str.
    + intros ([|d a] & b & H).
      * rewrite app_nil_l_str in H. apply CutPrefix_Some in H. congruence.
      * rewrite app_cons_str in H. simplify_eq. eauto.
Qed.

(** ** Splitting and joining *)

(** [strings.Split] and [strings.SplitSeq] at a separator of one byte. *)
Fixpoint Split (s : string) (sep : ascii) : list string :=
  match s with
  | EmptyString => [""]
  | String c s' =>
      if decide (c = sep) then "" :: Split s' sep
      else match Split s' sep with
           | [] => [byte_str c]
           | w :: ws => String c w :: ws
           end
  end.

(** [strings.Join]. *)
Fixpoint Join (ws : list string) (sep : string) : string :=
  match ws with
  | [] => ""
  | [w] => w
  | w :: ws' => w +:+ sep +:+ Join ws' sep
  end.

Definition has_byte (c : ascii) (s : string) : bool := existsb (fun d => bool_decide (d = c)) (bytes s).

Lemma has_byte_app c s t : has_byte c (s +:+ t) = has_byte c s || has_byte c t.
Proof. unfold has_byte. rewrite bytes_app. apply existsb_app. Qed.

Lemma has_byte_spec c s : has_byte c s = true ↔ c ∈ bytes s.
Proof.
  unfold has_byte. rewrite existsb_exists. setoid_rewrite bool_decide_eq_true.
  setoid_rewrite <- list_elem_of_In. split; [intros (d & Hd & ->)|exists c]; done.
Qed.

Lemma Split_no_sep s sep : has_byte sep s = false → Split s sep = [s].
Proof.
  induction s as [|c s IH]; [done|]. unfold has_byte. simpl. intros H. bool_to_prop.
  rewrite decide_False by done. by rewrite IH.
Qed.

Lemma Split_not_nil s sep : Split s sep ≠ [].
Proof. induction s as [|c s IH]; simpl; [done|]. case_decide; [done|]. by destruct (Split s sep). Qed.

Lemma Split_app_sep s t sep :
  has_byte sep s = false → Split (s +:+ byte_str sep +:+ t) sep = s :: Split t sep.
Proof.
  unfold byte_str. induction s as [|c s IH]; simpl.
  - intros _. autorewrite with strings. simpl. by rewrite decide_True.
  - unfold has_byte. simpl. intros H. bool_to_prop.
    rewrite decide_False by done. by rewrite IH.
Qed.

Lemma Split_Join ws sep :
  ws ≠ [] → Forall (fun w => has_byte sep w = false) ws →
  Split (Join ws (byte_str sep)) sep = ws.
Proof.
  induction ws as [|w [|w' ws] IH]; intros Hne Hws; [done|..].
  - inversion_clear Hws. by apply Split_no_sep.
  - inversion_clear Hws as [|?? Hw Hws'].
    change (Join (w :: w' :: ws) (byte_str sep))
      with (w +:+ byte_str sep +:+ Join (w' :: ws) (byte_str sep)).
    rewrite Split_app_sep by done. by rewrite IH.
Qed.

(** [strings.Cut] at a separator of one byte: the text before and after the
    first one, or [None] when there is none. *)
Fixpoint Cut (s : string) (sep : ascii) : option (string * string) :=
  match s with
  | EmptyString => None
  | String c s' =>
      if decide (c = sep) then Some ("", s')
      else (fun '(a, b) => (String c a, b)) <$> Cut s' sep
  end.

Lemma Cut_app s t sep : has_byte sep s = false → Cut (s +:+ byte_str sep +:+ t) sep = Some (s, t).
Proof.
  unfold byte_str. induction s as [|c s IH]; simpl.
  - intros _. autorewrite with strings. simpl. by rewrite decide_True.
  - unfold has_byte. simpl. intros H. bool_to_prop.
    rewrite decide_False by done. by rewrite IH.
Qed.

Lemma Cut_Some s sep a b :
  Cut s sep = Some (a, b) → s = a +:+ byte_str sep +:+ b ∧ has_byte sep a = false.
Proof.
  revert a. induction s as [|c s IH]; intros a; simpl; [done|]. case_decide as Hc.
  - intros [= <- <-]. subst. done.
  - intros ([a' b'] & H & [= -> ->])%fmap_Some. destruct (IH _ H) as [-> Ha].
    rewrite app_cons_str. split; [done|]. unfold has_byte in *. simpl.
    rewrite bool_decide_eq_false_2 by done. done.
Qed.

(** ** White space *)

(** Go's [asciiSpace]: tab, newline, vertical tab, form feed, carriage return,
    space. *)
Definition ascii_space (c : ascii) : bool :=
  let n := byte_val c in ((9 <=? n) && (n <=? 13)) || (n =? 32).

(** The two-byte encodings of [unicode.IsSpace]: U+0085 and U+00A0. *)
Definition space2 (a b : ascii) : bool :=
  (byte_val a =? 194) && ((byte_val b =? 133) || (byte_val b =? 160)).

(** The three-byte encodings: U+1680, U+2000 to U+200A, U+2028, U+2029, U+202F,
    U+205F and U+3000. *)
Definition space3 (a b c : ascii) : bool :=
  let n := byte_val c in
  ((byte_val a =? 225) && (byte_val b =? 154) && (n =? 128))
  || ((byte_val a =? 226) && (byte_val b =? 128)
      && (((128 <=? n) && (n <=? 138)) || (n =? 168) || (n =? 169) || (n =? 175)))
  || ((byte_val a =? 226) && (byte_val b =? 129) && (n =? 159))
  || ((byte_val a =? 227) && (byte_val b =? 128) && (n =? 128)).

(** Drops leading runs of encodings recognised by [p1], [p2] and [p3]. *)
Fixpoint drop_spaces (p2 : ascii → ascii → bool) (p3 : ascii → ascii → ascii → bool)
    (l : list ascii) : list ascii :=
  match l with
  | [] => []
  | a :: l1 =>
      if ascii_space a then drop_spaces p2 p3 l1
      else match l1 with
           | [] => l
           | b :: l2 =>
               if p2 a b then drop_spaces p2 p3 l2
               else match l2 with
                    | [] => l
                    | c :: l3 => if p3 a b c then drop_spaces p2 p3 l3 else l
                    end
           end
  end.

(** [strings.TrimSpace]: leading, then trailing white space. The trailing side
    reads the bytes backwards, as [utf8.DecodeLastRune] does. *)
Definition TrimSpace (s : string) : string :=
  let l := drop_spaces space2 space3 (bytes s) in
  of_bytes (reverse (drop_spaces (fun a b => space2 b a) (fun a b c => space3 c b a) (reverse l))).

(** A byte that is no part of any white space. *)
Definition plain_byte (c : ascii) : bool := (byte_val c <? 128) && negb (ascii_space c).

Lemma plain_byte_not_space c : plain_byte c = true → ascii_space c = false.
Proof. unfold plain_byte. intros H. bool_to_prop. done. Qed.

Lemma space2_not_plain a b : space2 a b = true → plain_byte a = false ∧ plain_byte b = false.
Proof.
  unfold space2, plain_byte. intros H. bool_to_prop.
  rewrite !andb_false_iff, !Nat.ltb_ge. apply Nat.eqb_eq in H.
  apply orb_true_iff in H0. rewrite !Nat.eqb_eq in H0. lia.
Qed.

Lemma space3_not_plain a b c :
  space3 a b c = true → plain_byte a = false ∧ plain_byte b = false ∧ plain_byte c = false.
Proof.
  unfold space3, plain_byte. intros H. rewrite !andb_false_iff, !Nat.ltb_ge.
  rewrite !orb_true_iff, !andb_true_iff, !orb_true_iff, !andb_true_iff,
    !Nat.eqb_eq, !Nat.leb_le in H. lia.
Qed.

Definition no_plain2 (p2 : ascii → ascii → bool) : Prop :=
  ∀ a b, p2 a b = true → plain_byte a = false ∧ plain_byte b = false.
Definition no_plain3 (p3 : ascii → ascii → ascii → bool) : Prop :=
  ∀ a b c, p3 a b c = true → plain_byte a = false ∧ plain_byte b = false ∧ plain_byte c = false.

Lemma drop_spaces_keeps p2 p3 l c :
  no_plain2 p2 → no_plain3 p3 → plain_byte c = true → c ∈ l → c ∈ drop_spaces p2 p3 l.
Proof.
  intros H2 H3 Hc. remember (length l) as n eqn:Hn. revert l Hn.
  induction (lt_wf n) as [n _ IH]. intros [|a l1] -> Hin; [done|].
  assert (Hgo : ∀ l', length l' ≤ length l1 → c ∈ l' → c ∈ drop_spaces p2 p3 l')
    by (intros l' Hl; eapply IH; [|done]; simpl; lia).
  assert (Hne : ∀ x l', plain_byte x = false → c ∈ x :: l' → c ∈ l')
    by (intros x l' Hx [->|?]%elem_of_cons; [congruence|done]).
  simpl. destruct (ascii_space a) eqn:Ea.
  { apply Hgo; [done|]. eapply Hne; [|done]. unfold plain_byte. by rewrite Ea, andb_false_r. }
  destruct l1 as [|b l2]; [done|]. destruct (p2 a b) eqn:E2.
  { apply H2 in E2 as [??]. apply Hgo; [simpl; lia|]. eauto. }
  destruct l2 as [|d l3]; [done|]. destruct (p3 a b d) eqn:E3; [|done].
  apply H3 in E3 as (?&?&?). apply Hgo; [simpl; lia|]. eauto.
Qed.

(** A string with a byte that is no white space does not trim to nothing. *)
Lemma TrimSpace_keeps s c : plain_byte c = true → c ∈ bytes s → c ∈ bytes (TrimSpace s).
Proof.
  intros Hc Hin. unfold TrimSpace. rewrite bytes_of_bytes, elem_of_reverse.
  apply drop_spaces_keeps; [..|done|rewrite elem_of_reverse; apply drop_spaces_keeps];
    try done; repeat intro;
    match goal with
    | H : space2 _ _ = true |- _ => apply space2_not_plain in H
    | H : space3 _ _ _ = true |- _ => apply space3_not_plain in H
    end; naive_solver.
Qed.

(** A string of bytes that are no part of white space is trimmed to itself. *)
Lemma drop_spaces_plain p2 p3 l :
  no_plain2 p2 → no_plain3 p3 → match l with [] => True | c :: _ => plain_byte c = true end →
  drop_spaces p2 p3 l = l.
Proof.
  intros H2 H3. destruct l as [|a l1]; [done|]. intros Ha. simpl.
  rewrite (plain_byte_not_space a) by done. destruct l1 as [|b l2]; [done|].
  destruct (p2 a b) eqn:E2; [apply H2 in E2; naive_solver congruence|].
  destruct l2 as [|d l3]; [done|].
  destruct (p3 a b d) eqn:E3; [apply H3 in E3; naive_solver congruence|done].
Qed.

(** Trimming trims all there is to trim. *)
Lemma drop_spaces_suffix p2 p3 l : drop_spaces p2 p3 l `suffix_of` l.
Proof.
  remember (length l) as n eqn:Hn. revert l Hn. induction (lt_wf n) as [n _ IH].
  intros [|a l1] ->; [done|]. simpl.
  assert (Hgo : ∀ l' k, l1 = k ++ l' → drop_spaces p2 p3 l' `suffix_of` a :: l1).
  { intros l' k ->. apply suffix_cons_r, suffix_app_r. eapply IH; [|done].
    simpl. rewrite length_app. lia. }
  destruct (ascii_space a); [by apply (Hgo _ [])|]. destruct l1 as [|b l2]; [done|].
  destruct (p2 a b); [by apply (Hgo _ [b])|]. destruct l2 as [|d l3]; [done|].
  destruct (p3 a b d); [by apply (Hgo _ [b; d])|done].
Qed.

Lemma drop_spaces_again p2 p3 l : drop_spaces p2 p3 (drop_spaces p2 p3 l) = drop_spaces p2 p3 l.
Proof.
  remember (length l) as n eqn:Hn. revert l Hn. induction (lt_wf n) as [n _ IH].
  intros [|a l1] ->; [done|]. simpl.
  destruct (ascii_space a) eqn:Ea; [eapply IH; simpl; [|done]; lia|].
  destruct l1 as [|b l2]; [simpl; by rewrite Ea|].
  destruct (p2 a b) eqn:E2; [eapply IH; simpl; [|done]; lia|].
  destruct l2 as [|d l3]; [simpl; by rewrite Ea, E2|].
  destruct (p3 a b d) eqn:E3; [eapply IH; simpl; [|done]; lia|simpl; by rewrite Ea, E2, E3].
Qed.

Lemma drop_spaces_prefix p2 p3 l k : drop_spaces p2 p3 (l ++ k) = l ++ k → drop_spaces p2 p3 l = l.
Proof.
  assert (Hlong : ∀ l' x, drop_spaces p2 p3 l' = x → length x ≤ length l').
  { intros l' x <-. apply suffix_length, drop_spaces_suffix. }
  destruct l as [|a l1]; [done|]. simpl. destruct (ascii_space a).
  { intros E%Hlong. simpl in E. lia. }
  destruct l1 as [|b l2]; [done|]. simpl. destruct (p2 a b).
  { intros E%Hlong. simpl in E. lia. }
  destruct l2 as [|d l3]; [done|]. simpl. destruct (p3 a b d); [|done].
  intros E%Hlong. simpl in E. lia.
Qed.

Lemma TrimSpace_idem s : TrimSpace (TrimSpace s) = TrimSpace s.
Proof.
  unfold TrimSpace. rewrite bytes_of_bytes. set (back := drop_spaces _ _).
  set (front := drop_spaces space2 space3). set (l := front (bytes s)).
  assert (Hf : front (reverse (back (reverse l))) = reverse (back (reverse l))).
  { destruct (drop_spaces_suffix (fun a b => space2 b a) (fun a b c => space3 c b a) (reverse l)) as [k Hk].
    fold back in Hk. apply (drop_spaces_prefix _ _ _ (reverse k)). rewrite <- reverse_app, <- Hk, reverse_involutive.
    apply drop_spaces_again. }
  rewrite Hf, reverse_involutive. unfold back. by rewrite drop_spaces_again.
Qed.

Lemma TrimSpace_plain s : all_bytes plain_byte s = true → TrimSpace s = s.
Proof.
  unfold all_bytes, TrimSpace. intros H. rewrite forallb_forall in H.
  assert (Hh : ∀ l, (∀ c, c ∈ l → In c (bytes s)) →
      match l with [] => True | c :: _ => plain_byte c = true end).
  { intros [|c l] Hl; [done|]. apply H, Hl. set_solver. }
  rewrite (drop_spaces_plain space2 space3); [rewrite drop_spaces_plain|..].
  - by rewrite reverse_involutive, of_bytes_bytes.
  - intros a b E. apply space2_not_plain in E. naive_solver.
  - intros a b c E. apply space3_not_plain in E. naive_solver.
  - apply Hh. intros c. by rewrite elem_of_reverse, list_elem_of_In.
  - exact space2_not_plain.
  - exact space3_not_plain.
  - apply Hh. intros c. by rewrite list_elem_of_In.
Qed.

(** ** Case folding *)

Definition ascii_lower (c : ascii) : ascii :=
  let n := byte_val c in
  if (65 <=? n) && (n <=? 90) then ascii_of_nat (n + 32) else c.

(** [strings.EqualFold s t] for a [t] of ASCII letters. Simple folding relates
    an ASCII letter to its other case, and besides to U+017F (bytes C5 BF) for
    an [s] and U+212A (bytes E2 84 AA) for a [k]; no other rune folds to ASCII. *)
Fixpoint EqualFold (s t : string) : bool :=
  match t, s with
  | EmptyString, EmptyString => true
  | String d t', String c s1 =>
      if byte_val c <? 128 then
        if decide (ascii_lower c = ascii_lower d) then EqualFold s1 t' else false
      else if decide (ascii_lower d = "s"%char) then
        match s1 with
        | String c2 s2 =>
            if (byte_val c =? 197) && (byte_val c2 =? 191) then EqualFold s2 t' else false
        | EmptyString => false
        end
      else if decide (ascii_lower d = "k"%char) then
        match s1 with
        | String c2 (String c3 s3) =>
            if (byte_val c =? 226) && (byte_val c2 =? 132) && (byte_val c3 =? 170)
            then EqualFold s3 t' else false
        | _ => false
        end
      else false
  | _, _ => false
  end.

Fixpoint map_bytes (f : ascii → ascii) (s : string) : string :=
  match s with EmptyString => "" | String c s' => String (f c) (map_bytes f s') end.

(** On ASCII text, equality up to ASCII case. *)
Lemma EqualFold_ascii s t :
  all_bytes (fun c => byte_val c <? 128) s = true →
  EqualFold s t = true ↔ map_bytes ascii_lower s = map_bytes ascii_lower t.
Proof.
  revert t. induction s as [|c s IH]; intros [|d t] Hs; simpl; try done.
  unfold all_bytes in Hs. simpl in Hs. apply andb_true_iff in Hs as [Hc Hs]. rewrite Hc.
  case_decide as Hcd.
  - rewrite IH by done. rewrite Hcd. split; [by intros ->|congruence].
  - split; [done|]. congruence.
Qed.
