(* ===== verification/Signal.v ===== *)
(** * Signals (internal/signal/signal.go)

    The actions NVSentinel recommends, the signal both sources decode their
    input into, and the key that identifies the fault a signal reports. *)

From S2P Require Import Prelude GoStrings.
Open Scope stdpp_scope.

Definition ActionNone := "NONE".
Definition ActionComponentReset := "COMPONENT_RESET".
Definition ActionContactSupport := "CONTACT_SUPPORT".
Definition ActionRunFieldDiag := "RUN_FIELDDIAG".
Definition ActionRestartVM := "RESTART_VM".
Definition ActionRestartBM := "RESTART_BM".
Definition ActionReplaceVM := "REPLACE_VM".
Definition ActionRunDCGMEUD := "RUN_DCGMEUD".
Definition ActionCustom := "CUSTOM".
Definition ActionUnknown := "UNKNOWN".

Definition knownActions : list string :=
  [ActionNone; ActionComponentReset; ActionContactSupport; ActionRunFieldDiag;
   ActionRestartVM; ActionRestartBM; ActionReplaceVM; ActionRunDCGMEUD;
   ActionCustom; ActionUnknown].

Definition IsKnownAction (name : string) : bool := bool_decide (name ∈ knownActions).

Inductive Origin : Type :=
| OriginNodeCondition
| OriginExternalRemediationRequest.

Definition origin_string (o : Origin) : string :=
  match o with
  | OriginNodeCondition => "NodeCondition"
  | OriginExternalRemediationRequest => "ExternalRemediationRequest"
  end.

#[export] Instance origin_eq_dec : EqDecision Origin.
Proof. solve_decision. Defined.

Record Signal : Type := MkSignal {
  sig_Origin : Origin;
  sig_Node : string;
  sig_Check : string;
  sig_ID : string;
  sig_Actions : list string;
  sig_ErrorCodes : list string;
  sig_GpuUUIDs : list string;
  sig_Truncated : bool;
  sig_Request : string
}.

#[export] Instance signal_eq_dec : EqDecision Signal.
Proof. solve_decision. Defined.

(** [sig.Node = node]: the condition source fills the node name in. *)
Definition set_node (s : Signal) (node : string) : Signal :=
  MkSignal (sig_Origin s) node (sig_Check s) (sig_ID s) (sig_Actions s)
    (sig_ErrorCodes s) (sig_GpuUUIDs s) (sig_Truncated s) (sig_Request s).

Definition Key (s : Signal) : string := sig_Node s +:+ "/" +:+ sig_Check s.

(** The interface [signal.Source], over the effects [M] and the errors [E] of
    what lists the signals. *)
Record Source (M : Type → Type) (E : Type) : Type := MkSource {
  src_Name : string;
  src_Collect : M (result E (list Signal))
}.
Arguments MkSource {M E} src_Name src_Collect.
Arguments src_Name {M E} s.
Arguments src_Collect {M E} s.

(** ** Properties *)

(** The key of a signal identifies its node and its check, since a node name
    holds no slash; so two signals are handled as one only when they report
    the same check of the same node. *)
Lemma key_identifies_node_and_check (s1 s2 : Signal)
    (H1 : has_byte "/"%char (sig_Node s1) = false) (H2 : has_byte "/"%char (sig_Node s2) = false) :
  Key s1 = Key s2 → sig_Node s1 = sig_Node s2 ∧ sig_Check s1 = sig_Check s2.
Proof.
  unfold Key. intros HK. change "/" with (byte_str "/"%char) in HK.
  pose proof (Cut_app _ (sig_Check s1) _ H1) as E1.
  pose proof (Cut_app _ (sig_Check s2) _ H2) as E2.
  rewrite HK, E2 in E1. by simplify_eq.
Qed.

Lemma IsKnownAction_spec a : IsKnownAction a = true ↔ a ∈ knownActions.
Proof. apply bool_decide_eq_true. Qed.

(** Upper-case letters and underscores, the bytes of [[A-Z_]]. *)
Definition action_byte (c : ascii) : bool :=
  ((65 <=? byte_val c) && (byte_val c <=? 90)) || (byte_val c =? 95).

Lemma knownActions_bytes a : a ∈ knownActions → all_bytes action_byte a = true.
Proof.
  assert (Forall (fun a => all_bytes action_byte a = true) knownActions) as H
    by (repeat constructor).
  rewrite Forall_forall in H. apply H.
Qed.

Lemma knownActions_not_empty a : a ∈ knownActions → a ≠ "".
Proof.
  assert (Forall (fun a => a ≠ "") knownActions) as H by (repeat constructor; discriminate).
  rewrite Forall_forall in H. apply H.
Qed.

Lemma known_prefix_free a rest :
  a ∈ knownActions → a +:+ rest ∈ knownActions → rest = "".
Proof.
  assert (Forall (fun b => Forall (fun a => CutPrefix b a ∈ [None; Some ""]) knownActions)
    knownActions) as H.
  { apply (bool_decide_unpack _). vm_compute. exact I. }
  intros Ha Hb. rewrite Forall_forall in H.
  specialize (H _ Hb). rewrite Forall_forall in H. specialize (H _ Ha).
  rewrite CutPrefix_app in H. set_unfold in H. destruct H as [?|[[= ?]|[]]]; done.
Qed.
