(* ===== verification/Sha256.v ===== *)
(** * SHA-256 (crypto/sha256 and encoding/hex)

    The hash the names of rules and long label values are digested with, as FIPS
    180-4 defines it: 32-bit words are [Z] between 0 and 2^32, the message is
    padded to 64-byte blocks. Executable; checked on the standard's examples. *)

From S2P Require Import Prelude GoStrings.
#[local] Open Scope Z_scope.

Definition word (x : Z) : Z := x mod 2 ^ 32.
Definition add32 (a b : Z) : Z := word (a + b).
Definition rotr (n x : Z) : Z := Z.lor (Z.shiftr x n) (word (Z.shiftl x (32 - n))).
Definition not32 (x : Z) : Z := Z.lxor x 4294967295.

Definition Ch (x y z : Z) : Z := Z.lxor (Z.land x y) (Z.land (not32 x) z).
Definition Maj (x y z : Z) : Z := Z.lxor (Z.lxor (Z.land x y) (Z.land x z)) (Z.land y z).
Definition Sigma0 (x : Z) : Z := Z.lxor (Z.lxor (rotr 2 x) (rotr 13 x)) (rotr 22 x).
Definition Sigma1 (x : Z) : Z := Z.lxor (Z.lxor (rotr 6 x) (rotr 11 x)) (rotr 25 x).
Definition sigma0 (x : Z) : Z := Z.lxor (Z.lxor (rotr 7 x) (rotr 18 x)) (Z.shiftr x 3).
Definition sigma1 (x : Z) : Z := Z.lxor (Z.lxor (rotr 17 x) (rotr 19 x)) (Z.shiftr x 10).

Definition round_constants : list Z := [
  1116352408; 1899447441; 3049323471; 3921009573; 961987163; 1508970993; 2453635748; 2870763221;
  3624381080; 310598401; 607225278; 1426881987; 1925078388; 2162078206; 2614888103; 3248222580;
  3835390401; 4022224774; 264347078; 604807628; 770255983; 1249150122; 1555081692; 1996064986;
  2554220882; 2821834349; 2952996808; 3210313671; 3336571891; 3584528711; 113926993; 338241895;
  666307205; 773529912; 1294757372; 1396182291; 1695183700; 1986661051; 2177026350; 2456956037;
  2730485921; 2820302411; 3259730800; 3345764771; 3516065817; 3600352804; 4094571909; 275423344;
  430227734; 506948616; 659060556; 883997877; 958139571; 1322822218; 1537002063; 1747873779;
  1955562222; 2024104815; 2227730452; 2361852424; 2428436474; 2756734187; 3204031479; 3329325298].

Definition initial_hash : list Z := [
  1779033703; 3144134277; 1013904242; 2773480762; 1359893119; 2600822924; 528734635; 1541459225].

(** The message schedule, the most recent word first: 16 words grow to 64. *)
Definition nth_word (n : nat) (ws : list Z) : Z := default 0 (ws !! n).

Fixpoint schedule (n : nat) (ws : list Z) : list Z :=
  match n with
  | O => ws
  | S n' =>
      let w := add32 (add32 (sigma1 (nth_word 1 ws)) (nth_word 6 ws))
                     (add32 (sigma0 (nth_word 14 ws)) (nth_word 15 ws)) in
      schedule n' (w :: ws)
  end.

Definition step (h : list Z) (kw : Z * Z) : list Z :=
  match h with
  | [a; b; c; d; e; f; g; hh] =>
      let t1 := add32 (add32 (add32 hh (Sigma1 e)) (add32 (Ch e f g) kw.1)) kw.2 in
      let t2 := add32 (Sigma0 a) (Maj a b c) in
      [add32 t1 t2; a; b; c; add32 d t1; e; f; g]
  | _ => h
  end.

Definition compress (h block : list Z) : list Z :=
  let ws := rev (schedule 48 (rev block)) in
  zip_with add32 h (foldl step h (zip round_constants ws)).

(** Big-endian words of a list of bytes. *)
Fixpoint words (n : nat) (bs : list Z) : list Z :=
  match n with
  | O => []
  | S n' => match bs with
            | a :: b :: c :: d :: rest => (((a * 256 + b) * 256 + c) * 256 + d) :: words n' rest
            | _ => []
            end
  end.

(** The bytes of [x], [n] of them, big-endian. *)
Fixpoint be_bytes (n : nat) (x : Z) : list Z :=
  match n with
  | O => []
  | S n' => be_bytes n' (Z.shiftr x 8) ++ [x mod 256]
  end.

Definition pad (msg : list Z) : list Z :=
  let l := Z.of_nat (length msg) in
  msg ++ 128 :: replicate (Z.to_nat ((55 - l) mod 64)) 0 ++ be_bytes 8 (8 * l).

Fixpoint blocks (n : nat) (bs : list Z) : list (list Z) :=
  match n with
  | O => []
  | S n' => words 16 (take 64 bs) :: blocks n' (drop 64 bs)
  end.

Definition Sum256 (msg : list Z) : list Z :=
  let padded := pad msg in
  foldl compress initial_hash (blocks (Nat.div (length padded) 64) padded) ≫= be_bytes 4.

(** [encoding/hex]: two digits a byte. *)
Definition hex_digit (d : Z) : string :=
  default "0" (["0"; "1"; "2"; "3"; "4"; "5"; "6"; "7"; "8"; "9"; "a"; "b"; "c"; "d"; "e"; "f"] !! Z.to_nat d).

Fixpoint EncodeToString (bs : list Z) : string :=
  match bs with
  | [] => ""
  | b :: rest => (hex_digit (b / 16) +:+ hex_digit (b mod 16) +:+ EncodeToString rest)%stdpp
  end.

Definition string_bytes (s : string) : list Z := (fun c => Z.of_nat (byte_val c)) <$> bytes s.

Example sha256_empty :
  EncodeToString (Sum256 []) = "e3b0c44298fc1c149afbf4c8996fb92427ae41e4649b934ca495991b7852b855".
Proof. vm_compute. reflexivity. Qed.

Example sha256_abc :
  EncodeToString (Sum256 (string_bytes "abc")) =
  "ba7816bf8f01cfea414140de5dae2223b00361a396177a9cb410ff61f20015ad".
Proof. vm_compute. reflexivity. Qed.

Example sha256_two_blocks :
  EncodeToString (Sum256 (string_bytes "abcdbcdecdefdefgefghfghighijhijkijkljklmklmnlmnomnopnopq")) =
  "248d6a61d20638b8e5c026930c3e6039a33ce45964ff2167f6ecedd419db06c1".
Proof. vm_compute. reflexivity. Qed.

(** ** Lengths *)

Lemma length_step h kw : length h = 8%nat → length (step h kw) = 8%nat.
Proof.
  intros Hh. do 8 (destruct h as [|? h]; [done|]). by destruct h.
Qed.

Lemma length_compress h block : length h = 8%nat → length (compress h block) = 8%nat.
Proof.
  intros Hh. unfold compress. rewrite length_zip_with.
  assert (Hf : ∀ kws h', length h' = 8%nat → length (foldl step h' kws) = 8%nat).
  { induction kws as [|kw kws IH]; intros h' Hh'; simpl; [done|]. by apply IH, length_step. }
  rewrite Hf by done. lia.
Qed.

Lemma length_be_bytes n x : length (be_bytes n x) = n.
Proof. revert x. induction n as [|n IH]; intros x; simpl; [done|]. rewrite length_app, IH. simpl. lia. Qed.

Lemma length_Sum256 msg : length (Sum256 msg) = 32%nat.
Proof.
  unfold Sum256. cbv zeta.
  assert (Hf : ∀ bs h, length h = 8%nat → length (foldl compress h bs) = 8%nat).
  { induction bs as [|b bs IH]; intros h Hh; simpl; [done|]. by apply IH, length_compress. }
  specialize (Hf (blocks (Nat.div (length (pad msg)) 64) (pad msg)) initial_hash eq_refl).
  destruct (foldl compress initial_hash _) as [|a [|b [|c [|d [|e [|f [|g [|h [|]]]]]]]]]; try done.
Qed.

Lemma len_hex_digit d : len (hex_digit d) = 1%nat.
Proof.
  unfold hex_digit. set (ds := ["0"; "1"; "2"; "3"; "4"; "5"; "6"; "7"; "8"; "9"; "a"; "b"; "c"; "d"; "e"; "f"]).
  assert (Hf : Forall (fun s => len s = 1%nat) ds) by (repeat constructor).
  destruct (ds !! Z.to_nat d) as [s|] eqn:E; [|done]. rewrite Forall_lookup in Hf. by apply (Hf _ _ E).
Qed.

Lemma len_EncodeToString bs : len (EncodeToString bs) = (2 * length bs)%nat.
Proof.
  induction bs as [|b bs IH]; [done|]. cbn [EncodeToString]. rewrite !len_app, !len_hex_digit, IH. simpl. lia.
Qed.
