(* ===== verification/Decision.v ===== *)
(** * The decision table (internal/decision/decision.go)

    The table maps recommended actions to what the operator does. [Default] is
    the built-in one, [New] overrides it from configuration, [ParseOverrides]
    reads the overrides off a command line and [Decide] reduces a signal to one
    outcome. A Go map is a [gmap]; the errors are values of [table_error], which
    keep what the messages name. *)

From S2P Require Import Prelude GoStrings Signal.
Open Scope stdpp_scope.

Inductive decision : Type := Report | Restart | Replace.

#[export] Instance decision_eq_dec : EqDecision decision.
Proof. solve_decision. Defined.

Definition decision_string (d : decision) : string :=
  match d with Report => "Report" | Restart => "Restart" | Replace => "Replace" end.

Definition rank (d : decision) : nat :=
  match d with Report => 0 | Restart => 1 | Replace => 2 end.

Definition MoreDisruptiveThan (d o : decision) : bool := rank o <? rank d.

Lemma rank_inj d o : rank d = rank o → d = o.
Proof. by destruct d, o. Qed.

Inductive table_error : Type :=
| UnknownDecision (name : string)
| EmptyActionName
| BadOverride (action : string) (cause : table_error)
| NotAPair (p : string)
| ListedTwice (action : string).

#[export] Instance table_error_eq_dec : EqDecision table_error.
Proof. solve_decision. Defined.

Definition ParseDecision (name : string) : result table_error decision :=
  match filter (fun d => EqualFold name (decision_string d) = true) [Report; Restart; Replace] with
  | d :: _ => Ok d
  | [] => Err (UnknownDecision name)
  end.

Definition defaults : gmap string decision := list_to_map [
  (ActionReplaceVM, Replace);
  (ActionRestartVM, Restart);
  (ActionRestartBM, Restart);
  (ActionNone, Report);
  (ActionComponentReset, Report);
  (ActionContactSupport, Report);
  (ActionRunFieldDiag, Report);
  (ActionRunDCGMEUD, Report);
  (ActionCustom, Report);
  (ActionUnknown, Report)].

Record Table : Type := MkTable { entries : gmap string decision }.

(** Reading the map by range, in the order of [map_fold]. *)
Definition copyEntries (inp : gmap string decision) : gmap string decision :=
  map_fold (fun k v out => <[k := v]> out) ∅ inp.

Definition Default : Table := MkTable (copyEntries defaults).

(** The keys of a Go map, in the order [sort.Strings] gives them. *)
Definition sorted_keys {A} (m : gmap string A) : list string :=
  sort_by String.le (elements (dom m)).

Lemma elem_of_sorted_keys {A} (m : gmap string A) k : k ∈ sorted_keys m ↔ is_Some (m !! k).
Proof. unfold sorted_keys. by rewrite elem_of_sort_by, elem_of_elements, elem_of_dom. Qed.

(** The loop of [New]. *)
Fixpoint apply_overrides (overrides : gmap string string) (actions : list string)
    (t : gmap string decision) : result table_error (gmap string decision) :=
  match actions with
  | [] => Ok t
  | action :: rest =>
      let name := TrimSpace action in
      if decide (name = "") then Err EmptyActionName
      else match ParseDecision (default "" (overrides !! action)) with
           | Err e => Err (BadOverride name e)
           | Ok d => apply_overrides overrides rest (<[name := d]> t)
           end
  end.

Definition New (overrides : gmap string string) : result table_error Table :=
  MkTable <$> apply_overrides overrides (sorted_keys overrides) (entries Default).

(** The loop of [ParseOverrides]. *)
Fixpoint parse_pairs (pairs : list string) (out : gmap string string) :
    result table_error (gmap string string) :=
  match pairs with
  | [] => Ok out
  | p :: rest =>
      let p := TrimSpace p in
      if decide (p = "") then parse_pairs rest out
      else
        match Cut p "="%char with
        | None => Err (NotAPair p)
        | Some (action, name) =>
            let action := TrimSpace action in
            if decide (action = "") then Err (NotAPair p)
            else match out !! action with
                 | Some _ => Err (ListedTwice action)
                 | None => parse_pairs rest (<[action := TrimSpace name]> out)
                 end
        end
  end.

Definition ParseOverrides (s : string) : result table_error (gmap string string) :=
  parse_pairs (Split s ","%char) ∅.

Definition Entries (t : Table) : gmap string decision := copyEntries (entries t).

Definition CustomActions (t : Table) : list string :=
  sort_by String.le (filter (fun a => IsKnownAction a = false) (elements (dom (entries t)))).

Definition Lookup (t : Table) (action : string) : decision * bool :=
  match entries t !! action with Some d => (d, true) | None => (Report, false) end.

Record Outcome : Type := MkOutcome {
  out_Decision : decision;
  out_Action : string;
  out_Reason : string
}.

#[export] Instance outcome_eq_dec : EqDecision Outcome.
Proof. solve_decision. Defined.

(** The loop of [Decide]: the best action so far with its decision and whether
    the table has it; [None] is Go's [found = false]. *)
Fixpoint decide_loop (t : Table) (actions : list string) (best : option (decision * string * bool)) :
    option (decision * string * bool) :=
  match actions with
  | [] => best
  | action :: rest =>
      let '(d, known) := Lookup t action in
      let better :=
        match best with
        | None => true
        | Some (bd, _, bknown) =>
            MoreDisruptiveThan d bd || (known && negb bknown && bool_decide (d = bd))
        end in
      decide_loop t rest (if better then Some (d, action, known) else best)
  end.

Definition truncated_note : string :=
  "; the source dropped trailing events, so a more disruptive action may have been lost".

Definition Decide (t : Table) (s : Signal) : Outcome :=
  let best :=
    match decide_loop t (sig_Actions s) None with
    | None => MkOutcome Report "" "the signal carries no recommended action"
    | Some (d, a, true) => MkOutcome d a (a +:+ " maps to " +:+ decision_string d)
    | Some (d, a, false) => MkOutcome d a (a +:+ " is not in the decision table")
    end in
  if sig_Truncated s
  then MkOutcome (out_Decision best) (out_Action best) (out_Reason best +:+ truncated_note)
  else best.

(** ** Deciding a signal *)

(** A copy has the entries of the original. *)
Lemma copyEntries_id (inp : gmap string decision) : copyEntries inp = inp.
Proof.
  unfold copyEntries. apply (map_fold_weak_ind (fun out m => out = m)); [done|]. by intros k v m out _ ->.
Qed.

(** What the loop maximises: the rank of an action's decision, and among equal
    ranks an action the table lists before one it does not. *)
Definition score (t : Table) (a : string) : nat :=
  let '(d, known) := Lookup t a in 2 * rank d + (if known then 1 else 0).

Lemma better_iff_score d known bd bknown :
  MoreDisruptiveThan d bd || (known && negb bknown && bool_decide (d = bd)) = true ↔
  2 * rank bd + (if bknown : bool then 1 else 0) < 2 * rank d + (if known : bool then 1 else 0).
Proof.
  unfold MoreDisruptiveThan. destruct d, bd, known, bknown; vm_compute; split; intros; try done; lia.
Qed.

Definition best_of (t : Table) (actions : list string) (d : decision) (a : string) (known : bool) : Prop :=
  ∃ l1 l2, actions = l1 ++ a :: l2 ∧ Lookup t a = (d, known) ∧
    Forall (fun b => score t b < score t a) l1 ∧ Forall (fun b => score t b ≤ score t a) l2.

Lemma decide_loop_best t done rest d a known :
  best_of t done d a known →
  ∃ d' a' known', decide_loop t rest (Some (d, a, known)) = Some (d', a', known') ∧
    best_of t (done ++ rest) d' a' known'.
Proof.
  revert done d a known.
  induction rest as [|x rest IH]; intros done d a known Hb; simpl.
  { rewrite app_nil_r. eauto 10. }
  rewrite (assoc_L (++) done [x] rest : done ++ x :: rest = (done ++ [x]) ++ rest).
  destruct Hb as (l1 & l2 & -> & HL & H1 & H2).
  destruct (Lookup t x) as [dx kx] eqn:HLx.
  assert (Hsx : score t x = 2 * rank dx + (if kx then 1 else 0)) by (unfold score; by rewrite HLx).
  assert (Hsa : score t a = 2 * rank d + (if known then 1 else 0)) by (unfold score; by rewrite HL).
  destruct (MoreDisruptiveThan _ _ || _) eqn:Hbetter; apply IH.
  - apply better_iff_score in Hbetter. exists (l1 ++ a :: l2), []. split_and!; [done|done| |done].
    rewrite Forall_app, Forall_cons. split_and!.
    + eapply Forall_impl; [exact H1|]. simpl. lia.
    + lia.
    + eapply Forall_impl; [exact H2|]. simpl. lia.
  - exists l1, (l2 ++ [x]). rewrite <- (assoc_L (++)). split_and!; [done|done|done|].
    rewrite Forall_app. split; [done|]. constructor; [|done].
    destruct (decide (score t a < score t x)) as [Hlt|]; [|lia].
    rewrite Hsx, Hsa in Hlt. apply better_iff_score in Hlt. congruence.
Qed.

(** C23: the outcome of a signal is decided by its first action of the highest
    score: no action of the signal has a more disruptive decision, the action
    named has the decision taken, and it comes before every other of that
    score. A signal without actions is reported. *)
Theorem decide_takes_first_best (t : Table) (s : Signal) :
  (sig_Actions s = [] ∧ out_Decision (Decide t s) = Report ∧ out_Action (Decide t s) = "") ∨
  ∃ l1 l2, sig_Actions s = l1 ++ out_Action (Decide t s) :: l2 ∧
    out_Decision (Decide t s) = (Lookup t (out_Action (Decide t s))).1 ∧
    Forall (fun b => score t b < score t (out_Action (Decide t s))) l1 ∧
    Forall (fun b => score t b ≤ score t (out_Action (Decide t s))) l2.
Proof.
  unfold Decide. destruct (sig_Actions s) as [|x rest] eqn:Ha.
  { left. simpl. by destruct (sig_Truncated s). }
  right. simpl. destruct (Lookup t x) as [dx kx] eqn:HLx.
  destruct (decide_loop_best t [x] rest dx x kx) as (d & a & k & -> & l1 & l2 & Heq & HL & H1 & H2).
  { exists [], []. by rewrite HLx. }
  exists l1, l2. simpl in Heq.
  destruct (sig_Truncated s), k; simpl; rewrite HL; done.
Qed.

Lemma lookup_unknown_report t a d : Lookup t a = (d, false) → d = Report.
Proof. unfold Lookup. destruct (entries t !! a); naive_solver. Qed.

(** C40: an action the table does not list is named only when the table lists no
    action of the signal: a listed action wins over an unlisted one that comes
    before it, although both are reported. (The comment on Decide says the first
    action listed is named among equals.) *)
Theorem unlisted_named_only_when_all_unlisted (t : Table) (s : Signal) (a : string)
    (Hne : sig_Actions s ≠ []) (Hunlisted : entries t !! out_Action (Decide t s) = None) :
  a ∈ sig_Actions s → entries t !! a = None.
Proof.
  unfold Decide in *. destruct (sig_Actions s) as [|x rest]; [done|]. simpl in *.
  destruct (Lookup t x) as [dx kx] eqn:HLx.
  destruct (decide_loop_best t [x] rest dx x kx) as (d & b & k & HD & l1 & l2 & Heq & HL & H1 & H2).
  { exists [], []. by rewrite HLx. }
  rewrite HD in Hunlisted. simpl in Heq. rewrite Heq.
  assert (entries t !! b = None) as Hb by (by destruct (sig_Truncated s), k).
  assert (score t b = 0) as Hs by (unfold score, Lookup; by rewrite Hb).
  assert (∀ c, score t c ≤ 0 → entries t !! c = None) as Hz.
  { intros c. unfold score, Lookup. destruct (entries t !! c); [lia|done]. }
  rewrite Hs in H1, H2. rewrite elem_of_app, elem_of_cons. rewrite Forall_forall in H1, H2.
  intros [Ha|[->|Ha]]; [|done|by apply Hz, H2]. apply H1 in Ha. lia.
Qed.

Definition unlisted_signal : Signal :=
  MkSignal OriginNodeCondition "n" "c" "" ["reset-fabric"; "reset-rack"] [] [] false "".

Lemma unlisted_named_only_when_all_unlisted_witness :
  entries Default !! "reset-rack" = None.
Proof.
  apply (unlisted_named_only_when_all_unlisted Default unlisted_signal "reset-rack").
  - discriminate.
  - vm_compute. reflexivity.
  - apply (bool_decide_unpack _). vm_compute. exact I.
Defined.

(** A listed action named although an unlisted one of the same decision is first. *)
Example named_action_is_not_the_first :
  out_Action (Decide Default
    (MkSignal OriginNodeCondition "n" "c" "" ["reset-fabric"; ActionNone] [] [] false "")) = "NONE".
Proof. reflexivity. Qed.

(** Dropped events never change what is decided: the outcome of a truncated
    signal is that of the same signal untruncated, with the loss noted in the
    reason. *)
Lemma truncation_never_escalates (t : Table) (o : Origin) (n c i : string)
    (acts codes uuids : list string) (r : string) :
  let full := Decide t (MkSignal o n c i acts codes uuids false r) in
  Decide t (MkSignal o n c i acts codes uuids true r) =
    MkOutcome (out_Decision full) (out_Action full) (out_Reason full +:+ truncated_note).
Proof. done. Qed.

(** ** Building the table *)

Lemma apply_overrides_ok ov ks t t' :
  apply_overrides ov ks t = Ok t' →
  Forall (fun k => TrimSpace k ≠ "" ∧ is_ok (ParseDecision (default "" (ov !! k))) = true) ks.
Proof.
  revert t. induction ks as [|k ks IH]; intros t; simpl; [by constructor|].
  case_decide as Hk; [done|]. destruct (ParseDecision _) as [d|e] eqn:E; [|done].
  intros H. constructor; [by rewrite E|eauto].
Qed.

Lemma apply_overrides_is_ok ov ks t :
  Forall (fun k => TrimSpace k ≠ "" ∧ is_ok (ParseDecision (default "" (ov !! k))) = true) ks →
  is_ok (apply_overrides ov ks t) = true.
Proof.
  intros Hks. revert t. induction Hks as [|k ks [Hk Hd] _ IH]; intros t; simpl; [done|].
  rewrite decide_False by done. destruct (ParseDecision _); [apply IH|done].
Qed.

Lemma apply_overrides_other ov ks t t' a :
  apply_overrides ov ks t = Ok t' → (∀ k, k ∈ ks → TrimSpace k ≠ a) → t' !! a = t !! a.
Proof.
  revert t. induction ks as [|k ks IH]; intros t; simpl; [by intros [= ->]|].
  case_decide; [done|]. destruct (ParseDecision _) as [d|e]; [|done].
  intros Ht Hk. rewrite (IH _ Ht) by set_solver. apply lookup_insert_ne. set_solver.
Qed.

Lemma apply_overrides_set ov ks t t' k :
  apply_overrides ov ks t = Ok t' → k ∈ ks → NoDup (TrimSpace <$> ks) →
  ∃ d, ParseDecision (default "" (ov !! k)) = Ok d ∧ t' !! TrimSpace k = Some d.
Proof.
  revert t. induction ks as [|k' ks IH]; intros t; simpl; [by intros _ Hk%not_elem_of_nil|].
  case_decide; [done|]. destruct (ParseDecision (default _ (ov !! k'))) as [d|e] eqn:E; [|done].
  intros Ht Hin [Hnin Hnd]%NoDup_cons. apply elem_of_cons in Hin as [->|Hin]; [|by eapply IH].
  exists d. split; [done|]. rewrite (apply_overrides_other _ _ _ _ _ Ht).
  - apply lookup_insert_eq.
  - intros k Hk Heq. apply Hnin. rewrite <- Heq. by apply list_elem_of_fmap_2.
Qed.

Lemma sorted_keys_Forall {A} (m : gmap string A) (P : string → Prop) :
  Forall P (sorted_keys m) ↔ ∀ k, is_Some (m !! k) → P k.
Proof. rewrite Forall_forall. by setoid_rewrite elem_of_sorted_keys. Qed.

(** The table is built exactly when every override names an action and a
    decision. *)
Lemma new_accepts_iff_overrides_valid (ov : gmap string string) :
  is_ok (New ov) = true ↔
  ∀ k v, ov !! k = Some v → TrimSpace k ≠ "" ∧ is_ok (ParseDecision v) = true.
Proof.
  trans (Forall (fun k => TrimSpace k ≠ "" ∧ is_ok (ParseDecision (default "" (ov !! k))) = true)
    (sorted_keys ov)).
  - unfold New. split.
    + destruct (apply_overrides _ _ _) as [t|] eqn:E; [|done]. intros _.
      by eapply apply_overrides_ok.
    + intros H. pose proof (apply_overrides_is_ok ov _ (entries Default) H) as Hok.
      by destruct (apply_overrides _ _ _).
  - rewrite sorted_keys_Forall. split.
    + intros H k v Hk. specialize (H k). rewrite Hk in H. eauto.
    + intros H k [v Hk]. rewrite Hk. simpl. by eapply H.
Qed.

(** An override sets the decision of its action and of no other: where the
    override names differ up to surrounding space, a table built from overrides
    holds each override's decision under the trimmed name, and the built-in
    decision of every action no override names. *)
Lemma new_overrides_entry_by_entry (ov : gmap string string) (t : Table)
    (Hinj : ∀ k1 k2, is_Some (ov !! k1) → is_Some (ov !! k2) → TrimSpace k1 = TrimSpace k2 → k1 = k2)
    (HN : New ov = Ok t) :
  (∀ k v, ov !! k = Some v → ∃ d, ParseDecision v = Ok d ∧ Lookup t (TrimSpace k) = (d, true)) ∧
  (∀ a, (∀ k, is_Some (ov !! k) → TrimSpace k ≠ a) → Lookup t a = Lookup Default a).
Proof.
  unfold New in HN. destruct (apply_overrides _ _ _) as [m|] eqn:E; [|done].
  injection HN as <-. split.
  - intros k v Hk. destruct (apply_overrides_set _ _ _ _ k E) as (d & Hd & Hm).
    + apply elem_of_sorted_keys. by eexists.
    + apply NoDup_fmap_2_strong; [|apply NoDup_sort_by, NoDup_elements].
      intros k1 k2 H1 H2. apply Hinj; by apply elem_of_sorted_keys.
    + rewrite Hk in Hd. exists d. split; [done|]. unfold Lookup. simpl. by rewrite Hm.
  - intros a Ha. unfold Lookup. simpl. rewrite (apply_overrides_other _ _ _ _ a E); [done|].
    intros k Hk. by apply Ha, elem_of_sorted_keys.
Qed.

(** Decision names are read case-insensitively and returned in canonical
    form: on ASCII input a name is accepted exactly when it is a decision's
    name up to case, and then that decision is returned. *)
Lemma parse_decision_case_insensitive (name : string) (d : decision)
    (Hascii : all_bytes (fun c => byte_val c <? 128) name = true) :
  ParseDecision name = Ok d ↔ map_bytes ascii_lower name = map_bytes ascii_lower (decision_string d).
Proof.
  unfold ParseDecision.
  assert (Hf : ∀ e, EqualFold name (decision_string e) = true ↔
      map_bytes ascii_lower name = map_bytes ascii_lower (decision_string e))
    by (intros e; by apply EqualFold_ascii).
  rewrite !filter_cons, filter_nil. split.
  - repeat case_decide; intros [= <-]; by apply Hf.
  - intros Hd. assert (Hn : ∀ e, e ≠ d → EqualFold name (decision_string e) ≠ true)
      by (intros e He; rewrite Hf, Hd; destruct d, e; [done|vm_compute; congruence..]).
    destruct d; repeat (rewrite decide_False by (by apply Hn));
      rewrite decide_True by (by apply Hf); done.
Qed.

(** ** The command line form *)

(** One entry as it is written on a command line, and what makes it readable. *)
Definition render_pair (p : string * string) : string := p.1 +:+ "=" +:+ p.2.

Definition clean_text (s : string) : Prop :=
  TrimSpace s = s ∧ has_byte ","%char s = false ∧ has_byte "="%char s = false.

Definition clean_entry (p : string * string) : Prop :=
  clean_text p.1 ∧ clean_text p.2 ∧ p.1 ≠ "" ∧ TrimSpace (render_pair p) = render_pair p.

Lemma parse_pairs_render l out :
  Forall clean_entry l → NoDup l.*1 → (∀ k, k ∈ l.*1 → out !! k = None) →
  parse_pairs (render_pair <$> l) out = Ok (list_to_map l ∪ out).
Proof.
  intros Hc. revert out. induction Hc as [|[a n] l Hp Hl IH]; intros out Hnd Hout; simpl.
  { by rewrite (left_id_L ∅ (∪)). }
  destruct Hp as ((Ha & _ & Hae) & (Hn & _ & _) & Hne & Ht). simpl in *.
  apply NoDup_cons in Hnd as [Hnin Hnd]. rewrite Ht.
  rewrite decide_False by (unfold render_pair; destruct a; [done|discriminate]).
  unfold render_pair at 1. simpl. change "=" with (byte_str "="%char).
  rewrite Cut_app by done. rewrite Ha, Hn, decide_False by done.
  rewrite (Hout a) by set_solver. rewrite IH; [|done|].
  - f_equal. rewrite <- insert_union_l, <- insert_union_r; [done|].
    by apply not_elem_of_list_to_map_1.
  - intros k Hk. rewrite lookup_insert_ne by set_solver. apply Hout. set_solver.
Qed.

(** Reading back what was written: a command line of ACTION=decision pairs,
    with no space around or separator inside a part and no action twice, parses
    to exactly those entries. *)
Lemma parse_overrides_roundtrip (l : list (string * string))
    (Hne : l ≠ []) (Hclean : Forall clean_entry l) (Hnd : NoDup l.*1) :
  ParseOverrides (Join (render_pair <$> l) ",") = Ok (list_to_map l).
Proof.
  unfold ParseOverrides. change "," with (byte_str ","%char). rewrite Split_Join.
  - rewrite parse_pairs_render by (try done; intros; apply lookup_empty).
    by rewrite (right_id_L ∅ (∪)).
  - by destruct l.
  - rewrite Forall_fmap. eapply Forall_impl; [exact Hclean|].
    intros [a n] ((_ & Ha & _) & (_ & Hn & _) & _). simpl in *. unfold render_pair. simpl.
    by rewrite !has_byte_app, Ha, Hn.
Qed.

Lemma parse_pairs_app l1 l2 out :
  parse_pairs (l1 ++ l2) out = out' ← parse_pairs l1 out; parse_pairs l2 out'.
Proof.
  revert out. induction l1 as [|p l1 IH]; intros out; simpl; [done|].
  case_decide; [done|]. destruct (Cut _ _) as [[a n]|]; [|done].
  case_decide; [done|]. by destruct (out !! _).
Qed.

(** An action listed twice is rejected, whatever the second entry's decision
    and whatever follows it, since which decision was meant cannot be told. *)
Lemma parse_overrides_rejects_repeats (l : list (string * string)) (a n : string) (rest : list string)
    (Hclean : Forall clean_entry l) (Hnd : NoDup l.*1) (Hin : a ∈ l.*1) (Hce : clean_entry (a, n))
    (Hrest : Forall (fun w => has_byte ","%char w = false) rest) :
  ParseOverrides (Join ((render_pair <$> l) ++ render_pair (a, n) :: rest) ",") = Err (ListedTwice a).
Proof.
  assert (Hsep : ∀ p, clean_entry p → has_byte ","%char (render_pair p) = false).
  { intros [b m] ((_ & Hb & _) & (_ & Hm & _) & _). simpl in *. unfold render_pair. simpl.
    by rewrite !has_byte_app, Hb, Hm. }
  unfold ParseOverrides. change "," with (byte_str ","%char). rewrite Split_Join.
  - rewrite parse_pairs_app, parse_pairs_render by (try done; intros; apply lookup_empty).
    rewrite (right_id_L ∅ (∪)). simpl. destruct Hce as ((Ha & Hb & Hc) & _ & Hne & Ht).
    simpl in *. rewrite Ht. rewrite decide_False by (unfold render_pair; destruct a; [done|discriminate]).
    unfold render_pair. simpl. change "=" with (byte_str "="%char).
    rewrite Cut_app by done. rewrite Ha, decide_False by done.
    apply list_elem_of_fmap in Hin as ([b v] & -> & Hin).
    by rewrite (elem_of_list_to_map_1 _ _ _ Hnd Hin).
  - by destruct (render_pair <$> l).
  - rewrite Forall_app, Forall_cons, Forall_fmap. split_and!; [|by apply Hsep|done].
    eapply Forall_impl; [exact Hclean|exact Hsep].
Qed.

(** ** From the command line to the table *)

(** The parts of a list of pairs that are not blank, and the entry one of them is. *)
Definition listed_pairs (pairs : list string) : list string :=
  filter (fun p => p ≠ "") (TrimSpace <$> pairs).

Definition pair_of (p : string) : option (string * string) :=
  '(action, name) ← Cut p "="%char;
  if decide (TrimSpace action = "") then None else Some (TrimSpace action, TrimSpace name).

Definition entries_of (s : string) : option (list (string * string)) :=
  mapM pair_of (listed_pairs (Split s ","%char)).

Lemma pair_of_clean p a n : pair_of p = Some (a, n) → TrimSpace a = a ∧ a ≠ "".
Proof.
  unfold pair_of. destruct (Cut p _) as [[a' n']|]; [|done]. simpl. case_decide; [done|].
  intros [= <- <-]. by rewrite TrimSpace_idem.
Qed.

Lemma parse_pairs_cons p rest out :
  parse_pairs (p :: rest) out =
    if decide (TrimSpace p = "") then parse_pairs rest out
    else match pair_of (TrimSpace p) with
         | None => Err (NotAPair (TrimSpace p))
         | Some (a, n) => match out !! a with
                          | Some _ => Err (ListedTwice a)
                          | None => parse_pairs rest (<[a := n]> out)
                          end
         end.
Proof.
  simpl. case_decide; [done|]. unfold pair_of. destruct (Cut _ _) as [[a n]|]; simpl; [|done].
  by case_decide.
Qed.

Lemma parse_pairs_spec pairs out :
  match parse_pairs pairs out with
  | Ok out' => ∃ l, mapM pair_of (listed_pairs pairs) = Some l ∧ NoDup l.*1 ∧
      (∀ k, k ∈ l.*1 → out !! k = None) ∧ out' = list_to_map l ∪ out
  | Err _ => ∀ l, mapM pair_of (listed_pairs pairs) = Some l →
      ¬ (NoDup l.*1 ∧ ∀ k, k ∈ l.*1 → out !! k = None)
  end.
Proof.
  unfold listed_pairs. revert out. induction pairs as [|p pairs IH]; intros out.
  { exists []. split_and!; [done|apply NoDup_nil_2|set_solver|simpl; by rewrite (left_id_L ∅ (∪))]. }
  rewrite parse_pairs_cons, fmap_cons, filter_cons.
  case_decide as Hp; [rewrite decide_False by tauto; apply IH|].
  rewrite decide_True by done. cbn [mapM]. destruct (pair_of (TrimSpace p)) as [[a n]|]; [|by intros l].
  simpl. destruct (out !! a) as [v|] eqn:Eo.
  { intros l (l' & _ & [= <-])%bind_Some [_ Hout]. rewrite (Hout a) in Eo by (simpl; set_solver). done. }
  specialize (IH (<[a := n]> out)). destruct (parse_pairs pairs _) as [out'|e].
  - destruct IH as (l & Hl & Hnd & Hout & ->). exists ((a, n) :: l).
    assert (Hnin : a ∉ l.*1) by (intros Hin%Hout; by rewrite lookup_insert_eq in Hin).
    split_and!; [by apply bind_Some; eauto|by constructor| |].
    + intros k [->|Hk]%elem_of_cons; [done|]. by apply Hout, lookup_insert_None in Hk as [? _].
    + simpl. rewrite <- insert_union_l, insert_union_r; [done|]. by apply not_elem_of_list_to_map_1.
  - intros l (l' & Hl & [= <-])%bind_Some [Hnd Hout]. apply NoDup_cons in Hnd as [Hnin Hnd].
    apply (IH l' Hl). split; [done|]. intros k Hk. simpl in Hnin. rewrite lookup_insert_ne by set_solver.
    apply Hout. simpl. set_solver.
Qed.

Lemma mapM_pair_of_clean pairs l :
  mapM pair_of pairs = Some l → ∀ a, a ∈ l.*1 → TrimSpace a = a ∧ a ≠ "".
Proof.
  intros Hl%mapM_Some_1 a ([a' n] & -> & Hin)%list_elem_of_fmap.
  apply list_elem_of_lookup in Hin as [i Hi]. destruct (Forall2_lookup_r _ _ _ _ _ Hl Hi) as (p & _ & Hp).
  by eapply pair_of_clean.
Qed.

(** C36: what --decisions does to the table, exactly: a text of ACTION=decision pairs is
    accepted when every part that is not blank is a pair of an action and a decision and
    no action occurs twice, space around a part, an action or a decision aside; the table
    then maps every action listed to its decision and every other action as the built-in
    table does. *)
Theorem decisions_flag_exactly (s : string) :
  match ParseOverrides s ≫= New with
  | Ok t => ∃ l, entries_of s = Some l ∧ NoDup l.*1 ∧
      (∀ a n, (a, n) ∈ l → ∃ d, ParseDecision n = Ok d ∧ Lookup t a = (d, true)) ∧
      (∀ a, a ∉ l.*1 → Lookup t a = Lookup Default a)
  | Err _ => ∀ l, entries_of s = Some l → ¬ (NoDup l.*1 ∧ ∀ a n, (a, n) ∈ l → is_ok (ParseDecision n) = true)
  end.
Proof.
  unfold entries_of, ParseOverrides. pose proof (parse_pairs_spec (Split s ","%char) ∅) as Hp.
  destruct (parse_pairs _ ∅) as [ov|e]; simpl; [|intros l Hl [Hnd _]; by apply (Hp l Hl)].
  destruct Hp as (l & Hl & Hnd & _ & ->). rewrite Hl. pose proof (mapM_pair_of_clean _ _ Hl) as Hclean. rewrite (right_id_L ∅ (∪)).
  assert (Hlook : ∀ a n, (list_to_map l : gmap _ _) !! a = Some n ↔ (a, n) ∈ l)
    by (intros; symmetry; by apply elem_of_list_to_map).
  assert (Hkey : ∀ a n, (a, n) ∈ l → a ∈ l.*1) by (intros a n Hin; by apply (list_elem_of_fmap_2 fst) in Hin).
  destruct (New (list_to_map l)) as [t|e] eqn:E.
  - exists l. destruct (λ Hinj, new_overrides_entry_by_entry _ t Hinj E) as [H1 H2].
    { intros k1 k2 [n1 H1%Hlook%Hkey%Hclean] [n2 H2%Hlook%Hkey%Hclean]. intuition congruence. }
    split_and!; [done|done| |].
    + intros a n Hin. destruct (Hclean a (Hkey _ _ Hin)) as [<- _]. by apply H1, Hlook.
    + intros a Ha. apply H2. intros k [n Hk%Hlook] <-. apply Ha.
      destruct (Hclean k (Hkey _ _ Hk)) as [-> _]. by eapply Hkey.
  - intros l' [= <-] [_ Hv]. assert (is_ok (New (list_to_map l)) = true) as HN; [|by rewrite E in HN].
    apply new_accepts_iff_overrides_valid. intros k v Hk%Hlook. split; [|by eapply Hv].
    destruct (Hclean k (Hkey _ _ Hk)) as [-> ?]. done.
Qed.
