(* ===== verification/Kube.v ===== *)
(** * The Kubernetes and Cluster API surface the operator uses

    Data: the fields of the API objects the source reads or writes, as records;
    unstructured objects as JSON values; errors as values that keep what the
    source asks of them. Interfaces: [KubeLib] stands for the helper functions
    and constants of apimachinery and Cluster API, [API] for the API servers,
    the cluster cache and the clock, [KubeLaws] for the documented
    behaviour of them that theorems rely on. Stateful code runs in [state Sys]:
    the world behind the API, the trace of the writes and Events the operator
    issued, and the memory of the reconciler that runs. *)

From S2P Require Import Prelude GoStrings.
Open Scope stdpp_scope.

(** ** Object keys and errors *)

Record ObjectKey : Type := MkKey { key_Namespace : string; key_Name : string }.

#[export] Instance object_key_eq_dec : EqDecision ObjectKey.
Proof. solve_decision. Defined.
#[export] Instance object_key_countable : Countable ObjectKey :=
  inj_countable' (fun k => (key_Namespace k, key_Name k)) (fun p => MkKey p.1 p.2)
    ltac:(by intros []).

(** [client.ObjectKey.String]. *)
Definition key_string (k : ObjectKey) : string := key_Namespace k +:+ "/" +:+ key_Name k.

Inductive api_reason : Type := NotFound | AlreadyExists | Conflict | Forbidden | OtherReason.

(** Go errors: an API status error, the cluster cache's ErrClusterNotConnected,
    a quarantine.Rejection, a plain error, and one wrapped by fmt.Errorf with
    %w. *)
Inductive error : Type :=
| EApi (reason : api_reason) (message : string)
| ENotConnected
| ERejection (reason message : string)
| ENew (message : string)
| EWrap (prefix : string) (inner : error).

#[export] Instance api_reason_eq_dec : EqDecision api_reason.
Proof. solve_decision. Defined.
#[export] Instance error_eq_dec : EqDecision error.
Proof. solve_decision. Defined.

(** [Rejection.Error]. *)
Definition Rejection_Error (reason message : string) : string := reason +:+ ": " +:+ message.

(** [err.Error()]. *)
Fixpoint error_string (e : error) : string :=
  match e with
  | EApi _ m => m
  | ENotConnected => "connection to the workload cluster is down"
  | ERejection r m => Rejection_Error r m
  | ENew m => m
  | EWrap p e => p +:+ ": " +:+ error_string e
  end.

Fixpoint error_root (e : error) : error :=
  match e with EWrap _ e => error_root e | _ => e end.

(** [apierrors.IsNotFound], [IsConflict], [IsForbidden], [IsAlreadyExists]: they
    look through wrapped errors. *)
Definition has_reason (r : api_reason) (e : error) : bool :=
  match error_root e with EApi r' _ => bool_decide (r' = r) | _ => false end.
Definition IsNotFound := has_reason NotFound.
Definition IsConflict := has_reason Conflict.
Definition IsForbidden := has_reason Forbidden.
Definition IsAlreadyExists := has_reason AlreadyExists.

(** [errors.Is(err, clustercache.ErrClusterNotConnected)]. *)
Definition IsNotConnected (e : error) : bool :=
  match error_root e with ENotConnected => true | _ => false end.

(** [client.IgnoreNotFound]. *)
Definition IgnoreNotFound (e : error) : option error := if IsNotFound e then None else Some e.

Lemma has_reason_wrap r p e : has_reason r (EWrap p e) = has_reason r e.
Proof. done. Qed.

(** ** JSON values: what an unstructured object holds *)

(** A float64 by its value: [m * 2^e], an infinity or NaN. *)
Inductive float64 : Type :=
| FFinite (m e : Z)
| FInf (negative : bool)
| FNaN.

Inductive value : Type :=
| VNil
| VBool (b : bool)
| VInt (n : Z)
| VFloat (f : float64)
| VString (s : string)
| VList (l : list value)
| VMap (m : list (string * value)).

Abbreviation gomap := (list (string * value)).

(** [m[k]] for a map[string]any; [None] is the absent key. *)
Fixpoint field (m : gomap) (k : string) : option value :=
  match m with
  | [] => None
  | (k', v) :: m' => if decide (k' = k) then Some v else field m' k
  end.

(** The value at a path of fields through nested maps. *)
Fixpoint nested_field (m : gomap) (path : list string) : option value :=
  match path with
  | [] => Some (VMap m)
  | [k] => field m k
  | k :: path' => match field m k with Some (VMap m') => nested_field m' path' | _ => None end
  end.

(** A map of strings as a JSON object. *)
Definition string_fields (kvs : list (string * string)) : gomap := (fun p => (p.1, VString p.2)) <$> kvs.

(** The type assertions [v.(map[string]any)], [v.([]any)] and [v.(string)] with
    the failure dropped: the zero value of the type. *)
Definition as_map (v : option value) : gomap := match v with Some (VMap m) => m | _ => [] end.
Definition as_list (v : option value) : list value := match v with Some (VList l) => l | _ => [] end.
Definition as_string (v : option value) : string := match v with Some (VString s) => s | _ => "" end.

(** [m[k] == s] for a string [s]: an interface equals a string when it holds it. *)
Definition field_is (m : gomap) (k s : string) : bool :=
  match field m k with Some (VString s') => bool_decide (s' = s) | _ => false end.

(** An unstructured object: the metadata the source reads through accessors, and
    the content. *)
Record Unstructured : Type := MkUnstructured {
  u_Namespace : string;
  u_Name : string;
  u_UID : string;
  u_Generation : Z;
  u_DeletionTimestamp : option Z;
  u_Labels : gmap string string;
  u_Annotations : gmap string string;
  u_Object : gomap
}.

Definition set_object (u : Unstructured) (o : gomap) : Unstructured :=
  MkUnstructured (u_Namespace u) (u_Name u) (u_UID u) (u_Generation u) (u_DeletionTimestamp u)
    (u_Labels u) (u_Annotations u) o.

(** ** Cluster API and core objects *)

Record ContractRef : Type := MkRef { ref_APIGroup : string; ref_Kind : string; ref_Name : string }.

Record Cluster : Type := MkCluster {
  cl_Namespace : string;
  cl_Name : string;
  cl_Labels : gmap string string;
  cl_Annotations : gmap string string;
  cl_Deleting : bool;
  cl_SpecPaused : bool;
  cl_InfrastructureRef : ContractRef
}.

(** A status condition of the metav1 type. *)
Record Condition : Type := MkCondition { c_Type : string; c_Status : string; c_Reason : string }.

Record OwnerReference : Type := MkOwner {
  or_APIVersion : string;
  or_Kind : string;
  or_Controller : bool
}.

Record Machine : Type := MkMachine {
  m_Namespace : string;
  m_Name : string;
  m_UID : string;
  m_ResourceVersion : string;
  m_Deleting : bool;                       (* a deletion timestamp is set *)
  m_Labels : gmap string string;
  m_Annotations : gmap string string;      (* a nil map is the empty one *)
  m_OwnerReferences : list OwnerReference;
  m_ClusterName : string;
  m_InfrastructureRef : ContractRef;
  m_NodeRef : string;
  m_Conditions : list Condition
}.

#[export] Instance ref_eq_dec : EqDecision ContractRef.
Proof. solve_decision. Defined.
#[export] Instance condition_eq_dec : EqDecision Condition.
Proof. solve_decision. Defined.
#[export] Instance owner_eq_dec : EqDecision OwnerReference.
Proof. solve_decision. Defined.
#[export] Instance machine_eq_dec : EqDecision Machine.
Proof. solve_decision. Defined.
#[export] Instance cluster_eq_dec : EqDecision Cluster.
Proof. solve_decision. Defined.

Definition set_annotations (m : Machine) (a : gmap string string) : Machine :=
  MkMachine (m_Namespace m) (m_Name m) (m_UID m) (m_ResourceVersion m) (m_Deleting m)
    (m_Labels m) a (m_OwnerReferences m) (m_ClusterName m) (m_InfrastructureRef m)
    (m_NodeRef m) (m_Conditions m).

Definition machine_key (m : Machine) : ObjectKey := MkKey (m_Namespace m) (m_Name m).
Definition cluster_key (c : Cluster) : ObjectKey := MkKey (cl_Namespace c) (cl_Name c).

(** metav1.LabelSelector. *)
Record LabelRequirement : Type := MkRequirement {
  lr_Key : string;
  lr_Operator : string;
  lr_Values : list string
}.
Record LabelSelector : Type := MkSelector {
  ls_MatchLabels : gmap string string;
  ls_MatchExpressions : list LabelRequirement
}.

(** The remediation template reference of a MachineHealthCheck. *)
Record TemplateRef : Type := MkTemplateRef { tr_Kind : string; tr_Name : string }.

#[export] Instance template_ref_eq_dec : EqDecision TemplateRef.
Proof. solve_decision. Defined.

Record MachineHealthCheck : Type := MkMHC {
  mhc_Namespace : string;
  mhc_Name : string;
  mhc_Annotations : gmap string string;
  mhc_ClusterName : string;
  mhc_Selector : LabelSelector;
  mhc_TemplateRef : option TemplateRef     (* IsDefined *)
}.

Record NodeCondition : Type := MkNodeCondition {
  nc_Type : string;
  nc_Status : string;
  nc_Message : string
}.

Record Node : Type := MkNode {
  n_Name : string;
  n_BootID : string;
  n_Conditions : list NodeCondition
}.

(** ** Library functions and constants *)

Class KubeLib : Type := {
  (* sigs.k8s.io/cluster-api/api/core/v1beta2 *)
  RemediateMachineAnnotation : string;
  PausedAnnotation : string;
  MachineSkipRemediationAnnotation : string;
  MachineControlPlaneLabel : string;
  ClusterNameLabel : string;
  MachineHealthCheckSucceededCondition : string;
  MachineHealthCheckHasRemediateAnnotationReason : string;
  ClusterAPIGroup : string;
  InfrastructureGroup : string;
  (* sigs.k8s.io/cluster-api/util/annotations *)
  annotations_IsPaused : Cluster → bool;
  annotations_HasPaused : gmap string string → bool;
  (* k8s.io/apimachinery *)
  FindStatusCondition : list Condition → string → option Condition;
  CloneSelectorAndAddLabel : LabelSelector → string → string → LabelSelector;
  LabelSelectorAsSelector : LabelSelector → option (gmap string string → bool);
  GetControllerOf : list OwnerReference → option OwnerReference;
  ParseGroup : string → option string;     (* the group of ParseGroupVersion, None on error *)
  LabelValueMaxLength : nat;
  NestedFieldNoCopy : gomap → list string → option value;
  NestedString : gomap → list string → result error string;
  NestedMap : gomap → list string → option gomap;
  NestedStringSlice : gomap → list string → list string;
  NestedStringMap : gomap → list string → gmap string string;
  NestedSlice : gomap → list string → list value;
  SetNestedSlice : gomap → list value → list string → gomap;
  (* k8s.io/client-go/util/retry *)
  RetryOnConflict : ∀ {S : Type}, state S (option error) → state S (option error);
  (* %q of package fmt, and time.Time.Format(time.RFC3339) in UTC *)
  Quote : string → string;
  FormatRFC3339 : Z → string
}.

(** [errors.As] for a quarantine.Rejection. *)
Definition as_rejection (e : error) : option (string * string) :=
  match error_root e with ERejection reason message => Some (reason, message) | _ => None end.

(** [RetryOnConflict] with [n] attempts left: the function runs again as long as
    it returns a conflict, and the last error is returned. *)
Fixpoint retry_times {S : Type} (n : nat) (f : state S (option error)) : state S (option error) :=
  match n with
  | 0 | 1 => f
  | Datatypes.S n' =>
      r ← f;
      match r with
      | Some e => if IsConflict e then retry_times n' f else mret r
      | None => mret None
      end
  end.

(** Documented behaviour of the library that theorems rely on. *)
Class KubeLaws `{KubeLib} : Prop := {
  (* the annotations of Cluster API are distinct and not this operator's *)
  capi_annotations_distinct :
    NoDup [RemediateMachineAnnotation; PausedAnnotation; MachineSkipRemediationAnnotation];
  capi_annotations_foreign k :
    k ∈ [RemediateMachineAnnotation; PausedAnnotation; MachineSkipRemediationAnnotation] →
    HasPrefix k "nvsentinel.petasus.io/" = false;
  (* a path of two fields is looked up through a map *)
  nested_field_two (m : gomap) a b :
    NestedFieldNoCopy m [a; b] = match field m a with Some (VMap m') => field m' b | _ => None end;
  nested_slice_field (m : gomap) p : NestedSlice m p = as_list (NestedFieldNoCopy m p);
  (* a slice is set where the path's parent is a map *)
  set_nested_slice_two (m m' : gomap) l a b :
    field m a = Some (VMap m') → NestedFieldNoCopy (SetNestedSlice m l [a; b]) [a; b] = Some (VList l);
  nested_string_field (m : gomap) p s : nested_field m p = Some (VString s) → NestedString m p = Ok s;
  nested_string_map_field (m : gomap) p kvs :
    NoDup kvs.*1 → nested_field m p = Some (VMap (string_fields kvs)) →
    NestedStringMap m p = list_to_map kvs;
  (* a conflict is retried a fixed number of times *)
  retry_on_conflict_bounded :
    ∃ n, ∀ (S : Type) (f : state S (option error)), RetryOnConflict f = retry_times (Datatypes.S n) f
}.

(** Setting a slice in a map of the object changes nothing but that slice. *)
Class SetNestedSliceLaws `{KubeLib} : Prop :=
  set_nested_slice_sets (m m' : gomap) l a b : field m a = Some (VMap m') →
    ∃ m'', field (SetNestedSlice m l [a; b]) a = Some (VMap m'') ∧ field m'' b = Some (VList l) ∧
      (∀ k, k ≠ b → field m'' k = field m' k) ∧
      ∀ k, k ≠ a → field (SetNestedSlice m l [a; b]) k = field m k.

(** A string that is not there is read as an empty one. *)
Class NestedStringLaws `{KubeLib} : Prop :=
  nested_string_missing (m : gomap) p : nested_field m p = None → NestedString m p = Ok "".

(** ** The world and the effects of the operator on it *)

Inductive EventType : Type := EventNormal | EventWarning.

Inductive ObjectRef : Type := RefMachine (k : ObjectKey) | RefCluster (k : ObjectKey).

(** The writes and Events the operator issues, in order. A write is recorded
    when it is sent, whether or not the API server accepts it. *)
Inductive Effect : Type :=
| PatchMachine (base updated : Machine) (lock : bool)
| DeleteMachine (m : Machine) (uid resourceVersion : string)
| PatchRequestStatus (cluster : ObjectKey) (base updated : Unstructured)
| CreateRule (version : string) (rule : Unstructured)
| RecordEvent (object : ObjectRef) (type : EventType) (reason action note : string).

(** The outcome of a RESTMapper lookup, as meta.IsNoMatchError tells it apart. *)
Inductive mapping : Type := Mapped | NoMatch | MappingFailed (e : error).

Record GroupVersionKind : Type := MkGVK { gvk_Group : string; gvk_Version : string; gvk_Kind : string }.

(** What the operator calls: every call may find the world changed by others. *)
Class API (W : Type) : Type := {
  (* the management cluster *)
  GetCluster : ObjectKey → state W (result error Cluster);
  GetMachine : ObjectKey → state W (result error Machine);
  ListMachines : string → gmap string string → state W (result error (list Machine));
  ListMachineHealthChecks : string → state W (result error (list MachineHealthCheck));
  SendPatchMachine : Machine → Machine → bool → state W (result error Machine);
  SendDeleteMachine : Machine → string → string → state W (result error unit);
  (* the workload cluster of a Cluster, through the cluster cache *)
  GetClient : ObjectKey → state W (result error unit);
  GetUncachedClient : ObjectKey → state W (result error unit);
  WatchRequests : ObjectKey → state W (result error unit);
  WorkloadMapping : ObjectKey → GroupVersionKind → state W mapping;
  ListNodes : ObjectKey → state W (result error (list Node));
  ListRequests : ObjectKey → state W (result error (list Unstructured));
  GetRequest : ObjectKey → string → state W (result error Unstructured);
  SendPatchRequestStatus : ObjectKey → Unstructured → Unstructured → state W (result error unit);
  (* the clock, in nanoseconds *)
  Now : state W Z
}.

(** An event an informer delivers about an object: what it held before, when the object
    was updated, and what it holds. *)
Inductive watch_event (O : Type) : Type :=
| CreateEvent (o : O)
| UpdateEvent (old new : O)
| DeleteEvent (o : O)
| GenericEvent (o : O).
Arguments CreateEvent {O} o.
Arguments UpdateEvent {O} old new.
Arguments DeleteEvent {O} o.
Arguments GenericEvent {O} o.

Definition event_object {O} (e : watch_event O) : O :=
  match e with CreateEvent o | UpdateEvent _ o | DeleteEvent o | GenericEvent o => o end.

(** A pod, as far as its claims go: the names of the claims its spec and its
    status list, [None] for a nil name. *)
Record Pod : Type := MkPod {
  pod_UID : string;
  pod_Phase : string;
  pod_SpecClaims : list (option string);
  pod_StatusClaims : list (option string)
}.

(** A device a ResourceClaim was allocated. *)
Record AllocationResult : Type := MkResult {
  res_Driver : string;
  res_Pool : string;
  res_Device : string;
  res_AdminAccess : option bool
}.

(** What the quarantine of devices calls, besides [API]: DeviceTaintRules in a
    version, objects of the provider and of KubeVirt in the version the cluster
    prefers, the pods of a namespace by labels, and the allocation of a claim. *)
Class InfraAPI (W : Type) : Type := {
  RuleMapping : string → state W mapping;
  SendCreateRule : string → Unstructured → state W (result error unit);
  GetRule : string → string → state W (result error Unstructured);
  ListRules : string → gmap string string → state W (result error (list Unstructured));
  ProviderMapping : string → string → state W mapping;
  GetProviderObject : string → string → ObjectKey → state W (result error Unstructured);
  ListPods : string → gmap string string → state W (result error (list Pod));
  GetResourceClaim : ObjectKey → state W (result error (option (list AllocationResult)))
}.

Record Sys (W R : Type) : Type := MkSys {
  world : W;
  trace : list Effect;
  memory : R
}.
Arguments MkSys {W R} world trace memory.
Arguments world {W R} s.
Arguments trace {W R} s.
Arguments memory {W R} s.

Section sys.
Context {W R : Type}.

(** A call to the API. *)
Definition call {A} (c : state W A) : state (Sys W R) A :=
  fun s => let '(a, w) := c (world s) in (a, MkSys w (trace s) (memory s)).

(** Issuing a write or an Event. *)
Definition emit (e : Effect) : state (Sys W R) unit :=
  fun s => (tt, MkSys (world s) (trace s ++ [e]) (memory s)).

Definition get_memory : state (Sys W R) R := fun s => (memory s, s).
Definition put_memory (r : R) : state (Sys W R) unit :=
  fun s => (tt, MkSys (world s) (trace s) r).

(** [spec P c Q]: the effects [c] issues all satisfy [P], and its result
    satisfies [Q], whatever the world does. *)
Definition spec {A} (P : Effect → Prop) (c : state (Sys W R) A) (Q : A → Prop) : Prop :=
  ∀ s, Q (c s).1 ∧ ∃ l, trace (c s).2 = trace s ++ l ∧ Forall P l.

Implicit Types (P : Effect → Prop).

Lemma spec_ret {A} P (a : A) (Q : A → Prop) : Q a → spec P (mret a) Q.
Proof. intros HQ s. split; [done|]. exists []. by rewrite app_nil_r. Qed.

Lemma spec_bind {A B} P (c : state (Sys W R) A) (k : A → state (Sys W R) B)
    (Q : A → Prop) (Q' : B → Prop) :
  spec P c Q → (∀ a, Q a → spec P (k a) Q') → spec P (c ≫= k) Q'.
Proof.
  intros Hc Hk s. unfold mbind, state_bind. destruct (Hc s) as [HQ (l1 & Ht1 & Hl1)].
  destruct (c s) as [a s']. simpl in *. destruct (Hk a HQ s') as [HQ' (l2 & Ht2 & Hl2)].
  split; [done|]. exists (l1 ++ l2). rewrite Ht2, Ht1, (assoc_L (++)). split; [done|].
  by apply Forall_app.
Qed.

Lemma spec_weaken {A} P P' (c : state (Sys W R) A) (Q Q' : A → Prop) :
  spec P c Q → (∀ e, P e → P' e) → (∀ a, Q a → Q' a) → spec P' c Q'.
Proof.
  intros Hc HP HQ s. destruct (Hc s) as [Ha (l & Ht & Hl)]. split; [auto|].
  exists l. split; [done|]. eapply Forall_impl; eauto.
Qed.

Lemma spec_call {A} P (c : state W A) : spec P (call c) (fun _ => True).
Proof.
  intros s. split; [done|]. exists []. unfold call.
  destruct (c (world s)) as [a w]. simpl. by rewrite app_nil_r.
Qed.

Lemma spec_emit P e : P e → spec P (emit e) (fun _ => True).
Proof. intros He s. split; [done|]. exists [e]. split; [done|by constructor]. Qed.

Lemma spec_get_memory P : spec P get_memory (fun _ => True).
Proof. intros s. split; [done|]. exists []. by rewrite app_nil_r. Qed.

Lemma spec_put_memory P r : spec P (put_memory r) (fun _ => True).
Proof. intros s. split; [done|]. exists []. simpl. by rewrite app_nil_r. Qed.

(** [runs c Q]: whatever the world does, the result of [c] and the effects it
    issues, in order, satisfy [Q]. *)
Definition runs {A} (c : state (Sys W R) A) (Q : A → list Effect → Prop) : Prop :=
  ∀ s, ∃ l, trace (c s).2 = trace s ++ l ∧ Q (c s).1 l.

Lemma runs_ret {A} (a : A) (Q : A → list Effect → Prop) : Q a [] → runs (mret a) Q.
Proof. intros HQ s. exists []. by rewrite app_nil_r. Qed.

Lemma runs_bind {A B} (c : state (Sys W R) A) (k : A → state (Sys W R) B)
    (Q : A → list Effect → Prop) (Q' : B → list Effect → Prop) :
  runs c Q → (∀ a l, Q a l → runs (k a) (fun b l' => Q' b (l ++ l'))) → runs (c ≫= k) Q'.
Proof.
  intros Hc Hk s. unfold mbind, state_bind. destruct (Hc s) as (l1 & Ht1 & HQ).
  destruct (c s) as [a s']. simpl in *. destruct (Hk a l1 HQ s') as (l2 & Ht2 & HQ').
  exists (l1 ++ l2). by rewrite Ht2, Ht1, (assoc_L (++)).
Qed.

Lemma runs_weaken {A} (c : state (Sys W R) A) (Q Q' : A → list Effect → Prop) :
  runs c Q → (∀ a l, Q a l → Q' a l) → runs c Q'.
Proof. intros Hc HQ s. destruct (Hc s) as (l & Ht & Hl). eauto. Qed.

Lemma runs_call {A} (c : state W A) : runs (call c) (fun _ l => l = []).
Proof. intros s. exists []. unfold call. destruct (c (world s)). simpl. by rewrite app_nil_r. Qed.

Lemma runs_emit e : runs (emit e) (fun _ l => l = [e]).
Proof. intros s. by exists [e]. Qed.

Lemma runs_get_memory : runs get_memory (fun _ l => l = []).
Proof. intros s. exists []. by rewrite app_nil_r. Qed.

Lemma runs_put_memory r : runs (put_memory r) (fun _ l => l = []).
Proof. intros s. exists []. simpl. by rewrite app_nil_r. Qed.

Lemma spec_runs {A} P (c : state (Sys W R) A) Q :
  spec P c Q ↔ runs c (fun a l => Q a ∧ Forall P l).
Proof.
  unfold spec, runs. split; intros Hc s; destruct (Hc s) as [? ?]; naive_solver.
Qed.

(** [yields c Q]: the result of [c] satisfies [Q], whatever the world does. *)
Definition yields {A} (c : state (Sys W R) A) (Q : A → Prop) : Prop := ∀ s, Q (c s).1.

Lemma yields_ret {A} (a : A) (Q : A → Prop) : Q a → yields (mret a) Q.
Proof. by intros HQ s. Qed.

Lemma yields_bind {A B} (c : state (Sys W R) A) (k : A → state (Sys W R) B) (Q : B → Prop) :
  (∀ a, yields (k a) Q) → yields (c ≫= k) Q.
Proof. intros Hk s. unfold mbind, state_bind. destruct (c s) as [a s']. apply Hk. Qed.

(** [hoare Pre c Q]: from a world that satisfies [Pre], the result of [c], the
    effects it issues and the world it leaves satisfy [Q]. *)
Definition hoare {A} (Pre : W → Prop) (c : state (Sys W R) A) (Q : A → list Effect → W → Prop) : Prop :=
  ∀ s, Pre (world s) → ∃ l, trace (c s).2 = trace s ++ l ∧ Q (c s).1 l (world (c s).2).

Lemma hoare_ret {A} Pre (a : A) (Q : A → list Effect → W → Prop) :
  (∀ w, Pre w → Q a [] w) → hoare Pre (mret a) Q.
Proof. intros HQ s Hs. exists []. rewrite app_nil_r. split; [done|]. by apply HQ. Qed.

Lemma hoare_bind {A B} Pre (c : state (Sys W R) A) (k : A → state (Sys W R) B)
    (Q : A → list Effect → W → Prop) (Q' : B → list Effect → W → Prop) :
  hoare Pre c Q → (∀ a l, hoare (Q a l) (k a) (fun b l' w => Q' b (l ++ l') w)) → hoare Pre (c ≫= k) Q'.
Proof.
  intros Hc Hk s Hs. unfold mbind, state_bind. destruct (Hc s Hs) as (l1 & Ht1 & HQ).
  destruct (c s) as [a s']. simpl in *. destruct (Hk a l1 s' HQ) as (l2 & Ht2 & HQ').
  exists (l1 ++ l2). by rewrite Ht2, Ht1, (assoc_L (++)).
Qed.

Lemma hoare_weaken {A} (Pre Pre' : W → Prop) (c : state (Sys W R) A) (Q Q' : A → list Effect → W → Prop) :
  hoare Pre c Q → (∀ w, Pre' w → Pre w) → (∀ a l w, Q a l w → Q' a l w) → hoare Pre' c Q'.
Proof. intros Hc HP HQ s Hs. destruct (Hc s (HP _ Hs)) as (l & Ht & Hl). eauto. Qed.

Lemma hoare_call {A} Pre (c : state W A) (Q : A → list Effect → W → Prop) :
  (∀ w, Pre w → Q (c w).1 [] (c w).2) → hoare Pre (call c) Q.
Proof.
  intros HQ s Hs. exists []. unfold call. specialize (HQ _ Hs). destruct (c (world s)). simpl in *.
  by rewrite app_nil_r.
Qed.

Lemma hoare_emit Pre e (Q : unit → list Effect → W → Prop) :
  (∀ w, Pre w → Q tt [e] w) → hoare Pre (emit e) Q.
Proof. intros HQ s Hs. exists [e]. split; [done|]. by apply HQ. Qed.
End sys.

#[export] Hint Resolve spec_call spec_get_memory spec_put_memory : remediator.
#[export] Hint Extern 1 (spec _ (mret _) _) => (apply spec_ret; done) : remediator.
#[export] Hint Extern 2 (spec _ (emit _) _) => (apply spec_emit; solve [auto]) : remediator.

(** Straight-line code: reads, answers and writes of the memory. *)
Ltac spec_steps :=
  repeat (eapply spec_bind; [solve [auto with remediator]|intros ? _]);
  try solve [auto with remediator].

(** The same with case analyses, where only the effects matter. *)
Ltac spec_walk :=
  repeat first
    [ solve [auto with remediator]
    | lazymatch goal with
      | |- spec _ (bind_ok _ _) _ => unfold bind_ok at 1
      | |- spec _ (mbind _ _) _ => eapply (spec_bind _ _ _ (fun _ => True)); [|intros ? _]
      | |- spec _ (match ?x with _ => _ end) _ => destruct x
      end ].
