(* ===== verification/KubeModel.v ===== *)
(** * A concrete library and a concrete world, for the witnesses

    [lib] instantiates the parameters of [KubeLib] with the documented values
    and behaviour, on the inputs the witnesses use, and satisfies [KubeLaws]. *)

From S2P Require Import Prelude GoStrings Kube.
Open Scope stdpp_scope.

Definition nested_string (m : gomap) (path : list string) : result error string :=
  match nested_field m path with
  | None => Ok ""
  | Some (VString s) => Ok s
  | Some _ => Err (ENew "accessor error: not a string")
  end.

Definition nested_string_slice (m : gomap) (path : list string) : list string :=
  let l := as_list (nested_field m path) in
  if forallb (fun v => match v with VString _ => true | _ => false end) l
  then (fun v => as_string (Some v)) <$> l else [].

Definition nested_string_map (m : gomap) (path : list string) : gmap string string :=
  let l := as_map (nested_field m path) in
  if forallb (fun p : string * value => match p.2 with VString _ => true | _ => false end) l
  then list_to_map ((fun p => (p.1, as_string (Some p.2))) <$> l) else ∅.

Fixpoint set_field (m : gomap) (k : string) (v : value) : gomap :=
  match m with
  | [] => [(k, v)]
  | (k', v') :: m' => if decide (k' = k) then (k, v) :: m' else (k', v') :: set_field m' k v
  end.

Definition set_nested_slice (m : gomap) (l : list value) (path : list string) : gomap :=
  match path with
  | [a] => set_field m a (VList l)
  | [a; b] => set_field m a (VMap (set_field (as_map (field m a)) b (VList l)))
  | _ => m
  end.

Lemma field_set_field m k v : field (set_field m k v) k = Some v.
Proof.
  induction m as [|[k' v'] m IH]; simpl; [by rewrite decide_True|].
  case_decide; simpl; [by rewrite decide_True|by rewrite decide_False].
Qed.

Lemma field_set_field_ne m k k' v : k' ≠ k → field (set_field m k v) k' = field m k'.
Proof.
  intros Hk. induction m as [|[k1 v1] m IH]; simpl; [by rewrite decide_False|].
  case_decide; simpl; subst; [by rewrite !decide_False|]. case_decide; [done|exact IH].
Qed.

Definition selector_matches (s : LabelSelector) (ls : gmap string string) : bool :=
  bool_decide (ls_MatchLabels s ⊆ ls).

Definition lib : KubeLib := {|
  RemediateMachineAnnotation := "cluster.x-k8s.io/remediate-machine";
  PausedAnnotation := "cluster.x-k8s.io/paused";
  MachineSkipRemediationAnnotation := "cluster.x-k8s.io/skip-remediation";
  MachineControlPlaneLabel := "cluster.x-k8s.io/control-plane";
  ClusterNameLabel := "cluster.x-k8s.io/cluster-name";
  MachineHealthCheckSucceededCondition := "HealthCheckSucceeded";
  MachineHealthCheckHasRemediateAnnotationReason := "HasRemediateAnnotation";
  ClusterAPIGroup := "cluster.x-k8s.io";
  InfrastructureGroup := "infrastructure.cluster.x-k8s.io";
  annotations_IsPaused := fun c =>
    cl_SpecPaused c || bool_decide (is_Some (cl_Annotations c !! "cluster.x-k8s.io/paused"));
  annotations_HasPaused := fun a => bool_decide (is_Some (a !! "cluster.x-k8s.io/paused"));
  FindStatusCondition := fun cs t => head (filter (fun c => c_Type c = t) cs);
  CloneSelectorAndAddLabel := fun s k v =>
    MkSelector (<[k := v]> (ls_MatchLabels s)) (ls_MatchExpressions s);
  LabelSelectorAsSelector := fun s =>
    match ls_MatchExpressions s with [] => Some (selector_matches s) | _ => None end;
  GetControllerOf := fun rs => head (filter (fun r => or_Controller r = true) rs);
  ParseGroup := fun v => match Cut v "/"%char with
                         | Some (g, v') => if has_byte "/"%char v' then None else Some g
                         | None => Some "" end;
  LabelValueMaxLength := 63;
  NestedFieldNoCopy := nested_field;
  NestedString := nested_string;
  NestedMap := fun m p => match nested_field m p with Some (VMap m') => Some m' | _ => None end;
  NestedStringSlice := nested_string_slice;
  NestedStringMap := nested_string_map;
  NestedSlice := fun m p => as_list (nested_field m p);
  SetNestedSlice := set_nested_slice;
  RetryOnConflict := fun S f => retry_times 4 f;
  Quote := fun s => s;
  FormatRFC3339 := fun n => "1970-01-01T00:00:00Z"
|}.

Lemma lib_laws : @KubeLaws lib.
Proof.
  constructor.
  - apply (bool_decide_unpack _). vm_compute. exact I.
  - intros k Hk. simpl in Hk. set_unfold in Hk. destruct Hk as [->|[->|[->|[]]]]; reflexivity.
  - done.
  - done.
  - intros m m' l a b Hm. simpl. unfold set_nested_slice. rewrite field_set_field. simpl.
    by rewrite field_set_field.
  - intros m p s H. simpl. unfold nested_string. by rewrite H.
  - intros m p kvs _ H. simpl. unfold nested_string_map. rewrite H. simpl.
    assert (Hs : forallb (fun p : string * value => match p.2 with VString _ => true | _ => false end)
      (string_fields kvs) = true) by (clear; induction kvs as [|[] kvs IH]; [done|exact IH]).
    rewrite Hs. f_equal. unfold string_fields. rewrite <- list_fmap_compose.
    rewrite <- (list_fmap_id kvs) at 2. apply list_fmap_ext. by intros ? [].
  - by exists 3.
Qed.

Lemma lib_string_laws : @NestedStringLaws lib.
Proof. intros m p Hm. simpl. unfold nested_string. by rewrite Hm. Qed.

Lemma lib_slice_laws : @SetNestedSliceLaws lib.
Proof.
  intros m m' l a b Hm. simpl. unfold set_nested_slice. rewrite Hm. simpl.
  exists (set_field m' b (VList l)). split_and!; [apply field_set_field..| |];
    intros k Hk; by apply field_set_field_ne.
Qed.
