(* ===== verification/WorldModel.v ===== *)
(** * A concrete world, for the witnesses

    One management cluster with one Cluster behind it: the API servers answer from
    these fields, writes succeed and are visible at once, the clock stands still.
    [api] instantiates [API]. *)

From S2P Require Import Prelude GoStrings Kube KubeModel.
Open Scope stdpp_scope.

Record World : Type := MkWorld {
  w_cluster : option Cluster;
  w_machines : list Machine;
  w_checks : list MachineHealthCheck;
  w_connected : bool;
  w_kinds : list string;               (* the kinds the workload cluster serves *)
  w_nodes : list Node;
  w_requests : list Unstructured;
  w_now : Z;
  w_rules : gmap string Unstructured;  (* by name *)
  w_objects : list (string * Unstructured);  (* provider objects, with their kind *)
  w_pods : list Pod;
  w_claims : list (ObjectKey * list AllocationResult)
}.

Definition set_machines (w : World) (ms : list Machine) : World :=
  MkWorld (w_cluster w) ms (w_checks w) (w_connected w) (w_kinds w) (w_nodes w) (w_requests w) (w_now w)
    (w_rules w) (w_objects w) (w_pods w) (w_claims w).
Definition set_requests (w : World) (rs : list Unstructured) : World :=
  MkWorld (w_cluster w) (w_machines w) (w_checks w) (w_connected w) (w_kinds w) (w_nodes w) rs (w_now w)
    (w_rules w) (w_objects w) (w_pods w) (w_claims w).
Definition set_rules (w : World) (rules : gmap string Unstructured) : World :=
  MkWorld (w_cluster w) (w_machines w) (w_checks w) (w_connected w) (w_kinds w) (w_nodes w) (w_requests w)
    (w_now w) rules (w_objects w) (w_pods w) (w_claims w).

Definition not_found : error := EApi NotFound "not found".

Definition find_or_not_found {A} (P : A → bool) (l : list A) : result error A :=
  match filter (fun a => P a = true) l with a :: _ => Ok a | [] => Err not_found end.

Lemma find_or_not_found_Ok {A} (P : A → bool) l a : find_or_not_found P l = Ok a → P a = true.
Proof.
  unfold find_or_not_found. destruct (filter _ l) as [|a' l'] eqn:E; [done|]. intros [= ->].
  assert (Ha : a ∈ filter (fun a => P a = true) l) by (rewrite E; by left).
  by apply list_elem_of_filter in Ha as [? _].
Qed.

Definition connected {A} (w : World) (a : A) : result error A :=
  if w_connected w then Ok a else Err ENotConnected.

Definition api : API World := {|
  GetCluster := fun k w =>
    (match w_cluster w with
     | Some c => if decide (cluster_key c = k) then Ok c else Err not_found
     | None => Err not_found
     end, w);
  GetMachine := fun k w => (find_or_not_found (fun m => bool_decide (machine_key m = k)) (w_machines w), w);
  ListMachines := fun ns ls w =>
    (Ok (filter (fun m => m_Namespace m = ns ∧ ls ⊆ m_Labels m) (w_machines w)), w);
  ListMachineHealthChecks := fun ns w => (Ok (filter (fun c => mhc_Namespace c = ns) (w_checks w)), w);
  SendPatchMachine := fun base updated _ w =>
    (Ok updated, set_machines w ((fun m => if decide (machine_key m = machine_key base) then updated else m)
                                   <$> w_machines w));
  SendDeleteMachine := fun m _ _ w =>
    (Ok tt, set_machines w (filter (fun m' => machine_key m' ≠ machine_key m) (w_machines w)));
  GetClient := fun _ w => (connected w tt, w);
  GetUncachedClient := fun _ w => (connected w tt, w);
  WatchRequests := fun _ w => (connected w tt, w);
  WorkloadMapping := fun _ gvk w => (if decide (gvk_Kind gvk ∈ w_kinds w) then Mapped else NoMatch, w);
  ListNodes := fun _ w => (connected w (w_nodes w), w);
  ListRequests := fun _ w => (connected w (w_requests w), w);
  GetRequest := fun _ name w => (find_or_not_found (fun u => bool_decide (u_Name u = name)) (w_requests w), w);
  SendPatchRequestStatus := fun _ base updated w =>
    (Ok tt, set_requests w ((fun u => if decide (u_Name u = u_Name base) then updated else u) <$> w_requests w));
  Now := fun w => (w_now w, w)
|}.

(** The cluster serves DeviceTaintRule in v1. A rule is listed under its own name. *)
Definition infra : InfraAPI World := {|
  RuleMapping := fun version w => (if decide (version = "v1") then Mapped else NoMatch, w);
  SendCreateRule := fun _ rule w =>
    match w_rules w !! u_Name rule with
    | Some _ => (Err (EApi AlreadyExists "already exists"), w)
    | None => (Ok tt, set_rules w (<[u_Name rule := rule]> (w_rules w)))
    end;
  GetRule := fun _ name w =>
    (match w_rules w !! name with Some rule => Ok rule | None => Err not_found end, w);
  ListRules := fun _ ls w =>
    (Ok (omap (fun p => if decide (u_Name p.2 = p.1 ∧ ls ⊆ u_Labels p.2) then Some p.2 else None)
           (map_to_list (w_rules w))), w);
  ProviderMapping := fun _ _ w => (Mapped, w);
  GetProviderObject := fun _ kind k w =>
    (snd <$> find_or_not_found (fun p : string * Unstructured =>
       bool_decide (p.1 = kind) && bool_decide (MkKey (u_Namespace p.2) (u_Name p.2) = k)) (w_objects w), w);
  ListPods := fun _ _ w => (Ok (w_pods w), w);
  GetResourceClaim := fun k w =>
    (match filter (fun p => p.1 = k) (w_claims w) with
     | p :: _ => Ok (Some p.2)
     | [] => Err not_found
     end, w)
|}.
