(* ===== verification/Calls.v ===== *)
(** * What calls may do

    Code reaches the world only through the calls of [API] and [InfraAPI]. [api_call] and
    [infra_call] enumerate them, so that a law about every call is stated once, and
    [keeps] is the logic of what holds before and after whatever code runs: a property
    of the system that each call and each effect keeps. *)

From S2P Require Import Prelude GoStrings Kube.
Open Scope stdpp_scope.

Inductive api_call {W : Type} `{API W} : ∀ {A : Type}, state W A → Prop :=
| calls_GetCluster k : api_call (GetCluster k)
| calls_GetMachine k : api_call (GetMachine k)
| calls_ListMachines ns ls : api_call (ListMachines ns ls)
| calls_ListMachineHealthChecks ns : api_call (ListMachineHealthChecks ns)
| calls_SendPatchMachine base updated lock : api_call (SendPatchMachine base updated lock)
| calls_SendDeleteMachine m uid rv : api_call (SendDeleteMachine m uid rv)
| calls_GetClient k : api_call (GetClient k)
| calls_GetUncachedClient k : api_call (GetUncachedClient k)
| calls_WatchRequests k : api_call (WatchRequests k)
| calls_WorkloadMapping k gvk : api_call (WorkloadMapping k gvk)
| calls_ListNodes k : api_call (ListNodes k)
| calls_ListRequests k : api_call (ListRequests k)
| calls_GetRequest k name : api_call (GetRequest k name)
| calls_SendPatchRequestStatus k base updated : api_call (SendPatchRequestStatus k base updated)
| calls_Now : api_call Now.

Inductive infra_call {W : Type} `{InfraAPI W} : ∀ {A : Type}, state W A → Prop :=
| calls_RuleMapping v : infra_call (RuleMapping v)
| calls_SendCreateRule v rule : infra_call (SendCreateRule v rule)
| calls_GetRule v name : infra_call (GetRule v name)
| calls_ListRules v ls : infra_call (ListRules v ls)
| calls_ProviderMapping g k : infra_call (ProviderMapping g k)
| calls_GetProviderObject g k key : infra_call (GetProviderObject g k key)
| calls_ListPods ns ls : infra_call (ListPods ns ls)
| calls_GetResourceClaim key : infra_call (GetResourceClaim key).

(** The calls that write nothing. *)
Inductive api_read {W : Type} `{API W} : ∀ {A : Type}, state W A → Prop :=
| reads_GetCluster k : api_read (GetCluster k)
| reads_GetMachine k : api_read (GetMachine k)
| reads_ListMachines ns ls : api_read (ListMachines ns ls)
| reads_ListMachineHealthChecks ns : api_read (ListMachineHealthChecks ns)
| reads_GetClient k : api_read (GetClient k)
| reads_GetUncachedClient k : api_read (GetUncachedClient k)
| reads_WatchRequests k : api_read (WatchRequests k)
| reads_WorkloadMapping k gvk : api_read (WorkloadMapping k gvk)
| reads_ListNodes k : api_read (ListNodes k)
| reads_ListRequests k : api_read (ListRequests k)
| reads_GetRequest k name : api_read (GetRequest k name)
| reads_Now : api_read Now.

(** All calls but those that answer requests. *)
Inductive api_other {W : Type} `{API W} : ∀ {A : Type}, state W A → Prop :=
| others_read {A} (c : state W A) : api_read c → api_other c
| others_SendPatchMachine base updated lock : api_other (SendPatchMachine base updated lock)
| others_SendDeleteMachine m uid rv : api_other (SendDeleteMachine m uid rv).

Lemma other_calls {W : Type} `{API W} {A} (c : state W A) : api_other c → api_call c.
Proof. destruct 1 as [A c []| |]; constructor. Qed.

(** A property of the world that every call keeps. *)
Definition stable {W : Type} (J : W → Prop) (calls : ∀ A, state W A → Prop) : Prop :=
  ∀ A (c : state W A) w, calls A c → J w → J (c w).2.

Create HintDb keeps.
#[export] Hint Constructors api_call api_read api_other infra_call : keeps.

Section keeps.
Context {W R : Type}.

(** [keeps J c]: [c] keeps [J] of the system. *)
Definition keeps {A} (J : Sys W R → Prop) (c : state (Sys W R) A) : Prop := ∀ s, J s → J (c s).2.

Implicit Types (J : Sys W R → Prop).

Lemma keeps_ret {A} J (a : A) : keeps J (mret a).
Proof. by intros s. Qed.

Lemma keeps_bind {A B} J (c : state (Sys W R) A) (k : A → state (Sys W R) B) :
  keeps J c → (∀ a, keeps J (k a)) → keeps J (c ≫= k).
Proof.
  intros Hc Hk s Hs. unfold mbind, state_bind. specialize (Hc s Hs). destruct (c s) as [a s']. by apply Hk.
Qed.

Lemma keeps_bind_ok {A B} J (c : state (Sys W R) (result error A)) (k : A → state (Sys W R) (result error B)) :
  keeps J c → (∀ a, keeps J (k a)) → keeps J (bind_ok c k).
Proof. intros Hc Hk. apply keeps_bind; [done|]. intros [a|e]; [apply Hk|apply keeps_ret]. Qed.

Lemma keeps_and {A} J J' (c : state (Sys W R) A) : keeps J c → keeps J' c → keeps (fun s => J s ∧ J' s) c.
Proof. intros H1 H2 s [Hs Hs']. split; [by apply H1|by apply H2]. Qed.

Lemma keeps_get_memory J : keeps J get_memory.
Proof. by intros s. Qed.

(** The rules for the property of a given system: the calls it is reached by and the
    effects it sends are the caller's hypotheses. *)
Class Kept `{API W} J : Prop := {
  kept_call A (c : state W A) : api_call c → keeps J (call c);
  kept_emit e : keeps J (emit e)
}.

(** The same but for the answering of requests. *)
Class KeptOther `{API W} J : Prop := {
  other_call A (c : state W A) : api_other c → keeps J (call c);
  other_emit e : keeps J (emit e)
}.

#[export] Instance kept_other `{API W} J : Kept J → KeptOther J.
Proof. intros HJ. constructor; [|apply kept_emit]. intros A c Hc. by apply kept_call, other_calls. Qed.

Class KeptInfra `{InfraAPI W} J : Prop := {
  kept_infra A (c : state W A) : infra_call c → keeps J (call c)
}.
End keeps.

#[export] Hint Resolve keeps_ret keeps_get_memory : keeps.
#[export] Hint Extern 2 (keeps _ (call _)) => (apply kept_call; constructor) : keeps.
#[export] Hint Extern 2 (keeps _ (call _)) => (apply other_call; solve [repeat constructor]) : keeps.
#[export] Hint Extern 2 (keeps _ (call _)) => (apply kept_infra; constructor) : keeps.
#[export] Hint Extern 2 (keeps _ (emit _)) => apply kept_emit : keeps.
#[export] Hint Extern 2 (keeps _ (emit _)) => apply other_emit : keeps.

(** Walks through code: sequences, case analyses, and what the hints know. *)
Ltac keeps_steps :=
  repeat first
    [ solve [auto with keeps]
    | lazymatch goal with
      | |- keeps _ (bind_ok _ _) => apply keeps_bind_ok; [|intros ?]
      | |- keeps _ (mbind _ _) => apply keeps_bind; [|intros ?]
      | |- keeps _ (match ?x with _ => _ end) => destruct x
      end ].

(** A property of the world alone is kept when the calls keep it. *)
Lemma kept_world {W R} `{API W} (J : W → Prop) :
  stable J (fun A c => api_call c) → Kept (R:=R) (fun s => J (world s)).
Proof.
  intros HJ. constructor; [|by intros e s].
  intros A c Hc s Hs. unfold call. pose proof (HJ A c _ Hc Hs) as Hw. by destruct (c (world s)).
Qed.

Lemma kept_world_other {W R} `{API W} (J : W → Prop) :
  stable J (fun A c => api_other c) → KeptOther (R:=R) (fun s => J (world s)).
Proof.
  intros HJ. constructor; [|by intros e s].
  intros A c Hc s Hs. unfold call. pose proof (HJ A c _ Hc Hs) as Hw. by destruct (c (world s)).
Qed.

Lemma kept_world_infra {W R} `{InfraAPI W} (J : W → Prop) :
  stable J (fun A c => infra_call c) → KeptInfra (R:=R) (fun s => J (world s)).
Proof.
  intros HJ. constructor.
  intros A c Hc s Hs. unfold call. pose proof (HJ A c _ Hc Hs) as Hw. by destruct (c (world s)).
Qed.

(** ** Before and after *)

Section triples.
Context {W R : Type}.

(** [triple J c Q]: from a system that satisfies [J], the result of [c] and the system it
    leaves satisfy [Q]. *)
Definition triple {A} (J : Sys W R → Prop) (c : state (Sys W R) A) (Q : A → Sys W R → Prop) : Prop :=
  ∀ s, J s → Q (c s).1 (c s).2.

Lemma triple_ret {A} J (a : A) (Q : A → Sys W R → Prop) : (∀ s, J s → Q a s) → triple J (mret a) Q.
Proof. intros HQ s Hs. by apply HQ. Qed.

Lemma triple_bind {A B} J (c : state (Sys W R) A) (k : A → state (Sys W R) B) Q Q' :
  triple J c Q → (∀ a, triple (Q a) (k a) Q') → triple J (c ≫= k) Q'.
Proof.
  intros Hc Hk s Hs. unfold mbind, state_bind. specialize (Hc s Hs). destruct (c s) as [a s']. by apply Hk.
Qed.

Lemma triple_weaken {A} (J J' : Sys W R → Prop) (c : state (Sys W R) A) (Q Q' : A → Sys W R → Prop) :
  triple J c Q → (∀ s, J' s → J s) → (∀ a s, Q a s → Q' a s) → triple J' c Q'.
Proof. intros Hc HJ HQ s Hs. by apply HQ, Hc, HJ. Qed.

Lemma triple_keeps {A} J (c : state (Sys W R) A) : keeps J c → triple J c (fun _ => J).
Proof. intros Hc s. apply Hc. Qed.

Lemma triple_yields {A} J (c : state (Sys W R) A) Q (Q' : A → Prop) :
  triple J c Q → yields c Q' → triple J c (fun a s => Q a s ∧ Q' a).
Proof. intros Hc Hy s Hs. split; [by apply Hc|apply Hy]. Qed.

Lemma triple_pure {A} J (P : Prop) (c : state (Sys W R) A) (Q : A → Sys W R → Prop) :
  (P → triple J c Q) → triple (fun s => J s ∧ P) c Q.
Proof. intros Hc s [Hs HP]. by apply Hc. Qed.

(** A property of the memory alone is kept by everything but writes of the memory. *)
#[export] Instance kept_memory `{API W} (I : R → Prop) : Kept (fun s : Sys W R => I (memory s)).
Proof.
  constructor; [|by intros e s]. intros A c _ s Hs. unfold call. by destruct (c (world s)).
Qed.
End triples.

(** ** What is done for certain *)

Section doing.
Context {W R : Type}.
Implicit Types (J : Sys W R → Prop).

(** [doing J c Q]: from a system that satisfies [J], the result of [c], the effects it sends,
    in order, and the system it leaves satisfy [Q]. *)
Definition doing {A} J (c : state (Sys W R) A) (Q : A → list Effect → Sys W R → Prop) : Prop :=
  ∀ s, J s → ∃ l, trace (c s).2 = trace s ++ l ∧ Q (c s).1 l (c s).2.

Lemma doing_ret {A} J (a : A) (Q : A → list Effect → Sys W R → Prop) : (∀ s, J s → Q a [] s) → doing J (mret a) Q.
Proof. intros HQ s Hs. exists []. rewrite app_nil_r. split; [done|]. by apply HQ. Qed.

Lemma doing_bind {A B} J (c : state (Sys W R) A) (k : A → state (Sys W R) B) Q Q' :
  doing J c Q → (∀ a l, doing (Q a l) (k a) (fun b l' s => Q' b (l ++ l') s)) → doing J (c ≫= k) Q'.
Proof.
  intros Hc Hk s Hs. unfold mbind, state_bind. destruct (Hc s Hs) as (l1 & Ht1 & HQ).
  destruct (c s) as [a s']. simpl in *. destruct (Hk a l1 s' HQ) as (l2 & Ht2 & HQ').
  exists (l1 ++ l2). by rewrite Ht2, Ht1, (assoc_L (++)).
Qed.

(** What is known of the start that is not of the system. *)
Lemma doing_pure {A} J (P : Prop) (c : state (Sys W R) A) Q : (P → doing J c Q) → doing (fun s => P ∧ J s) c Q.
Proof. intros Hc s [HP Hs]. by apply Hc. Qed.

Lemma doing_cases {A} J (P : Prop) (c : state (Sys W R) A) Q :
  (P → doing (fun _ => True) c Q) → doing J c Q → doing (fun s => P ∨ J s) c Q.
Proof. intros HP HJ s [Hs|Hs]; [by apply HP|by apply HJ]. Qed.

(** Code of which nothing needs to be known. *)
Lemma doing_any {A} J (c : state (Sys W R) A) (Q : A → list Effect → Sys W R → Prop) :
  spec (fun _ => True) c (fun _ => True) → (∀ a l s, Q a l s) → doing J c Q.
Proof. intros Hc HQ s _. destruct (Hc s) as [_ (l & Ht & _)]. by exists l. Qed.

Lemma doing_weaken {A} J J' (c : state (Sys W R) A) (Q Q' : A → list Effect → Sys W R → Prop) :
  doing J c Q → (∀ s, J' s → J s) → (∀ a l s, Q a l s → Q' a l s) → doing J' c Q'.
Proof. intros Hc HJ HQ s Hs. destruct (Hc s (HJ s Hs)) as (l & Ht & Hl). eauto. Qed.

(** A call, told by what it makes of the world. *)
Lemma doing_call {A} (I : W → Prop) (c : state W A) (Q : A → W → Prop) :
  (∀ w, I w → Q (c w).1 (c w).2) →
  doing (fun s => I (world s)) (call c) (fun a l s => l = [] ∧ Q a (world s)).
Proof.
  intros HQ s Hs. exists []. specialize (HQ _ Hs). unfold call. destruct (c (world s)). simpl in *. by rewrite app_nil_r.
Qed.

Lemma doing_emit J e : keeps J (emit e) → doing J (emit e) (fun _ l s => l = [e] ∧ J s).
Proof. intros Hk s Hs. exists [e]. split; [done|]. split; [done|]. by apply Hk. Qed.

Lemma runs_doing {A} J (c : state (Sys W R) A) Q : runs c Q → doing J c (fun a l _ => Q a l).
Proof. intros Hc s _. apply Hc. Qed.

Lemma doing_then_runs {A B} J (c : state (Sys W R) A) (k : A → state (Sys W R) B) Q Q' :
  doing J c (fun a l _ => Q a l) → (∀ a l, Q a l → runs (k a) (fun b l' => Q' b (l ++ l'))) →
  doing J (c ≫= k) (fun b l _ => Q' b l).
Proof. intros Hc Hk. eapply doing_bind; [exact Hc|]. intros a l s Ha. exact (Hk a l Ha s). Qed.

(** Code that keeps [J] and whose result and effects are known anyway. *)
Lemma doing_keeps {A} J (c : state (Sys W R) A) Q : runs c Q → keeps J c → doing J c (fun a l s => Q a l ∧ J s).
Proof. intros Hc Hk s Hs. destruct (Hc s) as (l & Ht & Hl). exists l. split; [done|]. split; [done|]. by apply Hk. Qed.

(** Code that keeps [J] and whose result alone is known; what it sends does not matter. *)
Lemma doing_yields {A} J (c : state (Sys W R) A) (Q : A → Prop) :
  spec (fun _ => True) c (fun _ => True) → keeps J c → yields c Q → doing J c (fun a _ s => Q a ∧ J s).
Proof.
  intros Hc Hk Hy s Hs. destruct (Hc s) as [_ (l & Ht & _)]. exists l. split; [done|]. split; [apply Hy|by apply Hk].
Qed.

Lemma yields_then {A B} (c : state (Sys W R) A) (k : A → state (Sys W R) B) (Q : A → Prop) (Q' : B → Prop) :
  yields c Q → (∀ a, Q a → yields (k a) Q') → yields (c ≫= k) Q'.
Proof.
  intros Hc Hk s. unfold mbind, state_bind. specialize (Hc s). destruct (c s) as [a s']. by apply Hk.
Qed.

Lemma doing_and_yields {A} J (c : state (Sys W R) A) Q (Q' : A → Prop) :
  doing J c Q → yields c Q' → doing J c (fun a l s => Q' a ∧ Q a l s).
Proof. intros Hc Hy s Hs. destruct (Hc s Hs) as (l & Ht & HQ). exists l. split; [done|]. split; [apply Hy|done]. Qed.

(** [reads J c Q]: as long as [J], [c] yields [Q], sends nothing, and leaves [J]. *)
Definition reads {A} J (c : state (Sys W R) A) (Q : A → Prop) : Prop :=
  doing J c (fun a l s => Q a ∧ l = [] ∧ J s).

Lemma reads_ret {A} J (a : A) (Q : A → Prop) : Q a → reads J (mret a) Q.
Proof. intros HQ. by apply doing_ret. Qed.

Lemma reads_bind {A B} J (c : state (Sys W R) A) (k : A → state (Sys W R) B) (Q : A → Prop) (Q' : B → Prop) :
  reads J c Q → (∀ a, Q a → reads J (k a) Q') → reads J (c ≫= k) Q'.
Proof.
  intros Hc Hk. eapply doing_bind; [exact Hc|]. intros a l s (HQ & -> & Hs). exact (Hk a HQ s Hs).
Qed.

Lemma reads_call {A} J (c : state W A) (Q : A → Prop) :
  keeps J (call c) → (∀ s, J s → Q (c (world s)).1) → reads J (call c) Q.
Proof.
  intros Hc HQ s Hs. exists []. pose proof (Hc s Hs) as Hk. specialize (HQ s Hs).
  unfold call in *. destruct (c (world s)) as [a w]. simpl in *. by rewrite app_nil_r.
Qed.

(** What follows a read is run on its result. *)
Lemma reads_then {A B} J (c : state (Sys W R) A) (k : A → state (Sys W R) B) (Q : A → Prop) s :
  reads J c Q → J s → ∃ a s', Q a ∧ J s' ∧ trace s' = trace s ∧ (c ≫= k) s = k a s'.
Proof.
  intros Hc Hs. destruct (Hc s Hs) as (l & Ht & HQ & -> & Hs'). rewrite app_nil_r in Ht.
  unfold mbind, state_bind. destruct (c s) as [a s']. by exists a, s'.
Qed.

(** [sends J P c]: as long as [J], among what [c] sends is an effect that satisfies [P]. *)
Definition sends {A} J (P : Effect → Prop) (c : state (Sys W R) A) : Prop := doing J c (fun _ l _ => Exists P l).

Lemma sends_first {A B} J P (c : state (Sys W R) A) (k : A → state (Sys W R) B) :
  sends J P c → (∀ a, spec (fun _ => True) (k a) (fun _ => True)) → sends J P (c ≫= k).
Proof.
  intros Hc Hk. eapply doing_bind; [exact Hc|]. intros a l s Hl.
  destruct (Hk a s) as [_ (l' & Ht & _)]. exists l'. split; [done|]. apply Exists_app. by left.
Qed.

Lemma sends_runs {A} J P (c : state (Sys W R) A) : runs c (fun _ l => Exists P l) → sends J P c.
Proof. apply runs_doing. Qed.

(** What is known to be among the effects, in the one list sent. *)
Lemma sends_trace {A} J P (c : state (Sys W R) A) s l :
  sends J P c → J s → trace (c s).2 = trace s ++ l → Exists P l.
Proof.
  intros HP Hs Ht. destruct (HP s Hs) as (l' & Ht' & Hl'). rewrite Ht in Ht'. by apply app_inv_head in Ht' as <-.
Qed.

(** [sends_or J P c Q]: as long as [J], [c] sends an effect that satisfies [P], or leaves [J]
    and its result satisfies [Q]. *)
Definition sends_or {A} J (P : Effect → Prop) (c : state (Sys W R) A) (Q : A → Prop) : Prop :=
  doing J c (fun a l s => Exists P l ∨ Q a ∧ J s).

Lemma sends_or_ret {A} J P (a : A) (Q : A → Prop) : Q a → sends_or J P (mret a) Q.
Proof. intros HQ. apply doing_ret. by right. Qed.

(** What follows matters only where the effect was not sent. *)
Lemma sends_or_bind {A B} J P (c : state (Sys W R) A) (k : A → state (Sys W R) B) (Q : A → Prop) (Q' : B → Prop) :
  sends_or J P c Q → (∀ a, spec (fun _ => True) (k a) (fun _ => True)) → (∀ a, Q a → sends_or J P (k a) Q') →
  sends_or J P (c ≫= k) Q'.
Proof.
  intros Hc Hany Hk. eapply doing_bind; [exact Hc|]. intros a l. apply doing_cases.
  - intros Hl. apply doing_any; [apply Hany|]. intros b l2 s. left. apply Exists_app. by left.
  - apply doing_pure. intros HQ. eapply doing_weaken; [by apply Hk|done|].
    intros b l2 s [Hl2|Hb]; [left; apply Exists_app; by right|by right].
Qed.

Lemma sends_or_weaken {A} J P (c : state (Sys W R) A) (Q Q' : A → Prop) :
  sends_or J P c Q → (∀ a, Q a → Q' a) → sends_or J P c Q'.
Proof. intros Hc HQ. eapply doing_weaken; [exact Hc|done|]. intros a l s [Hl|[Ha Hs]]; [by left|right; auto]. Qed.

Lemma sends_or_yields {A} J P (c : state (Sys W R) A) (Q : A → Prop) :
  spec (fun _ => True) c (fun _ => True) → keeps J c → yields c Q → sends_or J P c Q.
Proof. intros Hc Hk Hy. eapply doing_weaken; [by apply doing_yields|done|]. intros a l s Ha. by right. Qed.

Lemma sends_or_call {A} J P (c : state W A) (Q : A → Prop) :
  keeps J (call c) → (∀ s, J s → Q (c (world s)).1) → sends_or J P (call c) Q.
Proof. intros Hk HQ. eapply doing_weaken; [by apply reads_call|done|]. intros a l s (Ha & _ & Hs). by right. Qed.

Lemma sends_sends_or {A} J P (c : state (Sys W R) A) (Q : A → Prop) : sends J P c → sends_or J P c Q.
Proof. intros Hc. eapply doing_weaken; [exact Hc|done|]. intros a l s Hl. by left. Qed.
End doing.

(** Steps over the read in front of what is run from a state. *)
Tactic Notation "read" open_constr(lem) "as" simple_intropattern(pat) :=
  lazymatch goal with
  | |- context [@mbind _ _ _ _ ?k ?c ?s] =>
      let H := fresh in
      pose proof (fun J Q Hc => reads_then J c k Q s Hc) as H;
      edestruct (H _ _ lem) as pat; [clear H; try done|clear H]
  end.
