(* ===== verification/Condition.v ===== *)
(** * Node conditions (internal/signal/condition)

    The connector's messages, decoded back into the events they carry. The
    regular expressions are matched by functions on bytes: each is a literal
    followed by a greedy run of a byte class, for which leftmost-first matching
    is the scan written here. [Collect] is the source: it reads the nodes of a
    workload cluster and decodes the conditions that are True. *)

From S2P Require Import Prelude GoStrings Signal Kube.
Open Scope stdpp_scope.

Definition eventSeparator : ascii := ";"%char.
Definition truncationSuffix := "...".
Definition actionMarker := "Recommended Action=".

(** ** Matching *)

Fixpoint take_while (P : ascii → bool) (s : string) : string :=
  match s with
  | EmptyString => ""
  | String c s' => if P c then String c (take_while P s') else ""
  end.

Fixpoint drop_while (P : ascii → bool) (s : string) : string :=
  match s with
  | EmptyString => ""
  | String c s' => if P c then drop_while P s' else s
  end.

(** The class [\s] of the regular expressions; [\S] is its complement. *)
Definition re_space (c : ascii) : bool :=
  let n := byte_val c in (n =? 9) || (n =? 10) || (n =? 12) || (n =? 13) || (n =? 32).
Definition re_nonspace (c : ascii) : bool := negb (re_space c).

(** [lit([class]+)] matched at the start of [s]: the submatch. *)
Definition match_at (lit : string) (P : ascii → bool) (s : string) : option string :=
  match CutPrefix s lit with
  | None => None
  | Some r => let cap := take_while P r in if decide (cap = "") then None else Some cap
  end.

(** [FindAllStringSubmatch]: the submatches of all non-overlapping matches, the
    search going on behind each match; [skip] counts the bytes still inside it. *)
Fixpoint find_all (lit : string) (P : ascii → bool) (skip : nat) (s : string) : list string :=
  match s with
  | EmptyString => []
  | String _ s' =>
      match skip with
      | S k => find_all lit P k s'
      | 0 => match match_at lit P s with
             | Some cap => cap :: find_all lit P (len lit + len cap - 1) s'
             | None => find_all lit P 0 s'
             end
      end
  end.

(** [reTerminalAction.FindStringSubmatch]: an action that ends the text, up to
    white space. *)
Definition terminal_at (s : string) : option string :=
  match CutPrefix s actionMarker with
  | None => None
  | Some r =>
      let cap := take_while action_byte r in
      if bool_decide (cap = "") then None
      else if all_bytes re_space (drop_while action_byte r) then Some cap else None
  end.

Fixpoint find_terminal (s : string) : option string :=
  match terminal_at s with
  | Some cap => Some cap
  | None => match s with EmptyString => None | String _ s' => find_terminal s' end
  end.

(** ** Decoding *)

Definition isComplete (event : string) : bool :=
  match find_terminal event with Some m => IsKnownAction m | None => false end.

Definition events (message : string) (truncated : bool) : list string :=
  let message := if truncated then TrimSuffix message truncationSuffix else message in
  let out := filter (fun ev => TrimSpace ev ≠ "") (Split message eventSeparator) in
  match last out with
  | Some ev => if truncated && negb (isComplete ev) then take (length out - 1) out else out
  | None => out
  end.

(** The values of [l] not in [seen], each at its first appearance. *)
Fixpoint dedup (seen : gset string) (l : list string) : list string :=
  match l with
  | [] => []
  | x :: l' => if decide (x ∈ seen) then dedup seen l' else x :: dedup ({[x]} ∪ seen) l'
  end.

Definition captures (lit : string) (P : ascii → bool) (evs : list string) : list string :=
  dedup ∅ (evs ≫= find_all lit P 0).

Definition reAction := captures actionMarker action_byte.
Definition reErrorCode := captures "ErrorCode:" re_nonspace.
Definition reGpuUUID := captures "GPU_UUID:" re_nonspace.

Definition Parse (conditionType message : string) : option Signal :=
  if Contains message actionMarker then
    let truncated := HasSuffix message (byte_str eventSeparator +:+ truncationSuffix) in
    let evs := events message truncated in
    Some (MkSignal OriginNodeCondition "" conditionType "" (reAction evs) (reErrorCode evs)
            (reGpuUUID evs) truncated "")
  else None.

(** ** The source *)

Definition condition_signals (node : Node) : list Signal :=
  omap (fun cond =>
    if decide (nc_Status cond = "True")
    then (fun sig => set_node sig (n_Name node)) <$> Parse (nc_Type cond) (nc_Message cond)
    else None) (n_Conditions node).

Definition signal_less : relation Signal := by_keys (fun s => [sig_Node s; sig_Check s]).

Definition collect_nodes (nodes : list Node) : list Signal :=
  sort_by signal_less (nodes ≫= condition_signals).

Definition Collect {W R} `{API W} (cluster : ObjectKey) : state (Sys W R) (result error (list Signal)) :=
  r ← call (ListNodes cluster);
  match r with
  | Err e => mret (Err (EWrap "list nodes" e))
  | Ok nodes => mret (Ok (collect_nodes nodes))
  end.

Definition SourceName := "NodeCondition".

Definition NewSource {W R} `{API W} (cluster : ObjectKey) : Source (state (Sys W R)) error :=
  MkSource SourceName (Collect cluster).

(** ** What the matchers find *)

Lemma take_drop_while P s : take_while P s +:+ drop_while P s = s.
Proof. induction s as [|c s IH]; simpl; [done|]. destruct (P c); [by rewrite app_cons_str, IH|done]. Qed.

Lemma take_while_all P s : all_bytes P (take_while P s) = true.
Proof.
  induction s as [|c s IH]; simpl; [done|]. destruct (P c) eqn:E; [|done].
  unfold all_bytes in *. simpl. by rewrite E.
Qed.

Lemma take_while_app P a t :
  all_bytes P a = true → match t with EmptyString => True | String c _ => P c = false end →
  take_while P (a +:+ t) = a ∧ drop_while P (a +:+ t) = t.
Proof.
  induction a as [|c a IH]; intros Ha Ht.
  - rewrite app_nil_l_str. destruct t as [|c t]; simpl; [done|]. by rewrite Ht.
  - unfold all_bytes in Ha. simpl in Ha. bool_to_prop. rewrite app_cons_str. simpl.
    rewrite H. destruct IH as [-> ->]; done.
Qed.

Lemma space_not_action c : re_space c = true → action_byte c = false.
Proof.
  unfold re_space, action_byte. rewrite !orb_true_iff, !Nat.eqb_eq.
  rewrite orb_false_iff, andb_false_iff, !Nat.leb_gt, Nat.eqb_neq. lia.
Qed.

Lemma all_spaces_head s :
  all_bytes re_space s = true → match s with EmptyString => True | String c _ => action_byte c = false end.
Proof.
  destruct s as [|c s]; [done|]. unfold all_bytes. simpl. intros H. bool_to_prop.
  by apply space_not_action.
Qed.

Lemma terminal_at_spec s a :
  terminal_at s = Some a ↔
  ∃ ws, s = actionMarker +:+ a +:+ ws ∧ a ≠ "" ∧ all_bytes action_byte a = true ∧
    all_bytes re_space ws = true.
Proof.
  unfold terminal_at. split.
  - destruct (CutPrefix s actionMarker) as [r|] eqn:E; [|done]. apply CutPrefix_Some in E.
    case_bool_decide as Hc; [done|]. destruct (all_bytes re_space _) eqn:Ew; [|done].
    intros [= <-]. exists (drop_while action_byte r). rewrite take_drop_while.
    split_and!; [done|done|apply take_while_all|done].
  - intros (ws & -> & Hne & Ha & Hws). rewrite CutPrefix_app.
    destruct (take_while_app action_byte a ws) as [-> ->]; [done|by apply all_spaces_head|].
    rewrite bool_decide_eq_false_2 by done. by rewrite Hws.
Qed.

Lemma find_terminal_Some s a :
  find_terminal s = Some a → ∃ x ws, s = x +:+ actionMarker +:+ a +:+ ws ∧
    all_bytes action_byte a = true ∧ all_bytes re_space ws = true.
Proof.
  induction s as [|c s IH]; [done|]. cbn [find_terminal].
  destruct (terminal_at (String c s)) as [b|] eqn:E.
  - intros [= ->]. apply terminal_at_spec in E as (ws & Hs & _ & ? & ?). exists "", ws.
    by rewrite app_nil_l_str.
  - intros H. destruct (IH H) as (x & ws & -> & ? & ?). exists (String c x), ws.
    by rewrite app_cons_str.
Qed.

Lemma find_terminal_is_Some x a ws :
  a ≠ "" → all_bytes action_byte a = true → all_bytes re_space ws = true →
  is_Some (find_terminal (x +:+ actionMarker +:+ a +:+ ws)).
Proof.
  intros Hne Ha Hws. induction x as [|c x IH].
  - rewrite app_nil_l_str.
    assert (terminal_at (actionMarker +:+ a +:+ ws) = Some a) as E by (apply terminal_at_spec; eauto).
    destruct (actionMarker +:+ a +:+ ws); [done|]. cbn [find_terminal]. rewrite E. eauto.
  - rewrite app_cons_str. cbn [find_terminal]. destruct (terminal_at (String c _)); eauto.
Qed.

(** The last place of a byte in a string is unique. *)
Lemma cut_last_unique c p q p' q' :
  has_byte c q = false → has_byte c q' = false →
  p +:+ byte_str c +:+ q = p' +:+ byte_str c +:+ q' → p = p' ∧ q = q'.
Proof.
  assert (Hhalf : ∀ p q p' q', has_byte c q = false →
    p +:+ byte_str c +:+ q = p' +:+ byte_str c +:+ q' →
    (∃ e, p' = p +:+ e) → p = p' ∧ q = q').
  { clear. intros p q p' q' Hq Heq [e ->]. rewrite app_assoc_str in Heq.
    apply app_inj_l_str in Heq. destruct e as [|d e].
    - rewrite app_nil_l_str in Heq. apply app_inj_l_str in Heq. by rewrite app_nil_r_str.
    - unfold byte_str in Heq. rewrite !app_cons_str, app_nil_l_str in Heq. simplify_eq.
      rewrite !has_byte_app in Hq. unfold has_byte in Hq. simpl in Hq.
      rewrite bool_decide_eq_true_2 in Hq by done. rewrite orb_true_r in Hq. done. }
  intros Hq Hq' Heq. destruct (app_eq_app_str _ _ _ _ Heq) as [e [[He _]|[He _]]].
  - destruct (Hhalf p' q' p q) as [-> ->]; [done|by symmetry|by exists e|done].
  - apply (Hhalf p q p' q'); [done|done|by exists e].
Qed.

Lemma no_equals_action a : all_bytes action_byte a = true → has_byte "="%char a = false.
Proof.
  induction a as [|c a IH]; [done|]. unfold all_bytes, has_byte in *. simpl. intros H. bool_to_prop.
  rewrite IH by done. rewrite bool_decide_eq_false_2; [done|]. by intros ->.
Qed.

Lemma no_equals_space a : all_bytes re_space a = true → has_byte "="%char a = false.
Proof.
  induction a as [|c a IH]; [done|]. unfold all_bytes, has_byte in *. simpl. intros H. bool_to_prop.
  rewrite IH by done. rewrite bool_decide_eq_false_2; [done|]. by intros ->.
Qed.

(** ** Events as the connector writes them *)

(** The marker without its last byte: where the marker ends is where the last
    ["="] of an event stands. *)
Definition marker_stem := "Recommended Action".

Lemma marker_split : actionMarker = marker_stem +:+ byte_str "="%char.
Proof. done. Qed.

(** An event: its text, then the marker, only there, then a known action; no
    separator inside. *)
Record event : Type := MkEvent { ev_text : string; ev_action : string }.

Definition event_string (e : event) : string := ev_text e +:+ actionMarker +:+ ev_action e.

Definition wf_event (e : event) : bool :=
  IsKnownAction (ev_action e) && negb (has_byte eventSeparator (ev_text e))
  && negb (Contains (ev_text e +:+ marker_stem) actionMarker).

Lemma wf_event_spec e :
  wf_event e = true ↔ ev_action e ∈ knownActions ∧ has_byte eventSeparator (ev_text e) = false ∧
    Contains (ev_text e +:+ marker_stem) actionMarker = false.
Proof.
  unfold wf_event. by rewrite !andb_true_iff, !negb_true_iff, IsKnownAction_spec, (assoc and).
Qed.

Section event.
Context (e : event) (Hwf : wf_event e = true).

Lemma wf_known : ev_action e ∈ knownActions.
Proof using Hwf. by apply wf_event_spec in Hwf as [? _]. Qed.

Lemma wf_action_bytes : all_bytes action_byte (ev_action e) = true.
Proof using Hwf. apply knownActions_bytes, wf_known. Qed.

Lemma wf_marker_once x t : event_string e = x +:+ actionMarker +:+ t → has_byte "="%char t = false.
Proof using Hwf.
  intros Heq. destruct (has_byte "="%char t) eqn:Ht; [|done]. exfalso.
  assert (Contains (ev_text e +:+ marker_stem) actionMarker = true) as HC.
  2:{ apply wf_event_spec in Hwf as (_ & _ & HC'). congruence. }
  apply Contains_spec. unfold event_string in Heq. rewrite (marker_split) in Heq at 1.
  rewrite <- !app_assoc_str in Heq.
  rewrite (app_assoc_str _ (byte_str _)) in Heq.
  destruct (app_eq_app_str _ _ _ _ Heq) as [f [[Hf _]|[Hf Ha]]].
  - exists x, f. by rewrite Hf, app_assoc_str.
  - destruct f as [|c f].
    + exists x, "". rewrite app_nil_r_str in Hf. by rewrite <- Hf, !app_nil_r_str.
    + unfold byte_str in Ha. rewrite !app_cons_str, app_nil_l_str in Ha.
      injection Ha as <- Ha. pose proof (no_equals_action _ wf_action_bytes) as Hn.
      rewrite Ha, has_byte_app, Ht in Hn.
      by rewrite orb_true_r in Hn.
Qed.

Lemma wf_complete : isComplete (event_string e) = true.
Proof using Hwf.
  unfold isComplete, event_string.
  destruct (find_terminal_is_Some (ev_text e) (ev_action e) "") as [b Hb].
  { by apply knownActions_not_empty, wf_known. }
  { apply wf_action_bytes. } { done. }
  rewrite app_nil_r_str in Hb. rewrite Hb.
  apply find_terminal_Some in Hb as (x & ws & Heq & Hb & Hws).
  rewrite marker_split, !app_assoc_str, <- !(app_assoc_str _ marker_stem) in Heq.
  apply cut_last_unique in Heq as [_ Heq].
  - destruct (take_while_app action_byte b ws) as [Ht _]; [done|by apply all_spaces_head|].
    rewrite <- Heq in Ht. rewrite <- Ht.
    destruct (take_while_app action_byte (ev_action e) "") as [Ht' _];
      [apply wf_action_bytes|done|]. rewrite app_nil_r_str in Ht'. rewrite Ht'.
    apply IsKnownAction_spec, wf_known.
  - apply no_equals_action, wf_action_bytes.
  - rewrite has_byte_app, no_equals_action, no_equals_space; done.
Qed.

(** A cut event is not complete, wherever the cut is. *)
Lemma wf_cut_incomplete q t : event_string e = q +:+ t → t ≠ "" → isComplete q = false.
Proof using Hwf.
  intros Heq Ht. unfold isComplete. destruct (find_terminal q) as [b|] eqn:Hb; [|done].
  apply find_terminal_Some in Hb as (x & ws & -> & Hb & Hws).
  destruct (IsKnownAction b) eqn:Hk; [|done]. exfalso.
  rewrite !app_assoc_str in Heq. pose proof (wf_marker_once _ _ Heq) as Hn.
  unfold event_string in Heq.
  rewrite marker_split, !app_assoc_str, <- !(app_assoc_str _ marker_stem) in Heq.
  apply cut_last_unique in Heq as [_ Heq];
    [|apply no_equals_action, wf_action_bytes|done].
  pose proof wf_action_bytes as Ha. rewrite Heq, !all_bytes_app in Ha. bool_to_prop.
  destruct ws as [|c ws].
  - rewrite app_nil_l_str in Heq.
    pose proof wf_known as Hke. rewrite Heq in Hke. apply IsKnownAction_spec in Hke.
    apply Ht. apply (known_prefix_free b t); by apply IsKnownAction_spec.
  - apply all_spaces_head in Hws. unfold all_bytes in *. simpl in *. bool_to_prop. congruence.
Qed.
End event.

Lemma event_not_blank e : TrimSpace (event_string e) ≠ "".
Proof.
  intros Hb. assert ("R"%char ∈ bytes (TrimSpace (event_string e))) as Hin.
  { apply TrimSpace_keeps; [done|]. unfold event_string. rewrite !bytes_app. simpl. set_solver. }
  rewrite Hb in Hin. by apply not_elem_of_nil in Hin.
Qed.

Lemma wf_no_separator e : wf_event e = true → has_byte eventSeparator (event_string e) = false.
Proof.
  intros Hwf. unfold event_string. rewrite !has_byte_app.
  pose proof (wf_action_bytes e Hwf) as Ha. apply wf_event_spec in Hwf as (_ & Ht & _).
  assert (∀ s, all_bytes action_byte s = true → has_byte eventSeparator s = false) as Hs.
  { clear. intros s. unfold all_bytes, has_byte. rewrite forallb_forall. intros H.
    apply not_true_iff_false. rewrite existsb_exists. intros (c & Hc & Heq).
    apply bool_decide_eq_true in Heq as ->. by specialize (H _ Hc). }
  rewrite (Hs (ev_action e)) by done. by rewrite Ht.
Qed.

(** The actions, codes and devices of complete events. *)
Lemma find_all_skip lit P k s : len s ≤ k → find_all lit P k s = [].
Proof. revert k. induction s as [|c s IH]; intros k Hk; [done|]. simpl in *. destruct k; [lia|]. apply IH. lia. Qed.

Lemma find_all_event e :
  wf_event e = true → find_all actionMarker action_byte 0 (event_string e) = [ev_action e].
Proof.
  intros Hwf. pose proof (wf_action_bytes e Hwf) as Ha. pose proof (wf_known e Hwf) as Hk.
  apply knownActions_not_empty in Hk.
  apply wf_event_spec in Hwf as (_ & _ & Hc). unfold event_string.
  destruct e as [x a]. simpl in *. induction x as [|c x IH].
  - rewrite app_nil_l_str.
    assert (match_at actionMarker action_byte (actionMarker +:+ a) = Some a) as E.
    { unfold match_at. rewrite CutPrefix_app.
      destruct (take_while_app action_byte a "") as [Ht _]; [done..|].
      rewrite app_nil_r_str in Ht. rewrite Ht. by rewrite decide_False. }
    destruct (actionMarker +:+ a) as [|d s] eqn:Es; [done|]. cbn [find_all]. rewrite E.
    f_equal. apply find_all_skip.
    apply (f_equal len) in Es. rewrite len_app in Es. simpl in *. lia.
  - rewrite app_cons_str in *. cbn [find_all]. cbn [Contains] in Hc.
    destruct (CutPrefix (String c (x +:+ marker_stem)) actionMarker) as [r|] eqn:EC; [done|].
    assert (CutPrefix (String c (x +:+ actionMarker +:+ a)) actionMarker = None) as EM.
    { destruct (CutPrefix (String c (x +:+ actionMarker +:+ a)) actionMarker) as [r|] eqn:EM; [|done].
      apply CutPrefix_Some in EM.
      assert (String c (x +:+ actionMarker +:+ a)
        = String c (x +:+ marker_stem) +:+ byte_str "="%char +:+ a) as Es
        by (by rewrite marker_split, app_cons_str, !app_assoc_str).
      rewrite Es in EM. destruct (app_eq_app_str _ _ _ _ EM) as [f [[Hf _]|[Hf _]]].
      - rewrite Hf, CutPrefix_app in EC. done.
      - destruct f as [|d f].
        + rewrite app_nil_r_str in Hf. rewrite <- Hf in EC.
          rewrite <- (app_nil_r_str actionMarker) in EC at 1. by rewrite CutPrefix_app in EC.
        + apply (f_equal len) in Hf. rewrite app_cons_str in Hf. simpl in Hf.
          rewrite !len_app in Hf. simpl in Hf. lia. }
    unfold match_at. rewrite EM. by apply IH.
Qed.

(** ** Decoding what the connector writes

    [connector_join] is the connector's truncation as the package's own test
    ports it (condition_test.go, join): events joined by separators while they
    fit, the next one cut where the room ends. *)

Fixpoint take_bytes (n : nat) (s : string) : string :=
  match n, s with
  | S n', String c s' => String c (take_bytes n' s')
  | _, _ => ""
  end.

Fixpoint join_loop (maxLen : nat) (evs : list string) (b : string) (first : bool) : string * bool :=
  match evs with
  | [] => (b, false)
  | ev :: rest =>
      let sep := if first then "" else byte_str eventSeparator in
      if decide (maxLen < len b + len sep + len ev + 1) then
        let available := maxLen - len b - len sep - 1 - len truncationSuffix in
        (if decide (0 < available) then b +:+ sep +:+ take_bytes available ev else b, true)
      else join_loop maxLen rest (b +:+ sep +:+ ev) false
  end.

Definition connector_join (evs : list string) (maxLen : nat) : string :=
  let '(b, truncated) := join_loop maxLen evs "" true in
  b +:+ byte_str eventSeparator +:+ (if truncated then truncationSuffix else "").

Lemma take_bytes_cut n s : n < len s → ∃ u, s = take_bytes n s +:+ u ∧ u ≠ "".
Proof.
  revert n. induction s as [|c s IH]; intros [|n] Hn; simpl in *; try lia.
  - by exists (String c s).
  - destruct (IH n) as (u & Hu & Hne); [lia|]. exists u. split; [|done].
    rewrite app_cons_str. by f_equal.
Qed.

(** The pieces, each behind a separator but the first. *)
Fixpoint sep_join (first : bool) (ws : list string) : string :=
  match ws with
  | [] => ""
  | w :: ws' => (if first then "" else byte_str eventSeparator) +:+ w +:+ sep_join false ws'
  end.

(** How [join_loop] ends: every event is written, or those before one that does
    not fit, of which a proper prefix may be written. *)
Inductive joined (evs : list string) : list string → list string → bool → Prop :=
| joined_all : joined evs evs [] false
| joined_cut kept ev rest cut : evs = kept ++ ev :: rest →
    (cut = [] ∨ ∃ q u, cut = [q] ∧ ev = q +:+ u ∧ u ≠ "") → joined evs kept cut true.

(** The events [kept] are those that fit behind [b], and no event more fits. *)
Definition fit (maxLen : nat) (evs kept : list string) (b : string) (first : bool) : Prop :=
  (kept = [] ∨ len (b +:+ sep_join first kept) + 1 ≤ maxLen) ∧
  ∀ ev rest, evs = kept ++ ev :: rest → maxLen < len (b +:+ sep_join first (kept ++ [ev])) + 1.

Lemma fit_cons maxLen (ev : string) evs kept b (first : bool) :
  let b' := b +:+ (if first then "" else byte_str eventSeparator) +:+ ev in
  ¬ maxLen < len b' + 1 → fit maxLen evs kept b' false → fit maxLen (ev :: evs) (ev :: kept) b first.
Proof.
  intros b' Hb [Hk Hn]. subst b'. split.
  - right. cbn [sep_join]. destruct Hk as [->|Hk]; [simpl|]; rewrite ?app_nil_r_str, ?app_assoc_str in *; lia.
  - intros ev' rest Heq. simpl in Heq. simplify_eq. cbn [app sep_join].
    specialize (Hn _ _ eq_refl). rewrite !app_assoc_str in Hn. done.
Qed.

Lemma join_loop_joined maxLen evs b first :
  ∃ kept cut t, joined evs kept cut t ∧ fit maxLen evs kept b first ∧
    join_loop maxLen evs b first = (b +:+ sep_join first (kept ++ cut), t).
Proof.
  revert b first. induction evs as [|ev evs IH]; intros b first; cbn [join_loop].
  { exists [], [], false. split_and!; [constructor|split; [by left|done]|]. simpl. by rewrite app_nil_r_str. }
  set (sep := if first then "" else byte_str eventSeparator).
  destruct (decide (maxLen < _)) as [Hfit|Hfit].
  - assert (fit maxLen (ev :: evs) [] b first) as Hf.
    { split; [by left|]. intros ev' rest [= <- _]. cbn [app sep_join].
      rewrite app_nil_r_str, !len_app. fold sep. lia. }
    destruct (decide (0 < _)) as [Hroom|Hroom].
    + set (n := _ - len truncationSuffix) in *.
      destruct (take_bytes_cut n ev) as (u & Hu & Hne); [subst n; simpl in *; lia|].
      exists [], [take_bytes n ev], true. split.
      * eapply (joined_cut _ [] ev evs); [done|]. right. eauto.
      * split; [exact Hf|]. simpl. by rewrite app_nil_r_str.
    + exists [], [], true. split_and!; [eapply (joined_cut _ [] ev evs); eauto|exact Hf|].
      simpl. by rewrite app_nil_r_str.
  - destruct (IH (b +:+ sep +:+ ev) false) as (kept & cut & t & Hj & Hf & ->).
    exists (ev :: kept), cut, t. split_and!; [|apply fit_cons; [rewrite !len_app; fold sep; lia|exact Hf]|].
    + inversion Hj as [|? ev' rest ? -> Hcut]; subst; [constructor|].
      by eapply (joined_cut _ (ev :: kept)).
    + simpl. by rewrite !app_assoc_str.
Qed.

Lemma sep_join_Join ws : sep_join true ws = Join ws (byte_str eventSeparator).
Proof.
  assert (∀ w ws, w +:+ sep_join false ws = Join (w :: ws) (byte_str eventSeparator)) as H.
  { clear. intros w ws. revert w. induction ws as [|w' ws IH]; intros w.
    - simpl. by rewrite app_nil_r_str.
    - cbn [sep_join]. rewrite IH. done. }
  destruct ws as [|w ws]; [done|]. cbn [sep_join]. by rewrite app_nil_l_str, H.
Qed.

Lemma Join_snoc_empty ws :
  ws ≠ [] → Join ws (byte_str eventSeparator) +:+ byte_str eventSeparator =
    Join (ws ++ [""]) (byte_str eventSeparator).
Proof.
  induction ws as [|w [|w' ws] IH]; intros Hne; [done|..].
  - simpl. by rewrite app_nil_r_str.
  - cbn [app Join] in *. rewrite !app_assoc_str, IH by done. done.
Qed.

Lemma split_joined ws :
  Forall (fun w => has_byte eventSeparator w = false) ws →
  filter (fun ev => TrimSpace ev ≠ "")
    (Split (sep_join true ws +:+ byte_str eventSeparator) eventSeparator) =
  filter (fun ev => TrimSpace ev ≠ "") ws.
Proof.
  intros Hs. destruct (decide (ws = [])) as [->|Hne]; [done|].
  rewrite sep_join_Join, Join_snoc_empty by done. rewrite Split_Join.
  - rewrite filter_app. by rewrite app_nil_r.
  - by destruct ws.
  - apply Forall_app. split; [done|]. by constructor.
Qed.

Lemma filter_events (es : list event) :
  filter (fun ev => TrimSpace ev ≠ "") (event_string <$> es) = event_string <$> es.
Proof.
  induction es as [|e es IH]; [done|]. rewrite fmap_cons, filter_cons.
  rewrite decide_True by apply event_not_blank. by f_equal.
Qed.

Lemma last_byte_unique a b c d : a +:+ byte_str c = b +:+ byte_str d → c = d.
Proof.
  intros H. apply (f_equal bytes) in H. rewrite !bytes_app in H. simpl in H.
  apply app_inj_tail in H as [_ H]. by simplify_eq.
Qed.

Lemma last_event_complete (k : list event) x :
  Forall (fun e => wf_event e = true) k → last (event_string <$> k) = Some x → isComplete x = true.
Proof.
  rewrite fmap_last. intros Hk (y & Hy & ->)%fmap_Some. apply wf_complete.
  rewrite Forall_forall in Hk. by apply Hk, last_Some_elem_of.
Qed.

Section connector.
Context (es : list event) (Hwf : Forall (fun e => wf_event e = true) es).

Lemma events_of_joined kept cut t :
  joined (event_string <$> es) kept cut t →
  ∃ k, kept = event_string <$> k ∧ k `prefix_of` es ∧ (t = false → k = es) ∧
    events (sep_join true (kept ++ cut) +:+ byte_str eventSeparator +:+
              (if t then truncationSuffix else "")) t = kept.
Proof using Hwf.
  assert (Hsep : ∀ k, k `prefix_of` es →
    Forall (fun w => has_byte eventSeparator w = false) (event_string <$> k)).
  { intros k [r ->]. apply Forall_app in Hwf as [Hk _]. rewrite Forall_fmap.
    eapply Forall_impl; [exact Hk|]. intros e. apply wf_no_separator. }
  intros Hj. inversion Hj as [|? ev rest ? Heq Hcut]; subst; unfold events.
  - exists es. split_and!; [done|done|done|].
    rewrite !app_nil_r, app_nil_r_str, split_joined, filter_events by (by apply Hsep).
    by destruct (last _).
  - apply fmap_app_inv in Heq as (k & r & -> & Heq & ->).
    symmetry in Heq. apply fmap_cons_inv in Heq as (e & r' & -> & -> & ->).
    exists k. split_and!; [done|by apply prefix_app_r|done|].
    rewrite <- app_assoc_str, TrimSuffix_app. rewrite split_joined.
    + rewrite filter_app, filter_events. apply Forall_app in Hwf as [Hk Hwf'].
      apply Forall_cons in Hwf' as [He _].
      destruct Hcut as [->|(q & u & -> & Hq & Hu)].
      * rewrite app_nil_r. destruct (last _) as [x|] eqn:Hl; [|done].
        by rewrite (last_event_complete k x).
      * rewrite filter_cons, filter_nil. case_decide as Hb.
        -- rewrite last_snoc, (wf_cut_incomplete e He q u Hq Hu). simpl.
           rewrite length_app. simpl. rewrite Nat.add_sub. by rewrite take_app_length.
        -- rewrite app_nil_r. destruct (last _) as [x|] eqn:Hl; [|done].
           by rewrite (last_event_complete k x).
    + apply Forall_app. split; [apply Hsep; by apply prefix_app_r|].
      destruct Hcut as [->|(q & u & -> & Hq & Hu)]; constructor; [|done].
      apply Forall_app in Hwf as [_ [He _]%Forall_cons].
      pose proof (wf_no_separator e He) as Hn. rewrite Hq, has_byte_app in Hn. by bool_to_prop.
Qed.
End connector.

Lemma elem_of_dedup seen l x : x ∈ dedup seen l ↔ x ∈ l ∧ x ∉ seen.
Proof.
  revert seen. induction l as [|y l IH]; intros seen; simpl; [set_solver|].
  case_decide as Hy; [rewrite IH|rewrite elem_of_cons, IH];
    destruct (decide (x = y)) as [->|]; set_solver.
Qed.

Lemma NoDup_dedup seen l : NoDup (dedup seen l).
Proof.
  revert seen. induction l as [|y l IH]; intros seen; simpl; [constructor|].
  case_decide; [done|]. constructor; [|done]. rewrite elem_of_dedup. set_solver.
Qed.

Lemma dedup_sublist seen l : dedup seen l `sublist_of` l.
Proof.
  revert seen. induction l as [|y l IH]; intros seen; simpl; [done|].
  case_decide; [by apply sublist_cons|by apply sublist_skip].
Qed.

(** ** Properties *)

(** The flag tells whether events are left. *)
Lemma joined_flag evs kept cut t r : joined evs kept cut t → evs = kept ++ r → t = bool_decide (r ≠ []).
Proof.
  intros Hj Hr. destruct Hj as [|k ev rest c Heq _].
  - rewrite <- (app_nil_r evs) in Hr at 1. by apply app_inv_head in Hr as <-.
  - rewrite Heq in Hr. by apply app_inv_head in Hr as <-.
Qed.

(** Only one prefix of a list is the longest that fits. *)
Lemma fit_longest maxLen evs k x e :
  fit maxLen evs k "" true → evs = k ++ x :: e → ∀ e1, len (Join (k ++ x :: e1) (byte_str eventSeparator)) + 1 ≤ maxLen → False.
Proof.
  intros [_ Hn] He e1. specialize (Hn x e He). rewrite <- sep_join_Join, app_nil_l_str in *.
  enough (len (sep_join true (k ++ [x])) ≤ len (sep_join true (k ++ x :: e1))) by lia.
  generalize true. clear. induction k as [|y k IH]; intros first; cbn [app sep_join]; rewrite !len_app; simpl.
  - lia.
  - specialize (IH false). lia.
Qed.

Lemma fit_unique maxLen evs k1 k2 r1 r2 :
  evs = k1 ++ r1 → evs = k2 ++ r2 → fit maxLen evs k1 "" true → fit maxLen evs k2 "" true → k1 = k2.
Proof.
  intros H1 H2 Hf1 Hf2. assert (k1 ++ r1 = k2 ++ r2) as Heq by congruence.
  assert (Hle : ∀ k, fit maxLen evs k "" true → k ≠ [] → len (Join k (byte_str eventSeparator)) + 1 ≤ maxLen).
  { intros k [[->|Hk] _] Hne; [done|]. by rewrite app_nil_l_str, sep_join_Join in Hk. }
  apply app_eq_app in Heq as [[|x e] [[-> ->]|[-> ->]]]; rewrite ?app_nil_r in *; try done; exfalso.
  - eapply (fit_longest maxLen evs k2 x (e ++ r1) Hf2 H2), (Hle _ Hf1). by destruct k2.
  - eapply (fit_longest maxLen evs k1 x (e ++ r2) Hf1 H1), (Hle _ Hf2). by destruct k1.
Qed.

(** C24: what the connector could write whole is decoded whole, and nothing of a
    cut event leaks. Let well-formed events be joined within a length limit, and [k] be
    the longest prefix of them that fits the limit, separators included: [Parse] returns
    the actions, the codes and the devices of exactly the events of [k], without
    repeats, and flags the message as truncated exactly when there are more. Of an event
    that is cut it returns nothing, wherever the cut is; when even the first event is,
    it returns a signal without any action if the cut event still shows the marker and
    none otherwise. *)
Theorem parse_connector_message (conditionType : string) (k rest : list event) (maxLen : nat)
    (Hwf : Forall (fun e => wf_event e = true) (k ++ rest))
    (Hfit : k = [] ∨ len (Join (event_string <$> k) ";") + 1 ≤ maxLen)
    (Hmore : ∀ e rest', rest = e :: rest' → maxLen < len (Join (event_string <$> k ++ [e]) ";") + 1) :
  let message := connector_join (event_string <$> k ++ rest) maxLen in
  Parse conditionType message =
    if bool_decide (k ≠ []) || Contains message "Recommended Action="
    then Some (MkSignal OriginNodeCondition "" conditionType "" (dedup ∅ (ev_action <$> k))
                 (reErrorCode (event_string <$> k)) (reGpuUUID (event_string <$> k)) (bool_decide (rest ≠ [])) "")
    else None.
Proof.
  intros message. set (written := event_string <$> k ++ rest) in message.
  destruct (join_loop_joined maxLen written "" true) as (kept & cut & t & Hj & Hf & Heq).
  destruct (events_of_joined (k ++ rest) Hwf kept cut t Hj) as (k' & Hk & [r Hr] & Hall & Hev).
  assert (k' = k) as ->.
  { assert (kept = event_string <$> k) as Hkk.
    { eapply (fit_unique maxLen written _ _ (event_string <$> r) (event_string <$> rest)); [| |exact Hf|].
      - subst written kept. by rewrite Hr, fmap_app.
      - apply fmap_app.
      - change ";" with (byte_str eventSeparator) in *. split; rewrite ?app_nil_l_str, ?sep_join_Join.
        + destruct Hfit as [->|?]; [by left|by right].
        + intros ev l Hl. subst written. rewrite fmap_app in Hl. apply app_inv_head in Hl.
          apply fmap_cons_inv in Hl as (e & l' & -> & -> & ->). rewrite app_nil_l_str, sep_join_Join.
          specialize (Hmore e l' eq_refl). by rewrite fmap_app in Hmore. }
    assert (length k' = length k) as Hlen by (rewrite <- (length_fmap event_string k'), <- Hk, Hkk; by rewrite length_fmap).
    by apply (app_inj_1 _ _ _ _ (eq_sym Hlen)) in Hr as [-> _]. }
  apply app_inv_head in Hr as ->.
  assert (Ht : t = bool_decide (event_string <$> r ≠ []))
    by (apply (joined_flag _ _ _ _ _ Hj); subst written; by rewrite Hk, fmap_app).
  assert (Hmsg : bool_decide (k ≠ []) || Contains message "Recommended Action=" = Contains message "Recommended Action=").
  { destruct k as [|e k]; [reflexivity|]. rewrite orb_true_l. symmetry. apply Contains_spec. subst message kept.
    unfold connector_join. rewrite Heq, app_nil_l_str. simpl. rewrite app_nil_l_str.
    unfold event_string at 1. exists (ev_text e). eexists. rewrite !app_assoc_str. reflexivity. }
  rewrite Hmsg. unfold Parse, actionMarker. destruct (Contains message _); [|done].
  unfold message, connector_join. rewrite Heq, app_nil_l_str.
  assert (HasSuffix (sep_join true (kept ++ cut) +:+ byte_str eventSeparator +:+
    (if t then truncationSuffix else "")) (byte_str eventSeparator +:+ truncationSuffix) = t) as ->.
  { destruct t; [apply HasSuffix_spec; by eexists|]. apply not_true_iff_false.
    rewrite HasSuffix_spec, app_nil_r_str. intros [r' Hr].
    change (byte_str eventSeparator +:+ truncationSuffix) with (";.." +:+ byte_str "."%char) in Hr.
    rewrite <- app_assoc_str in Hr. by apply last_byte_unique in Hr. }
  replace (bool_decide (r ≠ [])) with t by (rewrite Ht; by destruct r).
  rewrite Hev, Hk. do 2 f_equal. unfold reAction, captures. f_equal.
  apply Forall_app in Hwf as [Hwk _]. clear -Hwk.
  induction Hwk as [|e k He _ IH]; [done|].
  rewrite fmap_cons, bind_cons, IH, find_all_event by done. done.
Qed.

Definition sample_events : list event :=
  [MkEvent "ErrorCode:DCGM_FR_PCI_REPLAY_RATE GPU:2 replay rate high " ActionContactSupport;
   MkEvent "ErrorCode:DCGM_FR_XID_ERROR GPU:2 GPU_UUID:GPU-b5f21324 xid 79 seen " ActionReplaceVM].

(** The second event is cut inside the action's name: the first is all there is. *)
Lemma parse_connector_message_witness :
  connector_join (event_string <$> sample_events) 185 =
    "ErrorCode:DCGM_FR_PCI_REPLAY_RATE GPU:2 replay rate high Recommended Action=CONTACT_SUPPORT;ErrorCode:DCGM_FR_XID_ERROR GPU:2 GPU_UUID:GPU-b5f21324 xid 79 seen Recommended Action=RE;..." ∧
  Parse "GpuXidWatch" (connector_join (event_string <$> sample_events) 185) =
    Some (MkSignal OriginNodeCondition "" "GpuXidWatch" "" ["CONTACT_SUPPORT"]
      ["DCGM_FR_PCI_REPLAY_RATE"] [] true "").
Proof.
  split; [vm_compute; reflexivity|].
  refine (eq_trans (parse_connector_message "GpuXidWatch" [nth 0 sample_events (MkEvent "" "")]
    [nth 1 sample_events (MkEvent "" "")] 185 _ _ _) _).
  - repeat constructor.
  - right. apply Nat.leb_le. vm_compute. reflexivity.
  - intros e rest' [= <- <-]. apply Nat.ltb_lt. vm_compute. reflexivity.
  - vm_compute. reflexivity.
Defined.

Example first_event_cut :
  Parse "GpuXidWatch" (connector_join (event_string <$> sample_events) 60) = None.
Proof. vm_compute. reflexivity. Qed.

(** The values captured from the events hold no repeats, and are exactly
    those some event holds, in the order of their first appearance. *)
Lemma captures_distinct_and_exact (lit : string) (P : ascii → bool) (evs : list string) :
  NoDup (captures lit P evs) ∧
  captures lit P evs `sublist_of` (evs ≫= find_all lit P 0) ∧
  ∀ x, x ∈ captures lit P evs ↔ ∃ ev, ev ∈ evs ∧ x ∈ find_all lit P 0 ev.
Proof.
  unfold captures. split_and!; [apply NoDup_dedup|apply dedup_sublist|].
  intros x. rewrite elem_of_dedup, list_elem_of_bind. set_solver.
Qed.

(** Polling the nodes yields one signal for every condition that is True and
    carries the connector's marker, named after its node, and nothing else; the
    result is sorted by node and check, so that polls compare. *)
Lemma collect_nodes_spec (nodes : list Node) :
  Sorted signal_less (collect_nodes nodes) ∧
  ∀ sig, sig ∈ collect_nodes nodes ↔
    ∃ node cond s, node ∈ nodes ∧ cond ∈ n_Conditions node ∧ nc_Status cond = "True" ∧
      Parse (nc_Type cond) (nc_Message cond) = Some s ∧ sig = set_node s (n_Name node).
Proof.
  split; [apply Sorted_sort_by; apply _|]. intros sig. unfold collect_nodes.
  rewrite elem_of_sort_by, list_elem_of_bind. unfold condition_signals. split.
  - intros (node & Hs & Hn). apply list_elem_of_omap in Hs as (cond & Hc & Hp).
    case_decide; [|done]. apply fmap_Some in Hp as (s & Hp & ->). naive_solver.
  - intros (node & cond & s & Hn & Hc & Ht & Hp & ->). exists node. split; [|done].
    apply list_elem_of_omap. exists cond. split; [done|]. rewrite decide_True by done.
    by rewrite Hp.
Qed.
