(* ===== verification/Extrr.v ===== *)
(** * ExternalRemediationRequests (internal/signal/extrr)

    Requests are read as unstructured objects: JSON values with the accessors of
    apimachinery, which are operations of [KubeLib]. [Parse] decodes the health
    event, [Pending] tells whether a request is the operator's to act on,
    [Collect] is the source and [Answer] writes the outcome back. *)

From S2P Require Import Prelude GoStrings Signal Kube KubeModel.
Open Scope stdpp_scope.

Definition request_gvk : GroupVersionKind :=
  MkGVK "nvsentinel.dgxc.nvidia.com" "v1" "ExternalRemediationRequest".

Definition ConditionOwnershipReleased := "NVSentinelOwnershipReleased".
Definition ConditionComplete := "ExternalRemediationComplete".
Definition gpuUUIDEntity := "GPU_UUID".

Definition actionNames : gmap Z string := list_to_map [
  (0, ActionNone); (2, ActionComponentReset); (5, ActionContactSupport);
  (6, ActionRunFieldDiag); (15, ActionRestartVM); (24, ActionRestartBM);
  (25, ActionReplaceVM); (26, ActionRunDCGMEUD); (27, ActionCustom); (99, ActionUnknown)]%Z.

Definition numberedAction (v : Z) : string := default ActionUnknown (actionNames !! v).

Definition min_int64 : Z := (-9223372036854775808)%Z.
Definition max_int64 : Z := 9223372036854775807%Z.

(** [v == math.Trunc(v)]: NaN equals nothing; an infinity is its own truncation. *)
Definition is_integral (v : float64) : bool :=
  match v with
  | FFinite m e => if (0 <=? e)%Z then true else (m mod 2 ^ (- e) =? 0)%Z
  | FInf _ => true
  | FNaN => false
  end.

(** [int64(v)] of an integral [v]. Out of the range of int64, where Go leaves
    the result to the implementation, it is amd64's; no action is numbered so. *)
Definition to_int64 (v : float64) : Z :=
  match v with
  | FFinite m e =>
      let n := (if (0 <=? e)%Z then m * 2 ^ e else m / 2 ^ (- e))%Z in
      if ((min_int64 <=? n) && (n <=? max_int64))%Z then n else min_int64
  | _ => min_int64
  end.

(** Go's [x, _, _ := f()]: the zero value where there is an error. *)
Definition or_empty (r : result error string) : string :=
  match r with Ok s => s | Err _ => "" end.

Section extrr.
Context `{KubeLib}.

Definition recommendedAction (event : gomap) : option string :=
  let name :=
    match field event "recommendedAction" with
    | Some (VString s) => Some s
    | Some (VInt n) => Some (numberedAction n)
    | Some (VFloat f) => Some (if is_integral f then numberedAction (to_int64 f) else ActionUnknown)
    | _ => None
    end in
  match name with
  | None => None
  | Some name =>
      let custom := or_empty (NestedString event ["customRecommendedAction"]) in
      if bool_decide (name = ActionCustom) && bool_decide (custom ≠ "") then Some custom
      else if decide (name = "") then None else Some name
  end.

Definition gpuUUIDs (event : gomap) : list string :=
  omap (fun e =>
    match e with
    | VMap entity =>
        if field_is entity "entityType" gpuUUIDEntity then
          match field entity "entityValue" with
          | Some (VString v) => if decide (v = "") then None else Some v
          | _ => None
          end
        else None
    | _ => None
    end) (as_list (field event "entitiesImpacted")).

Definition Parse (obj : Unstructured) : option Signal :=
  let event := as_map (NestedFieldNoCopy (u_Object obj) ["spec"; "healthEvent"]) in
  let node := or_empty (NestedString event ["nodeName"]) in
  if decide (node = "") then None
  else
    let check := or_empty (NestedString event ["checkName"]) in
    let check := if decide (check = "") then u_Name obj else check in
    let id := or_empty (NestedString event ["id"]) in
    let codes := NestedStringSlice event ["errorCode"] in
    let actions := match recommendedAction event with Some a => [a] | None => [] end in
    Some (MkSignal OriginExternalRemediationRequest node check id actions codes
            (gpuUUIDs event) false (u_Name obj)).

Definition condition_list (obj : Unstructured) : list value :=
  as_list (NestedFieldNoCopy (u_Object obj) ["status"; "conditions"]).

(** The loop of [ConditionStatus]. *)
Fixpoint find_status (conditions : list value) (conditionType : string) : string :=
  match conditions with
  | [] => ""
  | VMap condition :: rest =>
      if field_is condition "type" conditionType then as_string (field condition "status")
      else find_status rest conditionType
  | _ :: rest => find_status rest conditionType
  end.

Definition ConditionStatus (obj : Unstructured) (conditionType : string) : string :=
  find_status (condition_list obj) conditionType.

Definition Answered (obj : Unstructured) : bool :=
  let status := ConditionStatus obj ConditionComplete in
  bool_decide (status = "True") || bool_decide (status = "False").

Definition Pending (obj : Unstructured) : bool :=
  match u_DeletionTimestamp obj with Some _ => false | None => true end
  && bool_decide (ConditionStatus obj ConditionOwnershipReleased = "True")
  && negb (Answered obj).

(** ** The source *)

Definition request_less : relation Signal :=
  by_keys (fun s => [sig_Node s; sig_Check s; sig_Request s]).

Definition collect_requests (items : list Unstructured) : list Signal :=
  sort_by request_less (omap Parse (filter (fun obj => Pending obj = true) items)).

Context {W R : Type} `{API W}.

Definition Collect (cluster : ObjectKey) : state (Sys W R) (result error (list Signal)) :=
  r ← call (ListRequests cluster);
  match r with
  | Err e => mret (Err (EWrap ("list " +:+ gvk_Kind request_gvk) e))
  | Ok items => mret (Ok (collect_requests items))
  end.

Definition SourceName := "ExternalRemediationRequest".

Definition NewSource (cluster : ObjectKey) : Source (state (Sys W R)) error :=
  MkSource SourceName (Collect cluster).

(** ** Answering *)

Definition get_prefix (name : string) : string :=
  "get " +:+ gvk_Kind request_gvk +:+ " " +:+ name.

Definition IsPending (cluster : ObjectKey) (name : string) : state (Sys W R) (result error bool) :=
  r ← call (GetRequest cluster name);
  match r with
  | Err e => mret (if IsNotFound e then Ok false else Err (EWrap (get_prefix name) e))
  | Ok obj => mret (Ok (Pending obj))
  end.

Definition answer_condition (complete : bool) (reason message : string) (now generation : Z) : value :=
  VMap [("type", VString ConditionComplete);
        ("status", VString (if complete then "True" else "False"));
        ("reason", VString reason);
        ("message", VString message);
        ("lastTransitionTime", VString (FormatRFC3339 now));
        ("observedGeneration", VInt generation)].

Definition is_complete_condition (cond : value) : bool :=
  match cond with VMap condition => field_is condition "type" ConditionComplete | _ => false end.

(** The loop of [Answer]: every condition of the type is replaced, or the
    answer is appended when there is none. *)
Definition replace_condition (conditions : list value) (answer : value) : list value :=
  let conditions' := (fun c => if is_complete_condition c then answer else c) <$> conditions in
  if existsb is_complete_condition conditions then conditions' else conditions' ++ [answer].

Definition answered_object (obj : Unstructured) (complete : bool) (reason message : string) (now : Z) :
    Unstructured :=
  let answer := answer_condition complete reason message now (u_Generation obj) in
  let conditions := NestedSlice (u_Object obj) ["status"; "conditions"] in
  set_object obj (SetNestedSlice (u_Object obj) (replace_condition conditions answer)
                    ["status"; "conditions"]).

Definition Answer (cluster : ObjectKey) (name : string) (complete : bool) (reason message : string) :
    state (Sys W R) (result error bool) :=
  r ← call (GetRequest cluster name);
  match r with
  | Err e => mret (if IsNotFound e then Ok false else Err (EWrap (get_prefix name) e))
  | Ok obj =>
      if negb (Pending obj) then mret (Ok false)
      else
        now ← call Now;
        let updated := answered_object obj complete reason message now in
        emit (PatchRequestStatus cluster obj updated);;
        p ← call (SendPatchRequestStatus cluster obj updated);
        match p with
        | Err e => mret (Err (EWrap ("answer " +:+ gvk_Kind request_gvk +:+ " " +:+ name) e))
        | Ok _ => mret (Ok true)
        end
  end.
End extrr.

(** ** Properties *)

Section facts.
Context `{KubeLib}.

Lemma Pending_spec obj :
  Pending obj = true ↔ u_DeletionTimestamp obj = None ∧
    ConditionStatus obj ConditionOwnershipReleased = "True" ∧ Answered obj = false.
Proof.
  unfold Pending. rewrite !andb_true_iff, negb_true_iff, bool_decide_eq_true.
  destruct (u_DeletionTimestamp obj); naive_solver.
Qed.

Lemma field_is_unique m k a b : field_is m k a = true → field_is m k b = true → a = b.
Proof.
  unfold field_is. destruct (field m k) as [[]|]; try done.
  rewrite !bool_decide_eq_true. congruence.
Qed.

Lemma find_status_replaced cs ans t :
  t ≠ ConditionComplete → is_complete_condition ans = true →
  find_status ((fun c => if is_complete_condition c then ans else c) <$> cs) t = find_status cs t.
Proof.
  intros Ht Hans.
  assert (Hskip : ∀ c rest, is_complete_condition c = true →
    find_status (c :: rest) t = find_status rest t).
  { intros c rest Hc. destruct c; try done. simpl in *.
    destruct (field_is m "type" t) eqn:E; [|done].
    destruct Ht. by eapply field_is_unique. }
  induction cs as [|c cs IH]; [done|]. rewrite fmap_cons.
  destruct (is_complete_condition c) eqn:Hc.
  - by rewrite !Hskip.
  - destruct c; simpl; try done. by rewrite IH.
Qed.

Lemma find_status_app cs ans t :
  is_complete_condition ans = true → t ≠ ConditionComplete →
  find_status (cs ++ [ans]) t = find_status cs t.
Proof.
  intros Hans Ht. induction cs as [|c cs IH]; simpl.
  - destruct ans; try done. simpl in Hans. destruct (field_is m "type" t) eqn:E; [|done].
    destruct Ht. by eapply field_is_unique.
  - destruct c; try done. by rewrite IH.
Qed.

Lemma find_status_replace_other cs ans t :
  t ≠ ConditionComplete → is_complete_condition ans = true →
  find_status (replace_condition cs ans) t = find_status cs t.
Proof.
  intros. unfold replace_condition. destruct (existsb _ cs).
  - by apply find_status_replaced.
  - rewrite find_status_app by done. by apply find_status_replaced.
Qed.

Lemma find_status_replace_complete cs complete reason message now gen :
  find_status (replace_condition cs (answer_condition complete reason message now gen))
    ConditionComplete = if complete then "True" else "False".
Proof.
  set (ans := answer_condition _ _ _ _ _).
  assert (Ha : ∀ rest, find_status (ans :: rest) ConditionComplete = if complete then "True" else "False")
    by (intros; by destruct complete).
  unfold replace_condition. induction cs as [|c cs IH]; [apply Ha|].
  cbn [existsb]. destruct (is_complete_condition c) eqn:Hc.
  - rewrite fmap_cons, Hc. apply Ha.
  - rewrite fmap_cons, Hc. simpl orb. destruct (existsb _ cs); cbn [app find_status];
      destruct c; try exact IH; simpl in Hc; by rewrite Hc.
Qed.

Lemma pending_conditions `{!KubeLaws} obj :
  Pending obj = true → ∃ status conditions,
    field (u_Object obj) "status" = Some (VMap status) ∧ field status "conditions" = Some (VList conditions).
Proof.
  intros (_ & Hrel & _)%Pending_spec. unfold ConditionStatus, condition_list in Hrel.
  rewrite nested_field_two in Hrel. destruct (field (u_Object obj) "status") as [[| | | | | |status]|]; try done.
  exists status. destruct (field status "conditions") as [[| | | | |conditions|]|] eqn:E; try done. by exists conditions.
Qed.

Lemma condition_list_answered `{!KubeLaws} obj complete reason message now :
  Pending obj = true →
  condition_list (answered_object obj complete reason message now) =
    replace_condition (condition_list obj)
      (answer_condition complete reason message now (u_Generation obj)).
Proof.
  intros (m & _ & Hm & _)%pending_conditions.
  unfold condition_list, answered_object. simpl.
  rewrite nested_slice_field. by rewrite (set_nested_slice_two _ m).
Qed.

(** A condition of a type, as the API server stores it. *)
Definition of_type (t : string) (c : value) : Prop := ∃ m, c = VMap m ∧ field m "type" = Some (VString t).

Lemma complete_condition_iff c : is_complete_condition c = true ↔ of_type "ExternalRemediationComplete" c.
Proof.
  unfold of_type, is_complete_condition, field_is. destruct c as [| | | | | |m]; try naive_solver.
  destruct (field m "type") as [[]|] eqn:E; rewrite ?bool_decide_eq_true; split; try naive_solver.
Qed.

(** What is left of a list of conditions after the answer: every answer there was is
    replaced, or one is added at the end when there was none; all others are as they
    were, each in its place. *)
Definition answer_replaces (ans : value) (conditions conditions' : list value) : Prop :=
  (∀ i c, conditions !! i = Some c → ¬ of_type "ExternalRemediationComplete" c → conditions' !! i = Some c) ∧
  (∀ i c, conditions !! i = Some c → of_type "ExternalRemediationComplete" c → conditions' !! i = Some ans) ∧
  ∀ i c, length conditions ≤ i →
    conditions' !! i = Some c ↔ c = ans ∧ i = length conditions ∧ Forall (fun c => ¬ of_type "ExternalRemediationComplete" c) conditions.

Lemma replace_condition_spec conditions ans : answer_replaces ans conditions (replace_condition conditions ans).
Proof.
  unfold replace_condition. set (f := fun c => _). set (cs := f <$> conditions).
  assert (Hlen : length cs = length conditions) by apply length_fmap.
  assert (Hex : existsb is_complete_condition conditions = false ↔
    Forall (fun c => ¬ of_type "ExternalRemediationComplete" c) conditions).
  { rewrite Forall_forall, <- not_true_iff_false, existsb_exists. setoid_rewrite <- list_elem_of_In.
    setoid_rewrite complete_condition_iff. naive_solver. }
  assert (Hin : ∀ i c, conditions !! i = Some c → (if existsb is_complete_condition conditions then cs else cs ++ [ans]) !! i = Some (f c)).
  { intros i c Hi. assert (cs !! i = Some (f c)) as Hcs by (subst cs; by rewrite list_lookup_fmap, Hi).
    destruct (existsb _ _); [done|]. by apply lookup_app_l_Some. }
  subst f. split_and!.
  - intros i c Hi Hc. rewrite (Hin i c Hi). rewrite <- complete_condition_iff in Hc. by destruct (is_complete_condition c).
  - intros i c Hi Hc. rewrite (Hin i c Hi). apply complete_condition_iff in Hc. by rewrite Hc.
  - intros i c Hi. rewrite <- Hex. destruct (existsb _ _).
    + rewrite lookup_ge_None_2 by lia. naive_solver.
    + rewrite lookup_app_r, Hlen by lia. destruct (i - length conditions) as [|n] eqn:E; simpl.
      * split; [intros [= ->]; split_and!; [done|lia|done]|by intros (-> & _)].
      * split; [done|intros (_ & -> & _); lia].
Qed.

(** C25: an answer is given once and touches nothing else. Answering a pending request
    makes its completion condition the outcome, with the reason and the message, so that
    the request is no longer pending. Every other condition stays whole and in its place,
    and so do every other field of the status, every other part of the object, such as the
    spec, and the metadata. *)
Theorem answer_completes_request `{!KubeLaws} `{!SetNestedSliceLaws} (obj : Unstructured) (complete : bool)
    (reason message : string) (now : Z) (Hpending : Pending obj = true) :
  let obj' := answered_object obj complete reason message now in
  Pending obj' = false ∧ Answered obj' = true ∧
  (∀ t, ConditionStatus obj' t = if decide (t = ConditionComplete) then if complete then "True" else "False"
                                else ConditionStatus obj t) ∧
  (∃ status status' conditions conditions' ans,
     field (u_Object obj) "status" = Some (VMap status) ∧ field (u_Object obj') "status" = Some (VMap status') ∧
     field status "conditions" = Some (VList conditions) ∧ field status' "conditions" = Some (VList conditions') ∧
     answer_replaces (VMap ans) conditions conditions' ∧
     field ans "type" = Some (VString "ExternalRemediationComplete") ∧
     field ans "status" = Some (VString (if complete then "True" else "False")) ∧
     field ans "reason" = Some (VString reason) ∧ field ans "message" = Some (VString message) ∧
     ∀ k, k ≠ "conditions" → field status' k = field status k) ∧
  (∀ k, k ≠ "status" → field (u_Object obj') k = field (u_Object obj) k) ∧
  u_Namespace obj' = u_Namespace obj ∧ u_Name obj' = u_Name obj ∧ u_UID obj' = u_UID obj ∧
  u_Generation obj' = u_Generation obj ∧ u_DeletionTimestamp obj' = u_DeletionTimestamp obj ∧
  u_Labels obj' = u_Labels obj ∧ u_Annotations obj' = u_Annotations obj.
Proof.
  intros obj'.
  assert (Hs : ∀ t, ConditionStatus obj' t = find_status (replace_condition (condition_list obj)
      (answer_condition complete reason message now (u_Generation obj))) t)
    by (intros t; unfold ConditionStatus; by rewrite <- condition_list_answered).
  assert (Hc : ConditionStatus obj' ConditionComplete = if complete then "True" else "False")
    by (rewrite Hs; apply find_status_replace_complete).
  assert (Hans : Answered obj' = true) by (unfold Answered; rewrite Hc; by destruct complete).
  split_and!; [unfold Pending; by rewrite Hans, andb_false_r|done| | | |reflexivity..].
  - intros t. case_decide as Ht; [by rewrite Ht|]. rewrite Hs. by apply find_status_replace_other.
  - destruct (pending_conditions obj Hpending) as (status & conditions & Hst & Hcs).
    destruct (set_nested_slice_sets (u_Object obj) status (replace_condition conditions
      (answer_condition complete reason message now (u_Generation obj))) "status" "conditions" Hst)
      as (status' & Hst' & Hcs' & Hk & _).
    exists status, status', conditions. eexists _, _.
    split_and!; [done| |done|exact Hcs'|apply replace_condition_spec|reflexivity..|done].
    subst obj'. unfold answered_object. simpl. by rewrite nested_slice_field, nested_field_two, Hst, Hcs.
  - intros k Hk. destruct (pending_conditions obj Hpending) as (status & conditions & Hst & _).
    destruct (set_nested_slice_sets (u_Object obj) status (replace_condition
      (NestedSlice (u_Object obj) ["status"; "conditions"])
      (answer_condition complete reason message now (u_Generation obj))) "status" "conditions" Hst)
      as (_ & _ & _ & _ & Hrest). by apply Hrest.
Qed.

Lemma pending_answered `{!KubeLaws} obj complete reason message now :
  Pending obj = true → Pending (answered_object obj complete reason message now) = false.
Proof.
  intros Hpend. unfold Pending, Answered, ConditionStatus. rewrite condition_list_answered by done.
  rewrite find_status_replace_complete. destruct complete; by rewrite andb_false_r.
Qed.

(** The two forms a template may render are read alike. An action given by
    its number in NVSentinel's enum, as an integer or as a float of that value,
    decodes to the same recommended action as its name, custom names included. *)
Lemma action_number_and_name_agree (n : Z) (a : string) (v : value) (ev1 ev2 : gomap)
    (Hname : actionNames !! n = Some a)
    (Hform : v = VInt n ∨ ∃ m e, v = VFloat (FFinite m e) ∧
       (if (0 <=? e)%Z then m * 2 ^ e = n else m = n * 2 ^ (- e))%Z)
    (H1 : field ev1 "recommendedAction" = Some v)
    (H2 : field ev2 "recommendedAction" = Some (VString a))
    (Hcustom : NestedString ev1 ["customRecommendedAction"] =
               NestedString ev2 ["customRecommendedAction"]) :
  recommendedAction ev1 = recommendedAction ev2.
Proof.
  unfold recommendedAction. rewrite H1, H2, Hcustom.
  assert (Hnum : numberedAction n = a) by (unfold numberedAction; by rewrite Hname).
  destruct Hform as [->|(m & e & -> & Hv)]; [by rewrite Hnum|].
  assert (Hr : (min_int64 <= n <= max_int64)%Z).
  { assert (map_Forall (fun k _ => (0 <= k <= 99)%Z) actionNames) as HF
      by (apply (bool_decide_unpack _); vm_compute; exact I).
    specialize (HF _ _ Hname). unfold min_int64, max_int64. simpl in HF. lia. }
  assert (Hpow : (e < 0 → 2 ^ (- e) ≠ 0)%Z) by (intros; apply Z.pow_nonzero; lia).
  assert (is_integral (FFinite m e) = true ∧ to_int64 (FFinite m e) = n) as [Hi Ht].
  { simpl. destruct (Z.leb_spec 0 e) as [He|He].
    - rewrite Hv. split; [done|]. rewrite !(proj2 (Z.leb_le _ _)) by lia. done.
    - subst m. rewrite Z.mod_mul, Z.div_mul by auto. split; [done|].
      rewrite !(proj2 (Z.leb_le _ _)) by lia. done. }
  cbv zeta. rewrite Hi, Ht, Hnum. done.
Qed.

(** What the request says of a condition type: the status of the first condition of it. *)
Definition says (obj : Unstructured) (t status : string) : Prop :=
  ∃ l1 c l2, nested_field (u_Object obj) ["status"; "conditions"] = Some (VList (l1 ++ VMap c :: l2)) ∧
    Forall (fun v => ¬ of_type t v) l1 ∧ field c "type" = Some (VString t) ∧ field c "status" = Some (VString status).

Lemma find_status_says cs t status :
  status ≠ "" → find_status cs t = status ↔ ∃ l1 c l2, cs = l1 ++ VMap c :: l2 ∧
    Forall (fun v => ¬ of_type t v) l1 ∧ field c "type" = Some (VString t) ∧ field c "status" = Some (VString status).
Proof.
  intros Hne. assert (Hf : ∀ c, field_is c "type" t = true ↔ field c "type" = Some (VString t)).
  { intros c. unfold field_is. destruct (field c "type") as [[]|]; rewrite ?bool_decide_eq_true; naive_solver. }
  induction cs as [|v cs IH]; cbn [find_status].
  { split; [congruence|]. intros (l1 & c & l2 & Heq & _). by destruct l1. }
  assert (Hskip : ¬ of_type t v → (∃ l1 c l2, cs = l1 ++ VMap c :: l2 ∧
    Forall (fun v => ¬ of_type t v) l1 ∧ field c "type" = Some (VString t) ∧ field c "status" = Some (VString status)) ↔
    ∃ l1 c l2, v :: cs = l1 ++ VMap c :: l2 ∧
    Forall (fun v => ¬ of_type t v) l1 ∧ field c "type" = Some (VString t) ∧ field c "status" = Some (VString status)).
  { intros Hv. split.
    - intros (l1 & c & l2 & -> & Hl & Hc & Hs). exists (v :: l1), c, l2. split_and!; [done|by constructor|done..].
    - intros ([|v' l1] & c & l2 & Heq & Hl & Hc & Hs); simplify_eq/=; [destruct Hv; by exists c|].
      apply Forall_cons in Hl as [_ Hl]. by exists l1, c, l2. }
  destruct v as [| | | | | |m]; try (rewrite IH; apply Hskip; by intros (? & ? & ?)).
  destruct (field_is m "type" t) eqn:Em.
  - apply Hf in Em. split.
    + intros Hst. exists [], m, cs. split_and!; [done|constructor|done|].
      destruct (field m "status") as [[]|]; simpl in Hst; congruence.
    + intros ([|v' l1] & c & l2 & Heq & Hl & Hc & Hs); simplify_eq/=; [by rewrite Hs|].
      apply Forall_cons in Hl as [[] _]. by exists m.
  - rewrite IH. apply Hskip. intros (m' & [= <-] & Hm). apply Hf in Hm. congruence.
Qed.

Lemma condition_status_says `{!KubeLaws} obj t status : status ≠ "" → ConditionStatus obj t = status ↔ says obj t status.
Proof.
  intros Hne. unfold ConditionStatus, condition_list, says. rewrite nested_field_two. cbn [nested_field].
  destruct (field (u_Object obj) "status") as [[| | | | | |m]|];
    try (split; [simpl; congruence|intros (?&?&?&?&_); congruence]).
  destruct (field m "conditions") as [[| | | | |cs|]|];
    try (split; [simpl; congruence|intros (?&?&?&?&_); congruence]).
  simpl. rewrite find_status_says by done. split; intros (l1 & c & l2 & Heq & H'); exists l1, c, l2; naive_solver congruence.
Qed.

(** The request waits for the operator: NVSentinel released the node to it, it has no
    answer, and it is not being deleted. *)
Definition request_waits (obj : Unstructured) : Prop :=
  u_DeletionTimestamp obj = None ∧ says obj "NVSentinelOwnershipReleased" "True" ∧
  ¬ says obj "ExternalRemediationComplete" "True" ∧ ¬ says obj "ExternalRemediationComplete" "False".

Lemma Pending_request_waits `{!KubeLaws} obj : Pending obj = true ↔ request_waits obj.
Proof.
  rewrite Pending_spec. unfold request_waits, Answered. rewrite <- !condition_status_says by done.
  rewrite orb_false_iff, !bool_decide_eq_false. done.
Qed.

(** A string of the request's health event. *)
Definition event_says (obj : Unstructured) (key s : string) : Prop :=
  nested_field (u_Object obj) ["spec"; "healthEvent"; key] = Some (VString s).

Lemma event_field `{!KubeLaws} obj key s :
  event_says obj key s → let event := as_map (NestedFieldNoCopy (u_Object obj) ["spec"; "healthEvent"]) in
  field event key = Some (VString s) ∧ NestedString event [key] = Ok s.
Proof.
  unfold event_says. intros Hs. cbv zeta. set (event := as_map _). enough (field event key = Some (VString s)) as Hf.
  { split; [done|]. by apply nested_string_field. }
  subst event. rewrite nested_field_two. cbn [nested_field] in Hs.
  destruct (field (u_Object obj) "spec") as [[| | | | | |m]|]; try done.
  destruct (field m "healthEvent") as [[| | | | | |m']|]; done.
Qed.

(** The signal carries what the request says: its node, its name, its check, or its name
    where it says none, and the action it recommends by name. *)
Definition signals (obj : Unstructured) (sig : Signal) : Prop :=
  sig_Origin sig = OriginExternalRemediationRequest ∧ sig_Request sig = u_Name obj ∧ sig_Truncated sig = false ∧
  (∀ node, event_says obj "nodeName" node → sig_Node sig = node) ∧
  (∀ check, event_says obj "checkName" check → check ≠ "" → sig_Check sig = check) ∧
  (event_says obj "checkName" "" ∨ nested_field (u_Object obj) ["spec"; "healthEvent"; "checkName"] = None →
     sig_Check sig = u_Name obj) ∧
  ∀ a, event_says obj "recommendedAction" a → a ≠ "" → a ≠ ActionCustom → sig_Actions sig = [a].

Lemma event_missing `{!KubeLaws} `{!NestedStringLaws} obj key :
  nested_field (u_Object obj) ["spec"; "healthEvent"; key] = None →
  NestedString (as_map (NestedFieldNoCopy (u_Object obj) ["spec"; "healthEvent"])) [key] = Ok "".
Proof.
  intros Hs. apply nested_string_missing. rewrite nested_field_two. cbn [nested_field] in *.
  destruct (field (u_Object obj) "spec") as [[| | | | | |m]|]; try done.
  by destruct (field m "healthEvent") as [[| | | | | |m']|].
Qed.

Lemma parse_signals `{!KubeLaws} `{!NestedStringLaws} obj sig : Parse obj = Some sig → sig_Node sig ≠ "" ∧ signals obj sig.
Proof.
  unfold Parse. case_decide as Hn; [done|]. intros [= <-]. split; [done|]. unfold signals. simpl.
  split_and!; [done..| | | |].
  - intros node [_ Hs]%event_field. by rewrite Hs.
  - intros check [_ Hs]%event_field Hne. rewrite Hs. simpl. by rewrite decide_False.
  - by intros [[_ Hs]%event_field|Hs%event_missing]; rewrite Hs.
  - intros a [Hs _]%event_field Hne Hcu. unfold recommendedAction. rewrite Hs.
    rewrite bool_decide_eq_false_2 by done. simpl. by rewrite decide_False.
Qed.


Context {W R : Type} `{API W}.

(** What an answer of request [name] may send. *)
Definition answer_effect (cluster : ObjectKey) (complete : bool) (reason message : string)
    (e : Effect) : Prop :=
  ∃ obj now, e = PatchRequestStatus cluster obj (answered_object obj complete reason message now) ∧
    Pending obj = true.

Lemma answer_spec cluster name complete reason message :
  spec (W:=W) (R:=R) (answer_effect cluster complete reason message)
    (Answer cluster name complete reason message) (fun _ => True).
Proof.
  unfold Answer. eapply spec_bind; [apply spec_call|]. intros [obj|e] _; [|by apply spec_ret].
  destruct (Pending obj) eqn:Hp; [|by apply spec_ret]. simpl.
  eapply spec_bind; [apply spec_call|]. intros now _.
  eapply spec_bind; [apply spec_emit; by exists obj, now|]. intros _ _.
  eapply spec_bind; [apply spec_call|]. intros [|e] _; by apply spec_ret.
Qed.
End facts.

(** ** Witnesses *)

Definition sample_condition (type status : string) : value :=
  VMap [("type", VString type); ("status", VString status)].

Definition sample_event (action : value) : gomap :=
  [("nodeName", VString "node-1"); ("checkName", VString "SysLogsXIDError");
   ("recommendedAction", action);
   ("entitiesImpacted", VList [VMap [("entityType", VString "GPU_UUID");
                                     ("entityValue", VString "GPU-b5f21324")]])].

Definition sample_request (name : string) (action : value) : Unstructured :=
  MkUnstructured "" name "uid" 1 None ∅ ∅
    [("spec", VMap [("healthEvent", VMap (sample_event action))]);
     ("status", VMap [("conditions", VList [
        sample_condition ConditionOwnershipReleased "True";
        sample_condition ConditionComplete "Unknown"])])].

#[local] Existing Instance lib.
#[local] Existing Instance lib_laws.

#[local] Existing Instance lib_slice_laws.
#[local] Existing Instance lib_string_laws.

Lemma answer_completes_request_witness :
  let obj := sample_request "req-1" (VInt 24) in
  let obj' := answered_object obj true "Restarted" "node restarted" 0 in
  Pending obj = true ∧ Pending obj' = false ∧ field (u_Object obj') "spec" = field (u_Object obj) "spec".
Proof.
  assert (Pending (sample_request "req-1" (VInt 24)) = true) as Hp by (vm_compute; reflexivity).
  destruct (answer_completes_request (sample_request "req-1" (VInt 24)) true "Restarted" "node restarted" 0 Hp)
    as (Hn & _ & _ & _ & Hk & _).
  split; [exact Hp|]. split; [exact Hn|]. apply Hk. discriminate.
Defined.

Lemma sample_request_waits : request_waits (sample_request "req-1" (VInt 24)).
Proof. apply Pending_request_waits. vm_compute. reflexivity. Qed.


Lemma action_number_and_name_agree_witness :
  recommendedAction (sample_event (VFloat (FFinite 3 3))) =
  recommendedAction (sample_event (VString ActionRestartBM)).
Proof.
  apply (action_number_and_name_agree 24 ActionRestartBM (VFloat (FFinite 3 3))).
  - reflexivity.
  - right. exists 3%Z, 3%Z. split; reflexivity.
  - reflexivity.
  - reflexivity.
  - reflexivity.
Defined.

Example parse_sample_request :
  Parse (sample_request "req-1" (VInt 24)) =
  Some (MkSignal OriginExternalRemediationRequest "node-1" "SysLogsXIDError" "" ["RESTART_BM"] []
          ["GPU-b5f21324"] false "req-1").
Proof. vm_compute. reflexivity. Qed.
