(* ===== verification/Capi.v ===== *)
(** * Acting on Machines (internal/capi)

    The guards that leave a Machine alone, the coverage that tells what marking
    it does, the marks themselves and the Events that record them. An Actuator is
    its DryRun setting: its client is the [API] and its recorder the trace. A
    Machine Go updates in place is returned next to the result. *)

From S2P Require Import Prelude GoStrings Kube KubeModel.
Open Scope stdpp_scope.

(** ** capi.go *)

Definition AnnotationPrefix := "nvsentinel.petasus.io".
Definition RemediationReasonAnnotation := "nvsentinel.petasus.io/remediation-reason".
Definition RemediationActionAnnotation := "nvsentinel.petasus.io/remediation-action".
Definition RemediationBootIDAnnotation := "nvsentinel.petasus.io/remediation-boot-id".
Definition RemediationRequestAnnotation := "nvsentinel.petasus.io/remediation-request".

Definition ActionRemediate := "Remediate".
Definition ActionRestart := "Restart".
Definition EventMarkedForRemediation := "MarkedForRemediation".
Definition EventRemediationSkipped := "RemediationSkipped".
Definition EventRemediationReleased := "RemediationReleased".

Definition EventNoteLimit : nat := 1024.
Definition note_marker := "...".

(** [utf8.RuneStart]: not a continuation byte. *)
Definition RuneStart (c : ascii) : bool := negb ((128 <=? byte_val c) && (byte_val c <? 192)).

(** The loop of [EventNote]: back to the start of the rune [cut] is in. *)
Fixpoint rune_cut (note : list ascii) (cut : nat) : nat :=
  match cut with
  | 0 => 0
  | S cut' =>
      match note !! cut with
      | Some c => if RuneStart c then cut else rune_cut note cut'
      | None => cut
      end
  end.

Definition EventNote (note : string) : string :=
  if decide (len note ≤ EventNoteLimit) then note
  else
    let cut := rune_cut (bytes note) (EventNoteLimit - len note_marker) in
    of_bytes (take cut (bytes note)) +:+ note_marker.

(** ** guard.go *)

Inductive SkipReason : Type :=
| SkipDeleting | SkipAlreadyMarked | SkipControlPlane | SkipPaused | SkipOptedOut | SkipEarlierMark.

#[export] Instance skip_reason_eq_dec : EqDecision SkipReason.
Proof. solve_decision. Defined.

Definition skip_string (s : SkipReason) : string :=
  match s with
  | SkipDeleting => "MachineDeleting"
  | SkipAlreadyMarked => "AlreadyMarkedForRemediation"
  | SkipControlPlane => "ControlPlaneMachine"
  | SkipPaused => "MachinePaused"
  | SkipOptedOut => "MachineOptedOutOfRemediation"
  | SkipEarlierMark => "EarlierRemediationNotCleared"
  end.

Definition Message (s : SkipReason) : string :=
  match s with
  | SkipDeleting => "the Machine is already being deleted"
  | SkipAlreadyMarked => "the Machine is already marked for remediation"
  | SkipControlPlane => "the Machine is a control plane member"
  | SkipPaused => "the Machine is paused"
  | SkipOptedOut => "the Machine has opted out of remediation"
  | SkipEarlierMark => "the MachineHealthChecks still show the mark the Machine carried before"
  end.

Definition InProgress (s : SkipReason) : bool :=
  match s with SkipDeleting | SkipAlreadyMarked => true | _ => false end.

Definition has_key (m : gmap string string) (k : string) : bool := bool_decide (is_Some (m !! k)).

(** [m[k]] of a map[string]string. *)
Definition get (m : gmap string string) (k : string) : string := default "" (m !! k).

Section capi.
Context `{KubeLib}.

Definition IsControlPlane (m : Machine) : bool := has_key (m_Labels m) MachineControlPlaneLabel.
Definition IsMarkedForRemediation (m : Machine) : bool :=
  has_key (m_Annotations m) RemediateMachineAnnotation.
Definition IsPaused (m : Machine) : bool := has_key (m_Annotations m) PausedAnnotation.
Definition IsOptedOut (m : Machine) : bool :=
  has_key (m_Annotations m) MachineSkipRemediationAnnotation.

(** [None] is Go's zero SkipReason: the Machine may be remediated. *)
Definition Guard (m : Machine) : option SkipReason :=
  if m_Deleting m then Some SkipDeleting
  else if IsMarkedForRemediation m then Some SkipAlreadyMarked
  else if IsControlPlane m then Some SkipControlPlane
  else if IsPaused m then Some SkipPaused
  else if IsOptedOut m then Some SkipOptedOut
  else None.

Definition EarlierMarkPending (m : Machine) : bool :=
  if IsMarkedForRemediation m then false
  else match FindStatusCondition (m_Conditions m) MachineHealthCheckSucceededCondition with
       | Some c => bool_decide (c_Status c = "False")
           && bool_decide (c_Reason c = MachineHealthCheckHasRemediateAnnotationReason)
       | None => false
       end.

(** ** coverage.go *)

Record CoveringCheck : Type := MkCheck {
  cc_Name : string;
  cc_Template : option TemplateRef;
  cc_Paused : bool
}.

Record Coverage : Type := MkCoverage { Checks : list CoveringCheck }.

Definition Covered (c : Coverage) : bool := existsb (fun check => negb (cc_Paused check)) (Checks c).

Definition TemplatesOnly (c : Coverage) : bool :=
  Covered c && forallb (fun check => match cc_Template check with Some _ => true | None => false end)
                 (Checks c).

Definition IgnoringPause (c : Coverage) : Coverage :=
  MkCoverage ((fun check => MkCheck (cc_Name check) (cc_Template check) false) <$> Checks c).

Definition describe_check (check : CoveringCheck) : string :=
  let how := match cc_Template check with
             | Some t => "remediates through " +:+ tr_Kind t +:+ " " +:+ tr_Name t
             | None => "remediates by replacement"
             end in
  let how := if cc_Paused check then how +:+ " (paused)" else how in
  "MachineHealthCheck " +:+ cc_Name check +:+ " " +:+ how.

Definition Describe (c : Coverage) : string :=
  match Checks c with
  | [] => "no MachineHealthCheck selects the Machine"
  | checks => Join (describe_check <$> checks) "; "
  end.

(** Whether a MachineHealthCheck selects the Machine. *)
Definition selects (mhc : MachineHealthCheck) (m : Machine) : bool :=
  if bool_decide (mhc_Namespace mhc ≠ m_Namespace m) || bool_decide (mhc_ClusterName mhc ≠ m_ClusterName m)
  then false
  else match LabelSelectorAsSelector
               (CloneSelectorAndAddLabel (mhc_Selector mhc) ClusterNameLabel (mhc_ClusterName mhc)) with
       | None => false
       | Some matches => matches (m_Labels m)
       end.

Definition covering_check (mhc : MachineHealthCheck) : CoveringCheck :=
  MkCheck (mhc_Name mhc) (mhc_TemplateRef mhc) (annotations_HasPaused (mhc_Annotations mhc)).

Definition check_less : relation CoveringCheck := by_keys (fun c => [cc_Name c]).

Definition CoverageOf (checks : list MachineHealthCheck) (m : Machine) : Coverage :=
  MkCoverage (sort_by check_less
    (omap (fun mhc => if selects mhc m then Some (covering_check mhc) else None) checks)).

(** ** release.go, pure part *)

Definition MarkedAction (m : Machine) : option string :=
  if IsMarkedForRemediation m then m_Annotations m !! RemediationActionAnnotation else None.

(** The loop over the node's conditions: the first Ready one decides. *)
Fixpoint node_ready (conditions : list NodeCondition) : bool :=
  match conditions with
  | [] => false
  | c :: rest => if decide (nc_Type c = "Ready") then bool_decide (nc_Status c = "True")
                 else node_ready rest
  end.

Definition RestartCompleted (m : Machine) (node : option Node) : bool :=
  match node with
  | None => false
  | Some node =>
      if negb (bool_decide (MarkedAction m = Some ActionRestart)) then false
      else
        let recorded := get (m_Annotations m) RemediationBootIDAnnotation in
        let current := n_BootID node in
        if bool_decide (recorded = "") || bool_decide (current = "") || bool_decide (current = recorded)
        then false
        else node_ready (n_Conditions node)
  end.

Definition RestartAnswers (m : Machine) (request : string) : bool :=
  let asked := get (m_Annotations m) RemediationRequestAnnotation in
  bool_decide (asked = "") || bool_decide (asked = request).

(** The zero record records nothing. *)
Record RestartRecord : Type := MkRecord { rr_BootID : string; rr_Request : string }.

Definition mark_annotations (a : gmap string string) (action reason : string) (restart : RestartRecord) :
    gmap string string :=
  let a := <[RemediateMachineAnnotation := ""]> a in
  let a := <[RemediationReasonAnnotation := reason]> a in
  let a := <[RemediationActionAnnotation := action]> a in
  let a := if decide (rr_BootID restart = "") then a
           else <[RemediationBootIDAnnotation := rr_BootID restart]> a in
  if decide (rr_Request restart = "") then a
  else <[RemediationRequestAnnotation := rr_Request restart]> a.

Definition release_annotations (a : gmap string string) : gmap string string :=
  let a := delete RemediateMachineAnnotation a in
  let a := delete RemediationReasonAnnotation a in
  let a := delete RemediationActionAnnotation a in
  let a := delete RemediationBootIDAnnotation a in
  delete RemediationRequestAnnotation a.

Definition escalate_annotations (a : gmap string string) (reason : string) : gmap string string :=
  let a := <[RemediationActionAnnotation := ActionRemediate]> a in
  let a := <[RemediationReasonAnnotation := reason]> a in
  let a := delete RemediationBootIDAnnotation a in
  delete RemediationRequestAnnotation a.

(** ** Writes *)

Context {W R : Type} `{API W}.

Definition patch_prefix (m : Machine) : string :=
  "patch machine " +:+ m_Namespace m +:+ "/" +:+ m_Name m.

(** [a.Client.Patch(ctx, updated, ...)] and, on success, [*m = *updated]: the
    Machine as the API server has it now. *)
Definition patch_machine (m updated : Machine) (lock : bool) :
    state (Sys W R) (result error Machine) :=
  emit (PatchMachine m updated lock);;
  r ← call (SendPatchMachine m updated lock);
  mret (match r with Ok m' => Ok m' | Err e => Err (EWrap (patch_prefix m) e) end).

Definition MarkForRemediation (dryRun : bool) (m : Machine) (action reason : string)
    (restart : RestartRecord) : state (Sys W R) (Machine * result error (option SkipReason)) :=
  match Guard m with
  | Some skip => mret (m, Ok (Some skip))
  | None =>
      if dryRun then mret (m, Ok None)
      else
        r ← patch_machine m
              (set_annotations m (mark_annotations (m_Annotations m) action reason restart)) false;
        match r with
        | Err e => mret (m, Err e)
        | Ok m' =>
            emit (RecordEvent (RefMachine (machine_key m')) EventWarning EventMarkedForRemediation
              action (EventNote ("Marked for remediation: " +:+ reason)));;
            mret (m', Ok None)
        end
  end.

Definition RecordSkipped (dryRun : bool) (m : Machine) (skip : option SkipReason)
    (action reason : string) : state (Sys W R) unit :=
  match skip with
  | None => mret tt
  | Some skip =>
      if dryRun || InProgress skip then mret tt
      else emit (RecordEvent (RefMachine (machine_key m)) EventWarning EventRemediationSkipped action
             (EventNote ("Remediation skipped because " +:+ Message skip +:+ ": " +:+ reason)))
  end.

Definition Release (dryRun : bool) (m : Machine) (reason : string) :
    state (Sys W R) (Machine * result error bool) :=
  match MarkedAction m with
  | None => mret (m, Ok false)
  | Some action =>
      if m_Deleting m then mret (m, Ok false)
      else if dryRun then mret (m, Ok true)
      else
        r ← patch_machine m (set_annotations m (release_annotations (m_Annotations m))) true;
        match r with
        | Err e => mret (m, Err e)
        | Ok m' =>
            emit (RecordEvent (RefMachine (machine_key m')) EventNormal EventRemediationReleased
              action (EventNote ("Released from remediation: " +:+ reason)));;
            mret (m', Ok true)
        end
  end.

Definition Escalate (dryRun : bool) (m : Machine) (reason : string) :
    state (Sys W R) (Machine * result error bool) :=
  if negb (bool_decide (MarkedAction m = Some ActionRestart)) || m_Deleting m then mret (m, Ok false)
  else if dryRun then mret (m, Ok true)
  else
    r ← patch_machine m (set_annotations m (escalate_annotations (m_Annotations m) reason)) true;
    match r with
    | Err e => mret (m, Err e)
    | Ok m' =>
        emit (RecordEvent (RefMachine (machine_key m')) EventWarning EventMarkedForRemediation
          ActionRemediate (EventNote ("Restart escalated to a replacement: " +:+ reason)));;
        mret (m', Ok true)
    end.

Definition ListHealthChecks (cluster : Cluster) :
    state (Sys W R) (result error (list MachineHealthCheck)) :=
  r ← call (ListMachineHealthChecks (cl_Namespace cluster));
  mret (match r with
        | Err e => Err (EWrap ("list machinehealthchecks of " +:+ cl_Namespace cluster +:+ "/"
                                 +:+ cl_Name cluster) e)
        | Ok items => Ok (filter (fun mhc => mhc_ClusterName mhc = cl_Name cluster) items)
        end).
End capi.

(** ** Event notes *)

(** A rune's encoding: a byte that starts it and at most three continuation
    bytes. A valid UTF-8 text is a sequence of them. *)
Definition rune (r : list ascii) : Prop :=
  ∃ c conts, r = c :: conts ∧ RuneStart c = true ∧ Forall (fun d => RuneStart d = false) conts ∧
    length conts ≤ 3.

Lemma rune_cut_le note n : rune_cut note n ≤ n.
Proof.
  induction n as [|n IH]; [done|]. cbn [rune_cut].
  destruct (note !! S n) as [c|]; [|done]. destruct (RuneStart c); lia.
Qed.

(** Within a run of continuation bytes the loop steps back to the run's start. *)
Lemma rune_cut_back pre c conts post o :
  RuneStart c = true → Forall (fun d => RuneStart d = false) conts → o ≤ length conts →
  rune_cut (pre ++ (c :: conts) ++ post) (length pre + o) = length pre.
Proof.
  intros Hc Hconts. induction o as [|o IH]; intros Ho.
  - rewrite Nat.add_0_r. destruct (length pre) as [|n] eqn:Hn; [done|]. cbn [rune_cut].
    rewrite lookup_app_r by lia. rewrite Hn, Nat.sub_diag. simpl. by rewrite Hc.
  - rewrite Nat.add_succ_r. cbn [rune_cut]. rewrite lookup_app_r by lia.
    replace (S (length pre + o) - length pre) with (S o) by lia. simpl.
    rewrite lookup_app_l by lia.
    destruct (lookup_lt_is_Some_2 conts o) as [d Hd]; [lia|]. rewrite Hd.
    rewrite Forall_lookup in Hconts. rewrite (Hconts _ _ Hd). apply IH. lia.
Qed.

(** A position inside a sequence of runes is inside one of them. *)
Lemma position_in_runes rs n :
  Forall rune rs → n < length (concat rs) →
  ∃ k r rest o, rs = k ++ r :: rest ∧ n = length (concat k) + o ∧ o < length r.
Proof.
  intros Hrs. revert n. induction Hrs as [|r rs Hr _ IH]; intros n Hn; simpl in Hn; [lia|].
  rewrite length_app in Hn. destruct (decide (n < length r)) as [Hlt|Hge].
  - by exists [], r, rs, n.
  - destruct (IH (n - length r)) as (k & r' & rest & o & -> & Heq & Ho); [lia|].
    exists (r :: k), r', rest, o. split_and!; [done| |done]. simpl. rewrite length_app. lia.
Qed.

(** C37: a note is never too long for the events API and never cut inside a
    character: a note within the limit is left alone; a longer one keeps a prefix
    of its characters, all but the last three bytes' worth of what fits, and ends
    in the marker. *)
Theorem event_note_fits (note : string) (rs : list (list ascii))
    (Hutf8 : Forall rune rs) (Hnote : bytes note = concat rs) :
  len (EventNote note) ≤ EventNoteLimit ∧
  (len note ≤ EventNoteLimit → EventNote note = note) ∧
  (EventNoteLimit < len note → ∃ k, k `prefix_of` rs ∧
     EventNote note = of_bytes (concat k) +:+ note_marker ∧
     EventNoteLimit ≤ len (EventNote note) + 3).
Proof.
  unfold EventNote. destruct (decide _) as [Hle|Hgt]; [split_and!; [done|done|lia]|].
  assert (Hlen : len note = length (concat rs)) by (by rewrite len_bytes, Hnote).
  set (n := EventNoteLimit - len note_marker).
  assert (Hn : n < length (concat rs)) by (subst n; unfold EventNoteLimit in *; simpl; lia).
  destruct (position_in_runes rs n Hutf8 Hn) as (k & r & rest & o & -> & Heq & Ho).
  apply Forall_app in Hutf8 as [_ [(c & conts & -> & Hc & Hconts & Hl)%id _]%Forall_cons].
  assert (Hcut : rune_cut (bytes note) n = length (concat k)).
  { rewrite Hnote, Heq, concat_app. apply rune_cut_back; [done|done|]. simpl in Ho. lia. }
  rewrite Hcut, Hnote, concat_app, take_app_length.
  assert (Hlk : len (of_bytes (concat k) +:+ note_marker) = length (concat k) + 3).
  { rewrite len_app, len_bytes, bytes_of_bytes. done. }
  subst n. unfold EventNoteLimit in *. simpl in Heq, Ho.
  split_and!; [lia|lia|]. intros _. exists k. split_and!; [by apply prefix_app_r|done|lia].
Qed.

Lemma event_note_fits_witness : len (EventNote "Marked for remediation") ≤ EventNoteLimit.
Proof.
  apply (event_note_fits "Marked for remediation" ((fun c => [c]) <$> bytes "Marked for remediation")).
  - repeat constructor; repeat (eexists; eexists); split_and!; try reflexivity; repeat constructor.
  - reflexivity.
Defined.

(** ** Guards *)

Section guard.
Context `{KubeLib}.

(** A Machine passes the guards exactly when it is not being deleted, not
    marked, not a control plane member, not paused and not opted out. *)
Lemma guard_passes_iff (m : Machine) :
  Guard m = None ↔ m_Deleting m = false ∧ m_Annotations m !! RemediateMachineAnnotation = None ∧
    m_Labels m !! MachineControlPlaneLabel = None ∧ m_Annotations m !! PausedAnnotation = None ∧
    m_Annotations m !! MachineSkipRemediationAnnotation = None.
Proof.
  assert (Hk : ∀ a k, has_key a k = false ↔ a !! k = None)
    by (intros a k; unfold has_key; rewrite bool_decide_eq_false; by rewrite <- eq_None_not_Some).
  rewrite <- !Hk. unfold Guard, IsMarkedForRemediation, IsControlPlane, IsPaused, IsOptedOut.
  destruct (m_Deleting m), (has_key _ RemediateMachineAnnotation), (has_key _ MachineControlPlaneLabel),
    (has_key _ PausedAnnotation), (has_key _ MachineSkipRemediationAnnotation);
    split; try done; intros; destruct_and?; done.
Qed.

Lemma guard_unmarked m : Guard m = None → IsMarkedForRemediation m = false.
Proof. unfold Guard. by destruct (m_Deleting m), (IsMarkedForRemediation m). Qed.

Lemma guard_paused_or_opted_out m : Guard m = None → IsPaused m || IsOptedOut m = false.
Proof.
  unfold Guard. destruct (m_Deleting m), (IsMarkedForRemediation m), (IsControlPlane m),
    (IsPaused m), (IsOptedOut m); done.
Qed.

Lemma marked_action_marked m a : MarkedAction m = Some a → IsMarkedForRemediation m = true.
Proof. unfold MarkedAction. by destruct (IsMarkedForRemediation m). Qed.

(** ** Coverage *)

Lemma Covered_spec c : Covered c = true ↔ ∃ check, check ∈ Checks c ∧ cc_Paused check = false.
Proof.
  unfold Covered. rewrite existsb_exists. setoid_rewrite negb_true_iff.
  by setoid_rewrite list_elem_of_In.
Qed.

Lemma TemplatesOnly_spec c :
  TemplatesOnly c = true ↔ Covered c = true ∧
    ∀ check, check ∈ Checks c → is_Some (cc_Template check).
Proof.
  unfold TemplatesOnly. rewrite andb_true_iff, forallb_forall.
  setoid_rewrite list_elem_of_In. split; intros [HC Ht]; (split; [done|]);
    intros check Hin; specialize (Ht _ Hin); destruct (cc_Template check); try done.
Qed.

(** What lifting the pauses changes. With every check unpaused the Machine
    is covered exactly when a check selects it, and templates carry out a
    restart exactly when every check has one; so unpausing never takes a
    remediation away. *)
Lemma ignoring_pause_spec (c : Coverage) :
  (Covered (IgnoringPause c) = true ↔ Checks c ≠ []) ∧
  (TemplatesOnly (IgnoringPause c) = true ↔
     Checks c ≠ [] ∧ ∀ check, check ∈ Checks c → is_Some (cc_Template check)) ∧
  (Covered c = true → Covered (IgnoringPause c) = true) ∧
  (TemplatesOnly c = true → TemplatesOnly (IgnoringPause c) = true).
Proof.
  assert (HC : Covered (IgnoringPause c) = true ↔ Checks c ≠ []).
  { unfold IgnoringPause, Covered. simpl. by destruct (Checks c). }
  assert (HT : TemplatesOnly (IgnoringPause c) = true ↔
     Checks c ≠ [] ∧ ∀ check, check ∈ Checks c → is_Some (cc_Template check)).
  { rewrite TemplatesOnly_spec, HC. apply and_iff_compat_l. unfold IgnoringPause. simpl. split.
    - intros Ht check Hin. by specialize (Ht _ (list_elem_of_fmap_2 (fun c => MkCheck (cc_Name c) (cc_Template c) false) _ _ Hin)).
    - intros Ht check (check' & -> & Hin)%list_elem_of_fmap. simpl. by apply Ht. }
  assert (Hne : Covered c = true → Checks c ≠ [])
    by (rewrite Covered_spec; intros (check & Hin & _) Hnil; rewrite Hnil in Hin;
        by apply not_elem_of_nil in Hin).
  split_and!; [done|done|by rewrite HC|].
  rewrite HT, TemplatesOnly_spec. intros [HCov Ht]. auto.
Qed.

(** The coverage of a Machine holds one entry for every check that selects
    it, with its template and whether it is paused, sorted by name, and no
    other; a check of another namespace or Cluster is not among them. *)
Lemma coverage_of_spec (checks : list MachineHealthCheck) (m : Machine) :
  Sorted check_less (Checks (CoverageOf checks m)) ∧
  length (Checks (CoverageOf checks m)) = length (filter (fun mhc => selects mhc m = true) checks) ∧
  (∀ cc, cc ∈ Checks (CoverageOf checks m) ↔
     ∃ mhc, mhc ∈ checks ∧ selects mhc m = true ∧ cc = covering_check mhc) ∧
  (∀ mhc, selects mhc m = true →
     mhc_Namespace mhc = m_Namespace m ∧ mhc_ClusterName mhc = m_ClusterName m).
Proof.
  unfold CoverageOf. simpl. split_and!.
  - apply Sorted_sort_by; apply _.
  - rewrite length_sort_by. induction checks as [|mhc checks IH]; [done|].
    rewrite filter_cons. cbn [omap list_omap]. destruct (selects mhc m); simpl; auto.
  - intros cc. rewrite elem_of_sort_by, list_elem_of_omap. split.
    + intros (mhc & Hin & Hs). destruct (selects mhc m) eqn:E; naive_solver.
    + intros (mhc & Hin & Hs & ->). exists mhc. by rewrite Hs.
  - intros mhc. unfold selects. destruct (_ || _) eqn:E; [done|]. intros _. bool_to_prop.
    split; by apply dec_stable.
Qed.

(** ** Marks *)

(** A restart has completed exactly when this operator marked the Machine
    for a restart with the node's boot ID, and the node now reports another one
    and is Ready. *)
Lemma restart_completed_iff (m : Machine) (node : option Node) :
  RestartCompleted m node = true ↔
  ∃ n, node = Some n ∧ MarkedAction m = Some ActionRestart ∧
    get (m_Annotations m) RemediationBootIDAnnotation ≠ "" ∧ n_BootID n ≠ "" ∧
    n_BootID n ≠ get (m_Annotations m) RemediationBootIDAnnotation ∧
    node_ready (n_Conditions n) = true.
Proof.
  unfold RestartCompleted. destruct node as [n|]; [|naive_solver].
  destruct (bool_decide (MarkedAction m = _)) eqn:Ha; bool_to_prop; simpl; [|naive_solver].
  destruct (_ || _) eqn:E.
  - split; [done|]. intros (? & [= <-] & _ & ? & ? & ? & _).
    rewrite !orb_true_iff, !bool_decide_eq_true in E. naive_solver.
  - bool_to_prop. split; [intros; exists n; eauto 10|]. intros (? & [= <-] & ?). tauto.
Qed.

Lemma restart_completed_marked m node :
  RestartCompleted m node = true → MarkedAction m = Some ActionRestart.
Proof.
  unfold RestartCompleted. destruct node as [n|]; [|done].
  destruct (bool_decide (MarkedAction m = _)) eqn:Ha; [|done]. by bool_to_prop.
Qed.

Definition own_annotations : list string :=
  [RemediationReasonAnnotation; RemediationActionAnnotation; RemediationBootIDAnnotation;
   RemediationRequestAnnotation].

Lemma own_annotation_foreign `{!KubeLaws} k :
  k ∈ own_annotations → RemediateMachineAnnotation ≠ k ∧ PausedAnnotation ≠ k ∧
    MachineSkipRemediationAnnotation ≠ k.
Proof.
  intros Hk. assert (HasPrefix k "nvsentinel.petasus.io/" = true) as Hp.
  { unfold own_annotations in Hk. set_unfold in Hk. by destruct Hk as [->|[->|[->|[->|[]]]]]. }
  split_and!; intros <-; rewrite capi_annotations_foreign in Hp; by set_unfold; auto.
Qed.

Lemma remediate_not_own `{!KubeLaws} :
  RemediateMachineAnnotation ≠ RemediationReasonAnnotation ∧
  RemediateMachineAnnotation ≠ RemediationActionAnnotation ∧
  RemediateMachineAnnotation ≠ RemediationBootIDAnnotation ∧
  RemediateMachineAnnotation ≠ RemediationRequestAnnotation.
Proof. split_and!; apply own_annotation_foreign; set_solver. Qed.

Lemma mark_lookup `{!KubeLaws} a action reason r :
  mark_annotations a action reason r !! RemediateMachineAnnotation = Some "" ∧
  mark_annotations a action reason r !! RemediationActionAnnotation = Some action ∧
  (∀ k, k ∉ RemediateMachineAnnotation :: own_annotations → mark_annotations a action reason r !! k = a !! k).
Proof.
  destruct remediate_not_own as (?&?&?&?).
  unfold mark_annotations. split_and!.
  - repeat case_decide; by simplify_map_eq.
  - repeat case_decide; by simplify_map_eq.
  - intros k Hk. unfold own_annotations in Hk. set_unfold in Hk.
    repeat case_decide; rewrite ?lookup_insert_ne by naive_solver; done.
Qed.

(** C32: releasing undoes marking. On a Machine that carries none of the
    annotations involved, releasing what was marked restores its annotations,
    whatever the action, the reason and the record were; and no annotation of
    anyone else is touched by either. *)
Theorem release_undoes_mark (a : gmap string string) (action reason : string) (r : RestartRecord)
    (Hclean : ∀ k, k ∈ RemediateMachineAnnotation :: own_annotations → a !! k = None) :
  release_annotations (mark_annotations a action reason r) = a.
Proof.
  apply map_eq. intros k. unfold release_annotations, mark_annotations.
  unfold own_annotations in Hclean.
  destruct (decide (k ∈ RemediateMachineAnnotation :: own_annotations)) as [Hk|Hk].
  - rewrite (Hclean k Hk). unfold own_annotations in Hk. set_unfold in Hk.
    rewrite !lookup_delete_None. destruct Hk as [->|[->|[->|[->|[->|[]]]]]]; tauto.
  - unfold own_annotations in Hk. set_unfold in Hk.
    repeat case_decide; rewrite ?lookup_delete_ne, ?lookup_insert_ne by naive_solver; done.
Qed.

Lemma escalated_lookup `{!KubeLaws} a reason :
  escalate_annotations a reason !! RemediateMachineAnnotation = a !! RemediateMachineAnnotation ∧
  escalate_annotations a reason !! RemediationActionAnnotation = Some ActionRemediate ∧
  (∀ k, k ∉ own_annotations → escalate_annotations a reason !! k = a !! k).
Proof.
  destruct remediate_not_own as (?&?&?&?). unfold escalate_annotations. split_and!.
  - by simplify_map_eq.
  - by simplify_map_eq.
  - intros k Hk. unfold own_annotations in Hk. set_unfold in Hk.
    rewrite !lookup_delete_ne, !lookup_insert_ne by naive_solver. done.
Qed.

(** An escalated mark is a replacement mark for good: the Machine stays
    marked, the action recorded is a replacement, no restart record is left, so
    that no restart can complete on it; and only the operator's own annotations
    change. *)
Lemma escalated_mark_is_final `{!KubeLaws} (m : Machine) (reason : string) (node : option Node)
    (Hm : MarkedAction m = Some ActionRestart) :
  let m' := set_annotations m (escalate_annotations (m_Annotations m) reason) in
  MarkedAction m' = Some ActionRemediate ∧ RestartCompleted m' node = false ∧
  get (m_Annotations m') RemediationRequestAnnotation = "" ∧
  (∀ k, k ∉ own_annotations → m_Annotations m' !! k = m_Annotations m !! k).
Proof.
  intros m'. destruct (escalated_lookup (m_Annotations m) reason) as (Hr & Ha & Hk).
  pose proof (marked_action_marked _ _ Hm) as Hmarked.
  assert (Haction : MarkedAction m' = Some ActionRemediate).
  { unfold MarkedAction, IsMarkedForRemediation, has_key in *. cbn [m' set_annotations m_Annotations].
    by rewrite Hr, Hmarked. }
  split_and!; [done| | |exact Hk].
  - destruct (RestartCompleted m' node) eqn:E; [|done]. apply restart_completed_marked in E.
    by rewrite Haction in E.
  - simpl. unfold get, escalate_annotations. by simplify_map_eq.
Qed.
End guard.

(** ** What the actuator sends

    Each operation's effects, whatever the API server answers. *)

Section effects.
Context `{KubeLib} {W R : Type} `{API W} (P : Effect → Prop).

Lemma patch_machine_spec m updated lock :
  P (PatchMachine m updated lock) →
  spec (W:=W) (R:=R) P (patch_machine m updated lock) (fun _ => True).
Proof.
  intros HP. unfold patch_machine. spec_steps.
Qed.

(** A write followed, when it succeeds, by an Event. *)
Lemma patch_then_event_spec {A} m updated lock (ok : Machine → A) (err : Machine → error → A) (event : Machine → Effect) :
  P (PatchMachine m updated lock) → (∀ m', P (event m')) →
  spec (W:=W) (R:=R) P
    (r ← patch_machine m updated lock;
     match r with
     | Err e => mret (err m e)
     | Ok m' => emit (event m');; mret (ok m')
     end) (fun _ => True).
Proof.
  intros HP He. eapply spec_bind; [by apply patch_machine_spec|]. intros [m'|e] _; [|by apply spec_ret].
  eapply spec_bind; [by apply spec_emit|]. intros _ _. by apply spec_ret.
Qed.

Lemma MarkForRemediation_spec dryRun m action reason restart :
  (dryRun = false → Guard m = None →
     P (PatchMachine m (set_annotations m (mark_annotations (m_Annotations m) action reason restart)) false)) →
  (dryRun = false → ∀ o note, P (RecordEvent o EventWarning EventMarkedForRemediation action note)) →
  spec (W:=W) (R:=R) P (MarkForRemediation dryRun m action reason restart) (fun _ => True).
Proof.
  intros HP He. unfold MarkForRemediation. destruct (Guard m); [by apply spec_ret|].
  destruct dryRun; [by apply spec_ret|].
  by apply (patch_then_event_spec _ _ _ (fun m' => (m', Ok None)) (fun m e => (m, Err e))); auto.
Qed.

Lemma RecordSkipped_spec dryRun m skip action reason :
  (dryRun = false → ∀ o note, P (RecordEvent o EventWarning EventRemediationSkipped action note)) →
  spec (W:=W) (R:=R) P (RecordSkipped dryRun m skip action reason) (fun _ => True).
Proof.
  intros He. unfold RecordSkipped. destruct skip as [skip|]; [|by apply spec_ret].
  destruct dryRun; [by apply spec_ret|]. destruct (InProgress skip); [by apply spec_ret|].
  by apply spec_emit, He.
Qed.

Lemma Release_spec dryRun m reason :
  (dryRun = false → ∀ action, MarkedAction m = Some action → m_Deleting m = false →
     P (PatchMachine m (set_annotations m (release_annotations (m_Annotations m))) true) ∧
     ∀ o note, P (RecordEvent o EventNormal EventRemediationReleased action note)) →
  spec (W:=W) (R:=R) P (Release dryRun m reason) (fun _ => True).
Proof.
  intros HP. unfold Release. destruct (MarkedAction m) as [action|]; [|by apply spec_ret].
  destruct (m_Deleting m); [by apply spec_ret|]. destruct dryRun; [by apply spec_ret|].
  destruct (HP eq_refl _ eq_refl eq_refl) as [Hp He].
  by apply (patch_then_event_spec _ _ _ (fun m' => (m', Ok true)) (fun m e => (m, Err e))).
Qed.

Lemma Escalate_spec dryRun m reason :
  (dryRun = false → MarkedAction m = Some ActionRestart → m_Deleting m = false →
     P (PatchMachine m (set_annotations m (escalate_annotations (m_Annotations m) reason)) true)) →
  (dryRun = false → ∀ o note,
     P (RecordEvent o EventWarning EventMarkedForRemediation ActionRemediate note)) →
  spec (W:=W) (R:=R) P (Escalate dryRun m reason) (fun _ => True).
Proof.
  intros HP He. unfold Escalate. destruct (negb _ || _) eqn:Hm; [by apply spec_ret|]. bool_to_prop.
  destruct dryRun; [by apply spec_ret|].
  by apply (patch_then_event_spec _ _ _ (fun m' => (m', Ok true)) (fun m e => (m, Err e))); auto.
Qed.

Lemma ListHealthChecks_spec cluster :
  spec (W:=W) (R:=R) P (ListHealthChecks cluster) (fun _ => True).
Proof. unfold ListHealthChecks. spec_steps. Qed.
End effects.

#[local] Existing Instance lib.
#[local] Existing Instance lib_laws.

Lemma release_undoes_mark_witness :
  release_annotations (mark_annotations {["team" := "a"]} ActionRestart "XID 79" (MkRecord "boot-1" "uid-1"))
    = {["team" := "a"]}.
Proof.
  apply (release_undoes_mark {["team" := "a"]} ActionRestart "XID 79" (MkRecord "boot-1" "uid-1")).
  apply Forall_forall. repeat constructor.
Defined.

Definition restart_marked_machine : Machine :=
  MkMachine "ns" "worker-1" "m-uid" "7" false ∅
    (mark_annotations ∅ ActionRestart "XID 79" (MkRecord "boot-1" "uid-1")) [] "cluster"
    (MkRef "infrastructure.cluster.x-k8s.io" "DockerMachine" "worker-1") "node-1" [].
