(* ===== verification/Mode.v ===== *)
(** * The mode a workload cluster is read in (internal/controller/mode.go)

    [selectMode] chooses a [Mode] from the resources the workload cluster serves,
    asked of its RESTMapper through [WorkloadMapping]; [source] is the
    source the mode reads. *)

From S2P Require Import Prelude GoStrings Signal Kube Condition Extrr.
Open Scope stdpp_scope.

Inductive Mode : Type := ModeExternalRemediationRequest | ModeReportOnly | ModeNodeCondition.

#[export] Instance mode_eq_dec : EqDecision Mode.
Proof. solve_decision. Defined.

Definition mode_string (m : Mode) : string :=
  match m with
  | ModeExternalRemediationRequest => "ExternalRemediationRequest"
  | ModeReportOnly => "ReportOnly"
  | ModeNodeCondition => "NodeCondition"
  end.

(** [Mode.describe]. *)
Definition mode_describe (m : Mode) : string :=
  match m with
  | ModeExternalRemediationRequest =>
      "reading NVSentinel's ExternalRemediationRequests; faults not routed to one are left to NVSentinel's janitor"
  | ModeReportOnly =>
      "reading NVSentinel's node conditions and only reporting them, since NVSentinel's janitor remediates this cluster itself"
  | ModeNodeCondition => "reading NVSentinel's node conditions"
  end.

Definition janitorGroupVersionKind : GroupVersionKind :=
  MkGVK "janitor.dgxc.nvidia.com" "v1alpha1" "RebootNode".

(** [schema.GroupKind.String]. *)
Definition group_kind_string (gvk : GroupVersionKind) : string :=
  if decide (gvk_Group gvk = "") then gvk_Kind gvk else gvk_Kind gvk +:+ "." +:+ gvk_Group gvk.

Section mode.
Context `{KubeLib} {W R : Type} `{API W}.

Definition isServed (cluster : ObjectKey) (gvk : GroupVersionKind) :
    state (Sys W R) (result error bool) :=
  r ← call (WorkloadMapping cluster gvk);
  mret (match r with
        | Mapped => Ok true
        | NoMatch => Ok false
        | MappingFailed e => Err (EWrap ("look up " +:+ group_kind_string gvk) e)
        end).

Definition selectMode (cluster : ObjectKey) : state (Sys W R) (result error Mode) :=
  served ←? isServed cluster request_gvk;
  if served : bool then mret (Ok ModeExternalRemediationRequest)
  else
    served ←? isServed cluster janitorGroupVersionKind;
    mret (Ok (if served : bool then ModeReportOnly else ModeNodeCondition)).

(** [Mode.source]. *)
Definition source (m : Mode) (cluster : ObjectKey) : Source (state (Sys W R)) error :=
  match m with
  | ModeExternalRemediationRequest => Extrr.NewSource cluster
  | _ => Condition.NewSource cluster
  end.
End mode.

(** ** Properties *)

Section facts.
Context `{KubeLib} {W R : Type} `{API W}.

Lemma isServed_spec P cluster gvk : spec (W:=W) (R:=R) P (isServed cluster gvk) (fun _ => True).
Proof. unfold isServed. spec_steps. Qed.

Lemma selectMode_spec P cluster : spec (W:=W) (R:=R) P (selectMode cluster) (fun _ => True).
Proof.
  unfold selectMode, bind_ok. eapply spec_bind; [apply isServed_spec|].
  intros [[]|e] _; [by apply spec_ret| |by apply spec_ret].
  eapply spec_bind; [apply isServed_spec|]. intros [[]|e] _; by apply spec_ret.
Qed.
End facts.
