(* ===== verification/ClusterController.v ===== *)
(** * The cluster controller (internal/controller/cluster_controller.go)

    One reconcile reads every signal of a workload cluster and acts on each. The
    reconciler's settings are the record [ClusterReconciler]; its fields behind
    the mutex are the record [Memory], kept in the [memory] of [Sys]. The maps Go
    shares by pointer are explicit: the Machines of a pass are a map by node that
    every step returns updated, so a Machine patched for one signal is seen
    patched by the signals handled after it. Log lines are not modelled. *)

From S2P Require Import Prelude GoStrings Signal Decision Kube Condition Extrr Capi Mode.
Open Scope stdpp_scope.

Definition ControllerName := "nvsentinel-capi-remediator".
Definition requestWatchName := ControllerName +:+ "-watchRequests".

Definition second : Z := 1000000000.
Definition DefaultPollInterval : Z := 120 * second.
Definition earlierMarkGrace : Z := 60 * second.

Definition ActionReport := "Report".
Definition ActionSelectSource := "SelectSource".
Definition EventSignalSourceSelected := "SignalSourceSelected".
Definition ActionAnswer := "Answer".
Definition EventRequestAnswered := "ExternalRemediationRequestAnswered".
Definition EventNodeHealthReported := "NodeHealthReported".
Definition EventReplaceUnavailable := "ReplaceUnavailable".
Definition EventRestartUnavailable := "RestartUnavailable".
Definition EventMachineNotFound := "MachineNotFound".
Definition AnswerRestarted := "Restarted".
Definition AnswerNotRemediated := "NotRemediated".
Definition AnswerMachineNotFound := "MachineNotFound".
Definition AnswerRemediationUnavailable := "RemediationUnavailable".
Definition RestartFallbackAnnotation := "nvsentinel.petasus.io/restart-fallback".

(** ** Restart fallback *)

Inductive RestartFallback : Type := RestartFallbackReport | RestartFallbackReplace.

#[export] Instance fallback_eq_dec : EqDecision RestartFallback.
Proof. solve_decision. Defined.

Definition fallback_string (f : RestartFallback) : string :=
  match f with RestartFallbackReport => "report" | RestartFallbackReplace => "replace" end.

Definition ParseRestartFallback `{KubeLib} (s : string) : result error RestartFallback :=
  if decide (s = "report") then Ok RestartFallbackReport
  else if decide (s = "replace") then Ok RestartFallbackReplace
  else Err (ENew ("restart fallback " +:+ Quote s +:+ " is neither " +:+ Quote "report"
                    +:+ " nor " +:+ Quote "replace")).

(** ** The reconciler *)

(** The settings. [PollInterval] is in nanoseconds; [RestartFallback] is [None]
    when empty; [Watching] tells that SetupWithManager set the request watcher. *)
Record ClusterReconciler : Type := MkReconciler {
  r_Table : Table;
  r_DryRun : bool;
  r_PollInterval : Z;
  r_ClusterSelector : option (gmap string string → bool);
  r_RestartFallback : option RestartFallback;
  r_Watching : bool
}.

(** The zero value, with an empty reason, means there is nothing to report. *)
Record answer : Type := MkAnswer { an_Complete : bool; an_Reason : string; an_Message : string }.

Definition no_answer : answer := MkAnswer false "" "".

#[export] Instance answer_eq_dec : EqDecision answer.
Proof. solve_decision. Defined.

Definition given (a : answer) : bool := bool_decide (an_Reason a ≠ "").

Definition decline (sig : Signal) (reason message : string) : answer :=
  if decide (sig_Request sig = "") then no_answer else MkAnswer false reason message.

(** [obs_Decision] is [None] and [obs_Skip] is [None] for Go's empty strings. *)
Record observation : Type := MkObs {
  obs_Decision : option decision;
  obs_Action : string;
  obs_Truncated : bool;
  obs_Machine : string;
  obs_Request : string;
  obs_Skip : option SkipReason;
  obs_Coverage : string;
  obs_Fallback : string;
  obs_Answer : answer
}.

#[export] Instance observation_eq_dec : EqDecision observation.
Proof. solve_decision. Defined.

(** [observation{}]. *)
Definition no_observation : observation := MkObs None "" false "" "" None "" "" no_answer.

Definition set_Answer (o : observation) (a : answer) : observation :=
  MkObs (obs_Decision o) (obs_Action o) (obs_Truncated o) (obs_Machine o) (obs_Request o)
    (obs_Skip o) (obs_Coverage o) (obs_Fallback o) a.
Definition set_Skip (o : observation) (s : SkipReason) : observation :=
  MkObs (obs_Decision o) (obs_Action o) (obs_Truncated o) (obs_Machine o) (obs_Request o)
    (Some s) (obs_Coverage o) (obs_Fallback o) (obs_Answer o).
Definition set_Coverage (o : observation) (coverage fallback : string) : observation :=
  MkObs (obs_Decision o) (obs_Action o) (obs_Truncated o) (obs_Machine o) (obs_Request o)
    (obs_Skip o) coverage fallback (obs_Answer o).

(** The wait of one Machine for its checks. *)
Record checksWait : Type := MkWait { since : Z; over : bool }.

(** The fields of the reconciler behind its mutex. An absent map is empty. *)
Record Memory : Type := MkMemory {
  seen : gmap ObjectKey (gmap string observation);
  wouldRelease : gmap ObjectKey (gset string);
  modes : gmap ObjectKey Mode;
  waiting : gmap ObjectKey (gmap string checksWait)
}.

Definition empty_memory : Memory := MkMemory ∅ ∅ ∅ ∅.

Definition set_seen (m : Memory) x := MkMemory x (wouldRelease m) (modes m) (waiting m).
Definition set_wouldRelease (m : Memory) x := MkMemory (seen m) x (modes m) (waiting m).
Definition set_waiting (m : Memory) x := MkMemory (seen m) (wouldRelease m) (modes m) x.

(** [describe]: a signal in a few words. *)
Definition describe (s : Signal) : string :=
  let b := sig_Check s in
  let b := match sig_ErrorCodes s with [] => b | l => b +:+ " " +:+ Join l "," end in
  let b := match sig_GpuUUIDs s with [] => b | l => b +:+ " gpu " +:+ Join l "," end in
  let b := match sig_Actions s with [] => b | l => b +:+ " (" +:+ Join l "," +:+ ")" end in
  if sig_Truncated s then b +:+ " [truncated]" else b.

Definition unavailable (waiting : bool) : string :=
  if waiting then "waiting for the paused checks" else "reported only".

(** The empty string lets the decision be acted on. *)
Definition reportOnly (mode : Mode) (d : decision) : string :=
  if bool_decide (mode = ModeReportOnly) && bool_decide (d ≠ Report)
  then "NVSentinel's janitor remediates this cluster itself" else "".

(** What identifies the restart a Machine is marked for. [rm_action] is [None]
    when the Machine is not marked. *)
Record restartMark : Type := MkMark {
  rm_action : option string;
  rm_bootID : string;
  rm_request : string
}.

#[export] Instance restart_mark_eq_dec : EqDecision restartMark.
Proof. solve_decision. Defined.

(** A Duration is an int64; [time.Time.Sub] saturates, subtraction wraps. *)
Definition time_Sub (a b : Z) : Z := (Z.max min_int64 (Z.min (a - b) max_int64))%Z.
Definition wrap_int64 (x : Z) : Z := ((x + 2 ^ 63) mod 2 ^ 64 - 2 ^ 63)%Z.

(** ** The fields behind the mutex, purely *)

(** What [noteMode] does to the memory, with the mode known before. *)
Definition note_mode (key : ObjectKey) (mode : Mode) (m : Memory) : Memory :=
  let changed := match modes m !! key with Some previous => bool_decide (previous ≠ mode) | None => false end in
  MkMemory (if changed then delete key (seen m) else seen m)
    (if changed then delete key (wouldRelease m) else wouldRelease m)
    (<[key := mode]> (modes m)) (waiting m).

(** [forget]. *)
Definition forget_cluster (key : ObjectKey) (m : Memory) : Memory :=
  MkMemory (delete key (seen m)) (delete key (wouldRelease m)) (delete key (modes m))
    (delete key (waiting m)).

(** [r.seen[key]], [r.waiting[key]] and [r.wouldRelease[key]]. *)
Definition seen_of (key : ObjectKey) (m : Memory) : gmap string observation := default ∅ (seen m !! key).
Definition waits_of (key : ObjectKey) (m : Memory) : gmap string checksWait := default ∅ (waiting m !! key).
Definition would_release_of (key : ObjectKey) (m : Memory) : gset string := default ∅ (wouldRelease m !! key).

(** [releasableBefore]: what a dry run said before, which only its log asks for. *)
Definition releasableBefore (key : ObjectKey) (machine : string) (m : Memory) : bool :=
  bool_decide (machine ∈ would_release_of key m).

Definition remember_seen (key : ObjectKey) (current : gmap string observation) (m : Memory) : Memory :=
  set_seen m (if decide (current = ∅) then delete key (seen m) else <[key := current]> (seen m)).

Definition remember_would_release (key : ObjectKey) (machines : gset string) (m : Memory) : Memory :=
  set_wouldRelease m
    (if decide (machines = ∅) then delete key (wouldRelease m) else <[key := machines]> (wouldRelease m)).

(** The switch of [heldForChecks] on the wait of a Machine whose checks still
    show the earlier mark: whether the restart is held, for how long the
    Machine has been shown when the bound first lets it through, and the wait. *)
Definition check_wait (now : Z) (wait : option checksWait) : bool * Z * checksWait :=
  match wait with
  | None => (true, 0%Z, MkWait now false)
  | Some w =>
      if (time_Sub now (since w) <? earlierMarkGrace)%Z then (true, 0%Z, w)
      else if over w then (false, 0%Z, w)
      else (false, time_Sub now (since w), MkWait (since w) true)
  end.

(** One turn of the loop of [nextLook]. *)
Definition sooner (now : Z) (wait : checksWait) (next : Z) : Z :=
  let left := wrap_int64 (earlierMarkGrace - time_Sub now (since wait)) in
  if negb (over wait) && (0 <? left)%Z && (left <? next)%Z then left else next.

Definition next_look (now poll : Z) (waits : list checksWait) : Z :=
  foldl (fun next wait => sooner now wait next) poll waits.

Section controller.
Context `{KubeLib} {W : Type} `{API W} (r : ClusterReconciler).

Local Abbreviation M := (state (Sys W Memory)).

Definition modify (f : Memory → Memory) : M unit := m ← get_memory; put_memory (f m).

Definition pollInterval : Z :=
  if (0 <? r_PollInterval r)%Z then r_PollInterval r else DefaultPollInterval.

Definition observations (key : ObjectKey) : M (gmap string observation) :=
  m ← get_memory; mret (seen_of key m).

Definition remember (key : ObjectKey) (current : gmap string observation) : M unit :=
  modify (remember_seen key current).

Definition forget (key : ObjectKey) : M unit := modify (forget_cluster key).

Definition rememberWouldRelease (key : ObjectKey) (machines : gset string) : M unit :=
  modify (remember_would_release key machines).

Definition heldForChecks (key : ObjectKey) (machine : Machine) : M (bool * Z) :=
  m ← get_memory;
  if negb (EarlierMarkPending machine) then
    put_memory (set_waiting m (alter (delete (m_Name machine)) key (waiting m)));;
    mret (false, 0%Z)
  else
    now ← call Now;
    let '(held, shown, wait) := check_wait now (waits_of key m !! m_Name machine) in
    put_memory (set_waiting m (<[key := <[m_Name machine := wait]> (waits_of key m)]> (waiting m)));;
    mret (held, shown).

Definition nextLook (key : ObjectKey) : M Z :=
  m ← get_memory;
  now ← call Now;
  mret (next_look now pollInterval (snd <$> map_to_list (waits_of key m))).

(** The names of the Machines whose checks still show the earlier mark. *)
Definition pending_names (machines : list Machine) : gset string :=
  list_to_set (m_Name <$> filter (fun m => EarlierMarkPending m = true) machines).

Definition forget_waits (key : ObjectKey) (machines : list Machine) (m : Memory) : Memory :=
  let left := filter (fun p => p.1 ∈ pending_names machines) (waits_of key m) in
  set_waiting m (if decide (left = ∅) then delete key (waiting m) else <[key := left]> (waiting m)).

Definition forgetWaits (key : ObjectKey) (machines : gmap string Machine) : M unit :=
  modify (forget_waits key (snd <$> map_to_list machines)).

Definition noteMode (cluster : Cluster) (mode : Mode) : M unit :=
  m ← get_memory;
  put_memory (note_mode (cluster_key cluster) mode m);;
  if decide (modes m !! cluster_key cluster = Some mode) then mret tt
  else if r_DryRun r then mret tt
  else emit (RecordEvent (RefCluster (cluster_key cluster)) EventNormal EventSignalSourceSelected
         ActionSelectSource (EventNote (mode_string mode +:+ ": " +:+ mode_describe mode))).

(** [report]; [None] for a nil object. *)
Definition report (news : bool) (object : option ObjectRef) (eventReason action message : string) : M unit :=
  if negb news then mret tt
  else if r_DryRun r then mret tt
  else match object with
       | None => mret tt
       | Some o => emit (RecordEvent o EventWarning eventReason action (EventNote message))
       end.

Definition restartFallback (cluster : Cluster) : RestartFallback * string :=
  let fallback := default RestartFallbackReport (r_RestartFallback r) in
  match cl_Annotations cluster !! RestartFallbackAnnotation with
  | None => (fallback, "")
  | Some value =>
      match ParseRestartFallback value with
      | Err e => (fallback, "; the Cluster's " +:+ RestartFallbackAnnotation
                              +:+ " annotation is ignored: " +:+ error_string e)
      | Ok override => (override, "")
      end
  end.

(** ** Handling one signal *)

(** What [remediate] settles before it acts: whether a restart is still asked
    for once the fallback was applied, the action and the verb the Machine is
    marked with, and the outcome's reason. *)
Record plan : Type := MkPlan {
  p_restart : bool;
  p_restartUnavailable : bool;
  p_fallback : option RestartFallback;
  p_fallbackNote : string;
  p_action : string;
  p_reason : string
}.

Definition make_plan (cluster : Cluster) (outcome : Outcome) (cov : Coverage) : plan :=
  let restart := bool_decide (out_Decision outcome = Restart) in
  let action := if restart then ActionRestart else ActionRemediate in
  let restartUnavailable := restart && negb (TemplatesOnly cov) in
  if restartUnavailable then
    let '(fallback, fallbackNote) := restartFallback cluster in
    if bool_decide (fallback = RestartFallbackReplace) && Covered cov
    then MkPlan false true (Some fallback) fallbackNote ActionRemediate
           (out_Reason outcome +:+ ", which no remediation template can carry out; falling back to a replacement"
              +:+ fallbackNote)
    else MkPlan restart true (Some fallback) fallbackNote action (out_Reason outcome)
  else MkPlan restart false None "" action (out_Reason outcome).

(** [string(fallback)] of the plan, empty when none applied. *)
Definition plan_fallback (p : plan) : string :=
  match p_fallback p with Some f => fallback_string f | None => "" end.

(** ["%s %s: %s"] of the origin, the signal and the reason. *)
Definition because (sig : Signal) (reason : string) : string :=
  origin_string (sig_Origin sig) +:+ " " +:+ describe sig +:+ ": " +:+ reason.

Definition restart_message (sig : Signal) (p : plan) (coverage fallback : string) (waiting : bool) : string :=
  describe sig +:+ " calls for a restart of node " +:+ sig_Node sig +:+ ", but " +:+ coverage +:+ "; "
    +:+ unavailable waiting +:+ " (restart fallback " +:+ fallback +:+ ")".

Definition replace_message (sig : Signal) (coverage : string) (waiting : bool) : string :=
  describe sig +:+ " calls for a replacement of node " +:+ sig_Node sig +:+ ", but " +:+ coverage +:+ "; "
    +:+ unavailable waiting.

Definition skipped_message (sig : Signal) (skip : SkipReason) : string :=
  describe sig +:+ " on node " +:+ sig_Node sig +:+ ": remediation skipped because " +:+ Message skip.

(** The end of [remediate], from the guards on: the Machine is not skipped. *)
Definition hand_over (cluster : Cluster) (sig : Signal) (p : plan) (cov : Coverage)
    (machine : Machine) (node : option Node) (obs previous : observation) : M (Machine * observation) :=
  let coverage := Describe cov in
  let fallback := plan_fallback p +:+ p_fallbackNote p in
  let obs := set_Coverage obs coverage (if p_restartUnavailable p then fallback else obs_Fallback obs) in
  let unpaused := IgnoringPause cov in
  let object := Some (RefMachine (machine_key machine)) in
  if p_restart p && p_restartUnavailable p then
    let waiting := TemplatesOnly unpaused
      || bool_decide (p_fallback p = Some RestartFallbackReplace) && Covered unpaused in
    let message := restart_message sig p coverage (obs_Fallback obs) waiting in
    let obs := if waiting then obs
               else set_Answer obs (decline sig AnswerRemediationUnavailable message) in
    report (bool_decide (obs ≠ previous)) object EventRestartUnavailable ActionRestart message;;
    mret (machine, obs)
  else if negb (p_restart p) && negb (Covered cov) then
    let waiting := Covered unpaused in
    let message := replace_message sig coverage waiting in
    let obs := if waiting then obs
               else set_Answer obs (decline sig AnswerRemediationUnavailable message) in
    report (bool_decide (obs ≠ previous)) object EventReplaceUnavailable ActionRemediate message;;
    mret (machine, obs)
  else
    held ← (if p_restart p then heldForChecks (cluster_key cluster) machine else mret (false, 0%Z));
    if held.1 : bool then mret (machine, set_Skip obs SkipEarlierMark)
    else
      let reason := because sig (p_reason p) +:+ "; " +:+ coverage in
      if r_DryRun r then mret (machine, obs)
      else
        let record :=
          if p_restart p
          then MkRecord (match node with Some n => n_BootID n | None => "" end) (sig_Request sig)
          else MkRecord "" "" in
        marked ← MarkForRemediation (r_DryRun r) machine (p_action p) reason record;
        let '(machine, res) := marked in
        match res with
        | Err _ => mret (machine, no_observation)
        | Ok _ => mret (machine, obs)
        end.

Definition remediate (cluster : Cluster) (checks : list MachineHealthCheck) (sig : Signal)
    (outcome : Outcome) (machine : Machine) (node : option Node) (obs previous : observation) :
    M (Machine * observation) :=
  if bool_decide (out_Decision outcome = Restart) && bool_decide (sig_Request sig ≠ "")
     && RestartCompleted machine node && RestartAnswers machine (sig_Request sig)
  then mret (machine, set_Answer obs (MkAnswer true AnswerRestarted
                        ("node " +:+ sig_Node sig +:+ " restarted and is Ready")))
  else
    let cov := CoverageOf checks machine in
    let p := make_plan cluster outcome cov in
    let held := IsPaused machine || IsOptedOut machine in
    escalated ← (if negb (p_restart p) && (bool_decide (out_Decision outcome = Replace) || negb held)
                 then Escalate (r_DryRun r) machine (because sig (p_reason p))
                 else mret (machine, Ok false));
    let '(machine, res) := escalated in
    match res with
    | Err _ => mret (machine, no_observation)
    | Ok _ =>
        match Guard machine with
        | Some skip =>
            let obs := set_Skip obs skip in
            let obs := if negb (InProgress skip) && bool_decide (skip ≠ SkipPaused)
                       then set_Answer obs (decline sig (skip_string skip) (skipped_message sig skip))
                       else obs in
            (if decide (obs ≠ previous)
             then RecordSkipped (r_DryRun r) machine (Some skip) (p_action p) (because sig (p_reason p))
             else mret tt);;
            mret (machine, obs)
        | None => hand_over cluster sig p cov machine node obs previous
        end
    end.

(** The decision and the reason after [reportOnly]. *)
Definition decided (mode : Mode) (sig : Signal) : Outcome :=
  let outcome := Decide (r_Table r) sig in
  let why := reportOnly mode (out_Decision outcome) in
  if decide (why = "") then outcome
  else MkOutcome Report (out_Action outcome) (out_Reason outcome +:+ "; reported only since " +:+ why).

Definition handle (cluster : Cluster) (mode : Mode) (checks : list MachineHealthCheck) (sig : Signal)
    (machine : option Machine) (node : option Node) (previous : observation) :
    M (option Machine * observation) :=
  let outcome := decided mode sig in
  let obs := MkObs (Some (out_Decision outcome)) (out_Action outcome) (sig_Truncated sig)
               (match machine with Some m => m_Name m | None => "" end) (sig_Request sig)
               None "" "" no_answer in
  if bool_decide (node = None) && bool_decide (sig_Request sig ≠ "") then mret (machine, obs)
  else match machine with
  | None =>
      let message := "node " +:+ sig_Node sig +:+ " reports " +:+ describe sig
                       +:+ " but no Machine owns it" in
      let obs := set_Answer obs (decline sig AnswerMachineNotFound message) in
      report (bool_decide (obs ≠ previous)) (Some (RefCluster (cluster_key cluster)))
        EventMachineNotFound ActionReport message;;
      mret (None, obs)
  | Some m =>
      match out_Decision outcome with
      | Replace | Restart =>
          res ← remediate cluster checks sig outcome m node obs previous;
          mret (Some res.1, res.2)
      | Report =>
          let message := describe sig +:+ " on node " +:+ sig_Node sig +:+ ": " +:+ out_Reason outcome in
          let obs := set_Answer obs (decline sig AnswerNotRemediated message) in
          report (bool_decide (obs ≠ previous)) (Some (RefMachine (machine_key m)))
            EventNodeHealthReported ActionReport message;;
          mret (Some m, obs)
      end
  end.

(** ** Answering requests *)

Definition restartMarkOf (m : Machine) : restartMark :=
  MkMark (MarkedAction m) (get (m_Annotations m) RemediationBootIDAnnotation)
    (get (m_Annotations m) RemediationRequestAnnotation).

(** The function [releaseAnswered] retries, over the Machine and [conflicted]:
    [Release] itself, and the whole attempt. *)
Definition release_now (reason : string) : state (Sys W Memory * (Machine * bool)) (option error) :=
  fun '(s, (machine, _)) =>
    let '((machine, res), s) := Release (r_DryRun r) machine reason s in
    match res with
    | Ok _ => (None, (s, (machine, false)))
    | Err e => (IgnoreNotFound e, (s, (machine, IsConflict e)))
    end.

Definition release_attempt (answered : restartMark) (reason : string) :
    state (Sys W Memory * (Machine * bool)) (option error) :=
  fun '(s, (machine, conflicted)) =>
    if conflicted : bool then
      let '(res, s) := call (GetMachine (machine_key machine)) s in
      match res with
      | Err e => (IgnoreNotFound e, (s, (machine, conflicted)))
      | Ok current =>
          if decide (restartMarkOf current ≠ answered) then (None, (s, (current, conflicted)))
          else release_now reason (s, (current, conflicted))
      end
    else release_now reason (s, (machine, conflicted)).

Definition releaseAnswered (machine : Machine) (reason : string) : M (Machine * option error) :=
  fun s =>
    let '(res, (s, (machine, _))) :=
      RetryOnConflict (release_attempt (restartMarkOf machine) reason) (s, (machine, false)) in
    ((machine, res), s).

Definition answer_note (name : string) (a : answer) : string :=
  "Answered " +:+ gvk_Kind request_gvk +:+ " " +:+ name +:+ ": "
    +:+ (if an_Complete a then "True" else "False") +:+ ", " +:+ an_Reason a +:+ ": " +:+ an_Message a.

(** [answer]; the Machine is returned as it is known afterwards. *)
Definition answer_request (key : ObjectKey) (cluster : Cluster) (machine : option Machine)
    (sig : Signal) (a : answer) : M (option Machine) :=
  if r_DryRun r then mret machine
  else
    answered ← Answer key (sig_Request sig) (an_Complete a) (an_Reason a) (an_Message a);
    match answered with
    | Err _ | Ok false => mret machine
    | Ok true =>
        let object := match machine with
                      | Some m => RefMachine (machine_key m)
                      | None => RefCluster (cluster_key cluster)
                      end in
        emit (RecordEvent object EventNormal EventRequestAnswered ActionAnswer
                (EventNote (answer_note (sig_Request sig) a)));;
        match machine with
        | Some m => if an_Complete a
                    then res ← releaseAnswered m (an_Message a); mret (Some res.1)
                    else mret machine
        | None => mret machine
        end
    end.

(** ** Releasing restarts *)

(** [nodeOf]: the node of each Machine, by the Machine's name. *)
Definition nodeOf (machines : gmap string Machine) : gmap string string :=
  foldl (fun out p => <[m_Name p.2 := p.1]> out) ∅ (map_to_list machines).

(** Whether the mark of the Machine the observation names is left over from a
    finished restart that another request, no longer asking, asked for. *)
Definition leftover_mark (machines : gmap string Machine) (nodes : gmap string Node)
    (asking : gset string) (obs : observation) : bool :=
  let node := default "" (nodeOf machines !! obs_Machine obs) in
  match machines !! node with
  | None => false
  | Some m =>
      let asked := get (m_Annotations m) RemediationRequestAnnotation in
      bool_decide (obs_Decision obs = Some Restart) && bool_decide (obs_Request obs ≠ "")
      && bool_decide (asked ≠ "") && bool_decide (asked ∉ asking) && RestartCompleted m (nodes !! node)
  end.

(** Whether an observation asks for its Machine to be remediated. *)
Definition calls_for (obs : observation) : bool :=
  bool_decide (obs_Machine obs ≠ "")
  && (bool_decide (obs_Decision obs = Some Replace) || bool_decide (obs_Decision obs = Some Restart)).

(** The first request by name that waits for the Machine. *)
Definition note_waiting (leftover : gmap string string) (machine request : string) : gmap string string :=
  match leftover !! machine with
  | Some waiting => if decide (String.le waiting request) then leftover
                    else <[machine := request]> leftover
  | None => <[machine := request]> leftover
  end.

(** One turn of the loop over the observations. *)
Definition hold_step (machines : gmap string Machine) (nodes : gmap string Node) (asking : gset string)
    (acc : gset string * gmap string string) (obs : observation) : gset string * gmap string string :=
  let '(held, leftover) := acc in
  if negb (calls_for obs) then acc
  else if leftover_mark machines nodes asking obs then
    (held, note_waiting leftover (obs_Machine obs) (obs_Request obs))
  else ({[obs_Machine obs]} ∪ held, leftover).

(** [held] and [leftover]: the loop runs over the observations in an order Go
    leaves open. *)
Definition holds machines nodes asking (obss : list observation) : gset string * gmap string string :=
  foldl (hold_step machines nodes asking) (∅, ∅) obss.

Definition release_reason (source node : string) (m : Machine) (waiting : option string) : string :=
  match waiting with
  | None => "no " +:+ source +:+ " signal this operator acts on calls for a restart or a replacement of node "
              +:+ node +:+ " any more"
  | Some w => "the restart of node " +:+ node +:+ " that "
                +:+ get (m_Annotations m) RemediationRequestAnnotation
                +:+ " asked for is over, and " +:+ w +:+ " waits for one of its own"
  end.

(** The loop over the nodes, by name; what it would release in a dry run. *)
Fixpoint release_loop (source : string) (held : gset string) (leftover : gmap string string)
    (names : list string) (machines : gmap string Machine) (would : gset string) :
    M (gmap string Machine * gset string) :=
  match names with
  | [] => mret (machines, would)
  | node :: rest =>
      match machines !! node with
      | None => release_loop source held leftover rest machines would
      | Some m =>
          if negb (bool_decide (MarkedAction m = Some ActionRestart)) || bool_decide (m_Name m ∈ held)
          then release_loop source held leftover rest machines would
          else
            res ← Release (r_DryRun r) m (release_reason source node m (leftover !! m_Name m));
            let '(m', released) := res in
            release_loop source held leftover rest (<[node := m']> machines)
              (match released with
               | Ok true => if r_DryRun r then {[m_Name m]} ∪ would else would
               | _ => would
               end)
      end
  end.

Definition releaseRestarts (key : ObjectKey) (source : string) (machines : gmap string Machine)
    (nodes : gmap string Node) (current : gmap string observation) (asking : gset string) :
    M (gmap string Machine) :=
  let '(held, leftover) := holds machines nodes asking (snd <$> map_to_list current) in
  res ← release_loop source held leftover (sorted_keys machines) machines ∅;
  rememberWouldRelease key res.2;;
  mret res.1.

(** ** Reconcile *)

(** What the loop over the signals carries: the Machines of the pass, the
    conclusions, the requests found pending, and whether one was unreadable. *)
Record pass : Type := MkPass {
  ps_machines : gmap string Machine;
  ps_current : gmap string observation;
  ps_asking : gset string;
  ps_unreadable : bool
}.

(** The body of the loop for a signal that is to be handled. *)
Definition handle_signal (key : ObjectKey) (cluster : Cluster) (mode : Mode)
    (checks : list MachineHealthCheck) (nodes : gmap string Node) (previous : gmap string observation)
    (sig : Signal) (ps : pass) : M pass :=
  let prev := default no_observation (previous !! Key sig) in
  handled ← handle cluster mode checks sig (ps_machines ps !! sig_Node sig) (nodes !! sig_Node sig) prev;
  let '(machine, obs) := handled in
  machine ← (if given (obs_Answer obs) then answer_request key cluster machine sig (obs_Answer obs)
             else mret machine);
  mret (MkPass (match machine with
                | Some m => <[sig_Node sig := m]> (ps_machines ps)
                | None => ps_machines ps
                end)
          (<[Key sig := obs]> (ps_current ps)) (ps_asking ps) (ps_unreadable ps)).

(** One turn of the loop over the signals. *)
Definition signal_step (key : ObjectKey) (cluster : Cluster) (mode : Mode)
    (checks : list MachineHealthCheck) (nodes : gmap string Node) (previous : gmap string observation)
    (sig : Signal) (ps : pass) : M pass :=
  if decide (sig_Request sig = "") then handle_signal key cluster mode checks nodes previous sig ps
  else
    pending ← IsPending key (sig_Request sig);
    match pending with
    | Err _ =>
        mret (MkPass (ps_machines ps)
                (match previous !! Key sig with
                 | Some prev => <[Key sig := prev]> (ps_current ps)
                 | None => ps_current ps
                 end) (ps_asking ps) true)
    | Ok false => mret ps
    | Ok true =>
        handle_signal key cluster mode checks nodes previous sig
          (MkPass (ps_machines ps) (ps_current ps) ({[sig_Request sig]} ∪ ps_asking ps) (ps_unreadable ps))
    end.

Fixpoint signal_loop (key : ObjectKey) (cluster : Cluster) (mode : Mode)
    (checks : list MachineHealthCheck) (nodes : gmap string Node) (previous : gmap string observation)
    (signals : list Signal) (ps : pass) : M pass :=
  match signals with
  | [] => mret ps
  | sig :: rest =>
      ps ← signal_step key cluster mode checks nodes previous sig ps;
      signal_loop key cluster mode checks nodes previous rest ps
  end.

Definition nodesByName (key : ObjectKey) : M (result error (gmap string Node)) :=
  res ← call (ListNodes key);
  mret (match res with
        | Err e => Err (EWrap "list nodes" e)
        | Ok items => Ok (foldl (fun out n => <[n_Name n := n]> out) ∅ items)
        end).

Definition index_machines (items : list Machine) : gmap string Machine :=
  foldl (fun out m => if decide (m_NodeRef m = "") then out else <[m_NodeRef m := m]> out) ∅ items.

Definition machinesByNode (cluster : Cluster) : M (result error (gmap string Machine)) :=
  res ← call (ListMachines (cl_Namespace cluster) {[ClusterNameLabel := cl_Name cluster]});
  mret (match res with
        | Err e => Err (EWrap ("list machines of " +:+ cl_Namespace cluster +:+ "/" +:+ cl_Name cluster) e)
        | Ok items => Ok (index_machines items)
        end).

Definition watchRequests (key : ObjectKey) : M (result error unit) :=
  if negb (r_Watching r)
  then mret (Err (ENew "the controller was not set up with a manager, so there is nothing to wake"))
  else call (WatchRequests key).

(** From the signals on: what is left of a pass once everything it reads was read. *)
Definition act_on_signals (key : ObjectKey) (cluster : Cluster) (mode : Mode)
    (checks : list MachineHealthCheck) (machines : gmap string Machine) (nodes : gmap string Node)
    (signals : list Signal) : M (result error Z) :=
  previous ← observations key;
  ps ← signal_loop key cluster mode checks nodes previous signals (MkPass machines ∅ ∅ false);
  machines ← (if ps_unreadable ps then mret (ps_machines ps)
              else releaseRestarts key (src_Name (source (W:=W) (R:=Memory) mode key)) (ps_machines ps) nodes (ps_current ps)
                     (ps_asking ps));
  remember key (ps_current ps);;
  forgetWaits key machines;;
  next ← nextLook key;
  mret (Ok next).

(** From the choice of the mode on. [Ok d] is a reconcile requeued after [d]. *)
Definition poll (key : ObjectKey) (cluster : Cluster) : M (result error Z) :=
  mode ← selectMode key;
  match mode with
  | Err _ => mret (Ok pollInterval)
  | Ok mode =>
      noteMode cluster mode;;
      (if decide (mode = ModeExternalRemediationRequest) then watchRequests key else mret (Ok tt));;
      signals ← src_Collect (source mode key);
      match signals with
      | Err _ => mret (Ok pollInterval)
      | Ok signals =>
          machines ←? machinesByNode cluster;
          checks ←? (match signals with [] => mret (Ok []) | _ => ListHealthChecks cluster end);
          nodes ← (match signals with [] => mret (Ok ∅) | _ => nodesByName key end);
          match nodes with
          | Err _ => mret (Ok pollInterval)
          | Ok nodes =>
              live ← (if decide (mode = ModeExternalRemediationRequest ∧ signals ≠ [])
                      then call (GetUncachedClient key) else mret (Ok tt));
              match live with
              | Err _ => mret (Ok pollInterval)
              | Ok _ => act_on_signals key cluster mode checks machines nodes signals
              end
          end
      end
  end.

(** [Ok 0] is [ctrl.Result{}]: nothing is requeued. *)
Definition Reconcile (key : ObjectKey) : M (result error Z) :=
  cluster ← call (GetCluster key);
  match cluster with
  | Err e => if IsNotFound e then forget key;; mret (Ok 0%Z) else mret (Err e)
  | Ok cluster =>
      if cl_Deleting cluster then forget key;; mret (Ok 0%Z)
      else if (match r_ClusterSelector r with
               | Some matches => negb (matches (cl_Labels cluster))
               | None => false
               end)
      then forget key;; mret (Ok 0%Z)
      else if annotations_IsPaused cluster then forgetWaits key ∅;; mret (Ok pollInterval)
      else
        client ← call (GetClient key);
        match client with
        | Err e => if IsNotConnected e then forgetWaits key ∅;; mret (Ok pollInterval)
                   else mret (Err (EWrap ("workload client for " +:+ key_string key) e))
        | Ok _ => poll key cluster
        end
  end.
End controller.

(** ** Watching requests *)

Definition requestBecamePending `{KubeLib} (e : watch_event Unstructured) : bool :=
  match e with
  | CreateEvent o => Pending o
  | UpdateEvent old new => negb (Pending old) && Pending new
  | DeleteEvent _ | GenericEvent _ => false
  end.

Definition clusterToRequest (c : Cluster) : list ObjectKey := [cluster_key c].

(** ** What each step issues *)

(** What a Machine may be marked for, given its MachineHealthChecks: a restart
    where every one of them remediates through a template, a remediation where
    one of them is at work. *)
Definition may_mark `{KubeLib} (checks : list MachineHealthCheck) (base : Machine) (action : string) : Prop :=
  (action = ActionRestart ∧ TemplatesOnly (CoverageOf checks base) = true) ∨
  (action = ActionRemediate ∧ Covered (CoverageOf checks base) = true).

Definition is_event (e : Effect) : Prop := match e with RecordEvent _ _ _ _ _ => True | _ => False end.
