(* ===== verification/ClusterFacts.v ===== *)
(** * What the cluster controller guarantees

    The effects of handling a signal and of a whole reconcile, what requests are
    answered, when restarts are released, how long they are held back and when
    the Cluster is looked at again. *)

From S2P Require Import Prelude GoStrings Signal Decision Kube KubeModel WorldModel Condition Extrr Capi Mode ClusterController.
Open Scope stdpp_scope.

Section handle.
Context `{KubeLib} {W : Type} `{API W} (r : ClusterReconciler) (P : Effect → Prop).
Context (HE : r_DryRun r = false → ∀ o t reason action note, P (RecordEvent o t reason action note)).

Lemma report_spec news object reason action message :
  spec (W:=W) P (report r news object reason action message) (fun _ => True).
Proof.
  unfold report. destruct news; [|by apply spec_ret]. simpl.
  destruct (r_DryRun r); [by apply spec_ret|]. destruct object; [|by apply spec_ret].
  by apply spec_emit, HE.
Qed.

Lemma heldForChecks_spec key m : spec (W:=W) P (heldForChecks key m) (fun _ => True).
Proof.
  unfold heldForChecks. eapply spec_bind; [apply spec_get_memory|]. intros mem _.
  destruct (negb _); spec_steps. destruct (check_wait _ _) as [[held shown] w]. spec_steps.
Qed.

(** The action of a plan that hands the Machine over is one the checks carry out. *)
Lemma make_plan_covered cluster outcome cov :
  let p := make_plan r cluster outcome cov in
  p_restart p && p_restartUnavailable p = false →
  negb (p_restart p) && negb (Covered cov) = false →
  (p_action p = ActionRestart ∧ TemplatesOnly cov = true) ∨
  (p_action p = ActionRemediate ∧ Covered cov = true).
Proof.
  unfold make_plan. destruct (bool_decide (out_Decision outcome = Restart)); simpl.
  - destruct (TemplatesOnly cov); simpl; [auto|].
    destruct (restartFallback r cluster) as [f note].
    destruct (bool_decide (f = RestartFallbackReplace) && Covered cov) eqn:E; simpl; [|done].
    bool_to_prop. auto.
  - destruct (Covered cov); simpl; auto.
Qed.

Lemma make_plan_action cluster outcome cov :
  let p := make_plan r cluster outcome cov in p_action p = ActionRestart ∨ p_action p = ActionRemediate.
Proof.
  unfold make_plan. destruct (bool_decide (out_Decision outcome = Restart)); simpl; [|auto].
  destruct (negb (TemplatesOnly cov)); simpl; [|auto]. destruct (restartFallback r cluster) as [f note].
  destruct (bool_decide _ && _); simpl; auto.
Qed.

Lemma hand_over_spec cluster sig p cov machine node obs previous :
  (r_DryRun r = false → Guard machine = None →
   p_restart p && p_restartUnavailable p = false →
   negb (p_restart p) && negb (Covered cov) = false →
   ∀ reason restart, P (PatchMachine machine (set_annotations machine
     (mark_annotations (m_Annotations machine) (p_action p) reason restart)) false)) →
  spec (W:=W) P (hand_over r cluster sig p cov machine node obs previous) (fun _ => True).
Proof.
  intros HM. unfold hand_over.
  destruct (p_restart p && p_restartUnavailable p) eqn:E1.
  { eapply spec_bind; [apply report_spec|]. intros _ _. by apply spec_ret. }
  destruct (negb (p_restart p) && negb (Covered cov)) eqn:E2.
  { eapply spec_bind; [apply report_spec|]. intros _ _. by apply spec_ret. }
  eapply (spec_bind _ _ _ (fun _ => True)).
  { destruct (p_restart p); [apply heldForChecks_spec|by apply spec_ret]. }
  intros [[] shown] _; [by apply spec_ret|]. simpl.
  destruct (r_DryRun r) eqn:Hdry; [by apply spec_ret|].
  eapply spec_bind; [apply MarkForRemediation_spec|].
  - intros _ HG. by apply HM.
  - intros _ o note. by apply HE.
  - intros [m' [|e]] _; by apply spec_ret.
Qed.

(** The API server's answer to turning the restart of the Machine into a replacement. *)
Definition escalation_answer (machine : Machine) (res : result error Machine) : Prop :=
  MarkedAction machine = Some ActionRestart ∧ m_Deleting machine = false ∧
  ∃ reason w, (SendPatchMachine machine
    (set_annotations machine (escalate_annotations (m_Annotations machine) reason)) true w).1 = res.

(** The Machine the steps after an escalation go on with: the one handled, or the one the
    API server answered the escalation with. *)
Definition handled_base (machine base : Machine) : Prop :=
  base = machine ∨ escalation_answer machine (Ok base).

(** The patches that handling a signal of the Machine may send: an escalation of its
    restart mark, or a mark the guards and its checks allow. *)
Inductive handle_patch (checks : list MachineHealthCheck) (machine : Machine) : Effect → Prop :=
| handle_marks base action reason restart :
    Guard base = None → handled_base machine base → may_mark checks machine action →
    handle_patch checks machine
      (PatchMachine base (set_annotations base (mark_annotations (m_Annotations base) action reason restart)) false)
| handle_escalates reason :
    MarkedAction machine = Some ActionRestart → m_Deleting machine = false →
    handle_patch checks machine
      (PatchMachine machine
        (set_annotations machine (escalate_annotations (m_Annotations machine) reason)) true).

Lemma Escalate_base dryRun m reason :
  yields (W:=W) (R:=Memory) (Escalate dryRun m reason) (fun res =>
    match res.2 with Ok _ => handled_base m res.1 | Err _ => ∃ e, escalation_answer m (Err e) end).
Proof.
  intros s. unfold Escalate. destruct (negb _ || _) eqn:E; [by left|]. bool_to_prop.
  destruct dryRun; [by left|]. unfold patch_machine, mbind, state_bind, call, emit. simpl.
  destruct (SendPatchMachine _ _ _ (world s)) as [[m'|e] w] eqn:Ep; simpl; [right|exists e];
    split_and!; try done; exists reason, (world s); by rewrite Ep.
Qed.

Lemma spec_yields {A} (P' : Effect → Prop) (c : state (Sys W Memory) A) Q :
  spec P' c (fun _ => True) → yields c Q → spec P' c Q.
Proof. intros Hc HQ s. split; [apply HQ|apply Hc]. Qed.

Lemma remediate_spec cluster checks sig outcome machine node obs previous :
  (r_DryRun r = false → ∀ e, handle_patch checks machine e → P e) →
  spec (W:=W) P (remediate r cluster checks sig outcome machine node obs previous) (fun _ => True).
Proof.
  intros HP. unfold remediate. destruct (bool_decide _ && _ && _ && _); [by apply spec_ret|].
  cbv zeta. set (cov := CoverageOf checks machine). set (p := make_plan r cluster outcome cov).
  eapply (spec_bind _ _ _ (fun res =>
    match res.2 with Ok _ => handled_base machine res.1 | Err _ => ∃ e, escalation_answer machine (Err e) end)).
  { destruct (negb (p_restart p) && _); [|apply spec_ret; by left].
    apply spec_yields; [apply Escalate_spec|apply Escalate_base].
    - intros Hd Hm Hdel. apply HP; [done|]. by apply handle_escalates.
    - intros Hd o note. by apply HE. }
  intros [m [esc|e]] Hbase; [|by apply spec_ret]. simpl in Hbase.
  destruct (Guard m) as [skip|] eqn:HG.
  - eapply (spec_bind _ _ _ (fun _ => True)); [|intros _ _; by apply spec_ret].
    case_decide; [|by apply spec_ret]. apply RecordSkipped_spec. intros Hd o note. by apply HE.
  - apply hand_over_spec. intros Hd _ H1 H2 reason restart. apply HP; [done|].
    apply handle_marks; [done|done|]. by apply (make_plan_covered cluster outcome cov).
Qed.

Lemma decided_report_only sig : out_Decision (decided r ModeReportOnly sig) = Report.
Proof. unfold decided, reportOnly. simpl. by destruct (out_Decision (Decide (r_Table r) sig)) eqn:E. Qed.

Lemma handle_spec cluster mode checks sig machine node previous :
  (r_DryRun r = false → mode ≠ ModeReportOnly → out_Decision (decided r mode sig) ≠ Report →
   ∀ m e, machine = Some m → handle_patch checks m e → P e) →
  spec (W:=W) P (handle r cluster mode checks sig machine node previous) (fun _ => True).
Proof.
  intros HP. unfold handle. cbv zeta. destruct (bool_decide (node = None) && _); [by apply spec_ret|].
  destruct machine as [m|].
  - destruct (out_Decision (decided r mode sig)) eqn:Hd.
    + eapply spec_bind; [apply report_spec|]. intros _ _. by apply spec_ret.
    + eapply spec_bind; [apply remediate_spec|intros [] _; by apply spec_ret].
      intros Hdry e He. refine (HP Hdry _ _ _ _ eq_refl He); [|done].
      intros ->. by rewrite decided_report_only in Hd.
    + eapply spec_bind; [apply remediate_spec|intros [] _; by apply spec_ret].
      intros Hdry e He. refine (HP Hdry _ _ _ _ eq_refl He); [|done].
      intros ->. by rewrite decided_report_only in Hd.
  - eapply spec_bind; [apply report_spec|]. intros _ _. by apply spec_ret.
Qed.
End handle.

(** ** What a request is answered *)

(** The node shows that the restart this operator marked the Machine for is over: it has
    another boot ID than the one recorded with the mark, and it is Ready, as the first of
    its conditions of that type says. *)
Definition restart_over `{KubeLib} (m : Machine) (n : Node) : Prop :=
  MarkedAction m = Some ActionRestart ∧
  get (m_Annotations m) RemediationBootIDAnnotation ≠ "" ∧ n_BootID n ≠ "" ∧
  n_BootID n ≠ get (m_Annotations m) RemediationBootIDAnnotation ∧
  ∃ l1 c l2, n_Conditions n = l1 ++ c :: l2 ∧ Forall (fun c => nc_Type c ≠ "Ready") l1 ∧
    nc_Type c = "Ready" ∧ nc_Status c = "True".

Lemma node_ready_iff conditions :
  node_ready conditions = true ↔ ∃ l1 c l2, conditions = l1 ++ c :: l2 ∧
    Forall (fun c => nc_Type c ≠ "Ready") l1 ∧ nc_Type c = "Ready" ∧ nc_Status c = "True".
Proof.
  induction conditions as [|c cs IH]; cbn [node_ready].
  { split; [done|]. intros (l1 & c & l2 & Heq & _). by destruct l1. }
  case_decide as Hc; [rewrite bool_decide_eq_true|rewrite IH]; split.
  - intros Hs. by exists [], c, cs.
  - intros ([|c' l1] & c0 & l2 & Heq & Hl & Hr & Hs); simplify_eq/=; [done|]. by apply Forall_cons in Hl as [? _].
  - intros (l1 & c' & l2 & -> & Hl & Hr & Hs). exists (c :: l1), c', l2. split_and!; [done|by constructor|done..].
  - intros ([|c' l1] & c0 & l2 & Heq & Hl & Hr & Hs); simplify_eq/=.
    apply Forall_cons in Hl as [_ Hl]. by exists l1, c0, l2.
Qed.

Lemma restart_completed_over `{KubeLib} m node :
  RestartCompleted m node = true ↔ ∃ n, node = Some n ∧ restart_over m n.
Proof.
  rewrite restart_completed_iff. unfold restart_over. setoid_rewrite node_ready_iff. naive_solver.
Qed.

(** The restart the request asked for is over: of the mark of the Machine, which this
    request asked for, or none. *)
Definition restart_answers `{KubeLib} (sig : Signal) (machine : option Machine) (node : option Node) : Prop :=
  ∃ m n, machine = Some m ∧ node = Some n ∧ restart_over m n ∧
    (get (m_Annotations m) RemediationRequestAnnotation = "" ∨
     get (m_Annotations m) RemediationRequestAnnotation = sig_Request sig).

Lemma restart_answers_iff `{KubeLib} sig m node :
  RestartCompleted m node = true → RestartAnswers m (sig_Request sig) = true → restart_answers sig (Some m) node.
Proof.
  intros (n & -> & Ho)%restart_completed_over Ha. unfold RestartAnswers in Ha.
  rewrite orb_true_iff, !bool_decide_eq_true in Ha. by exists m, n.
Qed.

(** Whether the checks of a Machine, were they all at work, would carry out what
    the outcome asks for, given the restart fallback. *)
Definition could_carry_out `{KubeLib} (outcome : Outcome) (fallback : RestartFallback) (cov : Coverage) : bool :=
  let unpaused := IgnoringPause cov in
  if decide (out_Decision outcome = Restart)
  then TemplatesOnly unpaused || bool_decide (fallback = RestartFallbackReplace) && Covered unpaused
  else Covered unpaused.

(** Why a request is declined, with the reason given. Where its Machine is one to be
    remediated, nothing is under way: the Machine is not being deleted and not marked, but
    the guards or its checks leave it alone. *)
Inductive declined `{KubeLib} {W : Type} `{API W} (r : ClusterReconciler) (cluster : Cluster)
    (checks : list MachineHealthCheck) (outcome : Outcome) : option Machine → string → Prop :=
| no_machine : declined r cluster checks outcome None AnswerMachineNotFound
| not_remediated m : out_Decision outcome = Report → declined r cluster checks outcome (Some m) AnswerNotRemediated
| not_touched m m' skip : out_Decision outcome ≠ Report →
    skip = SkipControlPlane ∨ skip = SkipOptedOut →
    handled_base m m' → Guard m' = Some skip → m_Deleting m' = false → IsMarkedForRemediation m' = false →
    declined r cluster checks outcome (Some m) (skip_string skip)
| not_available m m' : out_Decision outcome ≠ Report →
    handled_base m m' → Guard m' = None →
    could_carry_out outcome (restartFallback r cluster).1 (CoverageOf checks m) = false →
    declined r cluster checks outcome (Some m) AnswerRemediationUnavailable.

(** Why a request is left pending: its node is gone, the API server refused to turn the
    Machine's restart into a replacement, the Machine is under remediation or paused, or
    nothing keeps it from being remediated and its checks can carry the decision out, now
    or once unpaused. *)
Inductive waits `{KubeLib} {W : Type} `{API W} (r : ClusterReconciler) (cluster : Cluster)
    (checks : list MachineHealthCheck) (outcome : Outcome) (node : option Node) : option Machine → Prop :=
| node_gone machine : node = None → waits r cluster checks outcome node machine
| escalation_failed m e : escalation_answer m (Err e) → waits r cluster checks outcome node (Some m)
| on_hold m m' skip : handled_base m m' → Guard m' = Some skip →
    skip ∈ [SkipDeleting; SkipAlreadyMarked; SkipPaused] → waits r cluster checks outcome node (Some m)
| can_be_carried_out m m' : handled_base m m' → Guard m' = None →
    could_carry_out outcome (restartFallback r cluster).1 (CoverageOf checks m) = true →
    waits r cluster checks outcome node (Some m).

Section answers.
Context `{KubeLib} {W : Type} `{API W} (r : ClusterReconciler).

(** What [handle] concludes of a signal, in terms of the answer it gives. *)
Definition answer_sound (cluster : Cluster) (checks : list MachineHealthCheck) (sig : Signal)
    (outcome : Outcome) (machine : option Machine) (node : option Node)
    (res : option Machine * observation) : Prop :=
  let a := obs_Answer res.2 in
  if given a then
    sig_Request sig ≠ "" ∧ is_Some node ∧
    if an_Complete a
    then an_Reason a = AnswerRestarted ∧ out_Decision outcome = Restart ∧
         res.1 = machine ∧ restart_answers sig machine node
    else declined r cluster checks outcome machine (an_Reason a)
  else sig_Request sig = "" ∨ waits r cluster checks outcome node machine.

Lemma answer_sound_decline cluster checks sig outcome machine node m' obs reason message :
  reason ≠ "" → declined r cluster checks outcome machine reason → is_Some node ∨ sig_Request sig = "" →
  answer_sound cluster checks sig outcome machine node (m', set_Answer obs (decline sig reason message)).
Proof.
  intros Hr Hd Hn. unfold answer_sound, decline. simpl. case_decide as Hreq; simpl; [auto|].
  unfold given. simpl. rewrite bool_decide_eq_true_2 by done. split_and!; [done|naive_solver|done].
Qed.

Lemma answer_sound_waits cluster checks sig outcome machine node m' obs :
  obs_Answer obs = no_answer → waits r cluster checks outcome node machine →
  answer_sound cluster checks sig outcome machine node (m', obs).
Proof. intros Ha Hw. unfold answer_sound. simpl. rewrite Ha. simpl. auto. Qed.

Lemma Guard_not_earlier m : Guard m ≠ Some SkipEarlierMark.
Proof.
  unfold Guard. by destruct (m_Deleting m), (IsMarkedForRemediation m), (IsControlPlane m),
    (IsPaused m), (IsOptedOut m).
Qed.

Lemma skip_string_not_empty skip : skip_string skip ≠ "".
Proof. by destruct skip. Qed.

Lemma Covered_unpaused cov : Covered cov = true → Covered (IgnoringPause cov) = true.
Proof. unfold Covered, IgnoringPause. simpl. by destruct (Checks cov). Qed.

Lemma TemplatesOnly_unpaused cov : TemplatesOnly cov = true → TemplatesOnly (IgnoringPause cov) = true.
Proof.
  unfold TemplatesOnly. intros [Hc Ht]%andb_true_iff. rewrite Covered_unpaused by done. simpl.
  rewrite forallb_forall in *. intros check (check' & <- & Hin)%in_map_iff.
  by apply (Ht check').
Qed.

(** A plan that hands the Machine over is carried out by its checks. *)
Lemma plan_carried_out cluster outcome cov :
  let p := make_plan r cluster outcome cov in
  p_restart p && p_restartUnavailable p = false →
  negb (p_restart p) && negb (Covered cov) = false →
  could_carry_out outcome (restartFallback r cluster).1 cov = true.
Proof.
  unfold make_plan, could_carry_out. case_bool_decide as Hd; simpl.
  - rewrite decide_True by done. destruct (TemplatesOnly cov) eqn:Ht; simpl.
    { intros _ _. by rewrite TemplatesOnly_unpaused. }
    destruct (restartFallback r cluster) as [f note]. simpl.
    destruct (bool_decide (f = RestartFallbackReplace) && Covered cov) eqn:E; simpl; [|done].
    bool_to_prop. intros _ _. rewrite bool_decide_eq_true_2, Covered_unpaused by done. apply orb_true_r.
  - rewrite decide_False by done. destruct (Covered cov) eqn:Hc; [|done]. intros _ _. by apply Covered_unpaused.
Qed.

(** Where the restart has no template, waiting is for the checks' unpausing. *)
Lemma plan_restart_unavailable cluster outcome cov :
  let p := make_plan r cluster outcome cov in
  p_restart p && p_restartUnavailable p = true →
  TemplatesOnly (IgnoringPause cov)
    || bool_decide (p_fallback p = Some RestartFallbackReplace) && Covered (IgnoringPause cov)
  = could_carry_out outcome (restartFallback r cluster).1 cov.
Proof.
  unfold make_plan, could_carry_out. case_bool_decide as Hd; simpl; [|done].
  rewrite decide_True by done. destruct (TemplatesOnly cov) eqn:Ht; simpl; [done|].
  destruct (restartFallback r cluster) as [f note]. simpl.
  destruct (bool_decide (f = RestartFallbackReplace) && Covered cov); simpl; [done|]. intros _.
  do 2 f_equal. apply bool_decide_ext. split; [by intros [= ->]|by intros ->].
Qed.

Lemma plan_replace_unavailable cluster outcome cov :
  let p := make_plan r cluster outcome cov in
  negb (p_restart p) && negb (Covered cov) = true →
  Covered (IgnoringPause cov) = could_carry_out outcome (restartFallback r cluster).1 cov.
Proof.
  unfold make_plan, could_carry_out. case_bool_decide as Hd; simpl.
  - destruct (TemplatesOnly cov); simpl; [done|]. destruct (restartFallback r cluster) as [f note].
    destruct (Covered cov); rewrite ?andb_true_r, ?andb_false_r; simpl; [|done].
    by destruct (bool_decide (f = RestartFallbackReplace)).
  - by rewrite decide_False.
Qed.

Local Abbreviation any := (fun _ : Effect => True).

Lemma hand_over_answers cluster checks sig outcome machine m node obs previous :
  out_Decision outcome ≠ Report → obs_Answer obs = no_answer → is_Some node ∨ sig_Request sig = "" →
  handled_base machine m → Guard m = None →
  spec (W:=W) any
    (hand_over r cluster sig (make_plan r cluster outcome (CoverageOf checks machine))
       (CoverageOf checks machine) m node obs previous)
    (fun res => answer_sound cluster checks sig outcome (Some machine) node (Some res.1, res.2)).
Proof.
  intros Hout Ha Hnode Hbase HG. unfold hand_over. cbv zeta. set (cov := CoverageOf checks machine).
  set (p := make_plan r cluster outcome cov).
  destruct (p_restart p && p_restartUnavailable p) eqn:E1.
  { eapply spec_bind; [by apply report_spec|]. intros _ _. apply spec_ret. simpl.
    pose proof (plan_restart_unavailable cluster outcome cov E1) as Hw. fold p in Hw. rewrite Hw.
    destruct (could_carry_out outcome _ cov) eqn:Hcan.
    - apply answer_sound_waits; [done|]. by eapply can_be_carried_out.
    - apply answer_sound_decline; [done| |done]. by eapply not_available. }
  destruct (negb (p_restart p) && negb (Covered cov)) eqn:E2.
  { eapply spec_bind; [by apply report_spec|]. intros _ _. apply spec_ret. simpl.
    pose proof (plan_replace_unavailable cluster outcome cov E2) as Hw. rewrite Hw.
    destruct (could_carry_out outcome _ cov) eqn:Hcan.
    - apply answer_sound_waits; [done|]. by eapply can_be_carried_out.
    - apply answer_sound_decline; [done| |done]. by eapply not_available. }
  assert (Hcan : waits r cluster checks outcome node (Some machine))
    by (eapply can_be_carried_out; [done..|]; by apply plan_carried_out).
  eapply (spec_bind _ _ _ (fun _ => True)).
  { destruct (p_restart p); [by apply heldForChecks_spec|by apply spec_ret]. }
  intros [[] shown] _; [by apply spec_ret, answer_sound_waits|]. simpl.
  destruct (r_DryRun r); [by apply spec_ret, answer_sound_waits|].
  eapply spec_bind; [by apply MarkForRemediation_spec|].
  intros [m' [|e]] _; by apply spec_ret, answer_sound_waits.
Qed.

Lemma remediate_answers cluster checks sig outcome machine node obs previous :
  out_Decision outcome ≠ Report → obs_Answer obs = no_answer → is_Some node ∨ sig_Request sig = "" →
  spec (W:=W) any (remediate r cluster checks sig outcome machine node obs previous)
    (fun res => answer_sound cluster checks sig outcome (Some machine) node (Some res.1, res.2)).
Proof.
  intros Hout Ha Hnode. unfold remediate. destruct (bool_decide _ && _ && _ && _) eqn:E.
  { bool_to_prop. apply spec_ret. unfold answer_sound, given. simpl. split_and!; try done; [naive_solver|].
    by apply restart_answers_iff. }
  cbv zeta. set (cov := CoverageOf checks machine). set (p := make_plan r cluster outcome cov).
  eapply (spec_bind _ _ _ (fun res =>
    match res.2 with Ok _ => handled_base machine res.1 | Err _ => ∃ e, escalation_answer machine (Err e) end)).
  { destruct (negb (p_restart p) && _); [|apply spec_ret; by left].
    apply spec_yields; [by apply Escalate_spec|apply Escalate_base]. }
  intros [m [esc|e]] Hbase; simpl in Hbase.
  2:{ destruct Hbase as [e' He']. apply spec_ret, answer_sound_waits; [done|]. by eapply escalation_failed. }
  destruct (Guard m) as [skip|] eqn:HG; [|by apply hand_over_answers].
  eapply (spec_bind _ _ _ (fun _ => True)).
  { destruct (decide (_ ≠ previous)); [by apply RecordSkipped_spec|by apply spec_ret]. }
  intros _ _. apply spec_ret. simpl.
  assert (skip ≠ SkipEarlierMark) as Hearlier by (intros ->; by apply (Guard_not_earlier m)).
  destruct (negb (InProgress skip) && _) eqn:Hskip.
  - apply answer_sound_decline; [apply skip_string_not_empty| |done]. bool_to_prop.
    assert (m_Deleting m = false ∧ IsMarkedForRemediation m = false) as [Hd Hm].
    { unfold Guard in HG. destruct (m_Deleting m); [by simplify_eq|].
      by destruct (IsMarkedForRemediation m); simplify_eq. }
    eapply not_touched; [done| |done..]. destruct skip; try done; auto.
  - apply answer_sound_waits; [done|]. apply (on_hold _ _ _ _ _ _ m skip); [done..|].
    destruct skip; simpl in *; try done; set_solver.
Qed.
End answers.

(** The answers of [handle]. *)
Lemma requests_are_settled `{KubeLib} {W : Type} `{API W} (r : ClusterReconciler)
    (cluster : Cluster) (mode : Mode) (checks : list MachineHealthCheck) (sig : Signal)
    (machine : option Machine) (node : option Node) (previous : observation) :
  spec (W:=W) (fun _ => True) (handle r cluster mode checks sig machine node previous)
    (answer_sound r cluster checks sig (decided r mode sig) machine node).
Proof.
  unfold handle. cbv zeta.
  destruct (bool_decide (node = None) && _) eqn:Hgone.
  { bool_to_prop. by apply spec_ret, answer_sound_waits; [|apply node_gone]. }
  assert (Hnode : is_Some node ∨ sig_Request sig = "").
  { apply andb_false_iff in Hgone as [Hn|Hn]; bool_to_prop.
    - left. by destruct node.
    - right. by apply dec_stable. }
  destruct machine as [m|].
  - destruct (out_Decision (decided r mode sig)) eqn:Hd.
    + eapply spec_bind; [by apply report_spec|]. intros _ _.
      by apply spec_ret, answer_sound_decline; [|apply not_remediated|].
    + eapply spec_bind; [by apply remediate_answers; [rewrite Hd|..]|]. intros [m' obs] Hs. by apply spec_ret.
    + eapply spec_bind; [by apply remediate_answers; [rewrite Hd|..]|]. intros [m' obs] Hs. by apply spec_ret.
  - eapply spec_bind; [by apply report_spec|]. intros _ _.
    by apply spec_ret, answer_sound_decline; [|apply no_machine|].
Qed.

(** C15: what a request is told, and when. A request is answered only while its node is
    there. True is answered only for a restart the table asked for, that this request's own
    mark, or a mark of no request, asked for, and that is over: the node has another boot
    ID than the mark recorded and is Ready. False only where nothing is under way and
    nothing will be done: there is no Machine, the decision is only to report, or the
    Machine is neither being deleted nor marked, and it is one this operator does not touch
    or, all guards passed, its checks could not carry the decision out even unpaused. A
    request gets no answer only while something can still happen: its node is gone and it
    with it, an escalation was refused, the Machine is under remediation or paused, or its
    checks will act. Other signals get no answer at all. *)
Theorem requests_are_answered_when_settled `{KubeLib} {W : Type} `{API W} (r : ClusterReconciler)
    (cluster : Cluster) (mode : Mode) (checks : list MachineHealthCheck) (sig : Signal)
    (machine : option Machine) (node : option Node) (previous : observation) :
  spec (W:=W) (fun _ => True) (handle r cluster mode checks sig machine node previous)
    (answer_sound r cluster checks sig (decided r mode sig) machine node).
Proof. apply requests_are_settled. Qed.

(** C14: what handling one signal may do to the cluster. It sends nothing in a dry
    run; it patches no Machine in a cluster NVSentinel's janitor remediates, nor
    for a decision to report; and a Machine it does patch is the one behind the
    node, as it was handed over or as the API server answered the patch that turned its
    restart into a replacement: marked only where the guards let it and its checks carry
    the action out (a restart only when all of them go through templates), or turned from
    a restart this operator asked for into a replacement. *)
Theorem handling_is_safe `{KubeLib} {W : Type} `{API W} (r : ClusterReconciler)
    (cluster : Cluster) (mode : Mode) (checks : list MachineHealthCheck) (sig : Signal)
    (machine : option Machine) (node : option Node) (previous : observation) :
  spec (W:=W)
    (fun e => r_DryRun r = false ∧
       (is_event e ∨
        mode ≠ ModeReportOnly ∧ out_Decision (decided r mode sig) ≠ Report ∧
        ∃ m, machine = Some m ∧ handle_patch checks m e))
    (handle r cluster mode checks sig machine node previous) (fun _ => True).
Proof.
  apply handle_spec.
  - intros Hd o t reason action note. split; [done|by left].
  - intros Hd Hmode Hout m e -> He. split; [done|]. right. eauto 10.
Qed.

(** ** Answering and releasing *)

(** Retrying a function that keeps [Inv] as long as it conflicts. *)
Lemma retry_times_inv {S} (n : nat) (f : state S (option error)) (Inv Q : S → Prop) :
  (∀ s, Inv s → Q (f s).2 ∧ (∀ e, (f s).1 = Some e → IsConflict e = true → Inv (f s).2)) →
  ∀ s, Inv s → Q (retry_times (Datatypes.S n) f s).2.
Proof.
  intros Hf. induction n as [|n IH]; intros s Hs; [by apply Hf|].
  cbn [retry_times]. destruct (Hf s Hs) as [HQ Hi]. unfold mbind, state_bind.
  destruct (f s) as [res s'] eqn:E. simpl in *. destruct res as [e|]; [|done].
  destruct (IsConflict e) eqn:Hc; [|done]. apply IH. by eapply Hi.
Qed.

Section release.
Context `{KubeLib} `{!KubeLaws} {W : Type} `{API W} (r : ClusterReconciler) (P : Effect → Prop).

(** The trace has grown by effects that satisfy [P]. *)
Definition grows (t : list Effect) (s : Sys W Memory) : Prop := ∃ l, trace s = t ++ l ∧ Forall P l.

Lemma grows_spec {A} (c : state (Sys W Memory) A) Q t s :
  spec P c Q → grows t s → grows t (c s).2.
Proof.
  intros Hc (l & Ht & Hl). destruct (Hc s) as [_ (l' & Ht' & Hl')].
  exists (l ++ l'). rewrite Ht', Ht, (assoc_L (++)). split; [done|]. by apply Forall_app.
Qed.

(** The Machine, or what the API server answers when it is read again. *)
Inductive reread (m : Machine) : Machine → Prop :=
| reread_not : reread m m
| reread_again m1 w m2 : reread m m1 → (GetMachine (machine_key m1) w).1 = Ok m2 → reread m m2.

(** A release of the mark of [m] may send these. *)
Definition release_allowed (m : Machine) : Prop :=
  r_DryRun r = false → ∀ m', reread m m' → restartMarkOf m' = restartMarkOf m → m_Deleting m' = false →
    P (PatchMachine m' (set_annotations m' (release_annotations (m_Annotations m'))) true).

Lemma Release_keeps_mark dryRun m reason (s : Sys W Memory) e :
  (Release dryRun m reason s).1.2 = Err e → (Release dryRun m reason s).1.1 = m.
Proof.
  unfold Release. destruct (MarkedAction m); [|done]. destruct (m_Deleting m); [done|].
  destruct dryRun; [done|]. unfold patch_machine, mbind, state_bind, call, emit. simpl.
  by destruct (SendPatchMachine _ _ _ _) as [[m'|e'] w'].
Qed.

Lemma releaseAnswered_spec m reason :
  (r_DryRun r = false → ∀ o t reason action note, P (RecordEvent o t reason action note)) →
  release_allowed m →
  spec (W:=W) P (releaseAnswered r m reason) (fun _ => True).
Proof.
  intros HE HP. set (answered := restartMarkOf m). intros s. split; [done|].
  destruct retry_on_conflict_bounded as [n Hn]. unfold releaseAnswered. rewrite Hn.
  set (Inv := fun x : Sys W Memory * (Machine * bool) =>
    grows (trace s) x.1 ∧ reread m x.2.1 ∧ (x.2.2 = false → restartMarkOf x.2.1 = answered)).
  assert (Hrel : ∀ x, grows (trace s) x.1 → reread m x.2.1 → restartMarkOf x.2.1 = answered →
    grows (trace s) (release_now r reason x).2.1 ∧
    (∀ e, (release_now r reason x).1 = Some e → Inv (release_now r reason x).2)).
  { intros [s' [m' c]] Hg Hseen Hm. simpl in Hg, Hseen, Hm.
    assert (Hg' : grows (trace s) (Release (r_DryRun r) m' reason s').2).
    { eapply grows_spec; [|exact Hg]. apply Release_spec. intros Hd action _ Hdel. split; [by apply HP|].
      intros. by apply HE. }
    unfold release_now. pose proof (Release_keeps_mark (r_DryRun r) m' reason s') as Hk.
    destruct (Release (r_DryRun r) m' reason s') as [[m2 [b|e]] s2]; simpl in *; [done|].
    split; [done|]. intros e' _. rewrite (Hk e) by done. by split_and!. }
  pose proof (retry_times_inv n (release_attempt r answered reason) Inv
    (fun x => grows (trace s) x.1)) as Hretry.
  enough (grows (trace s) (retry_times (S n) (release_attempt r answered reason) (s, (m, false))).2.1)
    as Hend by (subst answered; by destruct (retry_times _ _ _) as [? [? [? ?]]]).
  apply Hretry; [|split_and!; [exists []; by rewrite app_nil_r|constructor|done]].
  intros [s' [m' c]] (Hg & Hseen & Hm). simpl in Hg, Hseen, Hm. unfold release_attempt. destruct c.
  - destruct (GetMachine (machine_key m') (world s')) as [res w] eqn:Ew.
    assert (Hcall : call (R:=Memory) (GetMachine (machine_key m')) s' = (res, MkSys w (trace s') (memory s')))
      by (unfold call; by rewrite Ew).
    rewrite Hcall. destruct res as [current|e]; [|split; [done|]; intros; by split_and!].
    case_decide as Hmark; [by split|].
    destruct (Hrel (MkSys w (trace s') (memory s'), (current, true))) as [? Hi]; [done| |done|].
    { eapply reread_again; [exact Hseen|]. by rewrite Ew. }
    eauto.
  - destruct (Hrel (s', (m', false))) as [? Hi]; eauto.
Qed.
End release.

(** The mark tells whether its restart is over, and which request asked for it. *)
Lemma restart_over_mark `{KubeLib} m m' n :
  restartMarkOf m = restartMarkOf m' → restart_over m n → restart_over m' n.
Proof. intros [= Ha Hb _]. unfold restart_over. by rewrite Ha, Hb. Qed.

Section pass.
Context `{KubeLib} `{!KubeLaws} {W : Type} `{API W} (r : ClusterReconciler) (P : Effect → Prop).
Context (HE : r_DryRun r = false → ∀ o t reason action note, P (RecordEvent o t reason action note)).
Context (HA : r_DryRun r = false → ∀ key complete reason message e,
  answer_effect key complete reason message e → P e).

Lemma answer_request_spec key cluster machine sig a node :
  (an_Complete a = true → restart_answers sig machine node) →
  (∀ m n, machine = Some m → node = Some n → restart_answers sig machine node → release_allowed r P m) →
  spec (W:=W) P (answer_request r key cluster machine sig a) (fun _ => True).
Proof.
  intros Hcomplete HC. unfold answer_request. destruct (r_DryRun r) eqn:Hd; [by apply spec_ret|].
  eapply spec_bind.
  { eapply spec_weaken; [apply answer_spec| |done]. intros e. by apply HA. }
  intros [[]|e] _; [|by apply spec_ret..].
  eapply spec_bind; [by apply spec_emit, HE|]. intros _ _.
  destruct machine as [m|]; [|by apply spec_ret].
  destruct (an_Complete a) eqn:Ha; [|by apply spec_ret].
  eapply spec_bind; [apply releaseAnswered_spec|intros; by apply spec_ret].
  - intros _. by apply HE.
  - pose proof (Hcomplete eq_refl) as Hr. pose proof Hr as (m1 & n & [= <-] & Hn & _). by eapply HC.
Qed.

Context (key : ObjectKey) (cluster : Cluster) (mode : Mode) (checks : list MachineHealthCheck)
  (nodes : gmap string Node) (previous : gmap string observation).
Context (HH : r_DryRun r = false → mode ≠ ModeReportOnly → ∀ m e, handle_patch checks m e → P e).

Lemma handle_spec_answers sig machine node prev :
  spec (W:=W) P (handle r cluster mode checks sig machine node prev)
    (fun res => an_Complete (obs_Answer res.2) = true → given (obs_Answer res.2) = true →
                sig_Request sig ≠ "" ∧ res.1 = machine ∧ restart_answers sig res.1 node).
Proof.
  intros s. split.
  - pose proof (requests_are_settled r cluster mode checks sig machine node prev) as Hans.
    destruct (Hans s) as [Hs _]. unfold answer_sound in Hs. intros Hc Hg. rewrite Hg, Hc in Hs.
    by destruct Hs as (? & _ & _ & _ & -> & Hr).
  - refine (proj2 (handle_spec r P HE cluster mode checks sig machine node prev _ s)).
    intros Hd Hmode _ m e _ He. by eapply HH.
Qed.

(** What is known of the Machines of the pass, and the releases after an answer. *)
Section known.
Context (known : gmap string Machine → Prop) (asks : Signal → Prop).
Context (Hknown : ∀ sig ps, known (ps_machines ps) →
  yields (W:=W) (signal_step r key cluster mode checks nodes previous sig ps) (fun ps' => known (ps_machines ps'))).
Context (HC : ∀ sig machines m n, asks sig → sig_Request sig ≠ "" → known machines →
  machines !! sig_Node sig = Some m → nodes !! sig_Node sig = Some n → restart_answers sig (Some m) (Some n) →
  release_allowed r P m).

Lemma handle_signal_spec_known sig ps :
  asks sig → known (ps_machines ps) →
  spec (W:=W) P (handle_signal r key cluster mode checks nodes previous sig ps) (fun _ => True).
Proof.
  intros Hsig Hps. unfold handle_signal. cbv zeta. eapply spec_bind; [apply handle_spec_answers|].
  intros [machine obs] Hans. simpl in Hans.
  eapply (spec_bind _ _ _ (fun _ => True)); [|intros; by apply spec_ret].
  destruct (given (obs_Answer obs)) eqn:Hg; [|by apply spec_ret].
  destruct (an_Complete (obs_Answer obs)) eqn:Hc.
  - destruct Hans as (Hreq & -> & Hr); [done..|].
    apply (answer_request_spec _ _ _ _ _ (nodes !! sig_Node sig)); [done|].
    intros m n Hm Hn Hr'. rewrite Hm, Hn in Hr'. by eapply HC.
  - apply (answer_request_spec _ _ _ _ _ None); [congruence|]. by intros.
Qed.

Lemma IsPending_spec name : spec (W:=W) (R:=Memory) P (IsPending key name) (fun _ => True).
Proof. unfold IsPending. spec_steps. case_match; auto with remediator. Qed.

Lemma signal_step_spec_known sig ps :
  asks sig → known (ps_machines ps) →
  spec (W:=W) P (signal_step r key cluster mode checks nodes previous sig ps) (fun _ => True).
Proof.
  intros Hsig Hps. unfold signal_step. case_decide; [by apply handle_signal_spec_known|].
  eapply spec_bind; [apply IsPending_spec|].
  intros [[]|e] _; [by apply handle_signal_spec_known|by apply spec_ret..].
Qed.

Lemma signal_loop_spec_known signals ps :
  Forall asks signals → known (ps_machines ps) →
  spec (W:=W) P (signal_loop r key cluster mode checks nodes previous signals ps)
    (fun ps' => known (ps_machines ps')).
Proof.
  intros Hs. revert ps. induction Hs as [|sig rest Hsig _ IH]; intros ps Hps; [by apply spec_ret|].
  eapply spec_bind; [apply spec_yields; [by apply signal_step_spec_known|by apply Hknown]|].
  intros ps' Hps'. by apply IH.
Qed.
End known.

Context (HC : r_DryRun r = false → ∀ base n, restart_over base n → m_Deleting base = false →
  P (PatchMachine base (set_annotations base (release_annotations (m_Annotations base))) true)).

Lemma release_over sig m n : restart_answers sig (Some m) (Some n) → release_allowed r P m.
Proof.
  intros (? & ? & [= <-] & [= <-] & Ho & _) Hd base _ Hb. apply (HC Hd base n). by eapply restart_over_mark.
Qed.

Lemma handle_signal_spec sig ps :
  spec (W:=W) P (handle_signal r key cluster mode checks nodes previous sig ps) (fun _ => True).
Proof.
  apply (handle_signal_spec_known (fun _ => True) (fun _ => True)); [|done|done].
  intros; by eapply release_over.
Qed.

Lemma signal_step_spec sig ps :
  spec (W:=W) P (signal_step r key cluster mode checks nodes previous sig ps) (fun _ => True).
Proof.
  apply (signal_step_spec_known (fun _ => True) (fun _ => True)); [|done|done].
  intros; by eapply release_over.
Qed.

Lemma signal_loop_spec signals ps :
  spec (W:=W) P (signal_loop r key cluster mode checks nodes previous signals ps) (fun _ => True).
Proof.
  apply (signal_loop_spec_known (fun _ => True) (fun _ => True)); [by intros| | |done].
  - intros; by eapply release_over.
  - by apply Forall_forall.
Qed.
End pass.

(** ** The laws of the API server

    A merge patch sets what it changes and, under optimistic locking, is only accepted
    for the Machine as it was read; a Machine is answered under the name asked for. *)
Class PatchLaws `{KubeLib} (W : Type) `{API W} : Prop := {
  patched_name base updated lock w m :
    (SendPatchMachine base updated lock w).1 = Ok m → m_Name updated = m_Name base → m_Name m = m_Name base;
  patched_changes base updated lock w m k :
    (SendPatchMachine base updated lock w).1 = Ok m →
    m_Annotations updated !! k ≠ m_Annotations base !! k →
    m_Annotations m !! k = m_Annotations updated !! k;
  patched_under_lock base updated w m :
    (SendPatchMachine base updated true w).1 = Ok m → m_Annotations m = m_Annotations updated;
  got_name key w m : (GetMachine key w).1 = Ok m → m_Name m = key_Name key
}.

(** Whatever is done about a Machine, it is the same Machine that is gone on with. *)
Section names.
Context `{KubeLib} `{!KubeLaws} {W : Type} `{API W} `{!PatchLaws W} (r : ClusterReconciler).

Local Abbreviation M := (state (Sys W Memory)).
Implicit Types (m : Machine).

Lemma reread_name m m' : reread m m' → m_Name m' = m_Name m.
Proof. induction 1 as [|m1 w m2 _ IH Hg]; [done|]. by rewrite (got_name _ _ _ Hg). Qed.

Definition same_name {A} m (c : M A) (f : A → Machine) : Prop := yields c (fun a => m_Name (f a) = m_Name m).

Lemma same_name_ret {A} m (a : A) f : f a = m → same_name m (mret a) f.
Proof. intros <- s. done. Qed.

Lemma same_name_any {A B} m (c : M A) (k : A → M B) f :
  (∀ a, same_name m (k a) f) → same_name m (c ≫= k) f.
Proof. intros Hk. by apply yields_bind. Qed.

Lemma same_name_bind {A B} m (c : M A) (k : A → M B) f g :
  same_name m c f → (∀ a, same_name (f a) (k a) g) → same_name m (c ≫= k) g.
Proof.
  intros Hc Hk s. unfold mbind, state_bind. specialize (Hc s). destruct (c s) as [a s'].
  by rewrite (Hk a s').
Qed.

Lemma patch_machine_name m a lock :
  yields (W:=W) (R:=Memory) (patch_machine m (set_annotations m a) lock)
    (fun res => match res with Ok m' => m_Name m' = m_Name m | Err _ => True end).
Proof.
  intros s. unfold patch_machine, mbind, state_bind, call, emit. simpl.
  destruct (SendPatchMachine _ _ _ (world s)) as [[m'|e] w] eqn:E; simpl; [|done].
  apply (patched_name m (set_annotations m a) lock (world s)); by rewrite ?E.
Qed.

Lemma patch_then_event_name {A} m a lock (ok : Machine → A) (err : error → A) (event : Machine → Effect) f :
  (∀ m', f (ok m') = m') → (∀ e, f (err e) = m) →
  same_name m
    (r ← patch_machine m (set_annotations m a) lock;
     match r with
     | Err e => mret (err e)
     | Ok m' => emit (event m');; mret (ok m')
     end) f.
Proof.
  intros Hok Herr s. unfold mbind at 1, state_bind at 1. pose proof (patch_machine_name m a lock s) as Hp.
  destruct (patch_machine m _ lock s) as [[m'|e] s'].
  - unfold mbind, state_bind, emit. simpl. by rewrite Hok.
  - simpl. by rewrite Herr.
Qed.

Lemma Escalate_name dry m reason : same_name m (Escalate dry m reason) fst.
Proof.
  unfold Escalate. destruct (negb _ || _); [by apply same_name_ret|]. destruct dry; [by apply same_name_ret|].
  by apply (patch_then_event_name _ _ _ (fun m' => (m', Ok true)) (fun e => (m, Err e))).
Qed.

Lemma Release_name dry m reason : same_name m (Release dry m reason) fst.
Proof.
  unfold Release. destruct (MarkedAction m); [|by apply same_name_ret].
  destruct (m_Deleting m); [by apply same_name_ret|]. destruct dry; [by apply same_name_ret|].
  by apply (patch_then_event_name _ _ _ (fun m' => (m', Ok true)) (fun e => (m, Err e))).
Qed.

Lemma MarkForRemediation_name dry m action reason restart :
  same_name m (MarkForRemediation dry m action reason restart) fst.
Proof.
  unfold MarkForRemediation. destruct (Guard m); [by apply same_name_ret|]. destruct dry; [by apply same_name_ret|].
  by apply (patch_then_event_name _ _ _ (fun m' => (m', Ok None)) (fun e => (m, Err e))).
Qed.

Lemma hand_over_name cluster sig p cov m node obs previous :
  same_name m (hand_over r cluster sig p cov m node obs previous) fst.
Proof.
  unfold hand_over. destruct (p_restart p && p_restartUnavailable p).
  { apply same_name_any. intros _. by apply same_name_ret. }
  destruct (negb (p_restart p) && negb (Covered cov)).
  { apply same_name_any. intros _. by apply same_name_ret. }
  apply same_name_any. intros [[] shown]; [by apply same_name_ret|]. simpl.
  destruct (r_DryRun r); [by apply same_name_ret|].
  eapply same_name_bind; [apply MarkForRemediation_name|]. intros [m' [|e]]; by apply same_name_ret.
Qed.

Lemma remediate_name cluster checks sig outcome m node obs previous :
  same_name m (remediate r cluster checks sig outcome m node obs previous) fst.
Proof.
  unfold remediate. destruct (bool_decide _ && _ && _ && _); [by apply same_name_ret|]. cbv zeta.
  eapply (same_name_bind _ _ _ fst).
  { destruct (negb _ && _); [apply Escalate_name|by apply same_name_ret]. }
  intros [m' [esc|e]]; [|by apply same_name_ret]. cbn beta iota. cbn [fst]. destruct (Guard m') as [skip|].
  - apply same_name_any. intros _. by apply same_name_ret.
  - apply hand_over_name.
Qed.

Lemma releaseAnswered_name m reason : same_name m (releaseAnswered r m reason) fst.
Proof.
  intros s. destruct retry_on_conflict_bounded as [n Hn]. unfold releaseAnswered. rewrite Hn.
  set (Inv := fun x : Sys W Memory * (Machine * bool) => m_Name x.2.1 = m_Name m).
  assert (Hnow : ∀ x, Inv x → Inv (release_now r reason x).2).
  { intros [s' [m' c]] Hx. unfold Inv in *. simpl in Hx. unfold release_now.
    pose proof (Release_name (r_DryRun r) m' reason s') as Hr.
    destruct (Release (r_DryRun r) m' reason s') as [[m2 [b|e]] s2]; simpl in *; congruence. }
  enough (Inv (retry_times (S n) (release_attempt r (restartMarkOf m) reason) (s, (m, false))).2) as Hend
    by (unfold Inv in Hend; by destruct (retry_times _ _ _) as [? [? [? ?]]]).
  apply (retry_times_inv n _ Inv Inv); [|done]. intros [s' [m' c]] Hx. unfold release_attempt. destruct c.
  - unfold call. destruct (GetMachine (machine_key m') (world s')) as [res w] eqn:Ew.
    destruct res as [current|e]; [|done]. assert (m_Name current = m_Name m') as Hc.
    { apply (got_name (machine_key m') (world s')). by rewrite Ew. }
    unfold Inv in Hx. simpl in Hx. case_decide; [unfold Inv; simpl; split; [|done]; congruence|].
    assert (Inv (MkSys w (trace s') (memory s'), (current, true))) by (unfold Inv; simpl; congruence). auto.
  - auto.
Qed.

(** What is done about a node leaves it the Machine it has, or none. *)
Definition node_name (machine : option Machine) : option string := m_Name <$> machine.

Lemma handle_name cluster mode checks sig machine node previous :
  yields (W:=W) (handle r cluster mode checks sig machine node previous) (fun res => node_name res.1 = node_name machine).
Proof.
  unfold handle. cbv zeta. destruct (bool_decide _ && _); [by intros s|]. destruct machine as [m|].
  - destruct (out_Decision (decided r mode sig)).
    + apply yields_bind. by intros ? s.
    + intros s. unfold mbind, state_bind. pose proof (remediate_name cluster checks sig (decided r mode sig) m node) as Hr.
      match goal with |- context [remediate _ _ _ _ _ _ _ ?o ?p s] => specialize (Hr o p s); destruct (remediate _ _ _ _ _ _ _ o p s) end.
      simpl in *. by rewrite Hr.
    + intros s. unfold mbind, state_bind. pose proof (remediate_name cluster checks sig (decided r mode sig) m node) as Hr.
      match goal with |- context [remediate _ _ _ _ _ _ _ ?o ?p s] => specialize (Hr o p s); destruct (remediate _ _ _ _ _ _ _ o p s) end.
      simpl in *. by rewrite Hr.
  - apply yields_bind. by intros ? s.
Qed.

Lemma answer_request_name key cluster machine sig a :
  yields (W:=W) (answer_request r key cluster machine sig a) (fun res => node_name res = node_name machine).
Proof.
  unfold answer_request. destruct (r_DryRun r); [by intros s|]. apply yields_bind. intros [[]|e]; [|by intros s..].
  apply yields_bind. intros _. destruct machine as [m|]; [|by intros s]. destruct (an_Complete a); [|by intros s].
  intros s. unfold mbind, state_bind. pose proof (releaseAnswered_name m (an_Message a) s) as Hr.
  destruct (releaseAnswered r m (an_Message a) s) as [[m' e] s']. simpl in *. by rewrite Hr.
Qed.

Lemma handle_signal_names key cluster mode checks nodes previous sig ps :
  yields (W:=W) (handle_signal r key cluster mode checks nodes previous sig ps)
    (fun ps' => m_Name <$> ps_machines ps' = m_Name <$> ps_machines ps).
Proof.
  intros s. unfold handle_signal, mbind, state_bind. cbv zeta.
  pose proof (handle_name cluster mode checks sig (ps_machines ps !! sig_Node sig) (nodes !! sig_Node sig)
    (default no_observation (previous !! Key sig)) s) as Hh.
  destruct (handle _ _ _ _ _ _ _ _ s) as [[machine obs] s1]. simpl in Hh.
  assert (∀ machine', node_name machine' = node_name machine →
    m_Name <$> (match machine' with Some m => <[sig_Node sig := m]> (ps_machines ps) | None => ps_machines ps end) =
    m_Name <$> ps_machines ps) as Hput.
  { intros [m'|] Hm'; [|done]. rewrite Hh in Hm'. rewrite fmap_insert. apply insert_id. rewrite lookup_fmap.
    exact (eq_sym Hm'). }
  destruct (given (obs_Answer obs)).
  - pose proof (answer_request_name key cluster machine sig (obs_Answer obs) s1) as Ha.
    destruct (answer_request _ _ _ _ _ _ s1) as [machine' s2]. simpl in *. by apply Hput.
  - simpl. by apply Hput.
Qed.

Lemma signal_step_names key cluster mode checks nodes previous sig ps :
  yields (W:=W) (signal_step r key cluster mode checks nodes previous sig ps)
    (fun ps' => m_Name <$> ps_machines ps' = m_Name <$> ps_machines ps).
Proof.
  unfold signal_step. case_decide; [apply handle_signal_names|]. apply yields_bind.
  intros [[]|e]; [|by intros s..]. intros s. by rewrite handle_signal_names.
Qed.
End names.

(** ** Which restarts are released *)

(** The Machines the patches among the effects are for. *)
Definition patched (l : list Effect) : list Machine :=
  omap (fun e => match e with PatchMachine base _ _ => Some base | _ => None end) l.

(** A Machine the loop is to release. *)
Definition releasable `{KubeLib} (held : gset string) (m : Machine) : bool :=
  bool_decide (MarkedAction m = Some ActionRestart) && negb (bool_decide (m_Name m ∈ held))
  && negb (m_Deleting m).

Section release_loop.
Context `{KubeLib} {W : Type} `{API W} (r : ClusterReconciler).

Definition is_release (e : Effect) : Prop :=
  match e with
  | PatchMachine base updated lock =>
      MarkedAction base = Some ActionRestart ∧ m_Deleting base = false ∧ lock = true ∧
      updated = set_annotations base (release_annotations (m_Annotations base))
  | RecordEvent _ _ reason _ _ => reason = EventRemediationReleased
  | _ => False
  end.

(** A release sends its patch exactly when it is not a dry run and the Machine
    is marked and not being deleted. *)
Lemma Release_runs m reason :
  MarkedAction m = Some ActionRestart →
  runs (W:=W) (R:=Memory) (Release (r_DryRun r) m reason) (fun res l =>
    Forall is_release l ∧ patched l = (if r_DryRun r || m_Deleting m then [] else [m]) ∧
    (m_Deleting m = true → res.2 = Ok false) ∧ (r_DryRun r = true → m_Deleting m = false → res.2 = Ok true)).
Proof.
  intros Hm. unfold Release. rewrite Hm. destruct (m_Deleting m) eqn:Hdel.
  { apply runs_ret. by rewrite orb_true_r. }
  destruct (r_DryRun r) eqn:Hd; [by apply runs_ret|]. simpl.
  set (patch := PatchMachine m (set_annotations m (release_annotations (m_Annotations m))) true).
  eapply (runs_bind _ _ (fun _ l => l = [patch])).
  { unfold patch_machine. eapply runs_bind; [apply runs_emit|]. intros _ l ->.
    eapply runs_bind; [apply runs_call|]. intros res l ->. by apply runs_ret. }
  intros [m'|e] l ->; [|by apply runs_ret; split_and!; repeat constructor].
  eapply runs_bind; [apply runs_emit|]. intros _ l ->. apply runs_ret.
  split_and!; repeat constructor; done.
Qed.

(** The loop releases, in the order of the names of their nodes, the Machines of
    these nodes that are to be released, and in a dry run names them instead. *)
Lemma release_loop_runs source held leftover names machines would :
  NoDup names →
  runs (W:=W) (release_loop r source held leftover names machines would) (fun res l =>
    let released := filter (fun m => releasable held m = true) (omap (fun n => machines !! n) names) in
    Forall is_release l ∧
    patched l = (if r_DryRun r then [] else released) ∧
    res.2 = (if r_DryRun r then list_to_set (m_Name <$> released) else ∅) ∪ would).
Proof.
  revert machines would. induction names as [|n names IH]; intros machines would Hnd.
  { apply runs_ret. cbv zeta. simpl. split_and!; [done|by destruct (r_DryRun r)|].
    destruct (r_DryRun r); set_solver. }
  apply NoDup_cons in Hnd as [Hn Hnd]. cbn [release_loop].
  cbn [omap list_omap]. destruct (machines !! n) as [m|] eqn:Hm; [|by apply IH].
  set (rest := omap (fun n => machines !! n) names).
  destruct (negb _ || _) eqn:Hskip.
  { assert (Hr : releasable held m = false).
    { unfold releasable. apply orb_true_iff in Hskip as [Hs|Hs].
      - apply negb_true_iff in Hs. by rewrite Hs.
      - by rewrite Hs, andb_false_r. }
    rewrite filter_cons, Hr. by apply IH. }
  bool_to_prop.
  assert (Hrest : ∀ m', omap (fun n' => <[n := m']> machines !! n') names = rest).
  { intros m'. subst rest. apply list_omap_ext. apply Forall2_same_length_lookup_2; [done|].
    intros i x y Hx Hy. simplify_eq. by rewrite lookup_insert_ne by (intros ->; eauto using list_elem_of_lookup_2). }
  eapply runs_bind; [by apply Release_runs|]. intros [m' released] l (Hl & Hp & Hdel & Hdry). simpl in Hdel, Hdry.
  eapply runs_weaken; [by apply IH|]. intros res l' (Hl' & Hp' & Hw). rewrite Hrest in Hp', Hw.
  assert (Hrel : releasable held m = negb (m_Deleting m)).
  { unfold releasable. by rewrite bool_decide_eq_true_2, bool_decide_eq_false_2. }
  cbv zeta. rewrite filter_cons, Hrel. split_and!.
  - by apply Forall_app.
  - unfold patched in *. rewrite omap_app, Hp, Hp'. fold rest.
    by destruct (r_DryRun r), (m_Deleting m).
  - rewrite Hw. destruct (r_DryRun r), (m_Deleting m); simpl; fold rest.
    + by rewrite (Hdel eq_refl).
    + rewrite (Hdry eq_refl eq_refl). set_solver.
    + by destruct released as [[]|].
    + by destruct released as [[]|].
Qed.
End release_loop.

(** The lesser of two names. *)
Definition lesser (a b : string) : string := if decide (String.le a b) then a else b.

Lemma lesser_spec a b c : String.le c (lesser a b) ↔ String.le c a ∧ String.le c b.
Proof.
  unfold lesser. case_decide as Hab; split.
  - intros Hc. split; [done|by etrans].
  - tauto.
  - assert (String.le b a) by (destruct (total String.le a b); done).
    intros Hc. split; [by etrans|done].
  - tauto.
Qed.

Lemma note_waiting_lookup leftover machine request n :
  note_waiting leftover machine request !! n =
  if decide (machine = n)
  then Some (match leftover !! machine with Some w => lesser w request | None => request end)
  else leftover !! n.
Proof.
  unfold note_waiting, lesser. destruct (leftover !! machine) as [w|] eqn:E.
  - destruct (decide (String.le w request)); destruct (decide (machine = n)) as [->|];
      by rewrite ?lookup_insert_eq, ?lookup_insert_ne by done.
  - destruct (decide (machine = n)) as [->|]; by rewrite ?lookup_insert_eq, ?lookup_insert_ne by done.
Qed.

Section holds.
Context `{KubeLib} (machines : gmap string Machine) (nodes : gmap string Node) (asking : gset string).

(** The observations that keep a Machine marked. *)
Definition holding (obs : observation) : bool :=
  calls_for obs && negb (leftover_mark machines nodes asking obs).

(** The observations that wait for the mark of a Machine to be released. *)
Definition waiting_for (name : string) (obs : observation) : Prop :=
  obs_Machine obs = name ∧ calls_for obs = true ∧ leftover_mark machines nodes asking obs = true.

Lemma holds_snoc l obs :
  holds machines nodes asking (l ++ [obs]) =
  hold_step machines nodes asking (holds machines nodes asking l) obs.
Proof. unfold holds. by rewrite foldl_app. Qed.

Lemma hold_step_held acc obs name :
  name ∈ (hold_step machines nodes asking acc obs).1 ↔
  name ∈ acc.1 ∨ obs_Machine obs = name ∧ holding obs = true.
Proof.
  destruct acc as [held leftover]. unfold hold_step, holding.
  destruct (calls_for obs), (leftover_mark _ _ _ obs); simpl; set_solver.
Qed.

Lemma hold_step_leftover acc obs name :
  (waiting_for name obs ∧ (hold_step machines nodes asking acc obs).2 !! name =
     Some (match acc.2 !! name with Some w => lesser w (obs_Request obs) | None => obs_Request obs end)) ∨
  (¬ waiting_for name obs ∧ (hold_step machines nodes asking acc obs).2 !! name = acc.2 !! name).
Proof.
  destruct acc as [held leftover]. unfold hold_step, waiting_for.
  destruct (calls_for obs), (leftover_mark _ _ _ obs); simpl; try (right; naive_solver).
  rewrite note_waiting_lookup. case_decide as Hn; [subst; by left|right; naive_solver].
Qed.

Lemma holds_spec l name :
  name ∈ (holds machines nodes asking l).1 ↔ ∃ obs, obs ∈ l ∧ obs_Machine obs = name ∧ holding obs = true.
Proof.
  induction l as [|obs l IH] using rev_ind; [set_solver|].
  rewrite holds_snoc, hold_step_held, IH. set_solver.
Qed.

(** The request kept for a Machine is the least of those that wait for it. *)
Definition least_waiting (l : list observation) (name w : string) : Prop :=
  (∃ obs, obs ∈ l ∧ waiting_for name obs ∧ obs_Request obs = w) ∧
  ∀ obs, obs ∈ l → waiting_for name obs → String.le w (obs_Request obs).

Lemma least_waiting_unique l name w w' : least_waiting l name w → least_waiting l name w' → w = w'.
Proof.
  intros [(o & Ho & Hw & <-) Hmin] [(o' & Ho' & Hw' & <-) Hmin'].
  apply (anti_symm String.le); auto.
Qed.

Lemma leftover_least l name :
  match (holds machines nodes asking l).2 !! name with
  | Some w => least_waiting l name w
  | None => ∀ obs, obs ∈ l → ¬ waiting_for name obs
  end.
Proof.
  induction l as [|obs l IH] using rev_ind; [set_solver|]. rewrite holds_snoc.
  destruct (hold_step_leftover (holds machines nodes asking l) obs name) as [[Hw ->]|[Hw ->]].
  - destruct ((holds machines nodes asking l).2 !! name) as [w|].
    + destruct IH as [(o & Ho & Hwo & <-) Hmin].
      assert (Hle := lesser_spec (obs_Request o) (obs_Request obs) (lesser (obs_Request o) (obs_Request obs))).
      destruct (proj1 Hle) as [H1 H2]; [done|]. split.
      * unfold lesser. case_decide; [exists o|exists obs]; set_solver.
      * intros o' [Ho'| ->%list_elem_of_singleton]%elem_of_app Hwo'; [|done]. by etrans; [|apply Hmin].
    + split; [exists obs; set_solver|]. intros o' [Ho'| ->%list_elem_of_singleton]%elem_of_app Hwo'; [|done].
      by destruct (IH o').
  - destruct ((holds machines nodes asking l).2 !! name) as [w|].
    + destruct IH as [(o & Ho & Hwo & <-) Hmin]. split; [exists o; set_solver|].
      intros o' [Ho'| ->%list_elem_of_singleton]%elem_of_app Hwo'; [auto|done].
    + intros o' [Ho'| ->%list_elem_of_singleton]%elem_of_app; auto.
Qed.
End holds.

Lemma modify_runs {W} f : runs (W:=W) (modify f) (fun _ l => l = []).
Proof. eapply runs_bind; [apply runs_get_memory|]. intros m l ->. apply runs_put_memory. Qed.

(** The effects of releasing restarts, over the Machines in the order of their
    nodes' names. *)
Lemma releaseRestarts_runs `{KubeLib} {W : Type} `{API W} (r : ClusterReconciler) key source
    machines nodes current asking :
  runs (W:=W) (releaseRestarts r key source machines nodes current asking) (fun _ l =>
    Forall is_release l ∧
    patched l = if r_DryRun r then []
      else filter (fun m => releasable (holds machines nodes asking (snd <$> map_to_list current)).1 m = true)
             (omap (fun n => machines !! n) (sorted_keys machines))).
Proof.
  unfold releaseRestarts. destruct (holds _ _ _ _) as [held leftover] eqn:Eh.
  assert (Hnd : NoDup (sorted_keys machines)) by (apply NoDup_sort_by, NoDup_elements).
  eapply runs_bind; [by apply release_loop_runs|]. intros res l (Hl & Hp & _).
  eapply runs_bind; [apply modify_runs|]. intros _ l' ->. apply runs_ret.
  by rewrite !app_nil_r.
Qed.

(** The observation keeps the Machine behind a node marked: it is about that Machine, and it
    calls for a replacement, or for a restart, unless it is a request's whose own restart
    waits for the Machine's present mark to go: a mark another request asked for that asks
    no longer, and of a restart that is over. *)
Definition keeps_mark `{KubeLib} (asking : gset string) (m : Machine) (node : option Node) (obs : observation) : Prop :=
  let asked := get (m_Annotations m) RemediationRequestAnnotation in
  m_Name m ≠ "" ∧ obs_Machine obs = m_Name m ∧
  (obs_Decision obs = Some Replace ∨
   obs_Decision obs = Some Restart ∧
   ¬ (obs_Request obs ≠ "" ∧ asked ≠ "" ∧ asked ∉ asking ∧ (∃ n, node = Some n ∧ restart_over m n))).

(** Machines behind different nodes have different names. *)
Definition names_differ (machines : gmap string Machine) : Prop :=
  ∀ node1 node2 m1 m2, machines !! node1 = Some m1 → machines !! node2 = Some m2 → m_Name m1 = m_Name m2 → node1 = node2.

Lemma nodeOf_lookup machines node m :
  names_differ machines → machines !! node = Some m → nodeOf machines !! m_Name m = Some node.
Proof.
  intros Hdiff Hm. unfold nodeOf.
  assert (Hall : ∀ p, p ∈ map_to_list machines → m_Name p.2 = m_Name m → p.1 = node).
  { intros [node' m'] Hp%elem_of_map_to_list Hn. simpl in *. by eapply Hdiff. }
  assert (Hin : (node, m) ∈ map_to_list machines) by (by apply elem_of_map_to_list).
  revert Hall Hin. generalize (map_to_list machines). intros l. induction l as [|p l IH] using rev_ind; [set_solver|].
  intros Hall Hin. rewrite foldl_app. simpl. destruct (decide (m_Name p.2 = m_Name m)) as [He|He].
  - rewrite He, lookup_insert_eq. f_equal. apply Hall; [set_solver|done].
  - rewrite lookup_insert_ne by done. apply IH; [intros p' Hp'; apply Hall; set_solver|].
    apply elem_of_app in Hin as [Hin|Hin%list_elem_of_singleton]; [done|]. exfalso. by subst p.
Qed.

Lemma holding_iff `{KubeLib} machines nodes asking node m obs :
  names_differ machines → machines !! node = Some m → obs_Machine obs = m_Name m →
  (holding machines nodes asking obs = true ↔ keeps_mark asking m (nodes !! node) obs).
Proof.
  intros Hdiff Hm Hname. pose proof (restart_completed_over m (nodes !! node)) as Hover.
  unfold holding, calls_for, leftover_mark, keeps_mark.
  rewrite Hname, (nodeOf_lookup _ _ _ Hdiff Hm). simpl. rewrite Hm. rewrite <- Hover. clear Hover.
  rewrite !andb_true_iff, negb_true_iff, orb_true_iff, !andb_false_iff, !bool_decide_eq_true, !bool_decide_eq_false.
  set (over := RestartCompleted m (nodes !! node)). clearbody over.
  destruct (decide (obs_Decision obs = Some Restart)), (decide (obs_Request obs = "")),
    (decide (get (m_Annotations m) RemediationRequestAnnotation = "")),
    (decide (get (m_Annotations m) RemediationRequestAnnotation ∈ asking)), over; intuition congruence.
Qed.

(** C16: exactly the restarts nobody asks for any more are released. Outside a dry run,
    what releasing restarts patches are the Machines behind nodes that this operator
    marked for a restart, that are not being deleted, and that no conclusion of the pass
    keeps marked: a conclusion keeps a Machine marked when it calls for its replacement,
    or for its restart, unless a request waits for one of its own and the mark is left
    over, which is when another request asked for it, asks no longer, and the node shows
    that the restart is over. Nothing else is patched; in a dry run nothing is. *)
Theorem restarts_released_exactly `{KubeLib} {W : Type} `{API W} (r : ClusterReconciler) (key : ObjectKey)
    (source : string) (machines : gmap string Machine) (nodes : gmap string Node)
    (current : gmap string observation) (asking : gset string) (Hdiff : names_differ machines) :
  runs (W:=W) (releaseRestarts r key source machines nodes current asking) (fun _ l =>
    Forall is_release l ∧
    ∀ m, m ∈ patched l ↔
      r_DryRun r = false ∧ ∃ node, machines !! node = Some m ∧
        MarkedAction m = Some ActionRestart ∧ m_Deleting m = false ∧
        ∀ k obs, current !! k = Some obs → ¬ keeps_mark asking m (nodes !! node) obs).
Proof.
  eapply runs_weaken; [apply releaseRestarts_runs|]. intros _ l [Hl Hp]. split; [done|].
  intros m. rewrite Hp. destruct (r_DryRun r); [set_solver|].
  rewrite list_elem_of_filter, list_elem_of_omap. unfold releasable.
  rewrite !andb_true_iff, !negb_true_iff, bool_decide_eq_true, bool_decide_eq_false, holds_spec.
  setoid_rewrite elem_of_sorted_keys. split.
  - intros [[[Hm Hh] Hd] (node & _ & Hn)]. split; [done|]. exists node. split_and!; [done..|].
    intros k obs Hk Hkeep. pose proof Hkeep as (_ & Hname & _). apply Hh. exists obs.
    split_and!; [|done|by eapply holding_iff]. apply list_elem_of_fmap. exists (k, obs).
    by rewrite elem_of_map_to_list.
  - intros (_ & node & Hn & Hm & Hd & Hh). split_and!; [done| |done|by exists node].
    intros (obs & ([k obs'] & -> & Hin)%list_elem_of_fmap & Hname & Hhold).
    simpl in *. apply elem_of_map_to_list in Hin. apply (Hh _ _ Hin). by eapply holding_iff.
Qed.

(** What the pass concludes about the restart marks, whatever the order in
    which Go ranges over its observations: a Machine is held exactly when an
    observation that is not about a leftover mark calls for a restart or a
    replacement of it, and the request a leftover mark is released for is the
    first by name of those that wait for it. *)
Lemma holds_exactly `{KubeLib} (machines : gmap string Machine) (nodes : gmap string Node)
    (asking : gset string) (l : list observation) :
  (∀ name, name ∈ (holds machines nodes asking l).1 ↔
     ∃ obs, obs ∈ l ∧ obs_Machine obs = name ∧ holding machines nodes asking obs = true) ∧
  (∀ name w, (holds machines nodes asking l).2 !! name = Some w ↔
     least_waiting machines nodes asking l name w).
Proof.
  split; [apply holds_spec|]. intros name w.
  pose proof (leftover_least machines nodes asking l name) as Hl.
  destruct (_ !! name) as [w'|]; split.
  - by intros [= ->].
  - intros Hw. f_equal. by eapply least_waiting_unique.
  - done.
  - intros [(obs & Ho & Hw & _) _]. by destruct (Hl obs).
Qed.

(** ** Witness: a Machine marked for a restart that nothing calls for. *)

#[local] Existing Instance lib.
#[local] Existing Instance api.

Lemma api_patch_laws : PatchLaws World.
Proof.
  constructor.
  - by intros base updated lock w m [= <-] Hname.
  - by intros base updated lock w m k [= <-].
  - by intros base updated w m [= <-].
  - intros k w m Hm%find_or_not_found_Ok. apply bool_decide_eq_true_1 in Hm. by subst.
Qed.

Definition idle_world : World :=
  MkWorld None [restart_marked_machine] [] true [] [] [] 0 ∅ [] [] [].

Lemma restarts_released_exactly_witness :
  let release := releaseRestarts (MkReconciler Default false 0 None None true) (MkKey "default" "gpu")
    "NodeCondition" {["node-1" := restart_marked_machine]} ∅ ∅ ∅ in
  ∃ l, trace (release (MkSys idle_world [] empty_memory)).2 = [] ++ l ∧ restart_marked_machine ∈ patched l.
Proof.
  assert (names_differ {["node-1" := restart_marked_machine]}) as Hdiff.
  { intros node1 node2 m1 m2 [<- _]%lookup_singleton_Some [<- _]%lookup_singleton_Some _. reflexivity. }
  destruct (restarts_released_exactly (MkReconciler Default false 0 None None true) (MkKey "default" "gpu")
    "NodeCondition" {["node-1" := restart_marked_machine]} ∅ ∅ ∅ Hdiff (MkSys idle_world [] empty_memory))
    as (l & Hl & _ & Hp).
  exists l. split; [exact Hl|]. apply Hp. split; [reflexivity|]. exists "node-1".
  split; [apply lookup_singleton_eq|]. split; [vm_compute; reflexivity|]. split; [reflexivity|].
  intros k obs Hk. rewrite lookup_empty in Hk. discriminate.
Defined.
