(* ===== verification/ReconcileFacts.v ===== *)
(** * A whole reconcile

    What a reconcile may send, that it always looks at the Cluster again, how
    long a restart is held back and what is remembered between two polls. *)

From S2P Require Import Prelude GoStrings Signal Decision Kube KubeModel WorldModel Condition Extrr Capi Mode ClusterController ClusterFacts.
Open Scope stdpp_scope.

(** ** The effects of a reconcile *)

Section reconcile.
Context `{KubeLib} `{!KubeLaws} {W : Type} `{API W} (r : ClusterReconciler) (P : Effect → Prop).
Context (HE : r_DryRun r = false → ∀ o t reason action note, P (RecordEvent o t reason action note)).
Context (HA : r_DryRun r = false → ∀ key complete reason message e,
  answer_effect key complete reason message e → P e).
Context (HR : r_DryRun r = false → ∀ base, MarkedAction base = Some ActionRestart →
  m_Deleting base = false →
  P (PatchMachine base (set_annotations base (release_annotations (m_Annotations base))) true)).
Context (HH : r_DryRun r = false → ∀ checks m e, handle_patch checks m e → P e).

Lemma modify_spec f : spec (W:=W) P (modify f) (fun _ => True).
Proof. unfold modify. spec_steps. Qed.

Lemma release_loop_spec source held leftover names machines would :
  spec (W:=W) P (release_loop r source held leftover names machines would) (fun _ => True).
Proof.
  revert machines would. induction names as [|n names IH]; intros machines would; [by apply spec_ret|].
  cbn [release_loop]. destruct (machines !! n) as [m|]; [|apply IH].
  destruct (negb _ || _) eqn:Hm; [apply IH|]. bool_to_prop.
  eapply spec_bind; [apply Release_spec|intros [m' res] _; apply IH].
  intros Hd action _ Hdel. split; [by apply HR|]. intros. by apply HE.
Qed.

Lemma releaseRestarts_spec key source machines nodes current asking :
  spec (W:=W) P (releaseRestarts r key source machines nodes current asking) (fun _ => True).
Proof.
  unfold releaseRestarts. destruct (holds _ _ _ _) as [held leftover].
  eapply spec_bind; [apply release_loop_spec|]. intros res _.
  eapply spec_bind; [apply modify_spec|]. intros _ _. by apply spec_ret.
Qed.

Lemma noteMode_spec cluster mode : spec (W:=W) P (noteMode r cluster mode) (fun _ => True).
Proof using HE.
  clear HA HR HH. unfold noteMode. eapply spec_bind; [apply spec_get_memory|]. intros m _.
  eapply spec_bind; [apply spec_put_memory|]. intros _ _. case_decide; [by apply spec_ret|].
  destruct (r_DryRun r) eqn:Hd; [by apply spec_ret|]. by apply spec_emit, HE.
Qed.

Lemma nextLook_spec key : spec (W:=W) P (nextLook r key) (fun _ => True).
Proof. unfold nextLook. spec_steps. Qed.

Lemma act_on_signals_spec key cluster mode checks machines nodes signals :
  spec (W:=W) P (act_on_signals r key cluster mode checks machines nodes signals) (fun _ => True).
Proof.
  unfold act_on_signals. eapply (spec_bind _ _ _ (fun _ => True)).
  { eapply spec_bind; [apply spec_get_memory|]. intros m _. by apply spec_ret. }
  intros previous _. eapply spec_bind.
  { apply signal_loop_spec; [done|done| |].
    - intros Hd _ m e. by apply HH.
    - intros Hd base n [Hm _] Hdel. by apply HR. }
  intros ps _. eapply (spec_bind _ _ _ (fun _ => True)).
  { destruct (ps_unreadable ps); [by apply spec_ret|apply releaseRestarts_spec]. }
  intros machines' _. eapply spec_bind; [apply modify_spec|]. intros _ _.
  eapply spec_bind; [apply modify_spec|]. intros _ _.
  eapply spec_bind; [apply nextLook_spec|]. intros next _. by apply spec_ret.
Qed.

(** A call that only reads, then the rest. *)
Lemma spec_bind_ok {A B} (c : state (Sys W Memory) (result error A)) (k : A → state (Sys W Memory) (result error B)) :
  spec P c (fun _ => True) → (∀ a, spec P (k a) (fun _ => True)) →
  spec P (bind_ok c k) (fun _ => True).
Proof.
  intros Hc Hk. eapply spec_bind; [exact Hc|]. intros [a|e] _; [apply Hk|by apply spec_ret].
Qed.

Lemma read_spec {A B} (c : state W A) (f : A → B) :
  spec P (res ← call (R:=Memory) c; mret (f res)) (fun _ => True).
Proof. spec_steps. Qed.

Lemma source_Collect_spec mode key :
  spec (W:=W) (R:=Memory) P (src_Collect (source mode key)) (fun _ => True).
Proof.
  destruct mode; (eapply spec_bind; [apply spec_call|]; intros [items|e] _; by apply spec_ret).
Qed.

Lemma watchRequests_spec key : spec (W:=W) P (watchRequests r key) (fun _ => True).
Proof. unfold watchRequests. destruct (negb _); [by apply spec_ret|apply spec_call]. Qed.

Lemma poll_spec key cluster : spec (W:=W) P (poll r key cluster) (fun _ => True).
Proof.
  unfold poll. eapply spec_bind; [apply selectMode_spec|]. intros [mode|e] _; [|by apply spec_ret].
  eapply spec_bind; [apply noteMode_spec|]. intros _ _.
  eapply (spec_bind _ _ _ (fun _ => True)).
  { case_decide; [apply watchRequests_spec|by apply spec_ret]. }
  intros _ _. eapply spec_bind; [apply source_Collect_spec|]. intros [signals|e] _; [|by apply spec_ret].
  apply spec_bind_ok; [apply read_spec|]. intros machines. apply spec_bind_ok.
  { destruct signals; [by apply spec_ret|apply ListHealthChecks_spec]. }
  intros checks. eapply (spec_bind _ _ _ (fun _ => True)).
  { destruct signals; [by apply spec_ret|apply read_spec]. }
  intros [nodes|e] _; [|by apply spec_ret]. eapply (spec_bind _ _ _ (fun _ => True)).
  { case_decide; [apply spec_call|by apply spec_ret]. }
  intros [u|e] _; [apply act_on_signals_spec|by apply spec_ret].
Qed.

Lemma Reconcile_spec key : spec (W:=W) P (Reconcile r key) (fun _ => True).
Proof.
  assert (Hforget : ∀ (z : Z), spec (W:=W) P (forget key;; mret (Ok (E:=error) z)) (fun _ => True)).
  { intros z. eapply spec_bind; [apply modify_spec|]. intros _ _. by apply spec_ret. }
  assert (Hwait : ∀ (z : Z), spec (W:=W) P (forgetWaits key ∅;; mret (Ok (E:=error) z)) (fun _ => True)).
  { intros z. eapply spec_bind; [apply modify_spec|]. intros _ _. by apply spec_ret. }
  unfold Reconcile. eapply spec_bind; [apply spec_call|]. intros [cluster|e] _.
  - destruct (cl_Deleting cluster); [apply Hforget|].
    destruct (match r_ClusterSelector r with Some _ => _ | None => _ end); [apply Hforget|].
    destruct (annotations_IsPaused cluster); [apply Hwait|].
    eapply spec_bind; [apply spec_call|]. intros [u|e] _; [apply poll_spec|].
    destruct (IsNotConnected e); [apply Hwait|by apply spec_ret].
  - destruct (IsNotFound e); [apply Hforget|by apply spec_ret].
Qed.
End reconcile.

(** What a reconcile may do to a Machine with a patch: nothing but its own
    annotations and the remediation annotation change; a Machine that is marked
    already is marked by this operator for a restart, and the patch then
    carries the resource version; one that is not passes the guards. *)
Definition patch_is_safe `{KubeLib} (base updated : Machine) (lock : bool) : Prop :=
  m_Deleting base = false ∧
  updated = set_annotations base (m_Annotations updated) ∧
  (∀ k, k ∉ RemediateMachineAnnotation :: own_annotations →
     m_Annotations updated !! k = m_Annotations base !! k) ∧
  (if IsMarkedForRemediation base
   then MarkedAction base = Some ActionRestart ∧ lock = true ∧
        (IsMarkedForRemediation updated = false ∨ MarkedAction updated = Some ActionRemediate)
   else Guard base = None ∧
        (MarkedAction updated = Some ActionRestart ∨ MarkedAction updated = Some ActionRemediate)).

Section safe.
Context `{KubeLib} `{!KubeLaws}.

Lemma Guard_not_deleting m : Guard m = None → m_Deleting m = false.
Proof. unfold Guard. by destruct (m_Deleting m). Qed.

Lemma mark_is_safe base action reason restart :
  Guard base = None → action = ActionRestart ∨ action = ActionRemediate →
  patch_is_safe base (set_annotations base (mark_annotations (m_Annotations base) action reason restart)) false.
Proof.
  intros HG Ha. destruct (mark_lookup (m_Annotations base) action reason restart) as (Hr & Hact & Hk).
  split_and!; [by apply Guard_not_deleting|done|exact Hk|]. rewrite (guard_unmarked _ HG). split; [done|].
  unfold MarkedAction, IsMarkedForRemediation, has_key. cbn [set_annotations m_Annotations].
  rewrite Hr, Hact. simpl. destruct Ha as [->| ->]; auto.
Qed.

Lemma release_is_safe base :
  MarkedAction base = Some ActionRestart → m_Deleting base = false →
  patch_is_safe base (set_annotations base (release_annotations (m_Annotations base))) true.
Proof.
  intros Hm Hd. split_and!; [done|done| |].
  - intros k Hk. unfold own_annotations in Hk. simpl. unfold release_annotations. set_unfold in Hk.
    rewrite !lookup_delete_ne by naive_solver. done.
  - rewrite (marked_action_marked _ _ Hm). split_and!; [done|done|]. left.
    unfold IsMarkedForRemediation, has_key. apply bool_decide_eq_false_2. simpl.
    unfold release_annotations. intros [v Hv]. rewrite !lookup_delete_Some in Hv. tauto.
Qed.

Lemma escalate_is_safe base reason :
  MarkedAction base = Some ActionRestart → m_Deleting base = false →
  patch_is_safe base (set_annotations base (escalate_annotations (m_Annotations base) reason)) true.
Proof.
  intros Hm Hd. destruct (escalated_lookup (m_Annotations base) reason) as (Hr & Ha & Hk).
  pose proof (marked_action_marked _ _ Hm) as Hmarked.
  split_and!; [done|done| |].
  - intros k Hk'. apply Hk. set_solver.
  - rewrite Hmarked. split_and!; [done|done|]. right.
    unfold MarkedAction, IsMarkedForRemediation, has_key in *. cbn [set_annotations m_Annotations].
    by rewrite Hr, Hmarked.
Qed.
End safe.

(** What a reconcile of the Cluster may send. *)
Definition reconcile_effect `{KubeLib} (r : ClusterReconciler) (e : Effect) : Prop :=
  r_DryRun r = false ∧
  match e with
  | PatchMachine base updated lock => patch_is_safe base updated lock
  | PatchRequestStatus _ base updated =>
      Pending base = true ∧ ∃ complete reason message now,
        updated = answered_object base complete reason message now
  | RecordEvent _ _ _ _ _ => True
  | DeleteMachine _ _ _ | CreateRule _ _ => False
  end.

Lemma reconcile_effects `{KubeLib} `{!KubeLaws} {W : Type} `{API W} (r : ClusterReconciler) (key : ObjectKey) :
  spec (W:=W) (reconcile_effect r) (Reconcile r key) (fun _ => True).
Proof.
  apply Reconcile_spec.
  - done.
  - intros Hd k complete reason message e (obj & now & -> & Hp). split; [done|]. simpl. eauto 10.
  - intros Hd base Hm Hdel. split; [done|]. by apply release_is_safe.
  - intros Hd checks m e He. split; [done|].
    destruct He as [base action reason restart HG _ Ha|reason Hm Hdel].
    + apply mark_is_safe; [done|]. destruct Ha as [[-> _]|[-> _]]; auto.
    + by apply escalate_is_safe.
Qed.

(** C1: everything a reconcile sends, whatever the API servers answer. It never
    deletes anything; it answers only pending requests; and a patch of a Machine
    touches no annotation but Cluster API's remediation annotation and the
    operator's own, never a Machine being deleted. A Machine that is not marked is
    marked only when it passes every guard. A Machine that is marked is patched
    only when this operator marked it for a restart, under optimistic locking,
    and is then released or turned into a replacement: a mark set by anyone else,
    and a mark for a replacement, is never touched. *)
Theorem reconcile_is_safe `{KubeLib} {HL : KubeLaws} {W : Type} `{API W} (r : ClusterReconciler)
    (key : ObjectKey) (s : Sys W Memory) :
  ∃ l, trace (Reconcile r key s).2 = trace s ++ l ∧
    Forall (fun e => match e with
      | PatchMachine base updated lock =>
          m_Deleting base = false ∧
          updated = set_annotations base (m_Annotations updated) ∧
          (∀ k, k ∉ RemediateMachineAnnotation :: own_annotations →
             m_Annotations updated !! k = m_Annotations base !! k) ∧
          (if IsMarkedForRemediation base
           then MarkedAction base = Some ActionRestart ∧ lock = true ∧
                (IsMarkedForRemediation updated = false ∨ MarkedAction updated = Some ActionRemediate)
           else Guard base = None ∧
                (MarkedAction updated = Some ActionRestart ∨ MarkedAction updated = Some ActionRemediate))
      | PatchRequestStatus _ base updated =>
          Pending base = true ∧ ∃ complete reason message now,
            updated = answered_object base complete reason message now
      | RecordEvent _ _ _ _ _ => True
      | DeleteMachine _ _ _ | CreateRule _ _ => False
      end) l.
Proof.
  destruct (reconcile_effects r key s) as [_ (l & Ht & Hl)]. exists l. split; [done|].
  eapply Forall_impl; [exact Hl|]. by intros [] [_ He].
Qed.

(** A dry run changes nothing. *)
Lemma silent_in_dry_run `{KubeLib} `{!KubeLaws} {W : Type} `{API W} (r : ClusterReconciler)
    (key : ObjectKey) (s : Sys W Memory) :
  r_DryRun r = true → trace (Reconcile r key s).2 = trace s.
Proof.
  intros Hdry. destruct (reconcile_effects r key s) as [_ (l & -> & Hl)].
  destruct l as [|e l]; [by rewrite app_nil_r|]. apply Forall_cons in Hl as [[Hd _] _]. congruence.
Qed.

(** ** Looking again *)

Section again.
Context `{KubeLib} {W : Type} `{API W} (r : ClusterReconciler).

Lemma pollInterval_positive : (0 < pollInterval r)%Z.
Proof. unfold pollInterval. destruct (Z.ltb_spec 0 (r_PollInterval r)); [done|]. by vm_compute. Qed.

Lemma sooner_bounds now w next : (0 < next)%Z → (0 < sooner now w next <= next)%Z.
Proof.
  intros Hn. unfold sooner. destruct (negb (over w)); simpl; [|lia].
  destruct (Z.ltb_spec 0 (wrap_int64 (earlierMarkGrace - time_Sub now (since w)))); simpl; [|lia].
  destruct (Z.ltb_spec (wrap_int64 (earlierMarkGrace - time_Sub now (since w))) next); lia.
Qed.

Lemma next_look_bounds now next waits : (0 < next)%Z → (0 < next_look now next waits <= next)%Z.
Proof.
  unfold next_look. revert next. induction waits as [|w ws IH]; intros next Hn; simpl; [lia|].
  pose proof (sooner_bounds now w next Hn). specialize (IH (sooner now w next)). lia.
Qed.

(** A wait that is not over and ends before the next poll brings it forward. *)
Lemma next_look_wait now next waits w :
  w ∈ waits → (0 < next)%Z → over w = false →
  (0 < wrap_int64 (earlierMarkGrace - time_Sub now (since w)))%Z →
  (next_look now next waits <= wrap_int64 (earlierMarkGrace - time_Sub now (since w)))%Z.
Proof.
  intros (l1 & l2 & ->)%list_elem_of_split Hn Ho Hl. unfold next_look. rewrite foldl_app. simpl.
  pose proof (next_look_bounds now next l1 Hn) as H1. fold (next_look now next l1).
  set (n1 := next_look now next l1) in *.
  pose proof (sooner_bounds now w n1 ltac:(lia)) as H2.
  transitivity (sooner now w n1); [apply (next_look_bounds now (sooner now w n1) l2); lia|].
  unfold sooner. set (left := wrap_int64 _) in *. rewrite Ho. simpl.
  destruct (Z.ltb_spec 0 left); [|lia]. simpl. destruct (Z.ltb_spec left n1); lia.
Qed.
End again.

Section requeue.
Context `{KubeLib} {W : Type} `{API W} (r : ClusterReconciler).

(** The Cluster is looked at again, no later than at the next poll. *)
Definition requeued (res : result error Z) : Prop :=
  ∀ d, res = Ok d → (0 < d <= pollInterval r)%Z.

Lemma requeued_poll : requeued (Ok (pollInterval r)).
Proof. intros d [= <-]. pose proof (pollInterval_positive r). lia. Qed.

Lemma yields_bind_ok {A} (c : state (Sys W Memory) (result error A))
    (k : A → state (Sys W Memory) (result error Z)) :
  (∀ a, yields (k a) requeued) → yields (bind_ok c k) requeued.
Proof. intros Hk. apply yields_bind. intros [a|e]; [apply Hk|by apply yields_ret]. Qed.

Lemma act_on_signals_requeued key cluster mode checks machines nodes signals :
  yields (W:=W) (act_on_signals r key cluster mode checks machines nodes signals) requeued.
Proof.
  unfold act_on_signals. apply yields_bind. intros previous. apply yields_bind. intros ps.
  apply yields_bind. intros machines'. apply yields_bind. intros _. apply yields_bind. intros _ s.
  unfold nextLook, mbind, state_bind. simpl. unfold call. destruct (Now (world s)) as [now w]. simpl.
  intros d [= <-]. apply next_look_bounds, pollInterval_positive.
Qed.

Lemma poll_requeued key cluster : yields (W:=W) (poll r key cluster) requeued.
Proof.
  unfold poll. apply yields_bind. intros [mode|e]; [|apply yields_ret, requeued_poll].
  apply yields_bind. intros _. apply yields_bind. intros _. apply yields_bind.
  intros [signals|e]; [|apply yields_ret, requeued_poll].
  apply yields_bind_ok. intros machines. apply yields_bind_ok. intros checks.
  apply yields_bind. intros [nodes|e]; [|apply yields_ret, requeued_poll].
  apply yields_bind. intros [u|e]; [|apply yields_ret, requeued_poll]. apply act_on_signals_requeued.
Qed.
End requeue.

(** C29: a Cluster is never lost sight of. A reconcile that does not fail comes
    back within a poll interval, whatever failed on the way in the workload
    cluster; it comes back for good only where the Cluster is gone, is being
    deleted or is not selected. *)
Theorem reconcile_comes_back `{KubeLib} {W : Type} `{API W} (r : ClusterReconciler) (key : ObjectKey)
    (s : Sys W Memory) :
  match (Reconcile r key s).1 with
  | Err _ => True
  | Ok d => (0 < d <= pollInterval r)%Z ∨
      d = 0%Z ∧ match (GetCluster key (world s)).1 with
        | Err e => IsNotFound e = true
        | Ok c => cl_Deleting c = true ∨
            ∃ matches, r_ClusterSelector r = Some matches ∧ matches (cl_Labels c) = false
        end
  end.
Proof.
  unfold Reconcile, mbind, state_bind. unfold call at 1.
  destruct (GetCluster key (world s)) as [[cluster|e] w]; simpl.
  - destruct (cl_Deleting cluster) eqn:Hdel; simpl; [by auto|].
    destruct (r_ClusterSelector r) as [matches|] eqn:Hsel;
      [destruct (matches (cl_Labels cluster)) eqn:Hm; simpl; [|by eauto 10]|].
    all: destruct (annotations_IsPaused cluster); simpl; [left; by apply requeued_poll|].
    all: unfold call at 1; simpl; destruct (GetClient key w) as [[u|e] w']; simpl.
    all: try (destruct (IsNotConnected e); simpl; [left; by apply requeued_poll|done]).
    all: match goal with |- context [poll ?r' ?k ?c ?s'] =>
      pose proof (poll_requeued r' k c s') as Hp; destruct (poll r' k c s').1; [left; by apply Hp|done]
      end.
  - destruct (IsNotFound e) eqn:He; simpl; [by auto|done].
Qed.

(** ** News is told once *)

(** Not the record of a conclusion: a write, or the Event of marking a Machine. *)
Definition quiet (e : Effect) : Prop :=
  match e with
  | RecordEvent _ _ reason _ _ => reason = EventMarkedForRemediation
  | _ => True
  end.

Section news.
Context `{KubeLib} {W : Type} `{API W} (r : ClusterReconciler).

(** A step that, concluding what was concluded before, records nothing. *)
Definition tells_news {A} (c : state (Sys W Memory) (A * observation)) (previous : observation) : Prop :=
  runs c (fun res l => res.2 = previous → Forall quiet l).

Lemma tells_news_ret {A} (a : A) obs previous : tells_news (mret (a, obs)) previous.
Proof. by apply runs_ret. Qed.

Lemma tells_news_bind {A B} (c : state (Sys W Memory) A) (k : A → state (Sys W Memory) (B * observation)) previous :
  spec quiet c (fun _ => True) → (∀ a, tells_news (k a) previous) → tells_news (c ≫= k) previous.
Proof.
  intros Hc Hk. eapply runs_bind; [by apply spec_runs|]. intros a l [_ Hl].
  eapply runs_weaken; [apply Hk|]. intros res l' Hl' Hp. apply Forall_app. auto.
Qed.

Lemma report_news {A} (a : A) obs previous object reason action message :
  tells_news (report r (bool_decide (obs ≠ previous)) object reason action message;; mret (a, obs)) previous.
Proof.
  unfold report. case_bool_decide as Hn; simpl; [|by apply tells_news_ret].
  eapply (runs_bind _ _ (fun _ _ => True)).
  - destruct (r_DryRun r); [by apply runs_ret|]. destruct object; [|by apply runs_ret].
    eapply runs_weaken; [apply runs_emit|done].
  - intros _ l _. by apply runs_ret.
Qed.

Lemma hand_over_news cluster sig p cov machine node obs previous :
  tells_news (hand_over (W:=W) r cluster sig p cov machine node obs previous) previous.
Proof.
  unfold hand_over. cbv zeta. destruct (p_restart p && p_restartUnavailable p); [apply report_news|].
  destruct (negb (p_restart p) && negb (Covered cov)); [apply report_news|].
  apply tells_news_bind.
  { destruct (p_restart p); [apply heldForChecks_spec|by apply spec_ret]. }
  intros [[] shown]; [apply tells_news_ret|]. simpl. destruct (r_DryRun r); [apply tells_news_ret|].
  apply tells_news_bind; [by apply MarkForRemediation_spec|].
  intros [m' [|e]]; apply tells_news_ret.
Qed.

Lemma remediate_news cluster checks sig outcome machine node obs previous :
  tells_news (remediate (W:=W) r cluster checks sig outcome machine node obs previous) previous.
Proof.
  unfold remediate. destruct (bool_decide _ && _ && _ && _); [apply tells_news_ret|]. cbv zeta.
  apply tells_news_bind.
  { destruct (negb _ && _); [by apply Escalate_spec|by apply spec_ret]. }
  intros [m [esc|e]]; [|apply tells_news_ret]. destruct (Guard m) as [skip|]; [|apply hand_over_news].
  set (obs' := if negb (InProgress skip) && _ then _ else _).
  destruct (decide (obs' ≠ previous)) as [Hn|Hn]; [|by apply tells_news_ret].
  eapply (runs_bind _ _ (fun _ _ => True)); [|intros; by apply runs_ret].
  unfold RecordSkipped. destruct (_ || _); [by apply runs_ret|].
  eapply runs_weaken; [apply runs_emit|done].
Qed.
End news.

(** A fault that persists is told once. When handling a signal concludes what
    was concluded at the last poll, no Event is recorded about the conclusion;
    the only Event there can be is the one of marking the Machine, which the
    guards let happen once. *)
Lemma persisting_signal_is_quiet `{KubeLib} {W : Type} `{API W} (r : ClusterReconciler)
    (cluster : Cluster) (mode : Mode) (checks : list MachineHealthCheck) (sig : Signal)
    (machine : option Machine) (node : option Node) (previous : observation) :
  runs (W:=W) (handle r cluster mode checks sig machine node previous) (fun res l =>
    res.2 = previous → ∀ o t reason action note,
      RecordEvent o t reason action note ∈ l → reason = EventMarkedForRemediation).
Proof.
  eapply runs_weaken with (Q := fun res l => res.2 = previous → Forall quiet l).
  - unfold handle. cbv zeta. destruct (bool_decide (node = None) && _); [by apply runs_ret|].
    destruct machine as [m|]; [|apply report_news].
    destruct (out_Decision (decided r mode sig)); [apply report_news|..].
    all: eapply runs_bind; [apply remediate_news|]; intros [m' obs] l Hl; apply runs_ret;
      by rewrite app_nil_r.
  - intros res l Hl Hp o t reason action note Hin.
    specialize (Hl Hp). rewrite Forall_forall in Hl. exact (Hl _ Hin).
Qed.

(** ** Partial reads *)

Section partial.
Context `{KubeLib} {W : Type} `{API W} (r : ClusterReconciler).
Context (key : ObjectKey) (cluster : Cluster) (mode : Mode) (checks : list MachineHealthCheck)
  (nodes : gmap string Node) (previous : gmap string observation).

Lemma handle_signal_unreadable sig ps :
  yields (W:=W) (handle_signal r key cluster mode checks nodes previous sig ps)
    (fun ps' => ps_unreadable ps' = ps_unreadable ps).
Proof.
  unfold handle_signal. cbv zeta. apply yields_bind. intros [machine obs]. apply yields_bind.
  intros machine'. by apply yields_ret.
Qed.

Lemma signal_step_unreadable sig ps :
  yields (W:=W) (signal_step r key cluster mode checks nodes previous sig ps)
    (fun ps' => ps_unreadable ps = true → ps_unreadable ps' = true).
Proof.
  unfold signal_step. case_decide.
  - intros s Hu. by rewrite handle_signal_unreadable.
  - apply yields_bind. intros [[]|e].
    + intros s Hu. by rewrite handle_signal_unreadable.
    + by apply yields_ret.
    + by apply yields_ret.
Qed.

Lemma signal_loop_unreadable signals ps :
  yields (W:=W) (signal_loop r key cluster mode checks nodes previous signals ps)
    (fun ps' => ps_unreadable ps = true → ps_unreadable ps' = true).
Proof.
  revert ps. induction signals as [|sig rest IH]; intros ps; [by apply yields_ret|].
  intros s Hu. cbn [signal_loop]. unfold mbind, state_bind.
  pose proof (signal_step_unreadable sig ps s Hu) as Hs.
  destruct (signal_step _ _ _ _ _ _ _ _ _ s) as [ps' s']. by apply IH.
Qed.

(** A request that cannot be read makes the pass partial. *)
Lemma signal_loop_partial signals ps sig :
  sig ∈ signals → sig_Request sig ≠ "" →
  (∀ w, ∃ e, (GetRequest key (sig_Request sig) w).1 = Err e ∧ IsNotFound e = false) →
  yields (W:=W) (signal_loop r key cluster mode checks nodes previous signals ps)
    (fun ps' => ps_unreadable ps' = true).
Proof.
  intros Hin Hreq Hfail. revert ps. induction signals as [|sig' rest IH]; intros ps s; [set_solver|].
  cbn [signal_loop]. unfold mbind, state_bind.
  apply elem_of_cons in Hin as [<-|Hin].
  - assert (Hs : ps_unreadable (signal_step r key cluster mode checks nodes previous sig ps s).1 = true).
    { unfold signal_step. rewrite decide_False by done. unfold IsPending, mbind, state_bind, call.
      destruct (Hfail (world s)) as (e & He & Hnf).
      destruct (GetRequest key (sig_Request sig) (world s)) as [res w]. simpl in *. subst res.
      rewrite Hnf. done. }
    destruct (signal_step _ _ _ _ _ _ _ _ _ s) as [ps' s']. by apply signal_loop_unreadable.
  - destruct (signal_step _ _ _ _ _ _ _ _ _ s) as [ps' s']. by apply IH.
Qed.
End partial.


(** ** Holding restarts back *)

Lemma wrap_int64_id x : (- 2 ^ 63 <= x < 2 ^ 63)%Z → wrap_int64 x = x.
Proof. intros Hx. unfold wrap_int64. rewrite Z.mod_small; lia. Qed.

Lemma waits_of_insert key key' waits m :
  waits_of key' (set_waiting m (<[key := waits]> (waiting m))) =
  if decide (key' = key) then waits else waits_of key' m.
Proof.
  unfold waits_of. simpl. case_decide as Hk; subst; by rewrite ?lookup_insert_eq, ?lookup_insert_ne by done.
Qed.

(** A restart is held back only while the checks still show the earlier mark,
    and for no longer than the grace since that was first seen. Asking about a
    Machine whose checks do not show the mark holds nothing and drops its wait;
    otherwise the first look starts the wait and holds, a later one holds exactly
    within the grace of that first look and never moves it, so the wait ends; and
    no other wait changes. *)
Lemma restart_held_within_grace `{KubeLib} {W : Type} `{API W} (key : ObjectKey) (machine : Machine)
    (s : Sys W Memory) :
  let name := m_Name machine in
  let before := waits_of key (memory s) in
  let '((held, _), s') := heldForChecks key machine s in
  let after := waits_of key (memory s') in
  delete name after = delete name before ∧
  if EarlierMarkPending machine then
    let now := (Now (world s)).1 in
    held = match before !! name with
           | None => true
           | Some w => (time_Sub now (since w) <? earlierMarkGrace)%Z
           end ∧
    since <$> after !! name = Some (match before !! name with None => now | Some w => since w end)
  else held = false ∧ after !! name = None.
Proof.
  cbv zeta. unfold heldForChecks, mbind, state_bind. simpl.
  destruct (EarlierMarkPending machine) eqn:Hp; simpl.
  - unfold call. destruct (Now (world s)) as [now w]. simpl.
    destruct (check_wait now (waits_of key (memory s) !! m_Name machine)) as [[held shown] wait] eqn:E.
    simpl. rewrite waits_of_insert, decide_True by done. rewrite delete_insert_eq. split; [done|].
    rewrite lookup_insert_eq. simpl. unfold check_wait in E.
    destruct (waits_of key (memory s) !! m_Name machine) as [w0|]; [|by simplify_eq].
    destruct (time_Sub now (since w0) <? earlierMarkGrace)%Z; [by simplify_eq|].
    destruct (over w0); by simplify_eq.
  - unfold waits_of. simpl. rewrite lookup_alter_eq. destruct (waiting (memory s) !! key) as [ws|]; simpl.
    + by rewrite delete_delete_eq, lookup_delete_eq.
    + by rewrite lookup_empty.
Qed.

(** C30: the Cluster is looked at again when it matters: at the latest at the next
    poll, and, where a restart of one of its Machines is held back, when the
    grace of that wait ends; never at once. *)
Theorem next_look_on_time `{KubeLib} (r : ClusterReconciler) (now : Z) (waits : list checksWait) :
  (0 < next_look now (pollInterval r) waits <= pollInterval r)%Z ∧
  ∀ w, w ∈ waits → over w = false → (since w <= now < since w + earlierMarkGrace)%Z →
    (now + next_look now (pollInterval r) waits <= since w + earlierMarkGrace)%Z.
Proof.
  split; [apply next_look_bounds, pollInterval_positive|]. intros w Hw Ho Hnow.
  assert (Hleft : wrap_int64 (earlierMarkGrace - time_Sub now (since w)) =
                  (since w + earlierMarkGrace - now)%Z).
  { unfold time_Sub, earlierMarkGrace, second, min_int64, max_int64 in *.
    rewrite wrap_int64_id; lia. }
  pose proof (next_look_wait now (pollInterval r) waits w Hw (pollInterval_positive r) Ho) as Hn.
  rewrite Hleft in Hn. lia.
Qed.

(** A wait lasts for as long as the checks show the earlier mark of its
    Machine, and no longer: after a pass exactly the waits of the Machines that
    are there and still shown are left, as they were, and no other Cluster's
    change. With no Machines given all are dropped. *)
Lemma waits_kept_exactly `{KubeLib} (key : ObjectKey) (machines : list Machine) (m : Memory) :
  (∀ name w, waits_of key (forget_waits key machines m) !! name = Some w ↔
     waits_of key m !! name = Some w ∧
     ∃ machine, machine ∈ machines ∧ m_Name machine = name ∧ EarlierMarkPending machine = true) ∧
  (∀ key', key' ≠ key → waits_of key' (forget_waits key machines m) = waits_of key' m).
Proof.
  set (left := filter (fun p => p.1 ∈ pending_names machines) (waits_of key m)).
  assert (Hw : waits_of key (forget_waits key machines m) = left).
  { unfold forget_waits. fold left. unfold waits_of at 1. simpl.
    case_decide as Hl; [by rewrite lookup_delete_eq|by rewrite lookup_insert_eq]. }
  split.
  - intros name w. rewrite Hw. subst left. rewrite map_lookup_filter_Some. simpl. apply and_iff_compat_l.
    unfold pending_names. rewrite elem_of_list_to_set, list_elem_of_fmap.
    setoid_rewrite list_elem_of_filter. naive_solver.
  - intros key' Hk. unfold forget_waits. fold left. unfold waits_of. simpl.
    case_decide; by rewrite ?lookup_delete_ne, ?lookup_insert_ne by done.
Qed.

(** ** What a pass is based on *)

Lemma index_machines_snoc items m :
  index_machines (items ++ [m]) =
  if decide (m_NodeRef m = "") then index_machines items else <[m_NodeRef m := m]> (index_machines items).
Proof. unfold index_machines. by rewrite foldl_app. Qed.

(** The Machine behind a node is one of the Cluster's that names the node, the
    last one listed should there be several; a node has none exactly when no
    Machine names it, and a Machine without a node is behind none. *)
Lemma machine_behind_node (items : list Machine) (node : string) :
  match index_machines items !! node with
  | Some m => ∃ pre post, items = pre ++ m :: post ∧ m_NodeRef m = node ∧ node ≠ "" ∧
      ∀ m', m' ∈ post → m_NodeRef m' ≠ node
  | None => node = "" ∨ ∀ m, m ∈ items → m_NodeRef m ≠ node
  end.
Proof.
  induction items as [|m items IH] using rev_ind; [right; set_solver|]. rewrite index_machines_snoc.
  assert (Hother : m_NodeRef m ≠ node ∨ node = "" →
    match index_machines items !! node with
    | Some m0 => ∃ pre post, items ++ [m] = pre ++ m0 :: post ∧ m_NodeRef m0 = node ∧ node ≠ "" ∧
        ∀ m', m' ∈ post → m_NodeRef m' ≠ node
    | None => node = "" ∨ ∀ m0, m0 ∈ items ++ [m] → m_NodeRef m0 ≠ node
    end).
  { intros Hm. destruct (index_machines items !! node) as [m0|].
    - destruct IH as (pre & post & -> & Hn & Hne & Hpost). exists pre, (post ++ [m]).
      split_and!; [by rewrite <- (assoc_L (++))|done|done|].
      intros m' [Hin| ->%list_elem_of_singleton]%elem_of_app; [auto|naive_solver].
    - destruct Hm as [Hm| ->]; [|by left]. destruct IH as [->|IH]; [by left|]. right.
      intros m0 [Hin| ->%list_elem_of_singleton]%elem_of_app; auto. }
  destruct (decide (m_NodeRef m = "")) as [He|He].
  { apply Hother. destruct (decide (node = "")); [by right|left; congruence]. }
  destruct (decide (m_NodeRef m = node)) as [<-|Hne].
  - rewrite lookup_insert_eq. exists items, []. split_and!; [done|done|done|]. set_solver.
  - rewrite lookup_insert_ne by done. apply Hother. by left.
Qed.

(** ** When an escalation fails

    [remediate] concludes nothing when the escalation's patch fails, and an empty
    conclusion names no Machine. *)

Section failed.
Context `{KubeLib} {W : Type} `{API W} (r : ClusterReconciler).
Context (Hdry : r_DryRun r = false) (m : Machine).
Context (Hmark : MarkedAction m = Some ActionRestart) (Hdel : m_Deleting m = false).
Context (Hfail : ∀ updated w, MarkedAction updated = Some ActionRemediate →
  is_ok (SendPatchMachine m updated true w).1 = false).

Lemma failed_escalation `{!KubeLaws} cluster checks sig outcome node obs previous s :
  out_Decision outcome = Replace →
  (remediate (W:=W) r cluster checks sig outcome m node obs previous s).1 = (m, no_observation).
Proof.
  intros Hout. unfold remediate. rewrite Hout. cbv zeta. simpl.
  unfold make_plan. rewrite Hout. simpl. unfold Escalate. rewrite Hmark, Hdel, Hdry. simpl.
  unfold patch_machine, mbind, state_bind, emit, call. simpl.
  set (reason := because sig (out_Reason outcome)).
  destruct (escalate_is_safe m reason Hmark Hdel) as (_ & _ & _ & Hs).
  rewrite (marked_action_marked _ _ Hmark) in Hs. destruct Hs as (_ & _ & Hs).
  assert (Ha : MarkedAction (set_annotations m (escalate_annotations (m_Annotations m) reason)) =
               Some ActionRemediate).
  { destruct Hs as [Hu|]; [|done]. destruct (escalated_lookup (m_Annotations m) reason) as (Hr & _).
    pose proof (marked_action_marked _ _ Hmark) as Hm.
    unfold IsMarkedForRemediation, has_key in *. cbn [set_annotations m_Annotations] in *.
    rewrite Hr in Hu. congruence. }
  specialize (Hfail _ (world s) Ha).
  by destruct (SendPatchMachine m _ true (world s)) as [[m'|e] w].
Qed.
End failed.

Lemma signal_loop_any `{KubeLib} `{!KubeLaws} {W : Type} `{API W} r key cluster mode checks nodes previous signals ps :
  spec (W:=W) (fun _ => True) (signal_loop r key cluster mode checks nodes previous signals ps) (fun _ => True).
Proof. by apply signal_loop_spec. Qed.

(** C22: a restart is lost when it cannot be escalated. In a pass whose one signal, a node
    condition, calls for a replacement of a Machine marked for a restart, and in which the
    API server rejects the escalation, the pass goes on to release the Machine: it patches
    the mark away although the signal still calls for a replacement, since the empty
    conclusion of the failed escalation holds no Machine. *)
Theorem failed_escalation_releases_restart `{KubeLib} {HL : KubeLaws} {W : Type} `{API W}
    (r : ClusterReconciler) (key : ObjectKey) (cluster : Cluster) (mode : Mode)
    (checks : list MachineHealthCheck) (m : Machine) (nodes : gmap string Node) (sig : Signal)
    (s : Sys W Memory)
    (Hdry : r_DryRun r = false) (Hreq : sig_Request sig = "")
    (Hout : out_Decision (decided r mode sig) = Replace)
    (Hmark : MarkedAction m = Some ActionRestart) (Hdel : m_Deleting m = false)
    (Hfail : ∀ updated w, MarkedAction updated = Some ActionRemediate →
       is_ok (SendPatchMachine m updated true w).1 = false) :
  ∃ l, trace (act_on_signals r key cluster mode checks {[sig_Node sig := m]} nodes [sig] s).2 = trace s ++ l ∧
    PatchMachine m (set_annotations m (release_annotations (m_Annotations m))) true ∈ l.
Proof.
  set (released := PatchMachine m _ true).
  set (machines := {[sig_Node sig := m]} : gmap string Machine).
  enough (runs (act_on_signals r key cluster mode checks machines nodes [sig]) (fun _ l => released ∈ l))
    as Hruns by (destruct (Hruns s) as (l & Ht & Hl); by exists l).
  unfold act_on_signals. eapply (runs_bind _ _ (fun _ _ => True)).
  { eapply runs_bind; [apply runs_get_memory|]. intros mem l _. by apply runs_ret. }
  intros previous l1 _.
  eapply (runs_bind _ _ (fun ps _ =>
    ps = MkPass machines {[Key sig := no_observation]} ∅ false)).
  - intros s1. destruct (signal_loop_any r key cluster mode checks nodes previous [sig]
      (MkPass machines ∅ ∅ false) s1) as [_ (l2 & Ht & _)].
    exists l2. split; [exact Ht|]. cbn [signal_loop]. unfold signal_step. rewrite decide_True by done.
    unfold handle_signal. cbv zeta. cbn [ps_machines]. subst machines. rewrite lookup_singleton_eq.
    unfold handle. cbv zeta. rewrite (bool_decide_eq_false_2 (sig_Request sig ≠ "")) by tauto.
    rewrite andb_false_r, Hout. unfold mbind, state_bind. cbv beta.
    match goal with |- context [remediate ?a ?b ?c ?d ?e ?f ?g ?h ?i ?j] =>
      pose proof (failed_escalation a Hdry m Hmark Hdel Hfail b c d e g h i j Hout) as Hrem;
      destruct (remediate a b c d e f g h i j) as [[m' o] s2] end.
    simpl in Hrem. simplify_eq. simpl. by rewrite insert_singleton_eq.
  - intros ps l2 ->. cbn [ps_unreadable ps_machines ps_current ps_asking].
    eapply runs_bind; [apply releaseRestarts_runs|]. intros machines' l3 [Hl3 Hp3]. rewrite Hdry in Hp3.
    assert (Hin : m ∈ patched l3).
    { rewrite Hp3. rewrite list_elem_of_filter, list_elem_of_omap. split.
      - unfold releasable. rewrite Hmark, Hdel, map_to_list_singleton. simpl.
        rewrite bool_decide_eq_false_2; [done|set_solver].
      - exists (sig_Node sig). rewrite elem_of_sorted_keys. subst machines. by rewrite lookup_singleton_eq. }
    assert (Hrel : released ∈ l3).
    { unfold patched in Hin. apply list_elem_of_omap in Hin as (e & He & Heq).
      rewrite Forall_forall in Hl3. specialize (Hl3 e He). destruct e; simplify_eq/=.
      by destruct Hl3 as (_ & _ & -> & ->). }
    eapply runs_weaken.
    + apply (proj1 (spec_runs (fun _ => True) _ (fun _ => True))).
      eapply spec_bind; [by apply modify_spec|]. intros _ _.
      eapply spec_bind; [by apply modify_spec|]. intros _ _.
      eapply spec_bind; [by apply nextLook_spec|]. intros next _. by apply spec_ret.
    + intros res l4 _. set_solver.
Qed.

(** ** Witnesses

    A Cluster whose one worker has failed: NVSentinel asks for a restart of its
    node through a request, and its health check has a remediation template. *)

#[local] Existing Instance lib.
#[local] Existing Instance lib_laws.
#[local] Existing Instance api.

Definition a_reconciler (dryRun : bool) : ClusterReconciler := MkReconciler Default dryRun 0 None None true.

Definition a_key : ObjectKey := MkKey "default" "gpu".

Definition a_cluster : Cluster :=
  MkCluster "default" "gpu" ∅ ∅ false false (MkRef "infrastructure.cluster.x-k8s.io" "DockerCluster" "gpu").

Definition a_machine : Machine :=
  MkMachine "default" "worker-1" "m-uid" "7" false {["cluster.x-k8s.io/cluster-name" := "gpu"]} ∅ []
    "gpu" (MkRef "infrastructure.cluster.x-k8s.io" "DockerMachine" "worker-1") "node-1" [].

Definition a_check : MachineHealthCheck :=
  MkMHC "default" "restart" ∅ "gpu" (MkSelector ∅ []) (Some (MkTemplateRef "RestartTemplate" "restart")).

Definition a_node (boot : string) : Node := MkNode "node-1" boot [MkNodeCondition "Ready" "True" ""].

Definition a_world : World :=
  MkWorld (Some a_cluster) [a_machine] [a_check] true ["ExternalRemediationRequest"]
    [a_node "boot-1"] [sample_request "req-1" (VInt 24)] 0 ∅ [] [] [].

Definition start (w : World) : Sys World Memory := MkSys w [] empty_memory.

Definition reboot (s : Sys World Memory) : Sys World Memory :=
  MkSys (let w := world s in MkWorld (w_cluster w) (w_machines w) (w_checks w) (w_connected w) (w_kinds w)
           [a_node "boot-2"] (w_requests w) (w_now w) ∅ [] [] []) (trace s) (memory s).

(** The first pass marks the Machine for a restart; once the node is back with
    another boot ID, the second answers the request and releases the Machine. *)
Example restart_end_to_end :
  let s1 := (Reconcile (a_reconciler false) a_key (start a_world)).2 in
  let s2 := (Reconcile (a_reconciler false) a_key (reboot s1)).2 in
  (MarkedAction <$> w_machines (world s1)) = [Some ActionRestart] ∧
  (restartMarkOf <$> w_machines (world s1)) = [MkMark (Some ActionRestart) "boot-1" "req-1"] ∧
  (Extrr.Pending <$> w_requests (world s1)) = [true] ∧
  w_machines (world s2) = [a_machine] ∧
  ((fun u => ConditionStatus u ConditionComplete) <$> w_requests (world s2)) = ["True"].
Proof. vm_compute. split_and!; reflexivity. Qed.

Lemma reconcile_is_safe_witness :
  ∃ l, trace (Reconcile (a_reconciler false) a_key (start a_world)).2 = [] ++ l.
Proof.
  destruct (reconcile_is_safe (a_reconciler false) a_key (start a_world)) as [l [Hl _]].
  exists l. exact Hl.
Defined.

(** The same world with requests that cannot be read. *)
Definition api_unreadable : API World := {|
  GetCluster := GetCluster; GetMachine := GetMachine; ListMachines := ListMachines;
  ListMachineHealthChecks := ListMachineHealthChecks; SendPatchMachine := SendPatchMachine;
  SendDeleteMachine := SendDeleteMachine; GetClient := GetClient; GetUncachedClient := GetUncachedClient;
  WatchRequests := WatchRequests; WorkloadMapping := WorkloadMapping; ListNodes := ListNodes;
  ListRequests := ListRequests;
  GetRequest := fun _ _ w => (Err (EApi OtherReason "server is shutting down"), w);
  SendPatchRequestStatus := SendPatchRequestStatus; Now := Now
|}.

Lemma api_unreadable_laws : @PatchLaws lib World api_unreadable.
Proof. destruct api_patch_laws. by constructor. Qed.

Definition a_request_signal : Signal :=
  MkSignal OriginExternalRemediationRequest "node-1" "SysLogsXIDError" "" [ActionRestartBM] [] [] false "req-1".


(** The same world with a webhook that rejects marks for a replacement. *)
Definition api_no_replacement : API World := {|
  GetCluster := GetCluster; GetMachine := GetMachine; ListMachines := ListMachines;
  ListMachineHealthChecks := ListMachineHealthChecks;
  SendPatchMachine := fun base updated lock w =>
    if decide (MarkedAction updated = Some ActionRemediate)
    then (Err (EApi Forbidden "denied by the webhook"), w)
    else SendPatchMachine base updated lock w;
  SendDeleteMachine := SendDeleteMachine; GetClient := GetClient; GetUncachedClient := GetUncachedClient;
  WatchRequests := WatchRequests; WorkloadMapping := WorkloadMapping; ListNodes := ListNodes;
  ListRequests := ListRequests; GetRequest := GetRequest;
  SendPatchRequestStatus := SendPatchRequestStatus; Now := Now
|}.

Definition a_replace_signal : Signal :=
  MkSignal OriginNodeCondition "node-1" "GpuXidError" "" [ActionReplaceVM] [] [] false "".

Lemma failed_escalation_releases_restart_witness :
  ∃ l, trace (act_on_signals (H0:=api_no_replacement) (a_reconciler false) a_key a_cluster
                ModeNodeCondition [a_check] {["node-1" := restart_marked_machine]} ∅
                [a_replace_signal] (start a_world)).2 = [] ++ l ∧
    PatchMachine restart_marked_machine
      (set_annotations restart_marked_machine
         (release_annotations (m_Annotations restart_marked_machine))) true ∈ l.
Proof.
  apply (@failed_escalation_releases_restart lib lib_laws World api_no_replacement (a_reconciler false)
           a_key a_cluster ModeNodeCondition [a_check] restart_marked_machine ∅ a_replace_signal (start a_world)).
  - reflexivity.
  - reflexivity.
  - reflexivity.
  - reflexivity.
  - reflexivity.
  - intros updated w Hm. simpl. destruct (decide _) as [_|Hn]; [reflexivity|]. destruct (Hn Hm).
Defined.
