(* ===== verification/Memory.v ===== *)
(** * What the cluster reconciler remembers

    The memory of [ClusterReconciler] over any number of reconciles, in any worlds:
    [reachable], by rule induction, and the invariant [well_formed]. Within a pass over
    one Cluster the memory is in between ([in_pass]). *)

From S2P Require Import Prelude GoStrings Signal Decision Kube KubeModel WorldModel Calls Condition Extrr Capi Mode ClusterController ClusterFacts ReconcileFacts.
Open Scope stdpp_scope.

(** ** What is concluded of a signal *)

Section conclusions.
Context `{KubeLib} {W : Type} `{API W} (r : ClusterReconciler).

(** The conclusion names the decision taken and the request asked with, unless handling
    the signal failed. *)
Definition concludes (d : option decision) (request : string) (obs : observation) : Prop :=
  obs = no_observation ∨ obs_Decision obs = d ∧ obs_Request obs = request.

Lemma hand_over_concludes cluster sig p cov machine node obs previous :
  yields (W:=W) (hand_over r cluster sig p cov machine node obs previous)
    (fun res => concludes (obs_Decision obs) (obs_Request obs) res.2).
Proof.
  unfold hand_over. cbv zeta. destruct (_ && _).
  { apply yields_bind. intros _. apply yields_ret. right. by case_match. }
  destruct (_ && _).
  { apply yields_bind. intros _. apply yields_ret. right. by case_match. }
  apply yields_bind. intros [[] d]; [apply yields_ret; by right|]. simpl.
  destruct (r_DryRun r); [apply yields_ret; by right|].
  apply yields_bind. intros [m [|]]; apply yields_ret; [by right|by left].
Qed.

Lemma remediate_concludes cluster checks sig outcome machine node obs previous :
  yields (W:=W) (remediate r cluster checks sig outcome machine node obs previous)
    (fun res => concludes (obs_Decision obs) (obs_Request obs) res.2).
Proof.
  unfold remediate. cbv zeta. case_match; [apply yields_ret; by right|].
  apply yields_bind. intros [m [|]]; [|apply yields_ret; by left].
  destruct (Guard m); [|apply hand_over_concludes].
  apply yields_bind. intros _. apply yields_ret. right. by case_match.
Qed.

Lemma handle_concludes cluster mode checks sig machine node previous :
  yields (W:=W) (handle r cluster mode checks sig machine node previous)
    (fun res => concludes (Some (out_Decision (decided r mode sig))) (sig_Request sig) res.2).
Proof.
  unfold handle. cbv zeta. case_match; [apply yields_ret; by right|].
  destruct machine as [m|]; [|apply yields_bind; intros _; apply yields_ret; by right].
  destruct (out_Decision _) eqn:Ed; [apply yields_bind; intros _; apply yields_ret; by right|..];
    intros s; unfold mbind, state_bind;
    pose proof (remediate_concludes cluster checks sig (decided r mode sig) m node
      (MkObs (Some (out_Decision (decided r mode sig))) (out_Action (decided r mode sig)) (sig_Truncated sig)
         (m_Name m) (sig_Request sig) None "" "" no_answer) previous s) as Hc;
    rewrite Ed in Hc; destruct (remediate _ _ _ _ _ _ _ _ _ s); exact Hc.
Qed.
End conclusions.

(** ** What leaves the memory alone *)

Section kept.
Context `{KubeLib} {W : Type} `{API W} (r : ClusterReconciler) (J : Sys W Memory → Prop) `{!KeptOther J}.

Lemma patch_machine_keeps m updated lock : keeps J (patch_machine m updated lock).
Proof. unfold patch_machine. keeps_steps. Qed.
#[local] Hint Resolve patch_machine_keeps : keeps.

Lemma MarkForRemediation_keeps dry m action reason record : keeps J (MarkForRemediation dry m action reason record).
Proof. unfold MarkForRemediation. keeps_steps. Qed.

Lemma Escalate_keeps dry m reason : keeps J (Escalate dry m reason).
Proof. unfold Escalate. keeps_steps. Qed.

Lemma Release_keeps dry m reason : keeps J (Release dry m reason).
Proof. unfold Release. keeps_steps. Qed.

Lemma RecordSkipped_keeps dry m skip action reason : keeps J (RecordSkipped dry m skip action reason).
Proof. unfold RecordSkipped. keeps_steps. Qed.

Lemma report_keeps news object reason action message : keeps J (report r news object reason action message).
Proof. unfold report. keeps_steps. Qed.

Lemma IsPending_keeps key name : keeps J (IsPending key name).
Proof. unfold IsPending. keeps_steps. Qed.

Lemma release_now_keeps reason x : J x.1 → J (release_now r reason x).2.1.
Proof.
  destruct x as [s [m c]]. intros Hs. unfold release_now. simpl in Hs.
  pose proof (Release_keeps (r_DryRun r) m reason s Hs) as Hr.
  by destruct (Release (r_DryRun r) m reason s) as [[m' [b|e]] s'].
Qed.

Lemma release_attempt_keeps answered reason x : J x.1 → J (release_attempt r answered reason x).2.1.
Proof.
  destruct x as [s [m c]]. intros Hs. simpl in Hs. unfold release_attempt.
  destruct c; [|by apply (release_now_keeps reason (s, (m, false)))].
  pose proof (other_call _ _ (others_read _ (reads_GetMachine (machine_key m))) s Hs) as Hc.
  destruct (call (GetMachine (machine_key m)) s) as [[current|e] s2]; simpl in *; [|done].
  case_decide; [done|]. by apply (release_now_keeps reason (s2, (current, true))).
Qed.

Lemma releaseAnswered_keeps `{!KubeLaws} m reason : keeps J (releaseAnswered r m reason).
Proof.
  intros s Hs. unfold releaseAnswered. destruct retry_on_conflict_bounded as [n ->].
  enough (J (retry_times (S n) (release_attempt r (restartMarkOf m) reason) (s, (m, false))).2.1) as Hend
    by (by destruct (retry_times _ _ _) as [? [? [? ?]]]).
  apply (retry_times_inv n _ (fun x => J x.1) (fun x => J x.1)); [|done].
  intros x Hx. pose proof (release_attempt_keeps (restartMarkOf m) reason x Hx). auto.
Qed.

(** With what the answer itself keeps. *)
Lemma answer_request_keeps `{!KubeLaws} key cluster machine sig a :
  (∀ complete reason message, keeps J (Answer key (sig_Request sig) complete reason message)) →
  keeps J (answer_request r key cluster machine sig a).
Proof.
  intros Hans. unfold answer_request. destruct (r_DryRun r); [apply keeps_ret|].
  apply keeps_bind; [apply Hans|]. intros [[]|e]; [|apply keeps_ret..].
  apply keeps_bind; [apply other_emit|]. intros _. destruct machine as [m|]; [|apply keeps_ret].
  destruct (an_Complete a); [|apply keeps_ret].
  apply keeps_bind; [apply releaseAnswered_keeps|]. intros. apply keeps_ret.
Qed.

Lemma release_loop_keeps source held leftover names machines would :
  keeps J (release_loop r source held leftover names machines would).
Proof.
  revert machines would. induction names as [|n rest IH]; intros machines would; simpl; [apply keeps_ret|].
  destruct (machines !! n); [|apply IH]. case_match; [apply IH|].
  apply keeps_bind; [apply Release_keeps|]. intros [m' res]. apply IH.
Qed.
End kept.
Lemma Answer_keeps `{KubeLib} {W : Type} `{API W} (J : Sys W Memory → Prop) `{!Kept J} key name complete reason message :
  keeps J (Answer key name complete reason message).
Proof. unfold Answer. keeps_steps. Qed.

#[export] Hint Extern 2 (keeps _ (MarkForRemediation _ _ _ _ _)) => (apply MarkForRemediation_keeps; apply _) : keeps.
#[export] Hint Extern 2 (keeps _ (Escalate _ _ _)) => (apply Escalate_keeps; apply _) : keeps.
#[export] Hint Extern 2 (keeps _ (Release _ _ _)) => (apply Release_keeps; apply _) : keeps.
#[export] Hint Extern 2 (keeps _ (RecordSkipped _ _ _ _ _)) => (apply RecordSkipped_keeps; apply _) : keeps.
#[export] Hint Extern 2 (keeps _ (report _ _ _ _ _ _)) => (apply report_keeps; apply _) : keeps.
#[export] Hint Extern 2 (keeps _ (Answer _ _ _ _ _)) => (apply Answer_keeps; apply _) : keeps.
#[export] Hint Extern 2 (keeps _ (IsPending _ _)) => (apply IsPending_keeps; apply _) : keeps.
#[export] Hint Extern 2 (keeps _ (answer_request _ _ _ _ _ _)) => (apply answer_request_keeps; [..|intros; apply Answer_keeps]; apply _) : keeps.
#[export] Hint Extern 2 (keeps _ (release_loop _ _ _ _ _ _ _)) => (apply release_loop_keeps; apply _) : keeps.

(** Handling keeps what waiting for the checks keeps, which may depend on the Machine. *)
Section handling_kept.
Context `{KubeLib} `{!KubeLaws} {W : Type} `{API W} (r : ClusterReconciler) (J : Sys W Memory → Prop) `{!KeptOther J}.
Context (cluster : Cluster) (ok : Machine → Prop).
Context (Hok : ∀ dry m reason, ok m → yields (W:=W) (R:=Memory) (Escalate dry m reason) (fun res => ok res.1)).
Context (Hheld : ∀ m, ok m → keeps J (heldForChecks (cluster_key cluster) m)).

Lemma hand_over_keeps sig p cov machine node obs previous :
  ok machine → keeps J (hand_over r cluster sig p cov machine node obs previous).
Proof. intros Hm. pose proof (Hheld machine Hm). unfold hand_over. cbv zeta. keeps_steps. Qed.

Lemma remediate_keeps checks sig outcome machine node obs previous :
  ok machine → keeps J (remediate r cluster checks sig outcome machine node obs previous).
Proof.
  intros Hm. unfold remediate. cbv zeta. case_match; [apply keeps_ret|].
  set (escalate := if (_ && _)%bool then _ else _). intros s Hs. unfold mbind at 1, state_bind at 1.
  assert (Hesc : ok (escalate s).1.1 ∧ J (escalate s).2).
  { unfold escalate. case_match; [|done]. split; [by apply Hok|by apply Escalate_keeps]. }
  destruct (escalate s) as [[m' res] s']. destruct Hesc as [Hm' Hs']. simpl in Hm', Hs'.
  destruct res; [|done]. destruct (Guard m'); [|by apply hand_over_keeps].
  revert s' Hs'. change (keeps J (let obs := set_Skip obs s0 in
    let obs := if negb (InProgress s0) && bool_decide (s0 ≠ SkipPaused)
      then set_Answer obs (decline sig (skip_string s0) (skipped_message sig s0)) else obs in
    (if decide (obs ≠ previous)
     then RecordSkipped (r_DryRun r) m' (Some s0) (p_action (make_plan r cluster outcome (CoverageOf checks machine)))
            (because sig (p_reason (make_plan r cluster outcome (CoverageOf checks machine)))) else mret tt);;
    mret (m', obs))). cbv zeta. keeps_steps.
Qed.

Lemma handle_keeps mode checks sig machine node previous :
  (∀ m, machine = Some m → ok m) → keeps J (handle r cluster mode checks sig machine node previous).
Proof.
  intros Hm. unfold handle. cbv zeta. case_match; [apply keeps_ret|]. destruct machine as [m|]; [|keeps_steps].
  pose proof (λ sig outcome node obs previous, remediate_keeps checks sig outcome m node obs previous (Hm m eq_refl)).
  keeps_steps.
Qed.

Lemma signal_step_keeps key mode checks nodes previous sig ps :
  (∀ m, ps_machines ps !! sig_Node sig = Some m → ok m) →
  (∀ complete reason message, keeps J (Answer key (sig_Request sig) complete reason message)) →
  keeps J (signal_step r key cluster mode checks nodes previous sig ps).
Proof.
  intros Hm Hans. assert (Hh : ∀ ps', ps_machines ps' = ps_machines ps →
    keeps J (handle_signal r key cluster mode checks nodes previous sig ps')).
  { intros ps' E. unfold handle_signal. cbv zeta. rewrite E.
    apply keeps_bind; [by apply handle_keeps|]. intros [machine obs].
    apply keeps_bind; [|intros; apply keeps_ret]. destruct (given _); [by apply answer_request_keeps|apply keeps_ret]. }
  unfold signal_step. case_decide; [by apply Hh|]. apply keeps_bind; [apply IsPending_keeps, _|].
  intros [[]|e]; [by apply Hh|apply keeps_ret..].
Qed.
End handling_kept.

(** The world alone is not touched by waiting. *)
Lemma heldForChecks_world {W} `{KubeLib} `{API W} (J : W → Prop) key m :
  stable J (fun A c => api_other c) → keeps (W:=W) (fun s => J (world s)) (heldForChecks key m).
Proof.
  intros HJ s Hs. unfold heldForChecks, mbind, state_bind, get_memory, put_memory, call, mret, state_ret. simpl.
  destruct (negb _); [done|]. pose proof (HJ _ Now (world s) (others_read _ reads_Now) Hs). destruct (Now (world s)) as [now w].
  by destruct (check_wait _ _) as [[held shown] wait].
Qed.

(** ** The invariant *)

(** A conclusion reached in a mode: a cluster that is only reported on has nothing but
    reports, only requests have a name, and only they are answered. *)
Record obs_fits (mode : Mode) (obs : observation) : Prop := {
  fits_decision : mode = ModeReportOnly → obs_Decision obs = None ∨ obs_Decision obs = Some Report;
  fits_request : mode ≠ ModeExternalRemediationRequest → obs_Request obs = "";
  fits_answer : given (obs_Answer obs) = true → obs_Request obs ≠ ""
}.

Definition all_fit (mode : Mode) (current : gmap string observation) : Prop :=
  ∀ k obs, current !! k = Some obs → obs_fits mode obs.

(** What is remembered is of Clusters with a mode, and is not empty; but the waits of a
    Cluster in a pass may be. *)
Record well_formed_but (r : ClusterReconciler) (passing : ObjectKey → Prop) (m : Memory) : Prop := {
  wf_seen key current : seen m !! key = Some current →
    current ≠ ∅ ∧ ∃ mode, modes m !! key = Some mode ∧ all_fit mode current;
  wf_wouldRelease key names : wouldRelease m !! key = Some names →
    names ≠ ∅ ∧ is_Some (modes m !! key) ∧ r_DryRun r = true;
  wf_waiting key ws : waiting m !! key = Some ws →
    (ws ≠ ∅ ∨ passing key) ∧ is_Some (modes m !! key)
}.

Definition well_formed (r : ClusterReconciler) : Memory → Prop := well_formed_but r (fun _ => False).

Definition in_pass (r : ClusterReconciler) (key : ObjectKey) (mode : Mode) (m : Memory) : Prop :=
  well_formed_but r (fun k => k = key) m ∧ modes m !! key = Some mode.

Section invariant.
Context `{KubeLib} (r : ClusterReconciler).

Lemma wf_empty : well_formed r empty_memory.
Proof. by constructor; intros key x Hx; simpl in Hx; rewrite lookup_empty in Hx. Qed.

Lemma wf_forget key m : well_formed r m → well_formed r (forget_cluster key m).
Proof.
  intros Hwf. constructor; simpl; intros k x [Hne Hx]%lookup_delete_Some; rewrite lookup_delete_ne by done;
    [by eapply wf_seen|by eapply wf_wouldRelease|by apply (wf_waiting _ _ _ Hwf)].
Qed.

Lemma wf_note_mode key mode m :
  well_formed r m → well_formed r (note_mode key mode m) ∧ modes (note_mode key mode m) !! key = Some mode.
Proof.
  intros Hwf. split; [|by apply lookup_insert_eq].
  assert (Hknown : ∀ k, is_Some (modes m !! k) → is_Some (<[key:=mode]> (modes m) !! k)).
  { intros k Hk. destruct (decide (k = key)) as [->|]; [by rewrite lookup_insert_eq|by rewrite lookup_insert_ne]. }
  constructor; simpl.
  - intros k current Hk.
    assert (Hold : seen m !! k = Some current) by (destruct (match modes m !! key with Some _ => _ | _ => _ end);
      [by apply lookup_delete_Some in Hk as [_ Hk]|done]).
    destruct (wf_seen _ _ _ Hwf _ _ Hold) as (Hne & mode' & Hm & Hfit). split; [done|].
    destruct (decide (k = key)) as [->|]; [|rewrite lookup_insert_ne by done; by exists mode'].
    rewrite lookup_insert_eq. exists mode. split; [done|]. rewrite Hm in Hk.
    case_bool_decide as Hc; [by rewrite lookup_delete_eq in Hk|]. by subst.
  - intros k names Hk.
    assert (Hold : wouldRelease m !! k = Some names) by (destruct (match modes m !! key with Some _ => _ | _ => _ end);
      [by apply lookup_delete_Some in Hk as [_ Hk]|done]).
    destruct (wf_wouldRelease _ _ _ Hwf _ _ Hold) as (? & ? & ?). auto.
  - intros k ws Hk. destruct (wf_waiting _ _ _ Hwf _ _ Hk) as ([?|[]] & ?). auto.
Qed.

Lemma wf_remember key mode current m :
  in_pass r key mode m → all_fit mode current → in_pass r key mode (remember_seen key current m).
Proof.
  intros [Hwf Hm] Hfit. split; [|done]. constructor; simpl; [|apply Hwf..].
  intros k x Hx. case_decide as He; [apply lookup_delete_Some in Hx as [_ Hx]; by apply Hwf|].
  apply lookup_insert_Some in Hx as [[<- <-]|[_ Hx]]; [eauto|by apply Hwf].
Qed.

Lemma wf_remember_would_release key mode names m :
  in_pass r key mode m → (names ≠ ∅ → r_DryRun r = true) → in_pass r key mode (remember_would_release key names m).
Proof.
  intros [Hwf Hm] Hdry. split; [|done]. constructor; simpl; [apply Hwf| |apply Hwf].
  intros k x Hx. case_decide as He; [apply lookup_delete_Some in Hx as [_ Hx]; by apply Hwf|].
  apply lookup_insert_Some in Hx as [[<- <-]|[_ Hx]]; [rewrite Hm; eauto|by apply Hwf].
Qed.

(** Whatever is done to the waits of the Cluster of the pass. *)
Lemma wf_waits key mode (w : gmap ObjectKey (gmap string checksWait)) m :
  in_pass r key mode m → (∀ k, k ≠ key → w !! k = waiting m !! k) → in_pass r key mode (set_waiting m w).
Proof.
  intros [Hwf Hm] Hw. split; [|done]. constructor; simpl; [apply Hwf..|].
  intros k ws Hk. destruct (decide (k = key)) as [->|Hne]; [rewrite Hm; eauto|].
  rewrite Hw in Hk by done. by apply Hwf.
Qed.

Lemma wf_forget_waits key machines m :
  well_formed_but r (fun k => k = key) m → well_formed r (forget_waits key machines m).
Proof.
  intros Hwf. unfold forget_waits. set (left := filter _ _). constructor; simpl; [apply Hwf..|].
  intros k ws Hk. destruct (decide (k = key)) as [->|Hne].
  - case_decide as He; [by rewrite lookup_delete_eq in Hk|]. rewrite lookup_insert_eq in Hk. injection Hk as <-.
    split; [by left|]. destruct (waiting m !! key) as [ws|] eqn:Ew; [by apply (wf_waiting _ _ _ Hwf _ _ Ew)|].
    destruct He. unfold left, waits_of. rewrite Ew. apply map_filter_empty.
  - assert (Hold : waiting m !! k = Some ws)
      by (case_decide; [by rewrite lookup_delete_ne in Hk|by rewrite lookup_insert_ne in Hk]).
    destruct (wf_waiting _ _ _ Hwf _ _ Hold) as [[?|?] ?]; [by auto|done].
Qed.

Lemma wf_weaken (p : ObjectKey → Prop) m : well_formed r m → well_formed_but r p m.
Proof.
  intros Hwf. constructor; [apply Hwf..|]. intros key ws Hk.
  destruct (wf_waiting _ _ _ Hwf _ _ Hk) as [[?|[]] ?]. auto.
Qed.
End invariant.

(** ** A pass *)

Lemma modify_triple {W} (I I' : Memory → Prop) f :
  (∀ m, I m → I' (f m)) → triple (W:=W) (fun s => I (memory s)) (modify f) (fun _ s => I' (memory s)).
Proof. intros Hf s Hs. by apply Hf. Qed.

(** The signals a mode reads: only requests have a name. *)
Definition signals_fit (mode : Mode) (signals : list Signal) : Prop :=
  mode ≠ ModeExternalRemediationRequest → Forall (fun sig => sig_Request sig = "") signals.

Lemma condition_signal_request nodes sig : sig ∈ collect_nodes nodes → sig_Request sig = "".
Proof.
  unfold collect_nodes. rewrite elem_of_sort_by, list_elem_of_bind. intros (node & Hs & _).
  unfold condition_signals in Hs. apply list_elem_of_omap in Hs as (cond & _ & Hp).
  case_decide; [|done]. apply fmap_Some in Hp as (sig' & Hp & ->). unfold Condition.Parse in Hp.
  case_match; [|done]. by injection Hp as <-.
Qed.

Lemma source_signals `{KubeLib} {W R : Type} `{API W} mode key :
  yields (W:=W) (R:=R) (src_Collect (source mode key))
    (fun res => match res with Ok signals => signals_fit mode signals | Err _ => True end).
Proof.
  destruct mode; simpl; unfold Condition.Collect, Extrr.Collect; apply yields_bind; intros [items|e];
    apply yields_ret; try done; intros Hm; try done; apply Forall_forall; intros sig; apply condition_signal_request.
Qed.

Section pass.
Context `{KubeLib} `{!KubeLaws} {W : Type} `{API W} (r : ClusterReconciler).
Context (key : ObjectKey) (cluster : Cluster) (Hkey : cluster_key cluster = key) (mode : Mode).

Definition passing (s : Sys W Memory) : Prop := in_pass r key mode (memory s).

#[local] Instance passing_kept : Kept passing := kept_memory _.

Lemma heldForChecks_keeps m : keeps passing (heldForChecks key m).
Proof.
  intros s Hs. unfold heldForChecks, mbind, state_bind, get_memory, put_memory, call, mret, state_ret.
  destruct (negb (EarlierMarkPending m)); simpl.
  - apply wf_waits; [exact Hs|]. intros k Hk. by apply lookup_alter_ne.
  - destruct (Now (world s)) as [now w]. simpl. destruct (check_wait _ _) as [[held shown] wait]. simpl.
    apply wf_waits; [exact Hs|]. intros k Hk. by apply lookup_insert_ne.
Qed.

Lemma handle_passing checks sig machine node previous :
  keeps passing (handle r cluster mode checks sig machine node previous).
Proof.
  apply (handle_keeps r passing cluster (fun _ => True)); [by intros dry m reason _ s|..|done].
  intros m _. rewrite Hkey. apply heldForChecks_keeps.
Qed.

Lemma handle_fits checks sig machine node previous :
  (mode ≠ ModeExternalRemediationRequest → sig_Request sig = "") →
  yields (W:=W) (handle r cluster mode checks sig machine node previous) (fun res => obs_fits mode res.2).
Proof.
  intros Hsig s. pose proof (handle_concludes r cluster mode checks sig machine node previous s) as Hc.
  destruct (requests_are_settled r cluster mode checks sig machine node previous s) as [Ha _].
  unfold answer_sound in Ha. destruct (handle _ _ _ _ _ _ _ _ s) as [[m obs] s']. simpl in *.
  destruct Hc as [->|[Hd Hr]]; constructor.
  - by left.
  - done.
  - done.
  - intros ->. right. by rewrite Hd, decided_report_only.
  - intros Hm. rewrite Hr. auto.
  - intros Hg. rewrite Hg in Ha. rewrite Hr. apply Ha.
Qed.

Context (checks : list MachineHealthCheck) (nodes : gmap string Node) (previous : gmap string observation).
Context (Hprev : all_fit mode previous).

Lemma handle_signal_fits sig ps :
  (mode ≠ ModeExternalRemediationRequest → sig_Request sig = "") → all_fit mode (ps_current ps) →
  triple passing (handle_signal r key cluster mode checks nodes previous sig ps)
    (fun ps' s => passing s ∧ all_fit mode (ps_current ps')).
Proof.
  intros Hsig Hps. unfold handle_signal. cbv zeta. eapply triple_bind.
  { apply triple_yields; [apply triple_keeps, handle_passing|by apply handle_fits]. }
  intros [machine obs]. eapply (triple_bind _ _ _ (fun _ s => passing s ∧ obs_fits mode obs)).
  { intros s [Hs Ho]. split; [|done]. revert s Hs. apply triple_keeps. keeps_steps. }
  intros machine'. apply triple_ret. intros s [Hs Ho]. split; [done|]. intros k x Hk. simpl in Hk.
  apply lookup_insert_Some in Hk as [[_ <-]|[_ Hk]]; [done|by eapply Hps].
Qed.

Lemma signal_step_fits sig ps :
  (mode ≠ ModeExternalRemediationRequest → sig_Request sig = "") → all_fit mode (ps_current ps) →
  triple passing (signal_step r key cluster mode checks nodes previous sig ps)
    (fun ps' s => passing s ∧ all_fit mode (ps_current ps')).
Proof.
  intros Hsig Hps. unfold signal_step. case_decide; [by apply handle_signal_fits|].
  eapply triple_bind; [apply triple_keeps, IsPending_keeps, _|]. intros [[]|e].
  - by apply handle_signal_fits.
  - by apply triple_ret.
  - apply triple_ret. intros s Hs. split; [done|]. simpl. destruct (previous !! Key sig) as [prev|] eqn:E; [|done].
    intros k x [[_ <-]|[_ Hk]]%lookup_insert_Some; [by eapply Hprev|by eapply Hps].
Qed.

Lemma signal_loop_fits signals ps :
  signals_fit mode signals → all_fit mode (ps_current ps) →
  triple passing (signal_loop r key cluster mode checks nodes previous signals ps)
    (fun ps' s => passing s ∧ all_fit mode (ps_current ps')).
Proof.
  revert ps. induction signals as [|sig rest IH]; intros ps Hs Hps; [by apply triple_ret|].
  assert (Hcons : (mode ≠ ModeExternalRemediationRequest → sig_Request sig = "") ∧ signals_fit mode rest).
  { split; intros Hm; [|intros]; specialize (Hs Hm); by inversion Hs. }
  eapply triple_bind; [apply signal_step_fits; [apply Hcons|done]|].
  intros ps'. apply triple_pure. intros Hps'. exact (IH ps' (proj2 Hcons) Hps').
Qed.

Lemma release_loop_would source held leftover names machines would :
  (would ≠ ∅ → r_DryRun r = true) →
  yields (W:=W) (release_loop r source held leftover names machines would) (fun res => res.2 ≠ ∅ → r_DryRun r = true).
Proof.
  revert machines would. induction names as [|n rest IH]; intros machines would Hw; simpl; [by apply yields_ret|].
  destruct (machines !! n); [|by apply IH]. case_match; [by apply IH|].
  apply yields_bind. intros [m' released]. apply IH. destruct released as [[]|], (r_DryRun r); done.
Qed.

Lemma releaseRestarts_keeps source machines current asking :
  keeps passing (releaseRestarts r key source machines nodes current asking).
Proof.
  unfold releaseRestarts. destruct (holds _ _ _ _) as [held leftover].
  assert (Ht : triple passing (release_loop r source held leftover (sorted_keys machines) machines ∅)
    (fun res s => passing s ∧ (res.2 ≠ ∅ → r_DryRun r = true))).
  { apply triple_yields; [apply triple_keeps; keeps_steps|by apply release_loop_would]. }
  intros s Hs. apply (triple_bind _ _ _ _ (fun _ => passing) Ht); [|done].
  intros [ms would] s' [Hs' Hw]. by apply wf_remember_would_release.
Qed.
End pass.

Lemma act_on_signals_wf `{KubeLib} `{!KubeLaws} {W : Type} `{API W} (r : ClusterReconciler) key cluster mode checks
    nodes machines signals :
  cluster_key cluster = key →
  signals_fit mode signals →
  triple (fun s : Sys W Memory => well_formed r (memory s) ∧ modes (memory s) !! key = Some mode)
    (act_on_signals r key cluster mode checks machines nodes signals) (fun _ s => well_formed r (memory s)).
Proof.
  intros Hkey Hsig s [Hwf Hm].
  assert (Hprev : all_fit mode (seen_of key (memory s))).
  { intros k obs. unfold seen_of. destruct (seen (memory s) !! key) as [current|] eqn:E; [|done]. simpl.
    destruct (wf_seen _ _ _ Hwf _ _ E) as (_ & mode' & Hm' & Hfit). rewrite Hm in Hm'. injection Hm' as <-.
    apply Hfit. }
  unfold act_on_signals, observations. unfold mbind at 1 2. unfold state_bind at 1 2.
  unfold get_memory at 1, mret at 1, state_ret at 1.
  enough (Ht : triple (passing r key mode) (ps ← signal_loop r key cluster mode checks nodes (seen_of key (memory s)) signals
      (MkPass machines ∅ ∅ false);
    machines ← (if ps_unreadable ps then mret (ps_machines ps)
              else releaseRestarts r key (src_Name (source (W:=W) (R:=Memory) mode key)) (ps_machines ps) nodes
                     (ps_current ps) (ps_asking ps));
    remember key (ps_current ps);; forgetWaits key machines;;
    next ← nextLook r key; mret (Ok (E:=error) next)) (fun _ s => well_formed r (memory s)))
    by (apply Ht; split; [by apply wf_weaken|done]).
  eapply triple_bind; [by apply signal_loop_fits|]. intros ps.
  eapply (triple_bind _ _ _ (fun _ s => passing r key mode s ∧ all_fit mode (ps_current ps))).
  { intros s' [Hs' Hps]. split; [|done]. revert s' Hs'. apply triple_keeps.
    destruct (ps_unreadable ps); [apply keeps_ret|apply releaseRestarts_keeps]. }
  intros ms. eapply (triple_bind _ _ _ (fun _ => passing r key mode)).
  { intros s' [Hs' Hps]. by apply wf_remember. }
  intros _. eapply (triple_bind _ _ _ (fun _ s => well_formed r (memory s))).
  { intros s' [Hs' _]. by apply wf_forget_waits. }
  intros _. apply triple_keeps. pose proof (kept_memory (W:=W) (well_formed r)). unfold nextLook. keeps_steps.
Qed.

(** ** A reconcile *)

Section reconcile.
Context `{KubeLib} `{!KubeLaws} {W : Type} `{API W} (r : ClusterReconciler).
Context (Hname : ∀ key w cluster, (GetCluster (W:=W) key w).1 = Ok cluster → cluster_key cluster = key).

Definition remembers (s : Sys W Memory) : Prop := well_formed r (memory s).

#[local] Instance remembers_kept : Kept remembers := kept_memory _.

Lemma forget_triple {A} key (a : A) : triple remembers (forget key;; mret a) (fun _ => remembers).
Proof.
  eapply triple_bind; [apply (modify_triple (well_formed r) (well_formed r)), wf_forget|].
  intros ?. by apply triple_ret.
Qed.

Lemma forgetWaits_triple {A} key (a : A) : triple remembers (forgetWaits key ∅;; mret a) (fun _ => remembers).
Proof.
  eapply triple_bind; [apply (modify_triple (well_formed r) (well_formed r))|intros ?; by apply triple_ret].
  intros m Hm. by apply wf_forget_waits, wf_weaken.
Qed.

(** Reading on, with the mode known. *)
Definition moded (key : ObjectKey) (mode : Mode) (s : Sys W Memory) : Prop :=
  remembers s ∧ modes (memory s) !! key = Some mode.

#[local] Instance moded_kept key mode : Kept (moded key mode).
Proof. exact (kept_memory (fun m => well_formed r m ∧ modes m !! key = Some mode)). Qed.

Lemma noteMode_triple cluster mode :
  triple remembers (noteMode r cluster mode) (fun _ => moded (cluster_key cluster) mode).
Proof.
  intros s Hs. unfold noteMode, mbind, state_bind, get_memory, put_memory.
  assert (Hm : moded (cluster_key cluster) mode (MkSys (world s) (trace s) (note_mode (cluster_key cluster) mode (memory s))))
    by by apply wf_note_mode.
  destruct (decide _); [done|]. by destruct (r_DryRun r).
Qed.

Lemma selectMode_keeps J key : Kept J → keeps J (selectMode (W:=W) (R:=Memory) key).
Proof. intros HJ. unfold selectMode, isServed. keeps_steps. Qed.

Lemma source_keeps J mode key : Kept J → keeps J (src_Collect (source (W:=W) (R:=Memory) mode key)).
Proof. intros HJ. destruct mode; simpl; unfold Condition.Collect, Extrr.Collect; keeps_steps. Qed.

Lemma poll_triple key cluster : cluster_key cluster = key → triple remembers (poll r key cluster) (fun _ => remembers).
Proof.
  intros Hkey. unfold poll. eapply triple_bind; [apply triple_keeps, selectMode_keeps, _|].
  intros [mode|e]; [|by apply triple_ret]. eapply triple_bind; [apply noteMode_triple|]. intros ?. rewrite Hkey.
  assert (Hret : ∀ (res : result error Z), triple (moded key mode) (mret res) (fun _ => remembers))
    by (intros res; apply triple_ret; by intros s [Hs _]).
  eapply (triple_bind _ _ _ (fun _ => moded key mode)).
  { apply triple_keeps. unfold watchRequests. keeps_steps. }
  intros _. eapply triple_bind; [apply triple_yields; [apply triple_keeps, source_keeps, _|apply source_signals]|].
  intros [signals|e]; apply triple_pure; [intros Hsig|intros _; apply Hret]. unfold bind_ok.
  eapply (triple_bind _ _ _ (fun _ => moded key mode)); [apply triple_keeps; unfold machinesByNode; keeps_steps|].
  intros [machines|e]; [|apply Hret].
  eapply (triple_bind _ _ _ (fun _ => moded key mode)); [apply triple_keeps; unfold ListHealthChecks; keeps_steps|].
  intros [checks|e]; [|apply Hret].
  eapply (triple_bind _ _ _ (fun _ => moded key mode)); [apply triple_keeps; unfold nodesByName; keeps_steps|].
  intros [nodes|e]; [|apply Hret].
  eapply (triple_bind _ _ _ (fun _ => moded key mode)); [apply triple_keeps; keeps_steps|].
  intros [u|e]; [|apply Hret]. by apply act_on_signals_wf.
Qed.

Lemma Reconcile_triple key : triple remembers (Reconcile r key) (fun _ => remembers).
Proof.
  unfold Reconcile.
  eapply (triple_bind _ _ _ (fun res s => remembers s ∧ ∀ cluster, res = Ok cluster → cluster_key cluster = key)).
  { intros s Hs. split; [by apply kept_call; [constructor|]|]. unfold call.
    pose proof (Hname key (world s)) as Hn. destruct (GetCluster key (world s)) as [res w]. simpl in *. naive_solver. }
  intros [cluster|e]; apply triple_pure; intros Hc.
  - specialize (Hc _ eq_refl). destruct (cl_Deleting cluster); [apply forget_triple|].
    destruct (match r_ClusterSelector r with Some _ => _ | None => _ end); [apply forget_triple|].
    destruct (annotations_IsPaused cluster); [apply forgetWaits_triple|].
    eapply triple_bind; [apply triple_keeps, kept_call; constructor|].
    intros [u|e]; [by apply poll_triple|]. destruct (IsNotConnected e); [apply forgetWaits_triple|by apply triple_ret].
  - destruct (IsNotFound e); [apply forget_triple|by apply triple_ret].
Qed.
End reconcile.

Lemma Reconcile_forgets `{KubeLib} {W : Type} `{API W} (r : ClusterReconciler) key (s : Sys W Memory) :
  (Reconcile r key s).1 = Ok 0%Z → memory (Reconcile r key s).2 = forget_cluster key (memory s).
Proof.
  pose proof (pollInterval_positive r) as Hp.
  destruct s as [w0 t m]. unfold Reconcile, mbind, state_bind, call. cbn [world trace memory].
  destruct (GetCluster key w0) as [[cluster|e] w]; [|by destruct (IsNotFound e); simpl].
  destruct (cl_Deleting cluster); [done|]. destruct (match r_ClusterSelector r with Some _ => _ | None => _ end); [done|].
  destruct (annotations_IsPaused cluster); simpl; [intros [= Hd]; lia|].
  destruct (GetClient key w) as [[u|e] w']; simpl.
  - intros Hd. apply poll_requeued in Hd. lia.
  - destruct (IsNotConnected e); simpl; [intros [= Hd]; lia|done].
Qed.

(** The memories a manager's cluster controller can reach: it starts empty, and runs one
    reconcile after the other, each in a world anything may have happened to. *)
Inductive reachable `{KubeLib} {W : Type} `{API W} (r : ClusterReconciler) : Memory → Prop :=
| reachable_start : reachable r empty_memory
| reachable_reconcile key (s : Sys W Memory) :
    reachable r (memory s) → reachable r (memory (Reconcile r key s).2).

(** C19: what the cluster controller remembers makes sense at any time, whatever it found
    and in whatever order it was woken: it remembers conclusions, waits and releases of
    Clusters whose mode it knows only, never an empty entry; would-be releases in a dry
    run only; where the janitor remediates, nothing but reports is remembered; requests
    are remembered, and answered, only in the mode that reads them. And a Cluster that is
    not coming back leaves nothing behind. *)
Theorem memory_is_well_formed `{KubeLib} {HL : KubeLaws} {W : Type} `{API W} (r : ClusterReconciler)
    (Hname : ∀ key w cluster, (GetCluster (W:=W) key w).1 = Ok cluster → cluster_key cluster = key)
    (m : Memory) (Hm : reachable (W:=W) r m) :
  well_formed r m ∧
  ∀ key (s : Sys W Memory), memory s = m → (Reconcile r key s).1 = Ok 0%Z →
    let m' := memory (Reconcile r key s).2 in
    seen m' !! key = None ∧ wouldRelease m' !! key = None ∧ modes m' !! key = None ∧ waiting m' !! key = None.
Proof.
  split.
  - induction Hm as [|key s _ IH]; [apply wf_empty|]. exact (Reconcile_triple r Hname key s IH).
  - intros key s <- Hd m'. unfold m'. rewrite Reconcile_forgets by done. simpl. by rewrite !lookup_delete_eq.
Qed.

(** ** Witness *)

#[local] Existing Instance lib.
#[local] Existing Instance lib_laws.
#[local] Existing Instance api.

Lemma api_names_clusters key w cluster : (GetCluster (W:=World) key w).1 = Ok cluster → cluster_key cluster = key.
Proof. simpl. destruct (w_cluster w) as [c|]; [|done]. case_decide; [|done]. by intros [= <-]. Qed.

Definition after_one_poll : Sys World Memory := (Reconcile (a_reconciler true) a_key (start a_world)).2.

Definition cluster_gone : World := MkWorld None [] [] false [] [] [] 0 ∅ [] [] [].

Lemma memory_is_well_formed_witness :
  well_formed (a_reconciler true) (memory after_one_poll) ∧
  seen (memory (Reconcile (a_reconciler true) a_key (MkSys cluster_gone [] (memory after_one_poll))).2) !! a_key = None.
Proof.
  destruct (memory_is_well_formed (HL:=lib_laws) (a_reconciler true) api_names_clusters (memory after_one_poll))
    as [Hwf Hgone].
  - apply (reachable_reconcile (a_reconciler true) a_key (start a_world)). apply reachable_start.
  - split; [exact Hwf|]. generalize (memory after_one_poll) Hgone. intros m H. apply (H a_key (MkSys cluster_gone [] m)); reflexivity.
Defined.
