(* ===== verification/Progress.v ===== *)
(** * Faults are acted on

    The other half of what [handling_is_safe] and its like limit: a Machine whose signal
    calls for something the checks carry out is handed over, at once and with what the
    next poll needs to recognise the result; and a restart that is over is answered and
    its mark released. *)

From S2P Require Import Prelude GoStrings Signal Decision Kube KubeModel WorldModel Calls Condition Extrr Capi Mode ClusterController ClusterFacts ReconcileFacts Memory.
Open Scope stdpp_scope.

(** The action the Machine is handed over for: what the decision asks for, or a
    replacement where the restart cannot be carried out and falls back to one. *)
Definition call_for `{KubeLib} (d : decision) (fallback : RestartFallback) (cov : Coverage) : option string :=
  match d with
  | Report => None
  | Replace => if Covered cov then Some ActionRemediate else None
  | Restart =>
      if TemplatesOnly cov then Some ActionRestart
      else if bool_decide (fallback = RestartFallbackReplace) && Covered cov then Some ActionRemediate
      else None
  end.

Section handed_over.
Context `{KubeLib} {W : Type} `{API W} (r : ClusterReconciler).

Lemma call_for_plan cluster outcome cov action :
  call_for (out_Decision outcome) (restartFallback r cluster).1 cov = Some action →
  let p := make_plan r cluster outcome cov in
  p_action p = action ∧ p_restart p = bool_decide (action = ActionRestart) ∧
  p_restart p && p_restartUnavailable p = false ∧ negb (p_restart p) && negb (Covered cov) = false.
Proof.
  unfold call_for, make_plan. destruct (out_Decision outcome); [done|..]; simpl.
  - destruct (TemplatesOnly cov); simpl; [by intros [= <-]|].
    destruct (restartFallback r cluster) as [f note]. simpl.
    destruct (bool_decide _ && Covered cov) eqn:E; [|done]. apply andb_true_iff in E as [_ ->]. by intros [= <-].
  - destruct (Covered cov); [|done]. by intros [= <-].
Qed.

(** What the mark records of a restart, so that it can be told that it is over. *)
Definition record_of (action : string) (node : option Node) (request : string) : RestartRecord :=
  if decide (action = ActionRestart)
  then MkRecord (match node with Some n => n_BootID n | None => "" end) request
  else MkRecord "" "".

Definition marks (m : Machine) (action : string) (node : option Node) (request : string) (l : list Effect) : Prop :=
  ∃ reason rest,
    l = PatchMachine m (set_annotations m (mark_annotations (m_Annotations m) action reason
                                             (record_of action node request))) false :: rest ∧
    Forall is_event rest.

Lemma MarkForRemediation_runs m action reason record :
  Guard m = None →
  runs (W:=W) (R:=Memory) (MarkForRemediation false m action reason record) (fun _ l => ∃ rest,
    l = PatchMachine m (set_annotations m (mark_annotations (m_Annotations m) action reason record)) false :: rest ∧
    Forall is_event rest).
Proof.
  intros Hg. unfold MarkForRemediation. rewrite Hg. unfold patch_machine. intros s.
  unfold mbind, state_bind, emit, call. simpl.
  destruct (SendPatchMachine _ _ _ (world s)) as [[m'|e] w]; simpl.
  - eexists. rewrite <- (assoc_L (++)). split; [done|]. eexists. split; [done|by repeat constructor].
  - eexists. split; [done|]. eexists. split; [done|constructor].
Qed.

(** As long as [K], the restart of the Machine is let through, or held for its checks with
    [Kh] known of the wait. *)
Definition held_or_through (K Kh : Sys W Memory → Prop) (key : ObjectKey) (m : Machine) : Prop :=
  doing K (heldForChecks key m) (fun res l s => l = [] ∧ (res.1 = true → Kh s)).

Lemma pending_free K Kh key m : EarlierMarkPending m = false → held_or_through K Kh key m.
Proof.
  intros Hm s _. exists []. rewrite app_nil_r. unfold heldForChecks, mbind, state_bind, get_memory, put_memory. simpl.
  by rewrite Hm.
Qed.

Context (K Kh : Sys W Memory → Prop).

(** The Machine is marked, or left as it was to wait. *)
Definition marks_or_waits (m : Machine) (action : string) (node : option Node) (request : string) (obs : observation)
    (res : Machine * observation) (l : list Effect) (s : Sys W Memory) : Prop :=
  marks m action node request l ∨ l = [] ∧ res.1 = m ∧ obs_Answer res.2 = obs_Answer obs ∧ Kh s.

Lemma hand_over_marks cluster sig p cov m node obs previous action :
  r_DryRun r = false → Guard m = None → (action = ActionRestart → held_or_through K Kh (cluster_key cluster) m) →
  p_action p = action → p_restart p = bool_decide (action = ActionRestart) →
  p_restart p && p_restartUnavailable p = false → negb (p_restart p) && negb (Covered cov) = false →
  doing K (hand_over r cluster sig p cov m node obs previous) (marks_or_waits m action node (sig_Request sig) obs).
Proof.
  intros Hd Hg He Ha Hr H1 H2. unfold hand_over. cbv zeta. rewrite H1, H2, Hd.
  assert (Hfree : doing K (if p_restart p then heldForChecks (cluster_key cluster) m else mret (false, 0%Z))
    (fun res l s => l = [] ∧ (res.1 = true → Kh s))).
  { rewrite Hr. case_bool_decide as Ea; [by apply He|by apply doing_ret]. }
  eapply doing_bind; [exact Hfree|]. intros [[] d] l; apply doing_pure; intros ->; cbn [fst].
  { apply doing_ret. intros s Hs. right. split_and!; [done|done|done|by apply Hs]. }
  assert (Hrec : (if p_restart p then MkRecord (match node with Some n => n_BootID n | None => "" end) (sig_Request sig)
    else MkRecord "" "") = record_of action node (sig_Request sig)).
  { rewrite Hr. unfold record_of. case_bool_decide; [by rewrite decide_True|by rewrite decide_False]. }
  rewrite Hrec, Ha. eapply (doing_weaken (fun _ => True) _ _ (fun _ l _ => marks m action node (sig_Request sig) l));
    [apply (runs_doing _ _ (fun _ l => marks m action node (sig_Request sig) l))|done|intros ? ? ? ?; by left].
  eapply runs_bind; [by apply MarkForRemediation_runs|].
  intros [m' res] l (rest & -> & Hrest). destruct res; apply runs_ret; rewrite app_nil_r; by do 2 eexists.
Qed.

Lemma unmarked_not_restarted m : Guard m = None → MarkedAction m = None.
Proof.
  unfold Guard, MarkedAction. destruct (m_Deleting m); [done|]. by destruct (IsMarkedForRemediation m).
Qed.

Lemma unmarked_not_completed m node : Guard m = None → RestartCompleted m node = false.
Proof.
  intros Hg%unmarked_not_restarted. destruct (RestartCompleted m node) eqn:E; [|done].
  apply restart_completed_marked in E. congruence.
Qed.

(** Of a Machine that is not marked for a restart, [Escalate] is a no-op. *)
Lemma Escalate_unmarked dry m reason :
  Guard m = None → Escalate dry m reason = mret (M:=state (Sys W Memory)) (m, Ok false).
Proof.
  intros Hg. unfold Escalate. by rewrite bool_decide_eq_false_2 by by rewrite (unmarked_not_restarted m Hg).
Qed.

Lemma remediate_marks cluster checks sig outcome m node obs previous action :
  r_DryRun r = false → Guard m = None → (action = ActionRestart → held_or_through K Kh (cluster_key cluster) m) →
  call_for (out_Decision outcome) (restartFallback r cluster).1 (CoverageOf checks m) = Some action →
  doing K (remediate r cluster checks sig outcome m node obs previous)
    (marks_or_waits m action node (sig_Request sig) obs).
Proof.
  intros Hd Hg He Hc. destruct (call_for_plan _ _ _ _ Hc) as (Ha & Hr & H1 & H2).
  unfold remediate. rewrite (unmarked_not_completed m node Hg), !andb_false_r. cbn [andb]. cbv zeta.
  rewrite (Escalate_unmarked _ _ _ Hg). eapply (doing_bind _ _ _ (fun a l s => a = (m, Ok false) ∧ l = [] ∧ K s)).
  { case_match; by apply doing_ret. }
  intros a l s (-> & -> & Hs). rewrite Hg. by eapply (hand_over_marks cluster).
Qed.

Definition escalates (m : Machine) (l : list Effect) : Prop :=
  ∃ reason rest, l = PatchMachine m (set_annotations m (escalate_annotations (m_Annotations m) reason)) true :: rest.

Lemma Escalate_runs m reason :
  MarkedAction m = Some ActionRestart → m_Deleting m = false →
  runs (W:=W) (R:=Memory) (Escalate false m reason) (fun _ l => escalates m l).
Proof.
  intros Hm Hd. unfold Escalate. rewrite Hm, Hd, bool_decide_eq_true_2 by done. simpl. unfold patch_machine. intros s.
  unfold mbind, state_bind, emit, call. simpl.
  destruct (SendPatchMachine _ _ _ (world s)) as [[m'|e] w]; simpl;
    eexists; rewrite <- ?(assoc_L (++)); (split; [done|]); do 2 eexists; done.
Qed.

(** A replacement is called for: outright, or in place of a restart that a condition asks for,
    and then not of a Machine that is held. *)
Definition replacement_called_for (cluster : Cluster) (sig : Signal) (d : decision) (cov : Coverage) (m : Machine) : Prop :=
  d = Replace ∨ sig_Request sig = "" ∧ IsPaused m || IsOptedOut m = false ∧
    call_for d (restartFallback r cluster).1 cov = Some ActionRemediate.

Lemma remediate_escalates cluster checks sig outcome m node obs previous :
  r_DryRun r = false → MarkedAction m = Some ActionRestart → m_Deleting m = false →
  replacement_called_for cluster sig (out_Decision outcome) (CoverageOf checks m) m →
  runs (W:=W) (remediate r cluster checks sig outcome m node obs previous) (fun _ l => escalates m l).
Proof.
  intros Hd Hm Hdel Ho. unfold remediate.
  assert (Hover : bool_decide (out_Decision outcome = Restart) && bool_decide (sig_Request sig ≠ "")
    && RestartCompleted m node && RestartAnswers m (sig_Request sig) = false).
  { destruct Ho as [->|(-> & _)]; [done|]. by rewrite andb_false_r. }
  assert (Hr : p_restart (make_plan r cluster outcome (CoverageOf checks m)) = false).
  { destruct Ho as [Ho|(_ & _ & Hc)]; [unfold make_plan; by rewrite Ho|]. by apply call_for_plan in Hc as (_ & -> & _). }
  assert (Hfree : bool_decide (out_Decision outcome = Replace) || negb (IsPaused m || IsOptedOut m) = true).
  { destruct Ho as [->|(_ & -> & _)]; [done|apply orb_true_r]. }
  rewrite Hover. cbv zeta. rewrite Hr, Hd, Hfree. cbn [negb andb].
  eapply runs_bind; [by apply Escalate_runs|]. intros [m' res] l (reason & rest & ->).
  assert (Hquiet : spec (W:=W) (R:=Memory) (fun _ => True) (match res with
      | Ok _ => match Guard m' with
        | Some skip =>
            let obs := set_Skip obs skip in
            let obs := if negb (InProgress skip) && bool_decide (skip ≠ SkipPaused)
                       then set_Answer obs (decline sig (skip_string skip) (skipped_message sig skip)) else obs in
            (if decide (obs ≠ previous)
             then RecordSkipped false m' (Some skip) (p_action (make_plan r cluster outcome (CoverageOf checks m)))
                    (because sig (p_reason (make_plan r cluster outcome (CoverageOf checks m))))
             else mret tt);; mret (m', obs)
        | None => hand_over r cluster sig (make_plan r cluster outcome (CoverageOf checks m)) (CoverageOf checks m) m' node obs previous
        end
      | Err _ => mret (m', no_observation)
      end) (fun _ => True)).
  { destruct res as [b|e]; [|by apply spec_ret]. destruct (Guard m'); [|by apply hand_over_spec].
    cbv zeta. eapply (spec_bind _ _ _ (fun _ => True)); [|intros; by apply spec_ret].
    destruct (decide _) in |- *; [by apply RecordSkipped_spec|by apply spec_ret]. }
  eapply runs_weaken; [apply spec_runs, Hquiet|]. intros a l _. by exists reason, (rest ++ l).
Qed.
End handed_over.

(** ** From the poll to the patch *)

(** The nodes listed, by name, as [nodesByName] gives them. *)
Definition nodes_named (nodes : list Node) : gmap string Node := foldl (fun out n => <[n_Name n := n]> out) ∅ nodes.

Section reconcile.
Context `{KubeLib} `{!KubeLaws} {W : Type} `{API W} (r : ClusterReconciler).
Context (key : ObjectKey) (cluster : Cluster) (mode : Mode) (nodes : list Node) (requests : list Unstructured)
  (machines : list Machine) (checks : list MachineHealthCheck) (J : W → Prop).

(** The signals of a workload cluster that is read in the mode. *)
Definition signals_in : list Signal :=
  match mode with ModeExternalRemediationRequest => collect_requests requests | _ => collect_nodes nodes end.

(** A workload cluster in the mode, and what is read of it and of its Machines, as long as
    [J], which no read ends. *)
Record steady : Prop := {
  steady_reads : stable J (fun A c => api_read c);
  steady_cluster w : J w → (GetCluster key w).1 = Ok cluster;
  steady_client w : J w → is_ok (GetClient key w).1 = true;
  steady_served w : J w → (WorkloadMapping key request_gvk w).1
    = if decide (mode = ModeExternalRemediationRequest) then Mapped else NoMatch;
  steady_janitor w : J w → (WorkloadMapping key janitorGroupVersionKind w).1
    = if decide (mode = ModeReportOnly) then Mapped else NoMatch;
  steady_requests w : J w → mode = ModeExternalRemediationRequest → (ListRequests key w).1 = Ok requests;
  steady_live w : J w → mode = ModeExternalRemediationRequest → is_ok (GetUncachedClient key w).1 = true;
  steady_nodes w : J w → (ListNodes key w).1 = Ok nodes;
  steady_machines w : J w →
    (ListMachines (cl_Namespace cluster) {[ClusterNameLabel := cl_Name cluster]} w).1 = Ok machines;
  steady_checks w : J w → (ListMachineHealthChecks (cl_Namespace cluster) w).1 = Ok checks
}.

(** The Cluster is one to act on. *)
Definition acted_on : Prop :=
  cl_Deleting cluster = false ∧ annotations_IsPaused cluster = false ∧
  ∀ matches, r_ClusterSelector r = Some matches → matches (cl_Labels cluster) = true.

Definition cluster_checks : list MachineHealthCheck := filter (fun c => mhc_ClusterName c = cl_Name cluster) checks.

(** What a pass looks at, which is nothing when there are no signals. *)
Definition pass_checks : list MachineHealthCheck := match signals_in with [] => [] | _ => cluster_checks end.
Definition pass_nodes : gmap string Node := match signals_in with [] => ∅ | _ => nodes_named nodes end.

Context (Hst : steady) (Hact : acted_on).

Definition holding (m : Memory) (s : Sys W Memory) : Prop := J (world s) ∧ memory s = m.

Lemma holding_read {A} m (c : state W A) : api_read c → keeps (holding m) (call c).
Proof.
  intros Hc s [HJ Hm]. unfold call, holding. pose proof (steady_reads Hst A c _ Hc HJ). by destruct (c (world s)).
Qed.

(** A call whose answer is known as long as [J]. *)
Lemma reads_steady {A} m (c : state W A) (a : A) :
  api_read c → (∀ w, J w → (c w).1 = a) → reads (holding m) (call c) (fun x => x = a).
Proof. intros Hc Ha. apply reads_call; [by apply holding_read|]. intros s [HJ _]. by apply Ha. Qed.

Lemma reads_well {A} m (c : state W (result error A)) :
  api_read c → (∀ w, J w → is_ok (c w).1 = true) → reads (holding m) (call c) (fun x => is_ok x = true).
Proof. intros Hc Ha. apply reads_call; [by apply holding_read|]. intros s [HJ _]. by apply Ha. Qed.

Lemma selectMode_steady m : reads (holding m) (selectMode key) (fun res => res = Ok mode).
Proof.
  assert (Hserved : ∀ gvk a, (∀ w, J w → (WorkloadMapping key gvk w).1 = if decide (mode = a) then Mapped else NoMatch) →
    reads (holding m) (isServed key gvk) (fun res => res = Ok (bool_decide (mode = a)))).
  { intros gvk a Ha. unfold isServed. eapply reads_bind; [apply (reads_steady _ _ (if decide (mode = a) then Mapped else NoMatch) (reads_WorkloadMapping _ _)), Ha|].
    intros x ->. apply reads_ret. case_decide; by case_bool_decide. }
  unfold selectMode, bind_ok. eapply reads_bind; [apply Hserved, (steady_served Hst)|].
  intros res ->. case_bool_decide as Hext; [by apply reads_ret; rewrite Hext|].
  eapply reads_bind; [apply Hserved, (steady_janitor Hst)|]. intros res ->. apply reads_ret. by destruct mode.
Qed.

Lemma Collect_steady m : reads (holding m) (src_Collect (source mode key)) (fun res => res = Ok signals_in).
Proof.
  assert (Hn : reads (holding m) (Condition.Collect key) (fun res => res = Ok (collect_nodes nodes))).
  { eapply reads_bind; [apply (reads_steady _ _ (Ok nodes) (reads_ListNodes _)), (steady_nodes Hst)|].
    intros a ->. by apply reads_ret. }
  unfold signals_in. destruct mode eqn:E; [|exact Hn..].
  eapply reads_bind; [apply (reads_steady _ _ (Ok requests) (reads_ListRequests _)); intros w HJ; by apply (steady_requests Hst)|].
  intros a ->. by apply reads_ret.
Qed.

Lemma machinesByNode_steady m : reads (holding m) (machinesByNode cluster) (fun res => res = Ok (index_machines machines)).
Proof.
  eapply reads_bind; [apply (reads_steady _ _ (Ok machines) (reads_ListMachines _ _)), (steady_machines Hst)|].
  intros a ->. by apply reads_ret.
Qed.

Lemma checks_steady m :
  reads (holding m) (match signals_in with [] => mret (Ok []) | _ => ListHealthChecks cluster end)
    (fun res => res = Ok pass_checks).
Proof.
  unfold pass_checks. destruct signals_in; [by apply reads_ret|].
  eapply reads_bind; [apply (reads_steady _ _ (Ok checks) (reads_ListMachineHealthChecks _)), (steady_checks Hst)|].
  intros a ->. by apply reads_ret.
Qed.

Lemma nodes_steady m :
  reads (holding m) (match signals_in with [] => mret (Ok ∅) | _ => nodesByName key end) (fun res => res = Ok pass_nodes).
Proof.
  unfold pass_nodes. destruct signals_in; [by apply reads_ret|].
  eapply reads_bind; [apply (reads_steady _ _ (Ok nodes) (reads_ListNodes _)), (steady_nodes Hst)|].
  intros a ->. by apply reads_ret.
Qed.

Lemma live_steady m :
  reads (holding m) (if decide (mode = ModeExternalRemediationRequest ∧ signals_in ≠ [])
      then call (GetUncachedClient key) else mret (Ok tt)) (fun res => is_ok res = true).
Proof.
  destruct (decide _) as [[Hext _]|] in |- *; [|by apply reads_ret].
  apply reads_well; [constructor|]. intros w HJ. by apply (steady_live Hst).
Qed.

Lemma watch_steady m :
  reads (holding m) (if decide (mode = ModeExternalRemediationRequest) then watchRequests r key else mret (Ok tt))
    (fun _ => True).
Proof.
  destruct (decide _) in |- *; [|by apply reads_ret]. unfold watchRequests.
  destruct (negb _); [by apply reads_ret|]. apply reads_call; [apply holding_read; constructor|done].
Qed.

(** The mode is remembered, and said only when it is new. *)
Lemma noteMode_runs (s : Sys W Memory) :
  let s' := (noteMode r cluster mode s).2 in
  ∃ l, trace s' = trace s ++ l ∧ Forall is_event l ∧ world s' = world s ∧
    memory s' = note_mode (cluster_key cluster) mode (memory s) ∧
    (modes (memory s) !! cluster_key cluster = Some mode → l = []).
Proof.
  cbv zeta. unfold noteMode, mbind, state_bind, get_memory, put_memory. simpl.
  destruct (decide _) as [|Hm]; [exists []; by rewrite app_nil_r|].
  destruct (r_DryRun r); [exists []; by rewrite app_nil_r|]. eexists. split; [done|].
  split; [by repeat constructor|]. by split_and!.
Qed.

(** Up to the signals, a reconcile reads. *)
Lemma Reconcile_reads s :
  J (world s) → ∃ s' l,
    Reconcile r key s = act_on_signals r key cluster mode pass_checks (index_machines machines) pass_nodes signals_in s' ∧
    trace s' = trace s ++ l ∧ Forall is_event l ∧ J (world s') ∧
    memory s' = note_mode (cluster_key cluster) mode (memory s) ∧
    (modes (memory s) !! cluster_key cluster = Some mode → l = []).
Proof.
  intros HJ. destruct Hact as (Hdel & Hpaused & Hsel). set (m0 := memory s).
  assert (Hs : match r_ClusterSelector r with Some matches => negb (matches (cl_Labels cluster)) | None => false end = false)
    by (destruct (r_ClusterSelector r); [by rewrite Hsel|done]).
  unfold Reconcile.
  read (reads_steady m0 _ (Ok cluster) (reads_GetCluster key) (steady_cluster Hst)) as (? & s1 & -> & K1 & T1 & ->).
  rewrite Hdel, Hpaused, Hs.
  read (reads_well m0 _ (reads_GetClient key) (steady_client Hst)) as (client & s2 & Hok & K2 & T2 & ->).
  destruct client; [|done].
  unfold poll.
  read (selectMode_steady m0) as (? & s3 & -> & K3 & T3 & ->).
  unfold mbind at 1, state_bind at 1.
  destruct (noteMode_runs s3) as (l & T4 & He & W4 & M4 & Hl). destruct (noteMode r cluster mode s3) as [[] s4].
  simpl in T4, W4, M4. destruct K3 as [HJ3 HM3]. rewrite HM3 in M4, Hl.
  assert (K4 : holding (note_mode (cluster_key cluster) mode m0) s4) by (split; [by rewrite W4|done]).
  read (watch_steady _) as (? & s5 & _ & K5 & T5 & ->).
  read (Collect_steady _) as (? & s6 & -> & K6 & T6 & ->). unfold bind_ok.
  read (machinesByNode_steady _) as (? & s7 & -> & K7 & T7 & ->).
  read (checks_steady _) as (? & s8 & -> & K8 & T8 & ->).
  read (nodes_steady _) as (? & s9 & -> & K9 & T9 & ->).
  read (live_steady _) as (live & s10 & Hlive & [HJ10 HM10] & T10 & ->). destruct live; [|done].
  exists s10, l. split_and!; [done| |done|done|done|done]. congruence.
Qed.
End reconcile.

Section handled.
Context `{KubeLib} `{!KubeLaws} {W : Type} `{API W} (r : ClusterReconciler) (key : ObjectKey) (cluster : Cluster) (mode : Mode).
Context (checks : list MachineHealthCheck) (nodes : gmap string Node) (sig : Signal) (m : Machine).
Context (K : Sys W Memory → Prop).
Context (Hdry : r_DryRun r = false) (Hmode : mode ≠ ModeReportOnly).
Context (Hnode : sig_Request sig = "" ∨ is_Some (nodes !! sig_Node sig)).

Local Abbreviation anything := (fun _ => True).

Lemma answer_request_any machine sig' a :
  spec (W:=W) anything (answer_request r key cluster machine sig' a) anything.
Proof.
  clear Hdry. unfold answer_request. destruct (r_DryRun r); [by apply spec_ret|].
  eapply spec_bind; [eapply spec_weaken; [apply answer_spec|done|done]|]. intros [[]|e] _; [|by apply spec_ret..].
  eapply spec_bind; [by apply spec_emit|]. intros _ _. destruct machine as [m'|]; [|by apply spec_ret].
  destruct (an_Complete a); [|by apply spec_ret].
  eapply spec_bind; [by apply releaseAnswered_spec|intros; by apply spec_ret].
Qed.

Lemma handle_signal_sends (P : Effect → Prop) :
  out_Decision (Decide (r_Table r) sig) ≠ Report →
  (∀ obs previous,
    sends K P (remediate r cluster checks sig (Decide (r_Table r) sig) m (nodes !! sig_Node sig) obs previous)) →
  ∀ previous ps, ps_machines ps !! sig_Node sig = Some m →
    sends K P (handle_signal r key cluster mode checks nodes previous sig ps).
Proof.
  intros Hd Hrem previous ps Hm. unfold handle_signal. cbv zeta. rewrite Hm. apply sends_first.
  - assert (Hout : decided r mode sig = Decide (r_Table r) sig).
    { unfold decided, reportOnly. rewrite (bool_decide_eq_false_2 (mode = _)) by done. by rewrite decide_True. }
    assert (Hseen : bool_decide (nodes !! sig_Node sig = None) && bool_decide (sig_Request sig ≠ "") = false).
    { destruct Hnode as [->|[n ->]]; [by rewrite andb_false_r|done]. }
    unfold handle. cbv zeta. rewrite Hseen, Hout.
    destruct (out_Decision _) eqn:E; [done|..]; (apply sends_first; [apply Hrem|intros; by apply spec_ret]).
  - intros [machine obs]. eapply (spec_bind _ _ _ anything); [|intros; by apply spec_ret].
    destruct (given _); [apply answer_request_any|by apply spec_ret].
Qed.

(** The patches that hand the Machine over, and that turn its mark into a replacement. *)
Definition marks_for (action : string) (e : Effect) : Prop := ∃ reason,
  e = PatchMachine m (set_annotations m (mark_annotations (m_Annotations m) action reason
        (record_of action (nodes !! sig_Node sig) (sig_Request sig)))) false.

Definition escalated (e : Effect) : Prop := ∃ reason,
  e = PatchMachine m (set_annotations m (escalate_annotations (m_Annotations m) reason)) true.

Lemma signal_marks_or_waits (Kh : Sys W Memory → Prop) action :
  Guard m = None → (action = ActionRestart → held_or_through K Kh (cluster_key cluster) m) →
  call_for (out_Decision (Decide (r_Table r) sig)) (restartFallback r cluster).1 (CoverageOf checks m) = Some action →
  ∀ previous ps, ps_machines ps !! sig_Node sig = Some m →
    doing K (handle_signal r key cluster mode checks nodes previous sig ps)
      (fun ps' l s => Exists (marks_for action) l ∨ l = [] ∧ ps_machines ps' = ps_machines ps ∧ Kh s).
Proof.
  intros Hg He Hc previous ps Hm. unfold handle_signal. cbv zeta. rewrite Hm.
  eapply (doing_bind _ _ _ (fun res l s => Exists (marks_for action) l ∨
    l = [] ∧ res.1 = Some m ∧ obs_Answer res.2 = no_answer ∧ Kh s)).
  - assert (Hout : decided r mode sig = Decide (r_Table r) sig).
    { unfold decided, reportOnly. rewrite (bool_decide_eq_false_2 (mode = _)) by done. by rewrite decide_True. }
    assert (Hseen : bool_decide (nodes !! sig_Node sig = None) && bool_decide (sig_Request sig ≠ "") = false).
    { destruct Hnode as [->|[n ->]]; [by rewrite andb_false_r|done]. }
    unfold handle. cbv zeta. rewrite Hseen, Hout. destruct (out_Decision _) eqn:E in |- *; [by rewrite E in Hc|..];
      (eapply doing_bind; [by eapply remediate_marks|]; intros [m' obs] l; apply doing_ret; rewrite app_nil_r;
       intros s [(reason & rest & -> & _)|(-> & Hm' & Ha & Hs)]; [left; left; by exists reason|right; simpl in *; subst; by split_and!]).
  - intros [machine obs] l. apply doing_cases.
    + intros Hl. apply doing_any; [|intros; left; apply Exists_app; by left].
      eapply (spec_bind _ _ _ anything); [|intros; by apply spec_ret].
      destruct (given _); [apply answer_request_any|by apply spec_ret].
    + apply doing_pure. intros ->. apply doing_pure. intros Hmach. apply doing_pure. intros Ha. simpl in Hmach, Ha.
      subst machine. rewrite Ha.
      intros s Hs. exists []. rewrite app_nil_r. split; [done|]. right. simpl. by rewrite insert_id.
Qed.

Lemma signal_marks_machine action :
  Guard m = None → (action = ActionRestart → held_or_through K (fun _ => False) (cluster_key cluster) m) →
  call_for (out_Decision (Decide (r_Table r) sig)) (restartFallback r cluster).1 (CoverageOf checks m) = Some action →
  ∀ previous ps, ps_machines ps !! sig_Node sig = Some m →
    sends K (marks_for action) (handle_signal r key cluster mode checks nodes previous sig ps).
Proof.
  intros Hg He Hc previous ps Hm. eapply doing_weaken; [by eapply (signal_marks_or_waits (fun _ => False))|done|].
  intros ps' l s [Hl|(_ & _ & [])]. exact Hl.
Qed.

Lemma signal_escalates_machine :
  MarkedAction m = Some ActionRestart → m_Deleting m = false →
  replacement_called_for r cluster sig (out_Decision (Decide (r_Table r) sig)) (CoverageOf checks m) m →
  ∀ previous ps, ps_machines ps !! sig_Node sig = Some m →
    sends K escalated (handle_signal r key cluster mode checks nodes previous sig ps).
Proof.
  intros Hm Hdel Hd. apply handle_signal_sends.
  { intros E. rewrite E in Hd. by destruct Hd as [?|(_ & _ & ?)]. }
  intros obs previous.
  apply runs_doing. eapply runs_weaken; [by eapply remediate_escalates|].
  intros a l (reason & rest & ->). left. by exists reason.
Qed.
End handled.

(** ** From the signal to the reconcile *)

Section pass.
Context `{KubeLib} `{!KubeLaws} {W : Type} `{API W} (r : ClusterReconciler) (key : ObjectKey) (cluster : Cluster) (mode : Mode).
Context (checks : list MachineHealthCheck) (nodes : gmap string Node) (sig : Signal) (pre post : list Signal).

(** What lasts of the system, and of the Machines of the pass, until the signal's turn: the
    signals before it leave it, or have sent the effect themselves. *)
Context (K : Sys W Memory → Prop) (inv : gmap string Machine → Prop) (P : Effect → Prop).
Context (Hother : ∀ previous sig' ps, sig' ∈ pre → inv (ps_machines ps) →
  sends_or K P (signal_step r key cluster mode checks nodes previous sig' ps) (fun ps' => inv (ps_machines ps'))).
Context (Hmine : ∀ previous ps, inv (ps_machines ps) →
  sends K P (signal_step r key cluster mode checks nodes previous sig ps)).

Lemma signal_loop_sends previous l ps :
  (∀ sig', sig' ∈ l → sig' ∈ pre) → inv (ps_machines ps) →
  sends K P (signal_loop r key cluster mode checks nodes previous (l ++ sig :: post) ps).
Proof.
  revert ps. induction l as [|sig' rest IH]; intros ps Hall Hps; cbn [app signal_loop].
  - apply sends_first; [by apply Hmine|intros; by apply signal_loop_spec].
  - eapply doing_bind; [apply Hother; [apply Hall; by left|exact Hps]|]. intros ps' l'. apply doing_cases.
    + intros Hl. apply doing_any; [by apply signal_loop_spec|]. intros a l2 s. apply Exists_app. by left.
    + apply doing_pure. intros Hps'. eapply doing_weaken; [apply (IH ps'); [set_solver|exact Hps']|done|].
      intros a l2 s Hl2. apply Exists_app. by right.
Qed.

Lemma act_on_signals_sends machines :
  inv machines → sends K P (act_on_signals r key cluster mode checks machines nodes (pre ++ sig :: post)).
Proof.
  intros Hm. unfold act_on_signals, observations. intros s Hs. unfold mbind at 1 2, state_bind at 1 2.
  unfold get_memory at 1, mret at 1, state_ret at 1. revert s Hs. intros s Hs.
  assert (Hrest : ∀ previous, sends K P (ps ← signal_loop r key cluster mode checks nodes previous (pre ++ sig :: post) (MkPass machines ∅ ∅ false);
    machines ← (if ps_unreadable ps then mret (ps_machines ps)
              else releaseRestarts r key (src_Name (source (W:=W) (R:=Memory) mode key)) (ps_machines ps) nodes
                     (ps_current ps) (ps_asking ps));
    remember key (ps_current ps);; forgetWaits key machines;;
    next ← nextLook r key; mret (Ok (E:=error) next))); [|by apply Hrest].
  intros previous. apply sends_first; [by apply signal_loop_sends|]. intros ps.
  eapply (spec_bind _ _ _ (fun _ => True)).
  { destruct (ps_unreadable ps); [by apply spec_ret|by apply releaseRestarts_spec]. }
  intros machines' _. eapply spec_bind; [apply modify_spec|]. intros _ _.
  eapply spec_bind; [apply modify_spec|]. intros _ _.
  eapply spec_bind; [apply nextLook_spec|]. intros next _. by apply spec_ret.
Qed.
End pass.

Lemma Reconcile_trace `{KubeLib} `{!KubeLaws} {W : Type} `{API W} (r : ClusterReconciler) key (s : Sys W Memory) :
  ∃ l, trace (Reconcile r key s).2 = trace s ++ l.
Proof. destruct (Reconcile_spec r (fun _ => True)) with (key := key) (s := s) as [_ (l & Ht & _)]; [done..|]. by exists l. Qed.

(** ** Signals that are only reported

    They leave the Machine of their node alone, whatever they tell and answer. *)
Section reports.
Context `{KubeLib} `{!KubeLaws} {W : Type} `{API W} (r : ClusterReconciler) (key : ObjectKey) (cluster : Cluster) (mode : Mode).
Context (checks : list MachineHealthCheck) (sig : Signal) (Hreport : out_Decision (decided r mode sig) = Report).

Lemma handle_reported machine node previous :
  yields (W:=W) (handle r cluster mode checks sig machine node previous)
    (fun res => res.1 = machine ∧ an_Complete (obs_Answer res.2) = false).
Proof.
  assert (Hdecline : ∀ reason message, an_Complete (decline sig reason message) = false)
    by (intros; unfold decline; by case_decide).
  unfold handle. cbv zeta. destruct (bool_decide (node = None) && _); [by apply yields_ret|].
  destruct machine as [m|]; [|apply yields_bind; intros _; apply yields_ret; split; [done|apply Hdecline]].
  rewrite Hreport. apply yields_bind. intros _. apply yields_ret. split; [done|apply Hdecline].
Qed.

Lemma answer_unreleased machine a :
  an_Complete a = false → yields (W:=W) (answer_request r key cluster machine sig a) (fun x => x = machine).
Proof.
  intros Ha. unfold answer_request. destruct (r_DryRun r); [by apply yields_ret|]. apply yields_bind.
  intros [[]|e]; [|by apply yields_ret..]. apply yields_bind. intros _. destruct machine; [|by apply yields_ret].
  rewrite Ha. by apply yields_ret.
Qed.

Lemma handle_signal_reported nodes previous ps :
  yields (W:=W) (handle_signal r key cluster mode checks nodes previous sig ps)
    (fun ps' => ps_machines ps' = ps_machines ps).
Proof.
  unfold handle_signal. cbv zeta. eapply yields_then; [apply handle_reported|]. intros [machine obs] [Hm Ha].
  simpl in Hm, Ha. subst machine. eapply (yields_then _ _ (fun x => x = ps_machines ps !! sig_Node sig)).
  - destruct (given _); [by apply answer_unreleased|by apply yields_ret].
  - intros x ->. apply yields_ret. simpl. destruct (ps_machines ps !! sig_Node sig) eqn:E; [by apply insert_id|done].
Qed.

Lemma signal_step_reported (K : Sys W Memory → Prop) `{!KeptOther K} nodes previous ps :
  (∀ complete reason message, keeps K (Answer key (sig_Request sig) complete reason message)) →
  keeps K (signal_step r key cluster mode checks nodes previous sig ps).
Proof.
  intros Hans. assert (Hh : ∀ ps', keeps K (handle_signal r key cluster mode checks nodes previous sig ps')).
  { intros ps'. unfold handle_signal. cbv zeta. apply keeps_bind.
    - unfold handle. cbv zeta. destruct (bool_decide _ && _); [apply keeps_ret|].
      destruct (ps_machines ps' !! _); [rewrite Hreport|]; keeps_steps.
    - intros [machine obs]. apply keeps_bind; [|intros; apply keeps_ret].
      destruct (given _); [by apply answer_request_keeps|apply keeps_ret]. }
  unfold signal_step. case_decide; [apply Hh|]. apply keeps_bind; [apply IsPending_keeps, _|].
  intros [[]|e]; [apply Hh|apply keeps_ret..].
Qed.
End reports.

Section steady.
Context `{KubeLib} `{!KubeLaws} {W : Type} `{API W} (r : ClusterReconciler).
Context (key : ObjectKey) (cluster : Cluster) (mode : Mode) (nodes : list Node) (requests : list Unstructured)
  (machines : list Machine) (checks : list MachineHealthCheck) (J : W → Prop) (sig : Signal) (m : Machine).
Context (Hst : steady key cluster mode nodes requests machines checks J) (Hact : acted_on r cluster).
Context (pre post : list Signal) (Hsig : signals_in mode nodes requests = pre ++ sig :: post).

Local Abbreviation cs := (cluster_checks cluster checks).
Local Abbreviation ns := (nodes_named nodes).

Lemma pass_sees_all :
  pass_checks cluster mode nodes requests checks = cs ∧ pass_nodes mode nodes requests = ns.
Proof.
  unfold pass_checks, pass_nodes. rewrite Hsig. by destruct pre.
Qed.

(** As long as [K], the request of the signal, if it is of one, is pending when looked at. *)
Definition still_pending (K : Sys W Memory → Prop) : Prop :=
  sig_Request sig = "" ∨
  ∃ obj, Pending obj = true ∧ ∀ s, K s → (GetRequest key (sig_Request sig) (world s)).1 = Ok obj.

(** The signal's own turn of the loop. *)
Lemma signal_step_does (K : Sys W Memory → Prop) `{!KeptOther K} Q previous ps :
  still_pending K →
  (∀ ps', ps_machines ps' = ps_machines ps → doing K (handle_signal r key cluster mode cs ns previous sig ps') Q) →
  doing K (signal_step r key cluster mode cs ns previous sig ps) Q.
Proof.
  intros Hpend Hhandle. unfold signal_step. case_decide as Hreq; [by apply Hhandle|].
  destruct Hpend as [?|(obj & Hp & Hget)]; [done|].
  eapply (doing_bind _ _ _ (fun res l s => res = Ok true ∧ l = [] ∧ K s)).
  - unfold IsPending. eapply (reads_bind _ _ _ (fun a => a = Ok obj)).
    + apply reads_call; [apply other_call; repeat constructor|exact Hget].
    + intros a ->. apply reads_ret. by rewrite Hp.
  - intros res l s (-> & -> & Hs). by eapply Hhandle.
Qed.

(** A signal of another node, or one that is only reported. *)
Definition elsewhere (sig' : Signal) : Prop :=
  sig_Node sig' ≠ sig_Node sig ∨ out_Decision (decided r mode sig') = Report.

(** It leaves the Machine as it was read. *)
Lemma signal_step_other (K : Sys W Memory → Prop) previous sig' ps :
  elsewhere sig' → keeps K (signal_step r key cluster mode cs ns previous sig' ps) →
  doing K (signal_step r key cluster mode cs ns previous sig' ps)
    (fun ps' _ s => ps_machines ps' !! sig_Node sig = ps_machines ps !! sig_Node sig ∧ K s).
Proof.
  intros He Hk. apply doing_yields; [by apply signal_step_spec|exact Hk|].
  assert (Hh : ∀ ps1, ps_machines ps1 = ps_machines ps →
    yields (W:=W) (handle_signal r key cluster mode cs ns previous sig' ps1)
      (fun ps' => ps_machines ps' !! sig_Node sig = ps_machines ps !! sig_Node sig)).
  { intros ps1 <-. destruct He as [Hne|Hreport].
    - unfold handle_signal. cbv zeta. apply yields_bind. intros [machine obs]. apply yields_bind.
      intros [m'|]; apply yields_ret; simpl; [by rewrite lookup_insert_ne|done].
    - intros s. by rewrite (handle_signal_reported r key cluster mode cs sig' Hreport ns previous ps1 s). }
  unfold signal_step. destruct (decide _); [by apply Hh|]. apply yields_bind.
  intros [[]|e]; [by apply Hh|by apply yields_ret..].
Qed.

(** A whole reconcile sends what the handling of the signal does. *)
Lemma Reconcile_sends (K : Sys W Memory → Prop) `{!KeptOther K} (inv : gmap string Machine → Prop) P (s : Sys W Memory) l :
  still_pending K →
  (∀ s', J (world s') → memory s' = note_mode (cluster_key cluster) mode (memory s) → K s') →
  inv (index_machines machines) →
  (∀ previous sig' ps, sig' ∈ pre → inv (ps_machines ps) →
    sends_or K P (signal_step r key cluster mode cs ns previous sig' ps) (fun ps' => inv (ps_machines ps'))) →
  (∀ previous ps, inv (ps_machines ps) → sends K P (handle_signal r key cluster mode cs ns previous sig ps)) →
  J (world s) → trace (Reconcile r key s).2 = trace s ++ l → Exists P l.
Proof.
  intros Hpend HK Hinv Hother Hhandle HJ Ht.
  destruct (Reconcile_reads r key cluster mode nodes requests machines checks J Hst Hact s HJ)
    as (s' & l0 & E & Ht0 & _ & HJ' & Hm' & _).
  destruct pass_sees_all as [Hc Hn]. rewrite Hc, Hn in E.
  rewrite Hsig in E. destruct (act_on_signals_sends r key cluster mode cs ns sig pre post K inv P Hother)
    with (machines := index_machines machines) (s := s') as (l1 & Ht1 & Hl1); [|done|by apply HK|].
  - intros previous ps Hps. apply (signal_step_does K); [done|]. intros ps' Hps'. apply Hhandle. by rewrite Hps'.
  - rewrite <- E, Ht, Ht0, <- (assoc_L (++)) in Ht1. apply app_inv_head in Ht1 as ->. apply Exists_app. by right.
Qed.

(** Where nothing is asked of the memory, but something of the world, that no call ends but
    the answer of the request. *)
Lemma Reconcile_sends_anyhow (L : W → Prop) P (s : Sys W Memory) l :
  stable L (fun A c => api_other c) →
  (∀ sig', sig' ∈ pre → elsewhere sig' ∧ ∀ complete reason message,
    keeps (R:=Memory) (fun s => L (world s)) (Answer key (sig_Request sig') complete reason message)) →
  (∀ w, J w → L w) → still_pending (fun s => L (world s)) →
  index_machines machines !! sig_Node sig = Some m →
  (∀ previous ps, ps_machines ps !! sig_Node sig = Some m →
    sends (fun s => L (world s)) P (handle_signal r key cluster mode cs ns previous sig ps)) →
  J (world s) → trace (Reconcile r key s).2 = trace s ++ l → Exists P l.
Proof.
  intros HL Hans HJL Hpend Hm Hhandle HJ. pose proof (kept_world_other (R:=Memory) L HL) as HK.
  apply (Reconcile_sends (fun s => L (world s)) (fun ms => ms !! sig_Node sig = Some m));
    [done|by intros s' HJ' _; apply HJL|done| |exact Hhandle|done].
  intros previous sig' ps Hin Hps. destruct (Hans sig' Hin) as [Helse Hanswer].
  eapply doing_weaken; [apply (signal_step_other (fun s => L (world s)) previous sig' ps Helse)|done|].
  - apply (signal_step_keeps r _ cluster (fun _ => True)); [by intros dry m' reason _ s1| |done|exact Hanswer].
    intros m' _. by apply heldForChecks_world.
  - intros ps' l' s' [Hps' Hs']. right. by rewrite Hps'.
Qed.
End steady.

(** What a poll sees of a signal: the cluster is neither paused nor excluded and its objects
    stay as they are read, for as long as [J]; the Machine of its node is known; and the
    signal is the only one of its request, if it is of one, and this request stays pending
    for as long as [L], which no call ends but the answer of this very request. *)
Record in_sight `{KubeLib} {W : Type} `{API W} (r : ClusterReconciler) (key : ObjectKey) (cluster : Cluster)
    (mode : Mode) (nodes : list Node) (requests : list Unstructured) (machines : list Machine)
    (checks : list MachineHealthCheck) (J L : W → Prop) (sig : Signal) (m : Machine) : Prop := {
  sight_steady : steady key cluster mode nodes requests machines checks J;
  sight_stable : stable L (fun A c => api_other c);
  sight_answers_kept base updated w : sig_Request sig = "" ∨ u_Name base ≠ sig_Request sig →
    L w → L (SendPatchRequestStatus key base updated w).2;
  sight_named name w obj : (GetRequest key name w).1 = Ok obj → u_Name obj = name;
  sight_lasts w : J w → L w;
  sight_cluster : acted_on r cluster;
  sight_signal : sig ∈ signals_in mode nodes requests;
  sight_request sig' : sig' ∈ signals_in mode nodes requests → sig_Request sig ≠ "" →
    sig_Request sig' = sig_Request sig → sig' = sig;
  sight_pending : still_pending key sig (fun s : Sys W Memory => L (world s));
  sight_machine : index_machines machines !! sig_Node sig = Some m
}.

(** The signals of its node before it are only reported. *)
Definition first_of_node `{KubeLib} (r : ClusterReconciler) (mode : Mode) (signals : list Signal) (sig : Signal) : Prop :=
  ∃ pre post, signals = pre ++ sig :: post ∧ (sig ∉ pre) ∧
    ∀ sig', sig' ∈ pre → sig_Node sig' = sig_Node sig → out_Decision (decided r mode sig') = Report.

(** A signal in sight that is the first of its node to be more than reported. *)
Record in_view `{KubeLib} {W : Type} `{API W} (r : ClusterReconciler) (key : ObjectKey) (cluster : Cluster)
    (mode : Mode) (nodes : list Node) (requests : list Unstructured) (machines : list Machine)
    (checks : list MachineHealthCheck) (J L : W → Prop) (sig : Signal) (m : Machine) : Prop := {
  view_sight : in_sight r key cluster mode nodes requests machines checks J L sig m;
  view_first : first_of_node r mode (signals_in mode nodes requests) sig
}.

Section sight.
Context `{KubeLib} `{!KubeLaws} {W : Type} `{API W} (r : ClusterReconciler) (key : ObjectKey) (cluster : Cluster).
Context (mode : Mode) (nodes : list Node) (requests : list Unstructured) (machines : list Machine).
Context (checks : list MachineHealthCheck) (J L : W → Prop) (sig : Signal) (m : Machine).
Context (Hsight : in_sight r key cluster mode nodes requests machines checks J L sig m).

(** The answer of another request. *)
Lemma Answer_elsewhere name complete reason message :
  stable L (fun A c => api_other c) →
  (∀ obj w0 w updated, (GetRequest key name w0).1 = Ok obj → L w → L (SendPatchRequestStatus key obj updated w).2) →
  keeps (R:=Memory) (fun s => L (world s)) (Answer key name complete reason message).
Proof.
  intros HL Hpatch. pose proof (kept_world_other (R:=Memory) L HL) as HK.
  enough (triple (R:=Memory) (fun s => L (world s)) (Answer key name complete reason message) (fun _ s => L (world s))) as Ht
    by (intros s Hs; exact (Ht s Hs)).
  unfold Answer. apply (triple_bind _ _ _ (fun a s => L (world s) ∧ ∃ w0, (GetRequest key name w0).1 = a)).
  { intros s Hs. split; [exact (other_call _ _ (others_read _ (reads_GetRequest key name)) s Hs)|]. exists (world s).
    unfold call. by destruct (GetRequest key name (world s)). }
  intros a. apply triple_pure. intros [w0 Hget]. apply triple_keeps. destruct a as [obj|e]; [|apply keeps_ret].
  destruct (negb (Pending obj)); [apply keeps_ret|]. apply keeps_bind; [auto with keeps|]. intros now. cbv zeta.
  apply keeps_bind; [auto with keeps|]. intros _. apply keeps_bind; [|intros [u|e]; apply keeps_ret].
  intros s Hs. set (updated := answered_object _ _ _ _ _). pose proof (Hpatch obj w0 (world s) updated Hget Hs) as Hw.
  unfold call. by destruct (SendPatchRequestStatus _ _ _ (world s)).
Qed.

Lemma sight_answers_elsewhere sig' :
  sig' ∈ signals_in mode nodes requests → sig' ≠ sig → ∀ complete reason message,
    keeps (R:=Memory) (fun s => L (world s)) (Answer key (sig_Request sig') complete reason message).
Proof.
  intros Hin Hne complete reason message. destruct Hsight as [_ HL Hanswered Hnamed _ _ _ Hrequest _ _].
  apply Answer_elsewhere; [done|]. intros obj w0 w updated Hget Hw.
  apply Hanswered; [|done]. destruct (decide (sig_Request sig = "")) as [|Hreq]; [by left|right].
  rewrite (Hnamed _ _ _ Hget). intros Heq. by apply Hne, Hrequest.
Qed.
End sight.

Section view.
Context `{KubeLib} `{!KubeLaws} {W : Type} `{API W} (r : ClusterReconciler) (key : ObjectKey) (cluster : Cluster).
Context (mode : Mode) (nodes : list Node) (requests : list Unstructured) (machines : list Machine).
Context (checks : list MachineHealthCheck) (J L : W → Prop) (sig : Signal) (m : Machine).
Context (Hview : in_view r key cluster mode nodes requests machines checks J L sig m).

(** The reconcile sends what the handling of the signal does. *)
Lemma view_sends P (s : Sys W Memory) l :
  (∀ previous ps, ps_machines ps !! sig_Node sig = Some m →
    sends (fun s => L (world s)) P
      (handle_signal r key cluster mode (cluster_checks cluster checks) (nodes_named nodes) previous sig ps)) →
  J (world s) → trace (Reconcile r key s).2 = trace s ++ l → Exists P l.
Proof.
  pose proof Hview as [Hsight (pre & post & Hsplit & Hnew & Hfirst)].
  pose proof Hsight as [Hst HL _ _ HJL Hact _ _ Hpend Hm]. eapply Reconcile_sends_anyhow; try done.
  intros sig' Hin. split.
  - destruct (decide (sig_Node sig' = sig_Node sig)); [right; by apply Hfirst|by left].
  - eapply sight_answers_elsewhere; [done|rewrite Hsplit; set_solver|by intros ->].
Qed.

Context (Hdry : r_DryRun r = false) (Hmode : mode ≠ ModeReportOnly).
Context (Hnode : sig_Request sig = "" ∨ is_Some (nodes_named nodes !! sig_Node sig)).

Lemma view_marks action (s : Sys W Memory) l :
  call_for (out_Decision (Decide (r_Table r) sig)) (restartFallback r cluster).1
    (CoverageOf (cluster_checks cluster checks) m) = Some action →
  Guard m = None → (action = ActionRestart → EarlierMarkPending m = false) →
  J (world s) → trace (Reconcile r key s).2 = trace s ++ l → Exists (marks_for (nodes_named nodes) sig m action) l.
Proof.
  intros Hc Hg He. apply view_sends. apply signal_marks_machine; [done..| |done]. intros Ha. by apply pending_free, He.
Qed.
End view.

(** C7: a fault is acted on at the next poll. In a cluster in which NVSentinel detects
    faults or asks for remediation by requests, and of which the poll sees a condition, or
    pending request, of a node, the first of the node to be more than reported: when it calls
    for a restart or a replacement, or a fallback, that the checks of the Machine
    behind the node carry out, and the guards let the Machine be touched, the
    reconcile marks that Machine for exactly this action, and a restart with the boot ID it
    is to change and the request that asks for it; and when it calls for a replacement of a
    Machine this operator marked for a restart, the reconcile turns the mark into one. *)
Theorem fault_is_acted_on `{KubeLib} {HK : KubeLaws} {W : Type} `{API W} (r : ClusterReconciler)
    (key : ObjectKey) (s : Sys W Memory) (cluster : Cluster) (mode : Mode) (nodes : list Node)
    (requests : list Unstructured) (machines : list Machine) (checks : list MachineHealthCheck)
    (J L : W → Prop) (sig : Signal) (m : Machine)
    (Hdry : r_DryRun r = false) (Hmode : mode ≠ ModeReportOnly)
    (Hview : in_view r key cluster mode nodes requests machines checks J L sig m) (HJ : J (world s))
    (Hnode : sig_Request sig = "" ∨ is_Some (nodes_named nodes !! sig_Node sig)) :
  let d := out_Decision (Decide (r_Table r) sig) in
  let cov := CoverageOf (cluster_checks cluster checks) m in
  ∃ l, trace (Reconcile r key s).2 = trace s ++ l ∧
    (∀ action, call_for d (restartFallback r cluster).1 cov = Some action → Guard m = None →
      (action = ActionRestart → EarlierMarkPending m = false) →
      Exists (marks_for (nodes_named nodes) sig m action) l) ∧
    (d = Replace → MarkedAction m = Some ActionRestart → m_Deleting m = false → Exists (escalated m) l).
Proof.
  intros d cov. destruct (Reconcile_trace r key s) as [l Ht]. exists l. split; [done|]. split.
  - intros action Hc Hg He. by eapply view_marks.
  - intros Hd Hmarked Hdel. eapply view_sends; [done| |done|done]. by apply signal_escalates_machine; [..|left].
Qed.

(** ** Restarts that are over *)

Section over.
Context `{KubeLib} `{!KubeLaws} {W : Type} `{API W} (r : ClusterReconciler).
Context (Hdry : r_DryRun r = false).

(** The status patch of an answer, and the release of the Machine. *)
Definition answers_with (key : ObjectKey) (obj : Unstructured) (complete : bool) (reason : string) (e : Effect) : Prop :=
  ∃ message now, e = PatchRequestStatus key obj (answered_object obj complete reason message now).

Definition releases (m : Machine) (e : Effect) : Prop :=
  e = PatchMachine m (set_annotations m (release_annotations (m_Annotations m))) true.

Lemma handle_restarted cluster mode checks sig m node previous :
  out_Decision (decided r mode sig) = Restart → sig_Request sig ≠ "" →
  RestartCompleted m (Some node) = true → RestartAnswers m (sig_Request sig) = true →
  runs (W:=W) (handle r cluster mode checks sig (Some m) (Some node) previous) (fun res l => l = [] ∧
    res.1 = Some m ∧ an_Complete (obs_Answer res.2) = true ∧ an_Reason (obs_Answer res.2) = AnswerRestarted).
Proof.
  intros Hd Hreq Hc Ha. unfold handle. cbv zeta. rewrite (bool_decide_eq_false_2 (Some node = None)) by done.
  cbn [andb]. rewrite Hd. unfold remediate. rewrite Hd, Hc, Ha, !bool_decide_eq_true_2 by done. cbn [andb].
  eapply runs_bind; [by apply (runs_ret _ (fun res l => l = [] ∧ res = (m, set_Answer (MkObs (Some Restart)
    (out_Action (decided r mode sig)) (sig_Truncated sig) (m_Name m) (sig_Request sig) None "" "" no_answer)
    (MkAnswer true AnswerRestarted ("node " +:+ sig_Node sig +:+ " restarted and is Ready"))))); split|].
  intros res l [-> ->]. by apply runs_ret.
Qed.

(** What is known of the request and of its status patches, for as long as [L]. *)
Context (key : ObjectKey) (L : W → Prop) (HL : stable L (fun A c => api_other c)).

Lemma Answer_accepted name complete reason message obj :
  (∀ w, L w → (GetRequest key name w).1 = Ok obj) → Pending obj = true →
  (∀ base updated w, L w → is_ok (SendPatchRequestStatus key base updated w).1 = true) →
  doing (R:=Memory) (fun s => L (world s)) (Answer key name complete reason message)
    (fun res l _ => res = Ok true ∧ ∃ e, l = [e] ∧ answers_with key obj complete reason e).
Proof.
  intros Hget Hp Hsend. unfold Answer.
  eapply doing_bind; [apply (doing_call L _ (fun a w => a = Ok obj ∧ L w))|].
  { intros w Hw. split; [by apply Hget|by apply HL; [repeat constructor|]]. }
  intros a l. do 2 (apply doing_pure; intros ->). rewrite Hp. cbn [negb app].
  eapply doing_bind; [apply (doing_call L _ (fun _ => L)); intros w; apply HL; repeat constructor|].
  intros now l. apply doing_pure. intros ->. cbv zeta. cbn [app].
  eapply doing_bind; [apply doing_emit; by intros s|]. intros [] l. apply doing_pure. intros ->. cbn [app].
  eapply doing_then_runs; [apply (doing_call L _ (fun p _ => is_ok p = true)); intros w Hw; by apply Hsend|].
  intros [u|e] l [-> [=]]. apply runs_ret.
  split; [done|]. eexists. split; [done|]. by exists message, now.
Qed.

Lemma Release_sends m reason :
  MarkedAction m = Some ActionRestart → m_Deleting m = false →
  runs (W:=W) (R:=Memory) (Release false m reason) (fun _ l => ∃ rest,
    l = PatchMachine m (set_annotations m (release_annotations (m_Annotations m))) true :: rest).
Proof.
  intros Hm Hd. unfold Release. rewrite Hm, Hd. unfold patch_machine. intros s.
  unfold mbind, state_bind, emit, call. simpl.
  destruct (SendPatchMachine _ _ _ (world s)) as [[m'|e] w]; simpl;
    eexists; rewrite <- ?(assoc_L (++)); (split; [done|]); by eexists.
Qed.

(** What was sent stays sent. *)
#[local] Instance sent_kept t : Kept (fun s : Sys W Memory => t `prefix_of` trace s).
Proof.
  constructor; [|intros e s; by apply prefix_app_r].
  intros A c _ s Hs. unfold call. by destruct (c (world s)).
Qed.

Lemma releaseAnswered_sends m reason :
  MarkedAction m = Some ActionRestart → m_Deleting m = false →
  runs (W:=W) (releaseAnswered r m reason) (fun _ l => Exists (releases m) l).
Proof.
  intros Hm Hdel s. unfold releaseAnswered. destruct retry_on_conflict_bounded as [n ->].
  set (patch := PatchMachine m (set_annotations m (release_annotations (m_Annotations m))) true).
  set (J := fun s' : Sys W Memory => (trace s ++ [patch]) `prefix_of` trace s').
  enough (J (retry_times (S n) (release_attempt r (restartMarkOf m) reason) (s, (m, false))).2.1) as [rest Hr].
  { exists (patch :: rest). destruct (retry_times _ _ _) as [? [s' [? ?]]]. simpl in *.
    rewrite Hr, <- (assoc_L (++)). split; [done|]. by left. }
  apply (retry_times_inv n _ (fun x => x = (s, (m, false)) ∨ J x.1) (fun x => J x.1)); [|by left].
  intros x Hx. enough (J (release_attempt r (restartMarkOf m) reason x).2.1) by auto.
  destruct Hx as [->|Hx]; [|by apply release_attempt_keeps; [apply kept_other, sent_kept|]].
  simpl. rewrite Hdry. destruct (Release_sends m reason Hm Hdel s) as (l & Ht & rest & ->).
  destruct (Release false m reason s) as [[m' [b|e]] s']; simpl in *; unfold J; simpl; rewrite Ht; exists rest;
    by rewrite <- (assoc_L (++)).
Qed.

Lemma signal_answers_restart (cluster : Cluster) (mode : Mode)
    (checks : list MachineHealthCheck) (nodes : gmap string Node) (sig : Signal) (m : Machine) (node : Node)
    (obj : Unstructured) :
  out_Decision (decided r mode sig) = Restart → sig_Request sig ≠ "" → nodes !! sig_Node sig = Some node →
  m_Deleting m = false → RestartCompleted m (Some node) = true → RestartAnswers m (sig_Request sig) = true →
  (∀ w, L w → (GetRequest key (sig_Request sig) w).1 = Ok obj) → Pending obj = true →
  (∀ base updated w, L w → is_ok (SendPatchRequestStatus key base updated w).1 = true) →
  ∀ previous ps, ps_machines ps !! sig_Node sig = Some m →
    doing (fun s => L (world s)) (handle_signal r key cluster mode checks nodes previous sig ps)
      (fun _ l _ => Exists (answers_with key obj true AnswerRestarted) l ∧ Exists (releases m) l).
Proof.
  intros Hd Hreq Hn Hdel Hover Hasked Hget Hpending Hsend previous ps Hm.
  unfold handle_signal. cbv zeta. rewrite Hm, Hn.
  eapply doing_bind; [apply doing_keeps; [by apply handle_restarted|]|].
  { pose proof (kept_world_other (R:=Memory) L HL). apply (handle_keeps r _ cluster (fun _ => True)); try done.
    intros m' _. by apply heldForChecks_world. }
  intros [machine obs] l. apply doing_pure. intros (-> & Hmach & Hcomp & Hreason).
  simpl in Hmach, Hcomp, Hreason. subst machine. cbn [app].
  assert (Hgiven : given (obs_Answer obs) = true) by (unfold given; rewrite Hreason; done).
  rewrite Hgiven. unfold answer_request. rewrite Hdry, Hcomp, Hreason.
  eapply doing_bind; [|intros machine' l s Hl; exists []; rewrite !app_nil_r; split; [done|exact Hl]].
  eapply doing_then_runs; [by apply Answer_accepted|]. intros res l [-> (e & -> & He)]. eapply runs_bind; [apply runs_emit|]. intros _ l ->.
  eapply runs_bind; [apply releaseAnswered_sends; [by eapply restart_completed_marked|done]|].
  intros res l Hl. apply runs_ret. rewrite app_nil_r. cbn [app].
  split; [by left|]. by do 2 right.
Qed.
End over.

(** What the poll makes of a finished restart. *)
Lemma view_answers `{KubeLib} `{!KubeLaws} {W : Type} `{API W} (r : ClusterReconciler) key cluster nodes requests
    machines checks (J L : W → Prop) sig m node obj (s : Sys W Memory) :
  r_DryRun r = false → in_view r key cluster ModeExternalRemediationRequest nodes requests machines checks J L sig m →
  J (world s) → sig_Request sig ≠ "" → (GetRequest key (sig_Request sig) (world s)).1 = Ok obj →
  nodes_named nodes !! sig_Node sig = Some node → out_Decision (Decide (r_Table r) sig) = Restart →
  m_Deleting m = false → RestartCompleted m (Some node) = true → RestartAnswers m (sig_Request sig) = true →
  (∀ base updated w, L w → is_ok (SendPatchRequestStatus key base updated w).1 = true) →
  ∃ l, trace (Reconcile r key s).2 = trace s ++ l ∧
    Exists (answers_with key obj true AnswerRestarted) l ∧ Exists (releases m) l.
Proof.
  intros Hdry Hview HJ Hreq Hget Hn Hd Hdel Hover Hasked Hsend.
  destruct (Reconcile_trace r key s) as [l Ht]. exists l. split; [done|].
  assert (Hdec : out_Decision (decided r ModeExternalRemediationRequest sig) = Restart)
    by (unfold decided; by rewrite decide_True).
  pose proof (view_sight _ _ _ _ _ _ _ _ _ _ _ _ Hview) as [_ HL _ _ HJL _ _ _ [?|(obj' & Hpending & Hget')] _]; [done|].
  assert (obj' = obj) as -> by (specialize (Hget' s (HJL _ HJ)); congruence).
  pose proof (fun w Hw => Hget' (MkSys w [] empty_memory) Hw) as Hread. simpl in Hread.
  split; (eapply view_sends; [exact Hview| |exact HJ|exact Ht]); intros previous ps Hps;
    (eapply doing_weaken; [by eapply (signal_answers_restart r Hdry key L HL)|done|]);
    by intros a l' s' [? ?].
Qed.

(** C8: a restart that is over is told and cleaned up after, at the next poll. In a cluster
    NVSentinel asks by requests, and of which the poll sees a pending request of a node, the
    first of the node to be more than reported: when it asked for the restart the node has
    been through, with the node Ready again, the reconcile answers this request True, for
    having restarted, and, the answer accepted, sends the patch that takes the mark off the
    Machine. *)
Theorem finished_restart_is_answered `{KubeLib} {HK : KubeLaws} {W : Type} `{API W} (r : ClusterReconciler)
    (key : ObjectKey) (s : Sys W Memory) (cluster : Cluster) (nodes : list Node) (requests : list Unstructured)
    (machines : list Machine) (checks : list MachineHealthCheck) (J L : W → Prop) (sig : Signal) (m : Machine)
    (node : Node) (obj : Unstructured)
    (Hdry : r_DryRun r = false)
    (Hview : in_view r key cluster ModeExternalRemediationRequest nodes requests machines checks J L sig m)
    (HJ : J (world s)) (Hreq : sig_Request sig ≠ "")
    (Hget : (GetRequest key (sig_Request sig) (world s)).1 = Ok obj)
    (Hn : nodes_named nodes !! sig_Node sig = Some node)
    (Hd : out_Decision (Decide (r_Table r) sig) = Restart) (Hdel : m_Deleting m = false)
    (Hover : RestartCompleted m (Some node) = true) (Hasked : RestartAnswers m (sig_Request sig) = true)
    (Hsend : ∀ base updated w, L w → is_ok (SendPatchRequestStatus key base updated w).1 = true) :
  ∃ l, trace (Reconcile r key s).2 = trace s ++ l ∧
    Exists (answers_with key obj true AnswerRestarted) l ∧ Exists (releases m) l.
Proof. by eapply view_answers. Qed.

(** ** Witness: a node whose GPU needs a restart of its VM. *)

#[local] Existing Instance lib.
#[local] Existing Instance lib_laws.

Definition faulty_node : Node :=
  MkNode "node-1" "boot-1" [MkNodeCondition "GpuXidWatch" "True"
    "[DCGM_FR_XID_ERROR] GPU=0 xid 79 Recommended Action=RESTART_VM;"].

(** A world that calls do not change: one Machine and its node, the clock, and the requests, if
    served. *)
Definition unchanged_api {W : Type} (machine : W → Machine) (node : W → Node) (now : W → Z) (served : bool)
    (requests : list Unstructured) : API W := {|
  GetCluster := fun _ w => (Ok a_cluster, w);
  GetMachine := fun key w => (if decide (machine_key (machine w) = key) then Ok (machine w) else Err not_found, w);
  ListMachines := fun _ _ w => (Ok [machine w], w);
  ListMachineHealthChecks := fun _ w => (Ok [a_check], w);
  SendPatchMachine := fun base updated _ w => (Ok updated, w);
  SendDeleteMachine := fun _ _ _ w => (Ok tt, w);
  GetClient := fun _ w => (Ok tt, w);
  GetUncachedClient := fun _ w => (Ok tt, w);
  WatchRequests := fun _ w => (Ok tt, w);
  WorkloadMapping := fun _ gvk w =>
    (if served && bool_decide (gvk_Kind gvk = gvk_Kind request_gvk) then Mapped else NoMatch, w);
  ListNodes := fun _ w => (Ok [node w], w);
  ListRequests := fun _ w => (Ok requests, w);
  GetRequest := fun _ name w => (find_or_not_found (fun obj => bool_decide (u_Name obj = name)) requests, w);
  SendPatchRequestStatus := fun _ _ _ w => (Ok tt, w);
  Now := fun w => (now w, w)
|}.

Definition constant_api (machine : Machine) (node : Node) (served : bool) (requests : list Unstructured) : API unit :=
  unchanged_api (fun _ => machine) (fun _ => node) (fun _ => 0%Z) served requests.

Definition faulty_signal : Signal :=
  MkSignal OriginNodeCondition "node-1" "GpuXidWatch" "" ["RESTART_VM"] [] [] false "".

Example faulty_signal_read : collect_nodes [faulty_node] = [faulty_signal].
Proof. vm_compute. reflexivity. Qed.

Lemma found_by_name name requests obj :
  find_or_not_found (fun obj => bool_decide (u_Name obj = name)) requests = Ok obj → u_Name obj = name.
Proof. intros Hf%find_or_not_found_Ok. by apply bool_decide_eq_true in Hf. Qed.

(** Of a signal, in a world that never changes. *)
Lemma constantly_in_view `{API unit} mode nodes requests machines checks pre post sig m :
  steady a_key a_cluster mode nodes requests machines checks (fun _ : unit => True) →
  signals_in mode nodes requests = pre ++ sig :: post → sig ∉ pre →
  Forall (fun sig' => out_Decision (decided (a_reconciler false) mode sig') = Report) pre →
  Forall (fun sig' => sig_Request sig = "" ∨ sig_Request sig' ≠ sig_Request sig) (pre ++ post) →
  still_pending a_key sig (fun _ : Sys unit Memory => True) →
  index_machines machines !! sig_Node sig = Some m →
  (∀ name w obj, (GetRequest a_key name w).1 = Ok obj → u_Name obj = name) →
  in_view (a_reconciler false) a_key a_cluster mode nodes requests machines checks (fun _ => True) (fun _ => True) sig m.
Proof.
  intros Hst Hsplit Hnew Hpre Hall Hpend Hm Hnamed. rewrite Forall_forall in Hpre, Hall. constructor.
  - constructor; try done; rewrite Hsplit; [set_solver|]. intros sig' Hin Hreq Heq. apply elem_of_app in Hin.
    rewrite list.elem_of_cons in Hin. destruct Hin as [Hin|[->|Hin]]; [exfalso|done|exfalso];
      (destruct (Hall sig') as [?|?]; [apply elem_of_app; tauto|done..]).
  - exists pre, post. split_and!; [done..|]. intros sig' Hin _. by apply Hpre.
Qed.

(** The node reports other faults too: one that calls for nothing, and, after it, one that
    calls for a replacement. *)
Definition node_with_faults : Node :=
  MkNode "node-1" "boot-1" (n_Conditions faulty_node ++
    [MkNodeCondition "NvLinkWatch" "True" "[DCGM_FR_NVLINK_DOWN] GPU=1 link down Recommended Action=REPLACE_VM;";
     MkNodeCondition "GpuThermalWatch" "True" "[DCGM_FR_CLOCK_THROTTLE_THERMAL] GPU=1 throttled Recommended Action=NONE;"]).

#[local] Instance detecting : API unit := constant_api a_machine node_with_faults false [].

Definition thermal_signal : Signal :=
  MkSignal OriginNodeCondition "node-1" "GpuThermalWatch" "" ["NONE"] [] [] false "".

Definition link_signal : Signal :=
  MkSignal OriginNodeCondition "node-1" "NvLinkWatch" "" ["REPLACE_VM"] [] [] false "".

Example faults_read : collect_nodes [node_with_faults] = [thermal_signal; faulty_signal; link_signal].
Proof. vm_compute. reflexivity. Qed.

Lemma fault_is_acted_on_witness :
  Exists (marks_for (nodes_named [node_with_faults]) faulty_signal a_machine ActionRestart)
    (trace (Reconcile (a_reconciler false) a_key (MkSys tt [] empty_memory)).2).
Proof.
  destruct (fault_is_acted_on (a_reconciler false) a_key (MkSys tt [] empty_memory) a_cluster ModeNodeCondition
    [node_with_faults] [] [a_machine] [a_check] (fun _ => True) (fun _ => True) faulty_signal a_machine) as (l & Ht & Hmark & _).
  - reflexivity.
  - discriminate.
  - apply (constantly_in_view _ _ _ _ _ [thermal_signal] [link_signal]); try reflexivity.
    + constructor; try done; reflexivity.
    + by intros H%list_elem_of_singleton.
    + constructor; [vm_compute; reflexivity|done].
    + by repeat (constructor; [by left|]).
    + by left.
    + intros name w obj. apply found_by_name.
  - done.
  - left. reflexivity.
  - rewrite Ht. apply (Hmark ActionRestart); [vm_compute; reflexivity|reflexivity|reflexivity].
Defined.

Definition restarted_machine : Machine :=
  set_annotations a_machine (mark_annotations ∅ ActionRestart "" (MkRecord "boot-1" "req-1")).

Definition restart_request : Signal :=
  MkSignal OriginExternalRemediationRequest "node-1" "SysLogsXIDError" "" ["RESTART_BM"] [] ["GPU-b5f21324"] false "req-1".

Example restart_request_read : collect_requests [sample_request "req-1" (VInt 24)] = [restart_request].
Proof. vm_compute. reflexivity. Qed.

(** The node came back with another boot ID; the request is still pending. *)
#[local] Instance asking : API unit :=
  constant_api restarted_machine (a_node "boot-2") true [sample_request "req-1" (VInt 24)].

Lemma finished_restart_is_answered_witness :
  Exists (releases restarted_machine) (trace (Reconcile (a_reconciler false) a_key (MkSys tt [] empty_memory)).2).
Proof.
  destruct (finished_restart_is_answered (a_reconciler false) a_key (MkSys tt [] empty_memory) a_cluster
    [a_node "boot-2"] [sample_request "req-1" (VInt 24)] [restarted_machine] [a_check]
    (fun _ => True) (fun _ => True) restart_request
    restarted_machine (a_node "boot-2") (sample_request "req-1" (VInt 24))) as (l & Ht & _ & Hl).
  - reflexivity.
  - apply (constantly_in_view _ _ _ _ _ [] []); try reflexivity.
    + constructor; try done; reflexivity.
    + by apply not_elem_of_nil.
    + done.
    + done.
    + right. exists (sample_request "req-1" (VInt 24)). split; [vm_compute; reflexivity|reflexivity].
    + intros name w obj. apply found_by_name.
  - done.
  - discriminate.
  - reflexivity.
  - vm_compute. reflexivity.
  - vm_compute. reflexivity.
  - reflexivity.
  - vm_compute. reflexivity.
  - vm_compute. reflexivity.
  - reflexivity.
  - rewrite Ht. exact Hl.
Defined.
