(* ===== verification/Rounds.v ===== *)
(** * From one poll to the next

    What a reconcile leaves behind for a later one: the mark it sends is read back, with
    the record of the restart it asks for, whatever else happened in between. *)

From S2P Require Import Prelude GoStrings Signal Decision Kube KubeModel WorldModel Calls Condition Extrr Capi Mode ClusterController ClusterFacts ReconcileFacts Memory Progress.
Open Scope stdpp_scope.

(** ** A restart, from the request to its answer *)

(** The Machine still carries the operator's annotations, as [updated] has them. *)
Definition carries `{KubeLib} (m updated : Machine) : Prop :=
  ∀ k, k ∈ RemediateMachineAnnotation :: own_annotations → m_Annotations m !! k = m_Annotations updated !! k.

Section mark.
Context `{KubeLib} `{!KubeLaws}.

(** What is read back of the mark of a restart. *)
Lemma restart_mark_read a m reason boot request :
  boot ≠ "" → request ≠ "" →
  (∀ k, k ∈ RemediateMachineAnnotation :: own_annotations →
     m_Annotations m !! k = mark_annotations a ActionRestart reason (MkRecord boot request) !! k) →
  MarkedAction m = Some ActionRestart ∧ get (m_Annotations m) RemediationBootIDAnnotation = boot ∧
  get (m_Annotations m) RemediationRequestAnnotation = request.
Proof.
  intros Hb Hr Hk. destruct (mark_lookup a ActionRestart reason (MkRecord boot request)) as (Hmark & Hact & _).
  unfold MarkedAction, IsMarkedForRemediation, has_key, get. unfold own_annotations in Hk.
  rewrite (Hk RemediateMachineAnnotation), (Hk RemediationActionAnnotation), Hmark, Hact by set_solver.
  split; [done|]. rewrite (Hk RemediationBootIDAnnotation), (Hk RemediationRequestAnnotation) by set_solver.
  unfold mark_annotations. simpl. rewrite !decide_False by done. by simplify_map_eq.
Qed.
End mark.

(** What is left of the annotations when the mark is taken off. *)
Definition cleared `{KubeLib} (m released : Machine) : Prop :=
  released = set_annotations m (m_Annotations released) ∧
  (∀ k, k ∈ RemediateMachineAnnotation :: own_annotations → m_Annotations released !! k = None) ∧
  (∀ k, k ∉ RemediateMachineAnnotation :: own_annotations → m_Annotations released !! k = m_Annotations m !! k).

Lemma release_clears `{KubeLib} m : cleared m (set_annotations m (release_annotations (m_Annotations m))).
Proof.
  unfold own_annotations. split_and!; [done|..]; intros k Hk; simpl; unfold release_annotations; set_unfold in Hk.
  - rewrite !lookup_delete_None. destruct Hk as [->|[->|[->|[->|[->|[]]]]]]; tauto.
  - rewrite !lookup_delete_ne by naive_solver. done.
Qed.

(** C9: a restart is seen through, from the request to its answer. When the poll of a cluster
    sees a pending request of a node, the first of the node to be more than reported, which
    calls for a restart the checks of the Machine carry out, and the guards let the
    Machine be touched, the reconcile sends the patch that marks it, with the boot ID of the
    node and the name of the request. And whatever happens then, and however often the operator starts over: once the Machine, still
    carrying this mark, is seen with its node Ready and booted anew, the request still
    pending, the reconcile answers that very request True, for having restarted, and
    takes off the Machine everything the operator put there and nothing else. *)
Theorem restart_is_seen_through `{KubeLib} {HK : KubeLaws} {W : Type} `{API W} (r : ClusterReconciler)
    (key : ObjectKey) (s : Sys W Memory) (cluster : Cluster) (nodes : list Node) (requests : list Unstructured)
    (machines : list Machine) (checks : list MachineHealthCheck) (J L : W → Prop) (sig : Signal) (m : Machine)
    (node : Node)
    (Hdry : r_DryRun r = false)
    (Hview : in_view r key cluster ModeExternalRemediationRequest nodes requests machines checks J L sig m)
    (HJ : J (world s)) (Hreq : sig_Request sig ≠ "")
    (Hn : nodes_named nodes !! sig_Node sig = Some node) (Hboot : n_BootID node ≠ "")
    (Hd : out_Decision (Decide (r_Table r) sig) = Restart)
    (Hcov : TemplatesOnly (CoverageOf (cluster_checks cluster checks) m) = true)
    (Hg : Guard m = None) (He : EarlierMarkPending m = false) :
  ∃ l marked, trace (Reconcile r key s).2 = trace s ++ l ∧ PatchMachine m marked false ∈ l ∧
    MarkedAction marked = Some ActionRestart ∧
    get (m_Annotations marked) RemediationBootIDAnnotation = n_BootID node ∧
    get (m_Annotations marked) RemediationRequestAnnotation = sig_Request sig ∧
    ∀ (s' : Sys W Memory) cluster' nodes' requests' machines' checks' (J' L' : W → Prop) m' node' obj,
      in_view r key cluster' ModeExternalRemediationRequest nodes' requests' machines' checks' J' L' sig m' →
      J' (world s') → (GetRequest key (sig_Request sig) (world s')).1 = Ok obj →
      (∀ base updated w, L' w → is_ok (SendPatchRequestStatus key base updated w).1 = true) →
      carries m' marked → m_Deleting m' = false → nodes_named nodes' !! sig_Node sig = Some node' →
      n_BootID node' ≠ "" → n_BootID node' ≠ n_BootID node → node_ready (n_Conditions node') = true →
      ∃ l' released, trace (Reconcile r key s').2 = trace s' ++ l' ∧
        Exists (answers_with key obj true AnswerRestarted) l' ∧ PatchMachine m' released true ∈ l' ∧ cleared m' released.
Proof.
  destruct (Reconcile_trace r key s) as [l Ht].
  assert (Hmark : Exists (marks_for (nodes_named nodes) sig m ActionRestart) l).
  { eapply view_marks; [exact Hview|exact Hdry|done|by right| |done|done|exact HJ|exact Ht].
    unfold call_for. by rewrite Hd, Hcov. }
  apply list.Exists_exists in Hmark as (e & Hin & reason & ->).
  rewrite Hn in Hin. unfold record_of in Hin. rewrite decide_True in Hin by done.
  set (marked := set_annotations m _) in Hin.
  destruct (restart_mark_read (m_Annotations m) marked reason (n_BootID node) (sig_Request sig))
    as (Hact & Hb & Hr); [done|done|by intros|].
  exists l, marked. split_and!; [done|done|done|done|done|].
  intros s' cluster' nodes' requests' machines' checks' J' L' m' node' obj Hview' HJ' Hget Hsend Hcarry Hdel Hn' Hb' Hnew Hready.
  destruct (restart_mark_read (m_Annotations m) m' reason (n_BootID node) (sig_Request sig))
    as (Hact' & Hboot' & Hr'); [done|done|exact Hcarry|].
  destruct (view_answers r key cluster' nodes' requests' machines' checks' J' L' sig m' node' obj s')
    as (l' & Ht' & Hans & (e' & Hin' & ->)%list.Exists_exists); try done.
  - unfold RestartCompleted. rewrite Hact', Hboot', (bool_decide_eq_true_2 (Some _ = Some _)) by done. cbn zeta.
    by rewrite !bool_decide_eq_false_2.
  - unfold RestartAnswers. rewrite Hr'. by rewrite (bool_decide_eq_true_2 (sig_Request sig = sig_Request sig)), orb_true_r.
  - eexists l', _. split_and!; [done|done|exact Hin'|apply release_clears].
Qed.

(** ** Witness: a node restarted on request. *)

#[local] Existing Instance lib.
#[local] Existing Instance lib_laws.

Definition the_request : Unstructured := sample_request "req-1" (VInt 24).

(** Before the restart, and after it. *)
Definition varying (machine : bool → Machine) (node : bool → Node) : API bool :=
  unchanged_api machine node (fun _ => 0%Z) true [the_request].

Definition marks_sent (l : list Effect) : list Machine :=
  omap (fun e => match e with PatchMachine _ updated false => Some updated | _ => None end) l.

Definition boots (w : bool) : Node := a_node (if w then "boot-2" else "boot-1").

(** The Machine as the first reconcile marks it. *)
Definition as_marked : Machine :=
  default a_machine (head (marks_sent (trace (Reconcile (H0 := varying (fun _ => a_machine) boots)
    (a_reconciler false) a_key (MkSys false [] empty_memory)).2))).

#[local] Instance restarting : API bool := varying (fun w => if w then as_marked else a_machine) boots.

Lemma restarting_in_view w :
  in_view (a_reconciler false) a_key a_cluster ModeExternalRemediationRequest [boots w] [the_request]
    [if w then as_marked else a_machine] [a_check] (fun w' => w' = w) (fun w' => w' = w) restart_request
    (if w then as_marked else a_machine).
Proof.
  constructor; [constructor; try done|].
  - constructor; try (by intros ? ->); by intros A c w' [].
  - by intros A c w' [B c' []| |].
  - intros name w' obj. apply found_by_name.
  - by left.
  - intros sig' Hin%list_elem_of_singleton _ _. done.
  - right. exists the_request. by split.
  - destruct w; vm_compute; reflexivity.
  - exists [], []. split_and!; [vm_compute; reflexivity|by apply not_elem_of_nil|]. by intros sig' ?%not_elem_of_nil.
Qed.

Example marked_in_the_first_round :
  marks_sent (trace (Reconcile (a_reconciler false) a_key (MkSys false [] empty_memory)).2) = [as_marked].
Proof. vm_compute. reflexivity. Qed.

Lemma restart_is_seen_through_witness :
  ∃ released, PatchMachine as_marked released true ∈
      trace (Reconcile (a_reconciler false) a_key (MkSys true [] empty_memory)).2 ∧ cleared as_marked released.
Proof.
  destruct (restart_is_seen_through (a_reconciler false) a_key (MkSys false [] empty_memory) a_cluster [boots false]
    [the_request] [a_machine] [a_check] (fun w => w = false) (fun w => w = false) restart_request a_machine (boots false))
    as (l & marked & Ht & Hin & _ & _ & _ & Hthen).
  - reflexivity.
  - apply (restarting_in_view false).
  - reflexivity.
  - discriminate.
  - reflexivity.
  - discriminate.
  - vm_compute. reflexivity.
  - vm_compute. reflexivity.
  - reflexivity.
  - reflexivity.
  - assert (Hm : marked ∈ [as_marked]).
    { rewrite <- marked_in_the_first_round, Ht. apply list_elem_of_omap.
      exists (PatchMachine a_machine marked false). split; [exact Hin|reflexivity]. }
    apply list_elem_of_singleton in Hm. subst marked.
    destruct (Hthen (MkSys true [] empty_memory) a_cluster [boots true] [the_request] [as_marked] [a_check]
      (fun w => w = true) (fun w => w = true) as_marked (boots true) the_request)
      as (l' & released & Ht' & _ & Hin' & Hclear).
    + apply (restarting_in_view true).
    + reflexivity.
    + reflexivity.
    + intros base updated w _. reflexivity.
    + intros k _. reflexivity.
    + vm_compute. reflexivity.
    + reflexivity.
    + discriminate.
    + discriminate.
    + reflexivity.
    + exists released. split; [rewrite Ht'; exact Hin'|exact Hclear].
Defined.
