(* ===== verification/Prevails.v ===== *)
(** * Several faults of one node

    Where the signals of a node call for different things in one poll, the most disruptive
    one prevails: a replacement is sent whatever the signals before it did to the Machine. *)

From S2P Require Import Prelude GoStrings Signal Decision Kube KubeModel WorldModel Calls Condition Extrr Capi Mode ClusterController ClusterFacts ReconcileFacts Memory Progress Rounds.
Open Scope stdpp_scope.

Definition unmarked `{KubeLib} (m : Machine) : Machine := set_annotations m (release_annotations (m_Annotations m)).

(** A Machine the pass may find in place of [m] later on: the same one, selected by the same
    checks, unmarked or marked for a restart, and, but for that mark, let be touched by the
    guards. *)
Record stands_for `{KubeLib} (checks : list MachineHealthCheck) (m m' : Machine) : Prop := {
  stands_key : machine_key m' = machine_key m;
  stands_coverage : CoverageOf checks m' = CoverageOf checks m;
  stands_mark : Guard m' = None ∨ MarkedAction m' = Some ActionRestart;
  stands_free : Guard (unmarked m') = None
}.

(** The patch that marks a Machine found in place of [m] for a replacement, or turns its
    restart mark into one, then under optimistic locking. *)
Definition replaces `{KubeLib} (m : Machine) (e : Effect) : Prop := ∃ base updated lock,
  e = PatchMachine base updated lock ∧ machine_key base = machine_key m ∧
  (Guard base = None ∨ MarkedAction base = Some ActionRestart ∧ lock = true) ∧
  MarkedAction updated = Some ActionRemediate.

(** As long as [L], the API server answers with Machines to go on with: nobody else holds
    the Machine, marks it or deletes it meanwhile. *)
Record undisturbed `{KubeLib} {W : Type} `{API W} (checks : list MachineHealthCheck) (L : W → Prop) (m : Machine) : Prop := {
  undisturbed_patched base updated lock w m' : L w → stands_for checks m updated →
    (SendPatchMachine base updated lock w).1 = Ok m' → stands_for checks m m';
  undisturbed_got w m' : L w → (GetMachine (machine_key m) w).1 = Ok m' → stands_for checks m m'
}.

(** The annotations that hold a Machine are none of those a mark consists of. *)
Lemma holds_not_marks `{KubeLib} `{!KubeLaws} k :
  k = PausedAnnotation ∨ k = MachineSkipRemediationAnnotation → k ∉ RemediateMachineAnnotation :: own_annotations.
Proof.
  pose proof capi_annotations_distinct as Hd. rewrite !NoDup_cons in Hd. set_unfold in Hd.
  intros Hk Hin. apply list.elem_of_cons in Hin as [->|Hin]; [by naive_solver|].
  apply own_annotation_foreign in Hin. naive_solver.
Qed.

Section machine.
Context `{KubeLib} `{!KubeLaws} (checks : list MachineHealthCheck) (m : Machine).

(** What the mark and its removal leave of a Machine. *)
Lemma unmarked_annotations m' a :
  (∀ k, k ∉ RemediateMachineAnnotation :: own_annotations → a !! k = m_Annotations m' !! k) →
  unmarked (set_annotations m' a) = unmarked m'.
Proof.
  intros Ha. unfold unmarked. simpl. f_equal. apply map_eq. intros k.
  destruct (release_clears m') as (_ & Hgone & Hkept), (release_clears (set_annotations m' a)) as (_ & Hgone' & Hkept').
  simpl in *. destruct (decide (k ∈ RemediateMachineAnnotation :: own_annotations)) as [Hk|Hk].
  - by rewrite Hgone, Hgone'.
  - by rewrite Hkept, Hkept', Ha.
Qed.

Lemma stands_unmarked m' : stands_for checks m m' → stands_for checks m (unmarked m').
Proof.
  intros [Hkey Hcov Hmark Hfree]. constructor; [exact Hkey|exact Hcov|by left|].
  unfold unmarked at 2. rewrite unmarked_annotations; [exact Hfree|]. by apply (release_clears m').
Qed.

Lemma stands_marked m' reason record :
  stands_for checks m m' →
  stands_for checks m (set_annotations m' (mark_annotations (m_Annotations m') ActionRestart reason record)).
Proof.
  intros [Hkey Hcov Hmark Hfree]. destruct (mark_lookup (m_Annotations m') ActionRestart reason record) as (Hm & Ha & Hkeep).
  constructor; [exact Hkey|exact Hcov| |].
  - right. unfold MarkedAction, IsMarkedForRemediation, has_key. simpl. by rewrite Hm, Ha.
  - by rewrite unmarked_annotations.
Qed.

Lemma stands_held m' : stands_for checks m m' → IsPaused m' || IsOptedOut m' = false ∧ m_Deleting m' = false.
Proof.
  intros [_ _ _ Hfree]. split; [|by apply guard_passes_iff in Hfree as (Hdel & _)].
  rewrite <- (guard_paused_or_opted_out _ Hfree). unfold IsPaused, IsOptedOut, has_key.
  destruct (release_clears m') as (_ & _ & Hkept). simpl in Hkept. unfold unmarked. simpl.
  rewrite !Hkept; [done|apply holds_not_marks..]; auto.
Qed.

(** The patches of a replacement. *)
Lemma mark_replaces m' reason record :
  stands_for checks m m' → Guard m' = None →
  replaces m (PatchMachine m' (set_annotations m' (mark_annotations (m_Annotations m') ActionRemediate reason record)) false).
Proof.
  intros Hm' Hg. do 3 eexists. split_and!; [done|by apply (stands_key _ _ _ Hm')|by left|].
  destruct (mark_lookup (m_Annotations m') ActionRemediate reason record) as (Hmark & Ha & _).
  unfold MarkedAction, IsMarkedForRemediation, has_key. simpl. by rewrite Hmark, Ha.
Qed.

Lemma escalation_replaces m' reason :
  stands_for checks m m' → MarkedAction m' = Some ActionRestart →
  replaces m (PatchMachine m' (set_annotations m' (escalate_annotations (m_Annotations m') reason)) true).
Proof.
  intros Hm' Hmarked. do 3 eexists. split_and!; [done|by apply (stands_key _ _ _ Hm')|by right|].
  exact (proj1 (escalated_mark_is_final m' reason None Hmarked)).
Qed.
End machine.

(** ** Patches that leave the Machine one to go on with *)

Section patching.
Context `{KubeLib} `{!KubeLaws} {W : Type} `{API W} (r : ClusterReconciler) (Hdry : r_DryRun r = false).
Context (checks : list MachineHealthCheck) (L : W → Prop) (m : Machine).
Context (HL : stable L (fun A c => api_other c)) (Hundisturbed : undisturbed checks L m).

Local Abbreviation K := (fun s : Sys W Memory => L (world s)).
Local Abbreviation stands := (stands_for checks m).
Section anything.
Context (P : Effect → Prop).
Local Abbreviation either := (sends_or K P).

#[local] Instance lasting : KeptOther K := kept_world_other L HL.

Lemma patch_machine_stands m' updated lock : stands updated →
  either (patch_machine m' updated lock) (fun res => ∀ m2, res = Ok m2 → stands m2).
Proof.
  intros Hup. unfold patch_machine.
  eapply (sends_or_bind _ _ _ _ (fun _ => True)); [apply sends_or_yields; [by apply spec_emit|apply other_emit|done]|..].
  { intros _. eapply spec_bind; [apply spec_call|]. intros ? _. by apply spec_ret. }
  intros _ _. eapply (sends_or_bind _ _ _ _ (fun res => ∀ m2, res = Ok m2 → stands m2)).
  - apply sends_or_call; [apply other_call, others_SendPatchMachine|]. intros s Hs m2 Hm2. destruct Hundisturbed as [Hp _]. by eapply Hp.
  - intros ?. by apply spec_ret.
  - intros [m2|e] Hres; apply sends_or_ret; [exact Hres|done].
Qed.

Lemma patch_then_event_stands {A} m' updated lock (f : Machine → A) (g : error → A) (event : Machine → Effect) (Q : A → Prop) :
  stands updated → (∀ m2, stands m2 → Q (f m2)) → (∀ e, Q (g e)) →
  either (res ← patch_machine m' updated lock;
          match res with Ok m2 => emit (event m2);; mret (f m2) | Err e => mret (g e) end) Q.
Proof.
  intros Hup Hf Hg. eapply sends_or_bind; [by apply patch_machine_stands|..].
  - intros [m2|e]; [|by apply spec_ret]. eapply spec_bind; [by apply spec_emit|]. intros _ _. by apply spec_ret.
  - intros [m2|e] Hres; [|by apply sends_or_ret].
    eapply (sends_or_bind _ _ _ _ (fun _ => True)); [apply sends_or_yields; [by apply spec_emit|apply other_emit|done]|..].
    + intros _. by apply spec_ret.
    + intros _ _. by apply sends_or_ret, Hf, Hres.
Qed.

Lemma Release_stands m' reason : stands m' → either (Release false m' reason) (fun res => stands res.1).
Proof.
  intros Hm'. unfold Release. destruct (MarkedAction m'); [|by apply sends_or_ret].
  destruct (m_Deleting m'); [by apply sends_or_ret|]. simpl.
  apply patch_then_event_stands; [by apply stands_unmarked|done|done].
Qed.
End anything.

(** The function that is retried, and its retries. *)
Definition standing (t : list Effect) (x : Sys W Memory * (Machine * bool)) : Prop :=
  ∃ l, trace x.1 = t ++ l ∧ stands x.2.1 ∧ K x.1.

Lemma release_now_stands t reason x : standing t x → standing t (release_now r reason x).2.
Proof.
  destruct x as [s [m' c]]. intros (l & Ht & Hm' & Hs). unfold release_now. simpl in *. rewrite Hdry.
  destruct (Release_stands (fun _ => False) m' reason Hm' s Hs) as (l2 & Ht2 & [Hl2|Hm2]).
  { by apply list.Exists_exists in Hl2 as (? & _ & []). }
  destruct (Release false m' reason s) as [[m2 [b|e]] s']; exists (l ++ l2); simpl in *;
    (split; [by rewrite Ht2, Ht, (assoc_L (++))|exact Hm2]).
Qed.

Lemma release_attempt_stands t answered reason x : standing t x → standing t (release_attempt r answered reason x).2.
Proof.
  destruct x as [s [m' [|]]]; intros Hx; [|by apply release_now_stands].
  pose proof Hx as (l & Ht & Hm' & Hs). simpl in *. unfold call.
  assert (Hread : L (GetMachine (machine_key m') (world s)).2) by (apply HL; [do 2 constructor|exact Hs]).
  assert (Hgot : ∀ m2, (GetMachine (machine_key m') (world s)).1 = Ok m2 → stands m2).
  { intros m2 Hm2. rewrite (stands_key _ _ _ Hm') in Hm2. destruct Hundisturbed as [_ Hg]. exact (Hg _ _ Hs Hm2). }
  destruct (GetMachine (machine_key m') (world s)) as [[m2|e] w]; simpl in *; [|by exists l].
  assert (Hx2 : standing t (MkSys w (trace s) (memory s), (m2, true))) by (exists l; by auto).
  case_decide; [exact Hx2|exact (release_now_stands t reason _ Hx2)].
Qed.

Lemma releaseAnswered_stands m' reason :
  stands m' → doing K (releaseAnswered r m' reason) (fun res _ s => stands res.1 ∧ K s).
Proof.
  intros Hm' s Hs. unfold releaseAnswered. destruct retry_on_conflict_bounded as [n ->].
  enough (standing (trace s) (retry_times (S n) (release_attempt r (restartMarkOf m') reason) (s, (m', false))).2)
    as (l & Ht & Hend) by (exists l; by destruct (retry_times _ _ _) as [? [? [? ?]]]).
  apply (retry_times_inv n _ (standing (trace s)) (standing (trace s))).
  - intros x Hx. pose proof (release_attempt_stands _ (restartMarkOf m') reason x Hx). auto.
  - exists []. by rewrite app_nil_r.
Qed.
End patching.
(** ** Handling a signal of the node *)

Section handling.
Context `{KubeLib} `{!KubeLaws} {W : Type} `{API W} (r : ClusterReconciler) (Hdry : r_DryRun r = false).
Context (checks : list MachineHealthCheck) (L : W → Prop) (m : Machine).
Context (HL : stable L (fun A c => api_other c)) (Hundisturbed : undisturbed checks L m).

Local Abbreviation K := (fun s : Sys W Memory => L (world s)).
Local Abbreviation stands := (stands_for checks m).
Local Abbreviation either := (sends_or K (replaces m)).

#[local] Instance handling_lasts : KeptOther K := kept_world_other L HL.

Lemma MarkForRemediation_stands m' action reason record :
  stands m' → action = ActionRestart ∨ action = ActionRemediate →
  either (MarkForRemediation false m' action reason record) (fun res => stands res.1).
Proof.
  intros Hm' [->| ->].
  - unfold MarkForRemediation. destruct (Guard m'); [by apply sends_or_ret|]. simpl.
    by apply (patch_then_event_stands checks L m HL Hundisturbed); [apply stands_marked|..].
  - destruct (Guard m') as [skip|] eqn:Hg; [unfold MarkForRemediation; rewrite Hg; by apply sends_or_ret|].
    apply sends_sends_or, sends_runs. eapply runs_weaken; [by apply MarkForRemediation_runs|].
    intros res l (rest & -> & _). left. by apply (mark_replaces checks).
Qed.

Lemma Escalate_stands m' reason : stands m' → either (Escalate false m' reason) (fun res => stands res.1).
Proof.
  intros Hm'. destruct (decide (MarkedAction m' = Some ActionRestart)) as [Hmarked|Hmarked].
  - apply sends_sends_or, sends_runs. eapply runs_weaken; [apply Escalate_runs; [done|by apply (stands_held checks m)]|].
    intros res l (reason' & rest & ->). left. by apply (escalation_replaces checks).
  - unfold Escalate. rewrite bool_decide_eq_false_2 by done. by apply sends_or_ret.
Qed.

Local Abbreviation anything := (fun _ => True).
#[local] Hint Extern 1 (spec _ (report _ _ _ _ _ _) _) => (by apply report_spec) : remediator.
#[local] Hint Extern 1 (spec _ (heldForChecks _ _) _) => (by apply heldForChecks_spec) : remediator.
#[local] Hint Extern 1 (spec _ (RecordSkipped _ _ _ _ _) _) => (by apply RecordSkipped_spec) : remediator.
#[local] Hint Extern 1 (spec _ (MarkForRemediation _ _ _ _ _) _) => (by apply MarkForRemediation_spec) : remediator.

(** Code that tells or reads something and goes on. *)
Lemma stands_after {A B} (c : state (Sys W Memory) A) (k : A → state (Sys W Memory) B) (Q : B → Prop) :
  spec anything c anything → keeps K c → (∀ a, spec anything (k a) anything) → (∀ a, either (k a) Q) → either (c ≫= k) Q.
Proof.
  intros Hc Hk Hany Hq. eapply (sends_or_bind _ _ _ _ anything); [by apply sends_or_yields|exact Hany|]. intros a _. apply Hq.
Qed.

Lemma hand_over_stands cluster sig p cov m' node obs previous :
  stands m' → p_action p = ActionRestart ∨ p_action p = ActionRemediate →
  either (hand_over r cluster sig p cov m' node obs previous) (fun res => stands res.1).
Proof.
  intros Hm' Ha. unfold hand_over. cbv zeta. rewrite Hdry.
  destruct (p_restart p && _).
  { apply stands_after; [spec_walk|keeps_steps|intros; spec_walk|intros; by apply sends_or_ret]. }
  destruct (negb _ && _).
  { apply stands_after; [spec_walk|keeps_steps|intros; spec_walk|intros; by apply sends_or_ret]. }
  apply stands_after; [destruct (p_restart p); spec_walk| |intros [[] ?]; cbn [fst]; spec_walk|].
  { destruct (p_restart p); [by apply heldForChecks_world|apply keeps_ret]. }
  intros [[] d]; [by apply sends_or_ret|]. cbn [fst].
  eapply sends_or_bind; [by apply MarkForRemediation_stands|intros [m2 []]; spec_walk|].
  intros [m2 []] Hm2; by apply sends_or_ret.
Qed.
#[local] Hint Extern 1 (spec _ (hand_over _ _ _ _ _ _ _ _ _) _) => (by apply hand_over_spec) : remediator.

#[local] Hint Extern 1 (spec _ (releaseAnswered _ _ _) _) => (by apply releaseAnswered_spec) : remediator.

Lemma remediate_stands cluster sig outcome m' node obs previous :
  stands m' → either (remediate r cluster checks sig outcome m' node obs previous) (fun res => stands res.1).
Proof.
  intros Hm'. unfold remediate. case_match; [by apply sends_or_ret|]. cbv zeta. rewrite Hdry.
  apply (sends_or_bind _ _ _ _ (fun res => stands res.1)).
  - case_match; [by apply Escalate_stands|by apply sends_or_ret].
  - intros [m2 res]. spec_walk.
  - intros [m2 [b|e]] Hm2; [|by apply sends_or_ret]. simpl in Hm2. destruct (Guard m2).
    + apply stands_after; [spec_walk|keeps_steps|intros; spec_walk|intros; by apply sends_or_ret].
    + apply hand_over_stands; [done|apply make_plan_action].
Qed.

Local Abbreviation stands_still := (fun machine => ∃ m', machine = Some m' ∧ stands m').

Lemma handle_stands cluster mode sig m' node previous :
  stands m' → either (handle r cluster mode checks sig (Some m') node previous) (fun res => stands_still res.1).
Proof.
  intros Hm'. unfold handle. cbv zeta. case_match; [apply sends_or_ret; by eexists|].
  destruct (out_Decision (decided r mode sig)) eqn:E in |- *.
  - apply stands_after; [spec_walk|keeps_steps|intros; spec_walk|intros; apply sends_or_ret; by eexists].
  - eapply sends_or_bind; [by apply remediate_stands|intros; spec_walk|]. intros res Hres. apply sends_or_ret. by eexists.
  - eapply sends_or_bind; [by apply remediate_stands|intros; spec_walk|]. intros res Hres. apply sends_or_ret. by eexists.
Qed.

Lemma answer_request_stands key cluster m' sig a :
  stands m' → (∀ complete reason message, keeps K (Answer key (sig_Request sig) complete reason message)) →
  either (answer_request r key cluster (Some m') sig a) stands_still.
Proof.
  intros Hm' Hans. unfold answer_request. rewrite Hdry.
  apply stands_after; [eapply spec_weaken; [apply answer_spec|done|done]|apply Hans|..].
  { intros [[]|e]; spec_walk. }
  intros [[]|e]; [|apply sends_or_ret; by eexists..].
  apply stands_after; [spec_walk|apply other_emit|intros _; spec_walk|]. intros _. destruct (an_Complete a); [|apply sends_or_ret; by eexists].
  eapply (sends_or_bind _ _ _ _ (fun res => stands res.1)).
  - eapply doing_weaken; [by apply (releaseAnswered_stands r Hdry checks L m HL Hundisturbed)|done|]. intros res l s Hs. by right.
  - intros res. spec_walk.
  - intros res Hres. apply sends_or_ret. by eexists.
Qed.

(** The Machine of a node stands for [m] after a turn of the loop as before. *)
Definition stands_at (node : string) (machines : gmap string Machine) : Prop :=
  ∃ m', machines !! node = Some m' ∧ stands m'.

Lemma handle_signal_stands key cluster mode nodes previous sig ps :
  (∀ complete reason message, keeps K (Answer key (sig_Request sig) complete reason message)) →
  stands_at (sig_Node sig) (ps_machines ps) →
  either (handle_signal r key cluster mode checks nodes previous sig ps) (fun ps' => stands_at (sig_Node sig) (ps_machines ps')).
Proof.
  intros Hans (m' & Hm & Hm'). unfold handle_signal. cbv zeta. rewrite Hm.
  eapply sends_or_bind; [by apply handle_stands|..].
  { intros [machine obs]. apply (spec_bind _ _ _ anything); [|intros; by apply spec_ret].
    destruct (given _); [by apply answer_request_any|by apply spec_ret]. }
  intros [machine obs] (m2 & Hm2 & Hs2). simpl in Hm2. subst machine.
  apply (sends_or_bind _ _ _ _ stands_still).
  - destruct (given _); [by apply answer_request_stands|apply sends_or_ret; by eexists].
  - intros; by apply spec_ret.
  - intros machine (m3 & -> & Hs3). apply sends_or_ret. exists m3. simpl. by rewrite lookup_insert_eq.
Qed.

Lemma signal_step_stands key cluster mode nodes previous sig ps :
  (∀ complete reason message, keeps K (Answer key (sig_Request sig) complete reason message)) →
  stands_at (sig_Node sig) (ps_machines ps) →
  either (signal_step r key cluster mode checks nodes previous sig ps) (fun ps' => stands_at (sig_Node sig) (ps_machines ps')).
Proof.
  intros Hans Hps. unfold signal_step. case_decide; [by apply handle_signal_stands|].
  apply stands_after; [apply IsPending_spec|apply IsPending_keeps, _| |].
  - intros [[]|e]; [by apply handle_signal_spec|by apply spec_ret..].
  - intros [[]|e]; [by apply handle_signal_stands|by apply sends_or_ret..].
Qed.
(** The signal that calls for the replacement. *)
Lemma signal_replaces key cluster mode nodes sig previous ps :
  mode ≠ ModeReportOnly → sig_Request sig = "" ∨ is_Some (nodes !! sig_Node sig) →
  call_for (out_Decision (Decide (r_Table r) sig)) (restartFallback r cluster).1 (CoverageOf checks m) = Some ActionRemediate →
  out_Decision (Decide (r_Table r) sig) = Replace ∨ sig_Request sig = "" →
  stands_at (sig_Node sig) (ps_machines ps) →
  sends K (replaces m) (handle_signal r key cluster mode checks nodes previous sig ps).
Proof.
  intros Hmode Hnode Hcall Hd (m' & Hm & Hm'). rewrite <- (stands_coverage _ _ _ Hm') in Hcall.
  destruct (stands_mark _ _ _ Hm') as [Hg|Hmarked].
  - eapply doing_weaken; [by apply (signal_marks_machine r key cluster mode checks nodes sig m' K Hdry Hmode Hnode ActionRemediate)|done|].
    intros a l s Hl. eapply Exists_impl; [exact Hl|]. intros e (reason & ->). by apply (mark_replaces checks).
  - destruct (stands_held _ _ _ Hm') as [Hfree Hdel].
    eapply doing_weaken; [apply (signal_escalates_machine r key cluster mode checks nodes sig m' K Hdry Hmode Hnode); try done|done|].
    + destruct Hd as [?|?]; [by left|by right].
    + intros a l s Hl. eapply Exists_impl; [exact Hl|]. intros e (reason & ->). by apply (escalation_replaces checks).
Qed.
End handling.

(** C11: the replacement prevails. When the signals of a node call for different things in one
    poll, and one of them, wherever it comes in the order, calls for a replacement the
    checks of the Machine carry out, outright or, asked by a condition, in place of a restart
    they cannot: as long as nobody else interferes with the Machine, and whatever the signals
    before it made of it, a restart mark set by them or by an earlier poll, or taken off with
    an answer, the reconcile sends the patch that marks the Machine for a replacement or
    turns its restart mark into one. *)
Theorem replacement_prevails `{KubeLib} {HK : KubeLaws} {W : Type} `{API W} (r : ClusterReconciler)
    (key : ObjectKey) (s : Sys W Memory) (cluster : Cluster) (mode : Mode) (nodes : list Node)
    (requests : list Unstructured) (machines : list Machine) (checks : list MachineHealthCheck)
    (J L : W → Prop) (sig : Signal) (m : Machine)
    (Hdry : r_DryRun r = false) (Hmode : mode ≠ ModeReportOnly)
    (Hsight : in_sight r key cluster mode nodes requests machines checks J L sig m) (HJ : J (world s))
    (Hnode : sig_Request sig = "" ∨ is_Some (nodes_named nodes !! sig_Node sig))
    (Hcall : call_for (out_Decision (Decide (r_Table r) sig)) (restartFallback r cluster).1
      (CoverageOf (cluster_checks cluster checks) m) = Some ActionRemediate)
    (Hd : out_Decision (Decide (r_Table r) sig) = Replace ∨ sig_Request sig = "")
    (Hmark : Guard m = None ∨ MarkedAction m = Some ActionRestart) (Hfree : Guard (unmarked m) = None)
    (Hundisturbed : undisturbed (cluster_checks cluster checks) L m) :
  ∃ l, trace (Reconcile r key s).2 = trace s ++ l ∧ Exists (replaces m) l.
Proof.
  destruct (Reconcile_trace r key s) as [l Ht]. exists l. split; [done|].
  pose proof Hsight as [Hst HL _ _ HJL Hact Hsig _ Hpend Hm]. pose proof (kept_world_other (R:=Memory) L HL) as HKept.
  destruct (list_elem_of_split_l _ _ Hsig) as (pre & post & Hsplit & Hnew).
  apply (Reconcile_sends r key cluster mode nodes requests machines checks J sig Hst Hact pre post Hsplit
    (fun s => L (world s)) (stands_at (cluster_checks cluster checks) m (sig_Node sig)) _ s l Hpend); [by auto| | |..|done|done].
  - exists m. split; [done|by constructor].
  - intros previous sig' ps Hin Hps.
    assert (Hans : ∀ complete reason message, keeps (R:=Memory) (fun s => L (world s)) (Answer key (sig_Request sig') complete reason message)).
    { eapply sight_answers_elsewhere; [exact Hsight|rewrite Hsplit; set_solver|by intros ->]. }
    destruct (decide (sig_Node sig' = sig_Node sig)) as [Hsame|Hother].
    + rewrite <- Hsame in Hps |- *. by apply signal_step_stands.
    + eapply doing_weaken; [apply (signal_step_other r key cluster mode nodes checks sig (fun s => L (world s)) previous sig' ps)|done|].
      * by left.
      * apply (signal_step_keeps r _ cluster (fun _ => True)); [by intros dry m' reason _ s1| |done|exact Hans].
        intros m' _. by apply heldForChecks_world.
      * intros ps' l' s' [Hps' Hs']. right. unfold stands_at. by rewrite Hps'.
  - intros previous ps Hps. by apply signal_replaces.
Qed.

(** ** Witness: a node of whose faults the first calls for a restart, the next for a replacement. *)

#[local] Existing Instance lib.
#[local] Existing Instance lib_laws.
#[local] Existing Instance detecting.

(** The first fault has the Machine marked, the second turns the mark. *)
Example restart_then_replacement :
  omap (fun e => match e with PatchMachine base updated _ => Some (MarkedAction base, MarkedAction updated) | _ => None end)
    (trace (Reconcile (a_reconciler false) a_key (MkSys tt [] empty_memory)).2)
  = [(None, Some ActionRestart); (Some ActionRestart, Some ActionRemediate)].
Proof. vm_compute. reflexivity. Qed.

Lemma replacement_prevails_witness :
  Exists (replaces a_machine) (trace (Reconcile (a_reconciler false) a_key (MkSys tt [] empty_memory)).2).
Proof.
  destruct (replacement_prevails (a_reconciler false) a_key (MkSys tt [] empty_memory) a_cluster ModeNodeCondition
    [node_with_faults] [] [a_machine] [a_check] (fun _ => True) (fun _ => True) link_signal a_machine) as (l & Ht & Hl).
  - reflexivity.
  - discriminate.
  - constructor; [constructor; try done; reflexivity|..]; try done; try reflexivity.
    + unfold signals_in. rewrite faults_read. right. right. by left.
    + by left.
  - done.
  - left. reflexivity.
  - vm_compute. reflexivity.
  - left. vm_compute. reflexivity.
  - left. reflexivity.
  - vm_compute. reflexivity.
  - constructor.
    + intros base updated lock w m' _ Hup [= <-]. exact Hup.
    + intros w m' _ Hm'. assert (Ok m' = Ok (E:=error) a_machine) as [= ->] by (rewrite <- Hm'; reflexivity).
      constructor; [reflexivity|reflexivity|by left|vm_compute; reflexivity].
  - rewrite Ht. exact Hl.
Defined.
