(* ===== verification/Order.v ===== *)
(** * The order of maps

    Go ranges over a map in an order of its own. The model reads a map as [map_to_list]; no
    order makes a difference to what the cluster controller concludes from its maps. *)

From S2P Require Import Prelude GoStrings Signal Decision Kube KubeModel WorldModel Condition Extrr Capi Mode ClusterController ClusterFacts ReconcileFacts.
Open Scope stdpp_scope.

(** A loop whose turns commute, where they are turns for distinct keys. *)
Lemma foldl_permutation {A B K} (f : A → B → A) (key : B → K) l l' :
  (∀ a x y, key x ≠ key y → f (f a x) y = f (f a y) x) → l ≡ₚ l' → NoDup (key <$> l) →
  ∀ a, foldl f a l = foldl f a l'.
Proof.
  intros Hf. induction 1 as [|x l l' Hl IH|x y l|l l' l'' H1 IH1 H2 IH2]; intros Hn a; simpl; [done|..].
  - apply IH. by apply NoDup_cons in Hn as [_ ?].
  - rewrite Hf; [done|]. rewrite !fmap_cons, !NoDup_cons in Hn. set_solver.
  - rewrite IH1 by done. apply IH2. by rewrite <- H1.
Qed.

(** The same where all turns commute. *)
Lemma foldl_permutation_any {A B} (f : A → B → A) l l' :
  (∀ a x y, f (f a x) y = f (f a y) x) → l ≡ₚ l' → ∀ a, foldl f a l = foldl f a l'.
Proof.
  intros Hf. induction 1 as [|x l l' Hl IH|x y l|l l' l'' H1 IH1 H2 IH2]; intros a; simpl; [done|..].
  - apply IH.
  - by rewrite Hf.
  - by rewrite IH1.
Qed.

(** The loop of [nodeOf], over the nodes and their Machines in a certain order. *)
Definition nodes_of (entries : list (string * Machine)) : gmap string string :=
  foldl (fun out p => <[m_Name p.2 := p.1]> out) ∅ entries.

Lemma nodes_of_permutation entries entries' :
  entries ≡ₚ entries' → NoDup (m_Name <$> entries.*2) → nodes_of entries = nodes_of entries'.
Proof.
  intros Hp Hn. unfold nodes_of. apply (foldl_permutation _ (fun p => m_Name p.2)); [|done|by rewrite <- list_fmap_compose in Hn].
  intros out x y Hne. by rewrite insert_insert_ne.
Qed.

(** What the observations hold depends on which there are. *)
Lemma holds_permutation `{KubeLib} machines nodes asking l l' :
  l ≡ₚ l' → holds machines nodes asking l = holds machines nodes asking l'.
Proof.
  intros Hp. assert (Hin : ∀ obs, obs ∈ l ↔ obs ∈ l') by (intros; by rewrite Hp).
  destruct (holds_exactly machines nodes asking l) as [Hheld Hleft], (holds_exactly machines nodes asking l') as [Hheld' Hleft'].
  apply injective_projections.
  - apply set_eq. intros name. rewrite Hheld, Hheld'. by setoid_rewrite Hin.
  - apply map_eq. intros name. apply option_eq. intros w. rewrite Hleft, Hleft'. unfold least_waiting. by setoid_rewrite Hin.
Qed.

(** The loop over the waits. *)
Lemma sooner_comm now wait1 wait2 next :
  sooner now wait2 (sooner now wait1 next) = sooner now wait1 (sooner now wait2 next).
Proof.
  unfold sooner. set (l1 := wrap_int64 _). set (l2 := wrap_int64 _). clearbody l1 l2.
  destruct (over wait1), (over wait2); simpl; try done; repeat case_match; lia.
Qed.

Lemma keys_of_map {V} (m : gmap string V) : (map_to_list m).*1 ≡ₚ elements (dom m).
Proof.
  apply NoDup_Permutation; [apply NoDup_fst_map_to_list|apply NoDup_elements|]. intros k.
  rewrite elem_of_elements, elem_of_dom, list_elem_of_fmap. split.
  - intros ([k' v] & -> & Hkv%elem_of_map_to_list). by exists v.
  - intros [v Hv%elem_of_map_to_list]. by exists (k, v).
Qed.

(** C26: it does not matter in which order Go ranges over the maps of the cluster controller.
    Whatever order [range] picks for each map, for Machines that no two nodes share the name
    of, the node found for each Machine is the same, the pass holds the same Machines and
    names the same request as waiting for a mark that is left over, releases in the same
    order, forgets the same waits, and the Cluster is looked at again at the same time. *)
Theorem map_order_is_immaterial `{KubeLib} (range : ∀ V, gmap string V → list (string * V))
    (Hrange : ∀ V (m : gmap string V), range V m ≡ₚ map_to_list m)
    (machines : gmap string Machine) (nodes : gmap string Node) (asking : gset string)
    (current : gmap string observation) (waits : gmap string checksWait) (now poll : Z)
    (Hnames : ∀ node node' m m', machines !! node = Some m → machines !! node' = Some m' →
      m_Name m = m_Name m' → node = node') :
  nodes_of (range _ machines) = nodeOf machines ∧
  holds machines nodes asking (snd <$> range _ current) = holds machines nodes asking (snd <$> map_to_list current) ∧
  sort_by String.le (fst <$> range _ machines) = sorted_keys machines ∧
  pending_names (snd <$> range _ machines) = pending_names (snd <$> map_to_list machines) ∧
  next_look now poll (snd <$> range _ waits) = next_look now poll (snd <$> map_to_list waits).
Proof.
  split_and!.
  - apply nodes_of_permutation; [apply Hrange|]. rewrite Hrange. rewrite <- list_fmap_compose.
    apply NoDup_fmap_2_strong; [|apply NoDup_map_to_list].
    intros [node m] [node' m'] Hm%elem_of_map_to_list Hm'%elem_of_map_to_list Heq. simpl in Heq.
    assert (node = node') as -> by (by eapply Hnames). by simplify_eq.
  - apply holds_permutation. by rewrite Hrange.
  - symmetry. apply (sort_by_unique String.le); [apply (Sorted_sort_by String.le)|]. unfold sorted_keys.
    rewrite sort_by_Permutation, Hrange. symmetry. apply keys_of_map.
  - apply set_eq. intros x. unfold pending_names. rewrite !elem_of_list_to_set. by rewrite Hrange.
  - apply foldl_permutation_any; [intros; apply sooner_comm|by rewrite Hrange].
Qed.

(** ** Witness: the maps read backwards, with two requests that wait for one Machine. *)

#[local] Existing Instance lib.

Definition backwards V (m : gmap string V) : list (string * V) := reverse (map_to_list m).

(** The mark of a restart that is over, which a request that was answered asked for. *)
Definition left_marked : Machine :=
  set_annotations a_machine (mark_annotations ∅ ActionRestart "" (MkRecord "boot-1" "req-0")).

Definition waits_for (request : string) : observation :=
  MkObs (Some Restart) "RESTART_VM" false (m_Name a_machine) request None "" "" no_answer.

Definition two_waiting : gmap string observation := {["check-1" := waits_for "req-2"; "check-2" := waits_for "req-1"]}.

Lemma map_order_is_immaterial_witness :
  (snd <$> backwards _ two_waiting) ≠ (snd <$> map_to_list two_waiting) ∧
  (holds {["node-1" := left_marked]} {["node-1" := a_node "boot-2"]} ∅ (snd <$> backwards _ two_waiting)).2
    = {[m_Name a_machine := "req-1"]}.
Proof.
  split; [vm_compute; discriminate|].
  destruct (map_order_is_immaterial backwards (fun V m => reverse_Permutation (map_to_list m)) {["node-1" := left_marked]}
    {["node-1" := a_node "boot-2"]} ∅ two_waiting ∅ 0 0) as (_ & Hholds & _).
  - intros node node' m m' [<- _]%lookup_singleton_Some [<- _]%lookup_singleton_Some _. reflexivity.
  - rewrite Hholds. vm_compute. reflexivity.
Defined.
