(* ===== verification/Settled.v ===== *)
(** * A settled cluster is quiet

    A reconcile that finds what the one before it found, and that one wrote nothing, sends
    nothing: neither writes nor the Events that tell of its conclusions. What code concludes
    without writing is a function of what it reads, whatever was concluded before. *)

From S2P Require Import Prelude GoStrings Signal Decision Kube KubeModel WorldModel Calls Condition Extrr Capi Mode ClusterController ClusterFacts ReconcileFacts Memory Progress.
Open Scope stdpp_scope.

(** ** Writing, or concluding *)

Definition is_write (e : Effect) : Prop := ¬ is_event e.

#[export] Instance is_event_dec e : Decision (is_event e).
Proof. destruct e; simpl; apply _. Defined.

Section settles.
Context {W R : Type}.
Implicit Types (K : Sys W R → Prop).

(** [settles K c o told]: as long as [K], [c] writes, where [o] is [None]; or it yields
    [a], where [o] is [Some a], sends nothing but Events, and not even them when [told],
    and leaves [K]. *)
Definition settles {A} K (c : state (Sys W R) A) (o : option A) (told : Prop) : Prop :=
  match o with
  | Some a => doing K c (fun res l s => res = a ∧ Forall is_event l ∧ (told → l = []) ∧ K s)
  | None => sends K is_write c
  end.

Lemma settles_ret {A} K (a : A) told : settles K (mret a) (Some a) told.
Proof. by apply doing_ret. Qed.

Lemma settles_reads {A} K (c : state (Sys W R) A) a told : reads K c (fun x => x = a) → settles K c (Some a) told.
Proof. intros Hc. eapply doing_weaken; [exact Hc|done|]. intros x l s (-> & -> & Hs). by split_and!. Qed.

Lemma settles_weaken {A} K (c : state (Sys W R) A) o (told told' : Prop) :
  settles K c o told → (told' → told) → settles K c o told'.
Proof.
  intros Hc Ht. destruct o as [a|]; [|done]. eapply doing_weaken; [exact Hc|done|].
  intros x l s (-> & Hl & Hn & Hs). split_and!; auto.
Qed.

Lemma settles_bind {A B} K (c : state (Sys W R) A) (k : A → state (Sys W R) B) o o' told :
  settles K c o told → (∀ a, o = Some a → settles K (k a) (o' a) told) →
  (∀ a, spec (fun _ => True) (k a) (fun _ => True)) → settles K (c ≫= k) (o ≫= o') told.
Proof.
  intros Hc Hk Hany. destruct o as [a|]; simpl in *; [|by apply sends_first].
  specialize (Hk a eq_refl). unfold settles in Hk |- *. destruct (o' a) as [b|].
  - eapply doing_bind; [exact Hc|]. intros x l1. apply doing_pure. intros ->. apply doing_pure. intros Hl1.
    apply doing_pure. intros Hn1. eapply doing_weaken; [exact Hk|done|]. intros y l2 s (-> & Hl2 & Hn2 & Hs).
    split_and!; [done|by apply Forall_app| |done]. intros Ht. by rewrite Hn1, Hn2.
  - eapply doing_bind; [exact Hc|]. intros x l1. apply doing_pure. intros ->. do 2 (apply doing_pure; intros _).
    eapply doing_weaken; [exact Hk|done|]. intros y l2 s Hl2. apply Exists_app. by right.
Qed.

(** What is known once the write is in. *)
Lemma settles_writes {A} K (c : state (Sys W R) A) told : runs c (fun _ l => Exists is_write l) → settles K c None told.
Proof. apply sends_runs. Qed.

Lemma patch_machine_writes `{API W} {A} (m updated : Machine) lock (k : result error Machine → state (Sys W R) A) :
  (∀ a, spec (fun _ => True) (k a) (fun _ => True)) →
  runs (r ← patch_machine m updated lock; k r) (fun _ l => Exists is_write l).
Proof.
  intros Hk. eapply (runs_bind _ _ (fun _ l => l = [PatchMachine m updated lock])).
  - unfold patch_machine. eapply runs_bind; [apply runs_emit|]. intros _ l ->.
    eapply runs_bind; [apply runs_call|]. intros res l ->. by apply runs_ret.
  - intros res l ->. eapply runs_weaken; [apply spec_runs, Hk|]. intros a l _. left. by intros [].
Qed.
End settles.

(** ** What is concluded of a signal *)

Section handling.
Context `{KubeLib} `{!KubeLaws} {W : Type} `{API W} (r : ClusterReconciler) (key : ObjectKey) (cluster : Cluster).
Context (mode : Mode) (checks : list MachineHealthCheck) (nodes : gmap string Node).
Context (answers : string → result error Unstructured).

(** What lasts through a pass that writes nothing: Events and reads leave it, and what the
    memory is told on the way. *)
Record fixed (K : Sys W Memory → Prop) : Prop := {
  fixed_emit e : keeps K (emit e);
  fixed_get name : reads K (call (GetRequest key name)) (fun a => a = answers name);
  fixed_held m : EarlierMarkPending m = false → keeps K (heldForChecks (cluster_key cluster) m);
  fixed_would names : keeps K (rememberWouldRelease key names)
}.

(** [concludes m c o]: the code, given what was concluded before, writes or concludes [o],
    with the Machine as it was; and says so only when that is news. *)
Definition concludes {B} (m : B) (c : observation → state (Sys W Memory) (B * observation))
    (o : option (B * observation)) : Prop :=
  (∀ a, o = Some a → a.1 = m) ∧
  ∀ K, fixed K → ∀ previous, settles K (c previous) o (∀ a, o = Some a → a.2 = previous).

Lemma concludes_ret {B} (m : B) obs : concludes m (fun _ => mret (m, obs)) (Some (m, obs)).
Proof. split; [by intros a [= <-]|]. intros K _ previous. apply settles_ret. Qed.

Lemma concludes_writes {B} (m : B) c :
  (∀ previous, runs (c previous) (fun _ l => Exists is_write l)) → concludes m c None.
Proof. intros Hc. split; [done|]. intros K _ previous. apply sends_runs, Hc. Qed.

Lemma settles_event K e (told : Prop) : fixed K → ¬ told → is_event e → settles K (emit e) (Some tt) told.
Proof.
  intros HK Ht He. eapply doing_weaken; [apply doing_emit, (fixed_emit K HK)|done|].
  intros [] l s [-> Hs]. split_and!; [done|by repeat constructor|done|done].
Qed.

Lemma concludes_report {B} (m : B) obs object reason action message :
  concludes m (fun previous =>
    report r (bool_decide (obs ≠ previous)) object reason action message;; mret (m, obs)) (Some (m, obs)).
Proof.
  split; [by intros a [= <-]|]. intros K HK previous.
  assert (Hr : settles K (report (W:=W) r (bool_decide (obs ≠ previous)) object reason action message) (Some tt) (obs = previous)).
  { unfold report. case_bool_decide as Hn; [|apply settles_ret]. simpl. destruct (r_DryRun r); [apply settles_ret|].
    destruct object as [o|]; [|apply settles_ret]. by apply settles_event. }
  eapply settles_weaken; [eapply (settles_bind K _ _ (Some tt) (fun _ => Some (m, obs)));
    [exact Hr|intros; apply settles_ret|intros; by apply spec_ret]|]. intros Hn. exact (Hn _ eq_refl).
Qed.

(** Behind what is done without a word. *)
Lemma concludes_after {A B} (m : B) (c : state (Sys W Memory) A) a k o :
  (∀ K, fixed K → settles K c (Some a) True) → concludes m (k a) o →
  (∀ a previous, spec (fun _ => True) (k a previous) (fun _ => True)) →
  concludes m (fun previous => x ← c; k x previous) o.
Proof.
  intros Hc [Hm Hk] Hany. split; [done|]. intros K HK previous.
  apply (settles_bind K c (fun x => k x previous) (Some a) (fun _ => o)); [|intros x [= <-]; by apply Hk|intros; apply Hany].
  eapply settles_weaken; [by apply Hc|done].
Qed.

Lemma heldForChecks_settles K m : fixed K → EarlierMarkPending m = false →
  settles K (heldForChecks (cluster_key cluster) m) (Some (false, 0%Z)) True.
Proof.
  intros HK Hm. apply settles_reads. intros s Hs. pose proof (fixed_held K HK m Hm s Hs) as Hk. exists [].
  rewrite app_nil_r. revert Hk. unfold heldForChecks, mbind, state_bind, get_memory. simpl. by rewrite Hm.
Qed.

Lemma hand_over_concludes_settled sig p cov m node obs :
  EarlierMarkPending m = false → Guard m = None →
  ∃ o, concludes m (fun previous => hand_over r cluster sig p cov m node obs previous) o.
Proof.
  intros Hm Hg. unfold hand_over. cbv zeta. destruct (p_restart p && p_restartUnavailable p);
    [eexists; apply concludes_report|].
  destruct (negb (p_restart p) && negb (Covered cov)); [eexists; apply concludes_report|].
  destruct (r_DryRun r) eqn:Hd; eexists.
  - eapply (concludes_after m _ (false, 0%Z)).
    + intros K HK. destruct (p_restart p); [by apply heldForChecks_settles|apply settles_ret].
    + simpl. apply concludes_ret.
    + intros [[] d] previous; by apply spec_ret.
  - eapply (concludes_after m _ (false, 0%Z)).
    + intros K HK. destruct (p_restart p); [by apply heldForChecks_settles|apply settles_ret].
    + simpl. apply concludes_writes. intros previous. eapply runs_bind.
      * unfold MarkForRemediation. rewrite Hg. apply patch_machine_writes. intros [m'|e]; [|by apply spec_ret].
        eapply spec_bind; [by apply spec_emit|]. intros _ _. by apply spec_ret.
      * intros [m' [x|e]] l Hl; apply runs_ret; by rewrite app_nil_r.
    + intros [[] d] previous; [by apply spec_ret|]. simpl.
      eapply spec_bind; [by apply MarkForRemediation_spec|]. intros [m' [x|e]] _; by apply spec_ret.
Qed.

Lemma remediate_concludes_settled sig outcome m node obs :
  EarlierMarkPending m = false →
  ∃ o, concludes m (fun previous => remediate r cluster checks sig outcome m node obs previous) o.
Proof.
  intros Hm. unfold remediate. destruct (_ && _ && _ && _); [eexists; apply concludes_ret|]. cbv zeta.
  set (p := make_plan r cluster outcome _). set (escalates := negb (p_restart p) && _). clearbody escalates.
  assert (Hany : ∀ (x : Machine * result error bool) previous, spec (W:=W) (R:=Memory) (fun _ => True)
    (let '(machine, res) := x in match res with
      | Err _ => mret (machine, no_observation)
      | Ok _ => match Guard machine with
        | Some skip =>
            let obs := set_Skip obs skip in
            let obs := if negb (InProgress skip) && bool_decide (skip ≠ SkipPaused)
                       then set_Answer obs (decline sig (skip_string skip) (skipped_message sig skip)) else obs in
            (if decide (obs ≠ previous)
             then RecordSkipped (r_DryRun r) machine (Some skip) (p_action p) (because sig (p_reason p)) else mret tt);;
            mret (machine, obs)
        | None => hand_over r cluster sig p (CoverageOf checks m) machine node obs previous
        end
      end) (fun _ => True)).
  { intros [m' [b|e]] previous; [|by apply spec_ret]. destruct (Guard m'); [|by apply hand_over_spec].
    cbv zeta. eapply (spec_bind _ _ _ (fun _ => True)); [|intros; by apply spec_ret].
    destruct (decide _) in |- *; [by apply RecordSkipped_spec|by apply spec_ret]. }
  destruct (escalates && bool_decide (MarkedAction m = Some ActionRestart) && negb (m_Deleting m) && negb (r_DryRun r)) eqn:E.
  - exists None. apply concludes_writes. intros previous. rewrite !andb_true_iff, !negb_true_iff in E.
    destruct E as (((-> & Ha) & Hdel) & Hd).
    eapply (runs_bind _ _ (fun _ l => Exists is_write l)); [|intros x l Hl; eapply runs_weaken; [apply spec_runs, Hany|]; intros; apply Exists_app; by left].
    unfold Escalate. rewrite Ha, Hdel, Hd. apply patch_machine_writes. intros [m'|e]; [|by apply spec_ret].
    eapply spec_bind; [by apply spec_emit|]. intros _ _. by apply spec_ret.
  - assert (Hesc : ∃ b, (if escalates then Escalate (W:=W) (R:=Memory) (r_DryRun r) m (because sig (p_reason p))
      else mret (m, Ok false)) = mret (m, Ok b)).
    { unfold Escalate. destruct escalates; [|by eexists]. revert E.
      destruct (bool_decide _), (m_Deleting m), (r_DryRun r); simpl; try done; intros _; by eexists. }
    destruct Hesc as [b ->]. destruct (Guard m) as [skip|] eqn:Hg.
    + set (obs' := if negb (InProgress skip) && bool_decide (skip ≠ SkipPaused)
        then set_Answer (set_Skip obs skip) (decline sig (skip_string skip) (skipped_message sig skip)) else set_Skip obs skip).
      exists (Some (m, obs')). eapply (concludes_after m _ (m, Ok b)); [intros; apply settles_ret| |exact Hany].
      cbv beta iota. rewrite Hg. cbv zeta. fold obs'. split; [by intros a [= <-]|]. intros K HK previous.
      eapply settles_weaken; [eapply (settles_bind K _ _ (Some tt) (fun _ => Some (m, obs')) (obs' = previous));
        [|intros; apply settles_ret|intros; by apply spec_ret]|intros Hn; exact (Hn _ eq_refl)].
      destruct (decide (obs' ≠ previous)) as [Hn|Hn]; [|apply settles_ret]. unfold RecordSkipped.
      destruct (_ || _) in |- *; [apply settles_ret|]. by apply settles_event.
    + destruct (hand_over_concludes_settled sig p (CoverageOf checks m) m node obs Hm Hg) as [o Ho]. exists o.
      eapply (concludes_after m _ (m, Ok b)); [intros; apply settles_ret| |exact Hany]. cbv beta iota. by rewrite Hg.
Qed.

Lemma concludes_map {A B} (f : A → B) (m : A) c o :
  concludes m c o → concludes (f m) (fun previous => x ← c previous; mret (f x.1, x.2)) ((fun a => (f a.1, a.2)) <$> o).
Proof.
  intros [Hm Hc]. split; [intros b (a & Ho & ->)%fmap_Some; simpl; by rewrite (Hm a Ho)|].
  intros K HK previous. replace ((fun a => (f a.1, a.2)) <$> o) with (o ≫= (fun a => Some (f a.1, a.2))) by by destruct o.
  eapply settles_weaken; [apply (settles_bind K _ _ o (fun a => Some (f a.1, a.2)) (∀ a, o = Some a → a.2 = previous));
    [by apply Hc|intros; apply settles_ret|intros; by apply spec_ret]|].
  intros Hb a ->. exact (Hb _ eq_refl).
Qed.

Lemma handle_concludes_settled sig machine node :
  (∀ m, machine = Some m → EarlierMarkPending m = false) →
  ∃ o, concludes machine (fun previous => handle r cluster mode checks sig machine node previous) o.
Proof.
  intros Hm. unfold handle. cbv zeta. destruct (bool_decide (node = None) && _); [eexists; apply concludes_ret|].
  destruct machine as [m|]; [|eexists; apply concludes_report].
  destruct (out_Decision _); [eexists; apply concludes_report|..];
    (edestruct (remediate_concludes_settled sig) as [o Ho]; [by apply Hm|]; eexists; apply (concludes_map Some); exact Ho).
Qed.

(** An answer is a write, unless the request was answered meanwhile. *)
Lemma answer_request_settles machine sig a :
  ∃ o, (∀ x, o = Some x → x = machine) ∧
    ∀ K, fixed K → settles K (answer_request r key cluster machine sig a) o True.
Proof.
  unfold answer_request. destruct (r_DryRun r) eqn:Hd; [exists (Some machine); split; [by intros x [= <-]|intros; apply settles_ret]|].
  set (k := fun answered : result error bool => _).
  assert (Hk : ∀ x, spec (W:=W) (R:=Memory) (fun _ => True) (k x) (fun _ => True)).
  { intros [[]|e]; [|by apply spec_ret..]. eapply spec_bind; [by apply spec_emit|]. intros _ _.
    destruct machine as [m'|]; [|by apply spec_ret]. destruct (an_Complete a); [|by apply spec_ret].
    eapply spec_bind; [by apply releaseAnswered_spec|intros; by apply spec_ret]. }
  destruct (answers (sig_Request sig)) as [obj|e] eqn:Ha; [destruct (Pending obj) eqn:Hp|].
  - exists None. split; [done|]. intros K HK. apply sends_first; [|exact Hk]. unfold Answer.
    eapply doing_bind; [apply (fixed_get K HK)|]. intros res l. rewrite Ha. apply doing_pure. intros ->.
    rewrite Hp. cbn [negb]. apply doing_pure. intros ->. apply runs_doing.
    eapply runs_bind; [apply runs_call|]. intros now l ->. cbv zeta.
    eapply runs_bind; [apply runs_emit|]. intros _ l ->.
    eapply runs_bind; [apply runs_call|]. intros [u|e] l ->; apply runs_ret; left; by intros [].
  - exists (Some machine). split; [by intros x [= <-]|]. intros K HK.
    apply (settles_bind K _ k (Some (Ok false)) (fun _ => Some machine)); [|intros x [= <-]; apply settles_ret|exact Hk].
    apply settles_reads. unfold Answer. eapply reads_bind; [apply (fixed_get K HK)|]. intros res ->. rewrite Ha, Hp. by apply reads_ret.
  - exists (Some machine). split; [by intros x [= <-]|]. intros K HK.
    eapply (settles_bind K _ k (Some _) (fun _ => Some machine)); [| |exact Hk].
    + apply settles_reads. unfold Answer. eapply reads_bind; [apply (fixed_get K HK)|]. intros res ->. rewrite Ha. by apply reads_ret.
    + intros x [= <-]. unfold k. destruct (IsNotFound e); apply settles_ret.
Qed.

(** ** The loop over the signals *)

(** No Machine of the pass has checks that still show an earlier mark. *)
Definition none_pending (machines : gmap string Machine) : Prop :=
  ∀ node m, machines !! node = Some m → EarlierMarkPending m = false.

(** What was concluded before is what is concluded now. *)
Definition told_before (signals : list Signal) (previous : gmap string observation) (o : option pass) : Prop :=
  ∀ ps, o = Some ps → ∀ sig, sig ∈ signals → previous !! Key sig = ps_current ps !! Key sig.

Lemma handle_signal_settles sig ps :
  none_pending (ps_machines ps) →
  ∃ o, (∀ ps', o = Some ps' → ∃ obs, ps' = MkPass (ps_machines ps) (<[Key sig := obs]> (ps_current ps)) (ps_asking ps) (ps_unreadable ps)) ∧
    ∀ K, fixed K → ∀ previous,
      settles K (handle_signal r key cluster mode checks nodes previous sig ps) o (told_before [sig] previous o).
Proof.
  intros Hp. set (machine := ps_machines ps !! sig_Node sig).
  destruct (handle_concludes_settled sig machine (nodes !! sig_Node sig)) as (o & Hm & Ho); [by intros m; apply Hp|].
  set (pass_of := fun obs => MkPass (ps_machines ps) (<[Key sig := obs]> (ps_current ps)) (ps_asking ps) (ps_unreadable ps)).
  assert (Hsame : ∀ obs, MkPass (match machine with Some m => <[sig_Node sig := m]> (ps_machines ps) | None => ps_machines ps end)
    (<[Key sig := obs]> (ps_current ps)) (ps_asking ps) (ps_unreadable ps) = pass_of obs).
  { intros obs. unfold pass_of. f_equal. destruct machine as [m|] eqn:E; [|done]. by apply insert_id. }
  assert (Hans : ∀ obs, ∃ o', (∀ x, o' = Some x → x = pass_of obs) ∧ ∀ K, fixed K → settles K
    (machine' ← (if given (obs_Answer obs) then answer_request r key cluster machine sig (obs_Answer obs) else mret machine);
     mret (MkPass (match machine' with Some m => <[sig_Node sig := m]> (ps_machines ps) | None => ps_machines ps end)
       (<[Key sig := obs]> (ps_current ps)) (ps_asking ps) (ps_unreadable ps))) o' True).
  { intros obs. destruct (given _).
    - destruct (answer_request_settles machine sig (obs_Answer obs)) as (o' & Hx & Ho').
      exists (o' ≫= (fun _ => Some (pass_of obs))). split; [by intros x (y & _ & [= <-])%bind_Some|].
      intros K HK. apply settles_bind; [by apply Ho'| |intros; by apply spec_ret].
      intros x ->%Hx. rewrite Hsame. apply settles_ret.
    - exists (Some (pass_of obs)). split; [by intros x [= <-]|]. intros K _. rewrite <- Hsame. apply settles_ret. }
  assert (Hany : ∀ a : option Machine * observation, spec (W:=W) (R:=Memory) (fun _ => True)
    (let '(machine, obs) := a in
     machine ← (if given (obs_Answer obs) then answer_request r key cluster machine sig (obs_Answer obs) else mret machine);
     mret (MkPass (match machine with Some m => <[sig_Node sig := m]> (ps_machines ps) | None => ps_machines ps end)
       (<[Key sig := obs]> (ps_current ps)) (ps_asking ps) (ps_unreadable ps))) (fun _ => True)).
  { intros [x obs]. eapply (spec_bind _ _ _ (fun _ => True)); [|intros; by apply spec_ret].
    destruct (given _); [by apply answer_request_any|by apply spec_ret]. }
  unfold handle_signal. cbv zeta. fold machine.
  destruct o as [[x obs]|]; [|exists None; split; [done|]; intros K HK previous;
    apply (settles_bind K _ _ None (fun _ => None)); [by apply Ho|done|exact Hany]].
  destruct (Hans obs) as (o' & Hx & Ho'). exists o'. split; [intros ps' ->; exists obs; by apply Hx|].
  specialize (Hm _ eq_refl). simpl in Hm. subst x. intros K HK previous. destruct o' as [ps'|].
  - apply (settles_bind K _ _ (Some (machine, obs)) (fun _ => Some ps')); [| |exact Hany].
    + eapply settles_weaken; [by apply Ho|]. intros Ht a [= <-].
      specialize (Ht ps' eq_refl sig (list_elem_of_here _ _)). rewrite (Hx ps' eq_refl) in Ht. simpl in Ht |- *.
      by rewrite Ht, lookup_insert_eq.
    + intros a [= <-]. eapply settles_weaken; [by apply Ho'|done].
  - apply (settles_bind K _ _ (Some (machine, obs)) (fun _ => None) False); [| |exact Hany].
    + eapply settles_weaken; [by apply Ho|done].
    + intros a [= <-]. by apply Ho'.
Qed.

(** The request as it is found; a turn of the loop tells the same again when it concludes
    what was concluded before. *)
Lemma IsPending_fixed K name : fixed K →
  reads K (IsPending key name) (fun res => res = match answers name with
    | Ok obj => Ok (Pending obj)
    | Err e => if IsNotFound e then Ok false else Err (EWrap (get_prefix name) e)
    end).
Proof.
  intros HK. unfold IsPending. eapply reads_bind; [apply (fixed_get K HK)|]. intros res ->.
  destruct (answers name); by apply reads_ret.
Qed.

(** What a turn of the loop, or the rest of it, leaves of the pass. *)
Definition leaves (signals : list Signal) (ps : pass) (o : option pass) : Prop :=
  ∀ ps', o = Some ps' → ps_machines ps' = ps_machines ps ∧
    ∀ k, k ∉ Key <$> signals → ps_current ps' !! k = ps_current ps !! k.

(** Given what was concluded before, or what is concluded now. *)
Definition given_or_same (previous previous' : gmap string observation) signals (o : option pass) : Prop :=
  previous' = previous ∨ is_Some o ∧ told_before signals previous' o.

Lemma signal_step_settles previous sig ps :
  none_pending (ps_machines ps) → ps_current ps !! Key sig = None →
  ∃ o, leaves [sig] ps o ∧ ∀ K previous', fixed K → given_or_same previous previous' [sig] o →
    settles K (signal_step r key cluster mode checks nodes previous' sig ps) o (told_before [sig] previous' o).
Proof.
  intros Hp Hnew.
  assert (Hhandle : ∀ asking, ∃ o, leaves [sig] ps o ∧ ∀ K previous', fixed K →
    settles K (handle_signal r key cluster mode checks nodes previous' sig
      (MkPass (ps_machines ps) (ps_current ps) asking (ps_unreadable ps))) o (told_before [sig] previous' o)).
  { intros asking. destruct (handle_signal_settles sig (MkPass (ps_machines ps) (ps_current ps) asking (ps_unreadable ps)) Hp)
      as (o & Hl & Ho). exists o. split; [|intros; by apply Ho].
    intros ps' (obs & ->)%Hl. split; [done|]. intros k Hk. simpl. rewrite lookup_insert_ne; [done|]. set_solver. }
  unfold signal_step. destruct (decide (sig_Request sig = "")) as [|Hreq].
  { destruct (Hhandle (ps_asking ps)) as (o & Hl & Ho). exists o. split; [done|]. intros K p' HK _. destruct ps. by apply Ho. }
  set (found := match answers (sig_Request sig) with
    | Ok obj => Ok (Pending obj)
    | Err e => if IsNotFound e then Ok false else Err (EWrap (get_prefix (sig_Request sig)) e)
    end : result error bool).
  assert (Hfound : ∀ K told, fixed K → settles K (IsPending key (sig_Request sig)) (Some found) told)
    by (intros K told HK; by apply settles_reads, IsPending_fixed).
  assert (Hany : ∀ p' (pending : result error bool), spec (W:=W) (R:=Memory) (fun _ => True) (match pending with
    | Err _ => mret (MkPass (ps_machines ps)
                (match p' !! Key sig with Some prev => <[Key sig := prev]> (ps_current ps) | None => ps_current ps end)
                (ps_asking ps) true)
    | Ok false => mret ps
    | Ok true => handle_signal r key cluster mode checks nodes p' sig
          (MkPass (ps_machines ps) (ps_current ps) ({[sig_Request sig]} ∪ ps_asking ps) (ps_unreadable ps))
    end) (fun _ => True)).
  { intros p' [[]|e]; [by apply handle_signal_spec|by apply spec_ret..]. }
  clearbody found. destruct found as [[]|e].
  - destruct (Hhandle ({[sig_Request sig]} ∪ ps_asking ps)) as (o & Hl & Ho). exists o. split; [done|].
    intros K p' HK _. apply (settles_bind K _ _ (Some (Ok true)) (fun _ => o)); [by apply Hfound| |exact (Hany p')].
    intros x [= <-]. by apply Ho.
  - exists (Some ps). split; [by intros ps' [= <-]|]. intros K p' HK _.
    apply (settles_bind K _ _ (Some (Ok false)) (fun _ => Some ps)); [by apply Hfound| |exact (Hany p')].
    intros x [= <-]. apply settles_ret.
  - set (kept := match previous !! Key sig with Some prev => <[Key sig := prev]> (ps_current ps) | None => ps_current ps end).
    assert (Hkept : kept !! Key sig = previous !! Key sig).
    { unfold kept. destruct (previous !! Key sig); [by rewrite lookup_insert_eq|done]. }
    exists (Some (MkPass (ps_machines ps) kept (ps_asking ps) true)). split.
    { intros ps' [= <-]. split; [done|]. intros k Hk. simpl. unfold kept.
      destruct (previous !! Key sig); [|done]. rewrite lookup_insert_ne; [done|]. set_solver. }
    intros K p' HK Hp'.
    apply (settles_bind K _ _ (Some (Err e)) (fun _ => Some (MkPass (ps_machines ps) kept (ps_asking ps) true)));
      [by apply Hfound| |exact (Hany p')].
    intros x [= <-].
    assert (Hlook : p' !! Key sig = previous !! Key sig).
    { destruct Hp' as [->|[_ Ht]]; [done|]. rewrite <- Hkept. exact (Ht _ eq_refl sig (list_elem_of_here _ _)). }
    rewrite Hlook. fold kept. apply settles_ret.
Qed.

Lemma signal_loop_settles previous signals ps :
  none_pending (ps_machines ps) → NoDup (Key <$> signals) → (∀ sig, sig ∈ signals → ps_current ps !! Key sig = None) →
  ∃ o, leaves signals ps o ∧ ∀ K previous', fixed K → given_or_same previous previous' signals o →
    settles K (signal_loop r key cluster mode checks nodes previous' signals ps) o (told_before signals previous' o).
Proof.
  revert ps. induction signals as [|sig rest IH]; intros ps Hp Hdup Hnew.
  { exists (Some ps). split; [by intros ps' [= <-]|]. intros K p' _ _. apply settles_ret. }
  rewrite fmap_cons in Hdup. apply NoDup_cons in Hdup as [Hk Hdup].
  destruct (signal_step_settles previous sig ps) as (o1 & Hl1 & Ho1); [done|apply Hnew; by left|].
  assert (Hany : ∀ p' ps1, spec (W:=W) (R:=Memory) (fun _ => True) (signal_loop r key cluster mode checks nodes p' rest ps1)
    (fun _ => True)) by (intros; by apply signal_loop_spec).
  cbn [signal_loop]. destruct o1 as [ps1|].
  2: { exists None. split; [done|]. intros K p' HK [->|[[? ?] _]]; [|done].
       apply (settles_bind K _ _ None (fun _ => None)); [apply Ho1; [done|by left]|done|exact (Hany previous)]. }
  destruct (Hl1 ps1 eq_refl) as [Hms Hcur].
  destruct (IH ps1) as (o & Hl & Ho); [by rewrite Hms|done| |].
  { intros sig' Hin. rewrite Hcur; [apply Hnew; by right|]. intros Heq. apply Hk. set_unfold. naive_solver. }
  assert (Hsig : ∀ ps', o = Some ps' → ps_current ps' !! Key sig = ps_current ps1 !! Key sig) by (intros ps' Ho'; by apply (Hl ps' Ho')).
  exists o. split.
  { intros ps' Ho'. destruct (Hl ps' Ho') as [Hms' Hcur']. split; [by rewrite Hms'|]. intros k Hk'.
    rewrite fmap_cons, not_elem_of_cons in Hk'. rewrite Hcur', Hcur by set_solver. done. }
  intros K p' HK Hp'.
  assert (Hstep : given_or_same previous p' [sig] (Some ps1) ∧ given_or_same previous p' rest o).
  { destruct Hp' as [->|[[ps' ->] Ht]]; [by split; left|]. split; right; (split; [done|]).
    - intros ps2 [= <-] sig' ->%list_elem_of_singleton. rewrite <- (Hsig ps' eq_refl). by apply (Ht ps'); [|left].
    - intros ps2 [= <-] sig' Hin. by apply (Ht ps'); [|right]. }
  destruct Hstep as [Hstep Hrest]. destruct o as [ps'|].
  - apply (settles_bind K _ _ (Some ps1) (fun _ => Some ps')); [| |exact (Hany p')].
    + eapply settles_weaken; [by apply Ho1|]. intros Ht ps2 [= <-] sig' ->%list_elem_of_singleton.
      rewrite <- (Hsig ps' eq_refl). by apply (Ht ps'); [|left].
    + intros x [= <-]. eapply settles_weaken; [by apply Ho|]. intros Ht ps2 [= <-] sig' Hin. by apply (Ht ps'); [|right].
  - apply (settles_bind K _ _ (Some ps1) (fun _ => None) False); [| |exact (Hany p')].
    + eapply settles_weaken; [by apply Ho1|done].
    + intros x [= <-]. by apply Ho.
Qed.

(** ** Releases *)

Lemma Release_settles m reason :
  ∃ o, (∀ x, o = Some x → x.1 = m) ∧ ∀ K, settles K (Release (W:=W) (R:=Memory) (r_DryRun r) m reason) o True.
Proof.
  unfold Release. destruct (MarkedAction m) as [action|]; [|exists (Some (m, Ok false)); split; [by intros x [= <-]|intros; apply settles_ret]].
  destruct (m_Deleting m); [exists (Some (m, Ok false)); split; [by intros x [= <-]|intros; apply settles_ret]|].
  destruct (r_DryRun r); [exists (Some (m, Ok true)); split; [by intros x [= <-]|intros; apply settles_ret]|].
  exists None. split; [done|]. intros K. apply sends_runs, patch_machine_writes. intros [m'|e]; [|by apply spec_ret].
  eapply spec_bind; [by apply spec_emit|]. intros _ _. by apply spec_ret.
Qed.

Lemma release_loop_settles source held leftover names machines would :
  ∃ o, (∀ x, o = Some x → x.1 = machines) ∧
    ∀ K, settles K (release_loop (W:=W) r source held leftover names machines would) o True.
Proof.
  revert would. induction names as [|node rest IH]; intros would; cbn [release_loop].
  { exists (Some (machines, would)). split; [by intros x [= <-]|]. intros K. apply settles_ret. }
  destruct (machines !! node) as [m|] eqn:Hm; [|apply IH].
  destruct (_ || _); [apply IH|]. destruct (Release_settles m (release_reason source node m (leftover !! m_Name m))) as (o1 & Hx & Ho1).
  assert (Hany : ∀ x : Machine * result error bool, spec (W:=W) (R:=Memory) (fun _ => True) (let '(m', released) := x in
    release_loop r source held leftover rest (<[node := m']> machines)
      (match released with Ok true => if r_DryRun r then {[m_Name m]} ∪ would else would | _ => would end)) (fun _ => True)).
  { intros [m' released]. by apply release_loop_spec. }
  destruct o1 as [[m' released]|]; [|exists None; split; [done|]; intros K; apply (settles_bind K _ _ None (fun _ => None)); [apply Ho1|done|exact Hany]].
  specialize (Hx _ eq_refl). simpl in Hx. subst m'.
  destruct (IH (match released with Ok true => if r_DryRun r then {[m_Name m]} ∪ would else would | _ => would end)) as (o & Hms & Ho).
  exists o. split; [done|]. intros K. apply (settles_bind K _ _ (Some (m, released)) (fun _ => o)); [apply Ho1| |exact Hany].
  intros x [= <-]. rewrite insert_id by done. apply Ho.
Qed.

Lemma releaseRestarts_settles source machines current asking :
  ∃ o, (∀ x, o = Some x → x = machines) ∧
    ∀ K, fixed K → settles K (releaseRestarts r key source machines nodes current asking) o True.
Proof.
  unfold releaseRestarts. destruct (holds _ _ _ _) as [held leftover].
  destruct (release_loop_settles source held leftover (sorted_keys machines) machines ∅) as (o & Hx & Ho).
  exists (o ≫= (fun _ => Some machines)). split; [by intros x (y & _ & [= <-])%bind_Some|].
  intros K HK. apply settles_bind; [apply Ho| |].
  - intros res Hres. rewrite (Hx res Hres).
    apply (settles_bind K _ _ (Some tt) (fun _ => Some machines)); [|intros; apply settles_ret|intros; by apply spec_ret].
    apply settles_reads. intros s Hs. exists []. rewrite app_nil_r. pose proof (fixed_would K HK res.2 s Hs) as Hk. by split_and!.
  - intros res. eapply spec_bind; [apply modify_spec|]. intros _ _. by apply spec_ret.
Qed.
End handling.

(** ** A whole pass *)

Section quiet.
Context `{KubeLib} `{!KubeLaws} {W : Type} `{API W} (r : ClusterReconciler) (key : ObjectKey) (cluster : Cluster).
Context (mode : Mode) (nodes : list Node) (requests : list Unstructured) (machines : list Machine).
Context (checks : list MachineHealthCheck) (answers : string → result error Unstructured) (J : W → Prop).
Context (Hst : steady key cluster mode nodes requests machines checks J) (Hkey : cluster_key cluster = key).
Context (Hanswers : ∀ name w, J w → (GetRequest key name w).1 = answers name).
Context (Hkeys : NoDup (Key <$> signals_in mode nodes requests)).
Context (Hpend : none_pending (index_machines machines)).

(** The cluster is as it is read, and [concluded] is what was concluded of it last. *)
Definition knowing (concluded : gmap string observation) (s : Sys W Memory) : Prop :=
  J (world s) ∧ seen_of key (memory s) = concluded ∧ modes (memory s) !! key = Some mode.

Lemma knowing_read {A} C (c : state W A) : api_read c → keeps (knowing C) (call c).
Proof.
  intros Hc s (HJ & Hs & Hm). unfold call, knowing. pose proof (steady_reads _ _ _ _ _ _ _ _ Hst A c _ Hc HJ). by destruct (c (world s)).
Qed.

Lemma knowing_fixed C : fixed key cluster answers (knowing C).
Proof.
  constructor.
  - by intros e s.
  - intros name. apply reads_call; [apply knowing_read; constructor|]. intros s [HJ _]. by apply Hanswers.
  - intros m Hm s Hs. unfold heldForChecks, mbind, state_bind, get_memory, put_memory. simpl. by rewrite Hm.
  - by intros names s.
Qed.

(** The end of a pass remembers what it concluded. *)
Lemma remembers C current (ms : gmap string Machine) :
  doing (knowing C) (remember key current;; forgetWaits key ms;; next ← nextLook r key; mret (Ok (E:=error) next))
    (fun _ l s => l = [] ∧ knowing current s).
Proof.
  eapply (doing_bind _ _ _ (fun _ l s => l = [] ∧ knowing current s)).
  { intros s (HJ & _ & Hm). exists []. rewrite app_nil_r. (split; [done|]). split; [done|]. (split; [exact HJ|]). split; [|exact Hm].
    unfold remember, modify, mbind, state_bind, get_memory, put_memory, remember_seen, seen_of. simpl.
    case_decide as Hc; [by rewrite lookup_delete_eq, Hc|by rewrite lookup_insert_eq]. }
  intros [] l. apply doing_pure. intros ->. eapply (doing_bind _ _ _ (fun _ l s => l = [] ∧ knowing current s)).
  { intros s Hs. exists []. by rewrite app_nil_r. }
  intros [] l. apply doing_pure. intros ->. eapply (doing_bind _ _ _ (fun _ l s => l = [] ∧ knowing current s)).
  { intros s Hs. exists []. rewrite app_nil_r. pose proof (knowing_read current Now reads_Now s Hs) as Hk. revert Hk.
    unfold nextLook, mbind, state_bind, get_memory. simpl. unfold call. by destruct (Now (world s)). }
  intros next l. apply doing_pure. intros ->. by apply doing_ret.
Qed.

Lemma act_settles cs ns previous :
  ∃ o : option (gmap string observation), ∀ previous', previous' = previous ∨ o = Some previous' →
    match o with
    | Some concluded => doing (knowing previous')
        (act_on_signals r key cluster mode cs (index_machines machines) ns (signals_in mode nodes requests))
        (fun _ l s => Forall is_event l ∧ (previous' = concluded → l = []) ∧ knowing concluded s)
    | None => sends (knowing previous') is_write
        (act_on_signals r key cluster mode cs (index_machines machines) ns (signals_in mode nodes requests))
    end.
Proof.
  set (signals := signals_in mode nodes requests). set (ms := index_machines machines).
  destruct (signal_loop_settles r key cluster mode cs ns answers previous signals (MkPass ms ∅ ∅ false))
    as (o1 & Hl & Ho1); [exact Hpend|exact Hkeys|done|].
  set (pass_of := fun p' => ps ← signal_loop r key cluster mode cs ns p' signals (MkPass ms ∅ ∅ false);
    machines' ← (if ps_unreadable ps then mret (ps_machines ps)
      else releaseRestarts r key (src_Name (source (W:=W) (R:=Memory) mode key)) (ps_machines ps) ns (ps_current ps) (ps_asking ps));
    mret (ps, machines')).
  assert (Hpass : ∃ o : option (pass * gmap string Machine), ∀ p',
    p' = previous ∨ (∃ x, o = Some x ∧ p' = ps_current x.1) →
    settles (knowing p') (pass_of p') o (∀ x, o = Some x → p' = ps_current x.1)).
  { set (rel := fun ps : pass => if ps_unreadable ps then mret (ps_machines ps)
      else releaseRestarts r key (src_Name (source (W:=W) (R:=Memory) mode key)) (ps_machines ps) ns (ps_current ps) (ps_asking ps)).
    assert (Hrel : ∀ ps, ∃ o, (∀ x, o = Some x → x = ps_machines ps) ∧ ∀ K, fixed key cluster answers K → settles K (rel ps) o True).
    { intros ps. unfold rel. destruct (ps_unreadable ps); [|by apply releaseRestarts_settles].
      exists (Some (ps_machines ps)). split; [by intros x [= <-]|]. intros; apply settles_ret. }
    assert (Hany : ∀ ps, spec (W:=W) (R:=Memory) (fun _ => True) (machines' ← rel ps; mret (ps, machines')) (fun _ => True)).
    { intros ps. eapply (spec_bind _ _ _ (fun _ => True)); [|intros; by apply spec_ret].
      unfold rel. destruct (ps_unreadable ps); [by apply spec_ret|by apply releaseRestarts_spec]. }
    destruct o1 as [ps|].
    2: { exists None. intros p' [->|(x & [=] & _)]. apply (settles_bind _ _ _ None (fun _ => None)); [|done|exact Hany].
         apply Ho1; [apply knowing_fixed|by left]. }
    destruct (Hrel ps) as (o2 & Hx & Ho2). exists (o2 ≫= (fun ms' => Some (ps, ms'))). intros p' Hp'.
    assert (Hgiven : given_or_same previous p' signals (Some ps)).
    { destruct Hp' as [->|(x & (ms' & _ & [= <-])%bind_Some & ->)]; [by left|right]. split; [done|]. by intros ? [= <-]. }
    pose proof (Ho1 _ _ (knowing_fixed p') Hgiven) as Hloop. destruct o2 as [ms'|]; simpl.
    - apply (settles_bind _ _ _ (Some ps) (fun _ => Some (ps, ms'))); [| |exact Hany].
      + eapply settles_weaken; [exact Hloop|]. intros Ht ps2 [= <-] sig _. by rewrite (Ht _ eq_refl).
      + intros ps2 [= <-]. apply (settles_bind _ _ _ (Some ms') (fun ms => Some (ps, ms))); [|intros; apply settles_ret|intros; by apply spec_ret].
        eapply settles_weaken; [apply Ho2, knowing_fixed|done].
    - apply (settles_bind _ _ _ (Some ps) (fun _ => None) False); [| |exact Hany].
      + eapply settles_weaken; [exact Hloop|done].
      + intros ps2 [= <-]. apply (settles_bind _ _ _ None (fun _ => None)); [apply Ho2, knowing_fixed|done|intros; by apply spec_ret]. }
  destruct Hpass as [o Ho]. exists (ps_current ∘ fst <$> o). intros p' Hp'.
  assert (Hsettles : settles (knowing p') (pass_of p') o (∀ x, o = Some x → p' = ps_current x.1)).
  { apply Ho. destruct Hp' as [->|(x & -> & ->)%fmap_Some]; [by left|right; by exists x]. }
  assert (Hact : ∀ Q, doing (knowing p') (x ← pass_of p'; remember key (ps_current x.1);; forgetWaits key x.2;;
      next ← nextLook r key; mret (Ok (E:=error) next)) Q →
    doing (knowing p') (act_on_signals r key cluster mode cs ms ns signals) Q).
  { intros Q HQ s Hs. destruct (HQ s Hs) as (l & Ht & HQl). exists l. destruct Hs as (_ & Hseen & _). revert Ht HQl.
    unfold act_on_signals, observations, pass_of, mbind, state_bind, get_memory, mret, state_ret. cbn beta iota zeta. rewrite Hseen.
    destruct (signal_loop _ _ _ _ _ _ _ _ _ _) as [ps s1]. destruct (ps_unreadable ps); [done|].
    by destruct (releaseRestarts _ _ _ _ _ _ _ _). }
  destruct o as [[ps ms']|]; simpl.
  - apply Hact. eapply doing_bind; [exact Hsettles|]. intros x l. apply doing_pure. intros ->. apply doing_pure. intros Hev.
    apply doing_pure. intros Hn. eapply doing_weaken; [apply remembers|done|]. intros y l' s [-> Hs]. rewrite app_nil_r.
    split_and!; [done|intros ->; apply Hn; by intros ? [= <-]|apply Hs..].
  - apply Hact. apply sends_first; [exact Hsettles|]. intros x. eapply spec_bind; [apply modify_spec|]. intros _ _.
    eapply spec_bind; [apply modify_spec|]. intros _ _. eapply spec_bind; [apply nextLook_spec|]. intros next _. by apply spec_ret.
Qed.

Context (Hact : acted_on r cluster).

(** A reconcile either writes or concludes [concluded], to be quiet from then on. *)
Lemma Reconcile_settles (s : Sys W Memory) l :
  J (world s) → trace (Reconcile r key s).2 = trace s ++ l → Forall is_event l →
  ∃ concluded, knowing concluded (Reconcile r key s).2 ∧
    ∀ s', knowing concluded s' → trace (Reconcile r key s').2 = trace s' ∧ knowing concluded (Reconcile r key s').2.
Proof.
  intros HJ Ht Hev.
  destruct (Reconcile_reads r key cluster mode nodes requests machines checks J Hst Hact s HJ)
    as (s1 & l0 & E & Ht0 & _ & HJ1 & Hm1 & _).
  set (previous := seen_of key (memory s1)).
  assert (Hknown : knowing previous s1).
  { split_and!; [done|done|]. rewrite Hm1, Hkey. unfold note_mode. simpl. by rewrite lookup_insert_eq. }
  destruct (act_settles (pass_checks cluster mode nodes requests checks) (pass_nodes mode nodes requests) previous) as [o Ho].
  pose proof (Ho previous (or_introl eq_refl)) as Hfirst. destruct o as [concluded|].
  2: { destruct (Hfirst s1 Hknown) as (l1 & Ht1 & Hw). exfalso. rewrite <- E, Ht, Ht0, <- (assoc_L (++)) in Ht1.
       apply app_inv_head in Ht1 as ->. apply Forall_app in Hev as [_ Hev].
       apply list.Exists_exists in Hw as (e & Hin & He). rewrite Forall_forall in Hev. by apply He, Hev. }
  exists concluded. split; [destruct (Hfirst s1 Hknown) as (l1 & _ & _ & _ & Hk); by rewrite E|].
  intros s' Hs'. pose proof Hs' as (HJ' & Hseen' & Hmode').
  destruct (Reconcile_reads r key cluster mode nodes requests machines checks J Hst Hact s' HJ')
    as (s2 & l2 & E2 & Ht2 & _ & HJ2 & Hm2 & Hl2).
  rewrite Hkey in Hl2, Hm2. specialize (Hl2 Hmode') as ->. rewrite app_nil_r in Ht2.
  assert (Hk2 : knowing concluded s2).
  { split; [done|]. rewrite Hm2. unfold note_mode, seen_of in *. simpl. rewrite Hmode', lookup_insert_eq.
    by rewrite bool_decide_eq_false_2 by (by intros []). }
  destruct (Ho concluded (or_intror eq_refl) s2 Hk2) as (l3 & Ht3 & _ & Hn & Hk3).
  rewrite E2, Ht3, Ht2, Hn by done. by rewrite app_nil_r.
Qed.
End quiet.

(** C12: what persists is told once. When a reconcile of a cluster that is neither paused nor
    excluded writes nothing, of all signals no two have one key, and no Machine waits for
    its checks to forget an earlier mark, then as long as the cluster is found as it was,
    no later reconcile sends anything at all: no write, and none of the Events that
    tell of its conclusions, however many follow. *)
Theorem settled_cluster_is_quiet `{KubeLib} {HK : KubeLaws} {W : Type} `{API W} (r : ClusterReconciler)
    (key : ObjectKey) (s : Sys W Memory) (cluster : Cluster) (mode : Mode) (nodes : list Node)
    (requests : list Unstructured) (machines : list Machine) (checks : list MachineHealthCheck)
    (answers : string → result error Unstructured) (J : W → Prop) (l : list Effect)
    (Hst : steady key cluster mode nodes requests machines checks J)
    (Hanswers : ∀ name w, J w → (GetRequest key name w).1 = answers name) (HJ : J (world s))
    (Hkey : cluster_key cluster = key) (Hact : acted_on r cluster)
    (Hkeys : NoDup (Key <$> signals_in mode nodes requests))
    (Hpend : ∀ node m, index_machines machines !! node = Some m → EarlierMarkPending m = false)
    (Ht : trace (Reconcile r key s).2 = trace s ++ l) (Hquiet : Forall is_event l) :
  ∀ n, trace (Nat.iter n (fun s => (Reconcile r key s).2) (Reconcile r key s).2) = trace s ++ l.
Proof.
  destruct (Reconcile_settles r key cluster mode nodes requests machines checks answers J Hst Hkey Hanswers Hkeys Hpend Hact s l HJ Ht Hquiet)
    as (concluded & Hknown & Hthen).
  assert (Hiter : ∀ n, let s' := Nat.iter n (fun s => (Reconcile r key s).2) (Reconcile r key s).2 in
    trace s' = trace s ++ l ∧ knowing key mode J concluded s').
  { induction n as [|n [IHt IHk]]; [done|]. simpl. destruct (Hthen _ IHk) as [Htn Hkn]. by rewrite Htn. }
  intros n. apply Hiter.
Qed.


(** ** Witness: a paused Machine behind a faulty node. *)

#[local] Existing Instance lib.
#[local] Existing Instance lib_laws.

Definition paused_machine : Machine := set_annotations a_machine {[PausedAnnotation := ""]}.

#[local] Instance paused : API unit := constant_api paused_machine faulty_node false [].

Definition first_poll : Sys unit Memory := (Reconcile (a_reconciler false) a_key (MkSys tt [] empty_memory)).2.

(** The mode, and why nothing is done. *)
Example first_poll_tells :
  Forall is_event (trace first_poll) ∧ length (trace first_poll) = 2.
Proof. vm_compute. split; [repeat constructor|reflexivity]. Qed.

Lemma settled_cluster_is_quiet_witness :
  trace (Nat.iter 720 (fun s => (Reconcile (a_reconciler false) a_key s).2) first_poll) = trace first_poll.
Proof.
  apply (settled_cluster_is_quiet (a_reconciler false) a_key (MkSys tt [] empty_memory) a_cluster ModeNodeCondition
    [faulty_node] [] [paused_machine] [a_check] (fun _ => Err not_found) (fun _ => True) (trace first_poll)).
  - constructor; try done; reflexivity.
  - reflexivity.
  - done.
  - reflexivity.
  - split; [reflexivity|]. split; [reflexivity|discriminate].
  - unfold signals_in. rewrite faulty_signal_read. apply NoDup_singleton.
  - intros node m Hm. unfold index_machines in Hm. simpl in Hm.
    apply lookup_insert_Some in Hm as [[_ <-]|[_ Hm]]; [reflexivity|]. rewrite lookup_empty in Hm. discriminate.
  - reflexivity.
  - apply first_poll_tells.
Defined.

(** ** Two requests for one check of a node

    Conclusions are kept by node and check, so of two requests of one check the last one
    handled is remembered, and the other is news at every poll: both wait for the paused
    Machine, and an Event says so of the other at each. *)
Definition two_requests : World :=
  MkWorld (Some a_cluster) [paused_machine] [a_check] true ["ExternalRemediationRequest"]
    [a_node "boot-1"] [sample_request "req-1" (VInt 24); sample_request "req-2" (VInt 24)] 0 ∅ [] [] [].

Lemma two_requests_are_told_at_every_poll :
  let polled n := Nat.iter n (fun s => (Reconcile (H0:=api) (a_reconciler false) a_key s).2) (MkSys two_requests [] empty_memory) in
  (fun n => length (trace (polled n))) <$> [1; 2; 3; 4] = [3; 4; 5; 6] ∧ Forall is_event (trace (polled 4)).
Proof. vm_compute. split; [reflexivity|repeat constructor]. Qed.
