(* ===== verification/Marks.v ===== *)
(** * The marks of Machines as a state machine

    An abstract system of marks and the refinement the cluster controller is proved to be
    of it. The system is driven by what the controller and the API server say to each
    other about Machines ([exchange]): a patch and its answer, a Machine read again and
    its answer. An API keeps a log of these ([Logged]); any API can be made to keep one
    ([recording]). What the mark of a Machine is after an exchange is what the answer says,
    and every patch is a step from the mark the Machine has then: the system has no step
    that replaces a mark set by someone else or a mark for a replacement, and none that
    sets a mark where there is one. *)

From S2P Require Import Prelude GoStrings Signal Decision Kube KubeModel WorldModel Condition Extrr Capi Mode ClusterController ClusterFacts ReconcileFacts.
Open Scope stdpp_scope.

(** ** What is said about Machines *)

Inductive exchange : Type :=
| Patched (base updated : Machine) (lock : bool) (answer : result error Machine)
| Got (key : ObjectKey) (answer : result error Machine).

(** The name of the Machine it is about, and the Machine answered. *)
Definition about (e : exchange) : string :=
  match e with Patched base _ _ _ => m_Name base | Got key _ => key_Name key end.

Definition answered (e : exchange) : option Machine :=
  match e with Patched _ _ _ (Ok m) | Got _ (Ok m) => Some m | _ => None end.

(** Nothing is learnt of the Machine of that name. *)
Definition tells_nothing (name : string) (e : exchange) : Prop := about e = name → answered e = None.

(** The patches among effects and among exchanges. *)
Definition sent (e : Effect) : option (Machine * Machine * bool) :=
  match e with PatchMachine base updated lock => Some (base, updated, lock) | _ => None end.

Definition asked (e : exchange) : option (Machine * Machine * bool) :=
  match e with Patched base updated lock _ => Some (base, updated, lock) | Got _ _ => None end.

(** The calls that are about no one Machine. *)
Inductive unlogged {W : Type} `{API W} : ∀ {A : Type}, state W A → Prop :=
| unlogged_GetCluster k : unlogged (GetCluster k)
| unlogged_ListMachines ns ls : unlogged (ListMachines ns ls)
| unlogged_ListMachineHealthChecks ns : unlogged (ListMachineHealthChecks ns)
| unlogged_GetClient k : unlogged (GetClient k)
| unlogged_GetUncachedClient k : unlogged (GetUncachedClient k)
| unlogged_WatchRequests k : unlogged (WatchRequests k)
| unlogged_WorkloadMapping k gvk : unlogged (WorkloadMapping k gvk)
| unlogged_ListNodes k : unlogged (ListNodes k)
| unlogged_ListRequests k : unlogged (ListRequests k)
| unlogged_GetRequest k name : unlogged (GetRequest k name)
| unlogged_SendPatchRequestStatus k base updated : unlogged (SendPatchRequestStatus k base updated)
| unlogged_Now : unlogged Now.

(** An API whose world has a log of the exchanges, in order. *)
Class Logged (W : Type) `{API W} : Type := {
  log : W → list exchange;
  log_patched base updated lock w :
    log (SendPatchMachine base updated lock w).2 =
      log w ++ [Patched base updated lock (SendPatchMachine base updated lock w).1];
  log_got key w : log (GetMachine key w).2 = log w ++ [Got key (GetMachine key w).1];
  log_other {A} (c : state W A) w : unlogged c → log (c w).2 = log w
}.

(** Any API, with a log kept of it. *)
Section recording.
Context {W : Type} `{API W}.

Definition beside {A} (c : state W A) : state (W * list exchange) A := fun '(w, n) =>
  let '(a, w') := c w in (a, (w', n)).

Definition noted {A} (c : state W A) (e : A → exchange) : state (W * list exchange) A := fun '(w, n) =>
  let '(a, w') := c w in (a, (w', n ++ [e a])).

Definition recording : API (W * list exchange) := {|
  GetCluster := fun k => beside (GetCluster k);
  GetMachine := fun k => noted (GetMachine k) (Got k);
  ListMachines := fun ns ls => beside (ListMachines ns ls);
  ListMachineHealthChecks := fun ns => beside (ListMachineHealthChecks ns);
  SendPatchMachine := fun base updated lock => noted (SendPatchMachine base updated lock) (Patched base updated lock);
  SendDeleteMachine := fun m uid version => beside (SendDeleteMachine m uid version);
  GetClient := fun k => beside (GetClient k);
  GetUncachedClient := fun k => beside (GetUncachedClient k);
  WatchRequests := fun k => beside (WatchRequests k);
  WorkloadMapping := fun k gvk => beside (WorkloadMapping k gvk);
  ListNodes := fun k => beside (ListNodes k);
  ListRequests := fun k => beside (ListRequests k);
  GetRequest := fun k name => beside (GetRequest k name);
  SendPatchRequestStatus := fun k base updated => beside (SendPatchRequestStatus k base updated);
  Now := beside Now
|}.

#[local] Existing Instance recording.

Lemma beside_log {A} (c : state W A) x : (beside c x).2.2 = x.2.
Proof. destruct x as [w n]. simpl. by destruct (c w). Qed.

Lemma noted_log {A} (c : state W A) e x : (noted c e x).2.2 = x.2 ++ [e (noted c e x).1].
Proof. destruct x as [w n]. simpl. by destruct (c w). Qed.

Lemma noted_answer {A} (c : state W A) e x : (noted c e x).1 = (c x.1).1.
Proof. destruct x as [w n]. simpl. by destruct (c w). Qed.

Definition recorded : Logged (W * list exchange).
Proof.
  refine {| log := snd |}.
  - intros base updated lock x. apply (noted_log (SendPatchMachine base updated lock)).
  - intros key x. apply (noted_log (GetMachine key)).
  - intros A c x [ ]; apply beside_log.
Defined.

Lemma recording_laws `{KubeLib} : PatchLaws W → PatchLaws (W * list exchange).
Proof.
  intros [Hn Hc Hl Hg]. constructor; simpl; setoid_rewrite noted_answer; eauto.
Qed.
End recording.

(** ** The abstract system *)

(** What a Machine is marked for: nothing, a restart or a replacement by this
    operator, or whatever someone else had in mind. *)
Inductive mark : Type := Unmarked | ForRestart | ForReplacement | Foreign.

(** The steps this operator takes, and whether under optimistic locking. *)
Inductive mark_step : mark → bool → mark → Prop :=
| step_mark_restart : mark_step Unmarked false ForRestart
| step_mark_replacement : mark_step Unmarked false ForReplacement
| step_release : mark_step ForRestart true Unmarked
| step_escalate : mark_step ForRestart true ForReplacement.

Definition mark_of `{KubeLib} (m : Machine) : mark :=
  if IsMarkedForRemediation m then
    match MarkedAction m with
    | Some a => if decide (a = ActionRestart) then ForRestart
                else if decide (a = ActionRemediate) then ForReplacement else Foreign
    | None => Foreign
    end
  else Unmarked.

(** A Machine in the abstract system: its name and its mark. *)
Definition entry `{KubeLib} (m : Machine) : string * mark := (m_Name m, mark_of m).

(** What an exchange means to one Machine. A patch takes a step from the mark the Machine
    has. Where it is accepted, the mark is the one of the Machine answered: the new one
    under locking, and a mark in any case where one was set. Where it is rejected, nothing
    changes. A Machine that is read again has the mark that is found. *)
Inductive entry_step `{KubeLib} : string * mark → exchange → string * mark → Prop :=
| entry_accepted base updated lock m :
    mark_step (mark_of base) lock (mark_of updated) → m_Name m = m_Name base →
    (if lock then mark_of m = mark_of updated else mark_of m ≠ Unmarked) →
    entry_step (entry base) (Patched base updated lock (Ok m)) (entry m)
| entry_rejected base updated lock e :
    mark_step (mark_of base) lock (mark_of updated) →
    entry_step (entry base) (Patched base updated lock (Err e)) (entry base)
| entry_found x key m : key_Name key = x.1 → m_Name m = x.1 → entry_step x (Got key (Ok m)) (entry m)
| entry_not_found x key e : key_Name key = x.1 → entry_step x (Got key (Err e)) x.

(** The system: the Machines behind the nodes of a Cluster, of which an exchange moves one. *)
Inductive pass_step `{KubeLib} (σ : gmap string (string * mark)) (e : exchange) : gmap string (string * mark) → Prop :=
| pass_moves node x y : σ !! node = Some x → entry_step x e y → pass_step σ e (<[node := y]> σ).

(** The closure of a step relation over a list of exchanges. *)
Inductive path {S} (step : S → exchange → S → Prop) : S → list exchange → S → Prop :=
| path_nil x : path step x [] x
| path_cons x e y n z : step x e y → path step y n z → path step x (e :: n) z.

Lemma path_app {S} (step : S → exchange → S → Prop) x n1 y n2 z :
  path step x n1 y → path step y n2 z → path step x (n1 ++ n2) z.
Proof. induction 1; simpl; eauto using path. Qed.

Lemma path_split {S} (step : S → exchange → S → Prop) x n1 n2 z :
  path step x (n1 ++ n2) z → ∃ y, path step x n1 y ∧ path step y n2 z.
Proof.
  revert x. induction n1 as [|e n1 IH]; intros x Hp; [by exists x; split; [constructor|]|].
  inversion Hp as [|? ? y ? ? Hs Hp']; subst. destruct (IH _ Hp') as (y' & H1 & H2). eauto using path.
Qed.

Lemma path_one {S} (step : S → exchange → S → Prop) x e y : step x e y → path step x [e] y.
Proof. eauto using path. Qed.

Section system.
Context `{KubeLib}.

(** A path of one Machine is one of the system. *)
Lemma pass_path σ node x n y :
  σ !! node = Some x → path entry_step x n y → path pass_step σ n (<[node := y]> σ).
Proof.
  intros Hx Hp. revert σ Hx. induction Hp as [x|x e y n z Hs Hp IH]; intros σ Hx.
  - rewrite insert_id by done. constructor.
  - econstructor; [by eapply pass_moves|]. rewrite <- (insert_insert_eq σ node z y). apply IH.
    by rewrite lookup_insert_eq.
Qed.

(** ** What a run of the system says *)

Lemma entry_about x e y : entry_step x e y → about e = x.1 ∧ y.1 = x.1.
Proof. by intros []. Qed.

Lemma entry_answered x e y m : entry_step x e y → answered e = Some m → y = entry m.
Proof. intros [] Hm; simplify_eq/=; done. Qed.

Lemma entry_unanswered x e y : entry_step x e y → answered e = None → y = x.
Proof. by intros []. Qed.

Lemma entry_patched x base updated lock answer y :
  entry_step x (Patched base updated lock answer) y → x = entry base ∧ mark_step (mark_of base) lock (mark_of updated).
Proof. by inversion 1; subst. Qed.

Lemma pass_names σ n σ' : path pass_step σ n σ' → fst <$> σ' = fst <$> σ.
Proof.
  induction 1 as [|σ e σ1 n σ2 [node x y Hx Hs] _ IH]; [done|]. rewrite IH, fmap_insert. apply insert_id.
  rewrite lookup_fmap, Hx. simpl. f_equal. symmetry. apply (entry_about _ _ _ Hs).
Qed.

(** Different Machines go by different names. *)
Definition distinct (σ : gmap string (string * mark)) : Prop :=
  ∀ node1 node2 x1 x2, σ !! node1 = Some x1 → σ !! node2 = Some x2 → x1.1 = x2.1 → node1 = node2.

Lemma distinct_names σ σ' : fst <$> σ' = fst <$> σ → distinct σ → distinct σ'.
Proof.
  intros Hf Hd node1 node2 x1 x2 H1 H2 Hx.
  pose proof (f_equal (lookup node1) Hf) as Hf1. pose proof (f_equal (lookup node2) Hf) as Hf2.
  rewrite !lookup_fmap in Hf1, Hf2. rewrite H1 in Hf1. rewrite H2 in Hf2.
  destruct (σ !! node1) as [y1|] eqn:E1, (σ !! node2) as [y2|] eqn:E2; try done. simplify_eq/=.
  apply (Hd node1 node2 y1 y2); congruence.
Qed.

(** What is said about others, or is not answered, leaves a Machine as it is. *)
Lemma others_leave σ n σ' node x :
  path pass_step σ n σ' → Forall (tells_nothing x.1) n → σ !! node = Some x → σ' !! node = Some x.
Proof.
  intros Hp. induction Hp as [|σ e σ1 n σ2 [node' x' y Hx' Hs] _ IH]; intros Hn Hx; [done|].
  apply Forall_cons in Hn as [He Hn]. apply IH; [done|].
  destruct (decide (node' = node)) as [->|]; [|by rewrite lookup_insert_ne]. simplify_eq.
  rewrite (entry_unanswered _ _ _ Hs); [by rewrite lookup_insert_eq|]. by apply He, (entry_about _ _ _ Hs).
Qed.

(** A patch is based on the mark the Machine had last. *)
Lemma pass_patched σ base updated lock answer σ' :
  pass_step σ (Patched base updated lock answer) σ' →
  ∃ node, σ !! node = Some (entry base) ∧ mark_step (mark_of base) lock (mark_of updated).
Proof. intros [node x y Hx [-> Hm]%entry_patched]. by exists node. Qed.

(** A patch of a Machine nothing was heard of before. *)
Lemma first_patch σ n1 base updated lock answer n2 σ' :
  path pass_step σ (n1 ++ Patched base updated lock answer :: n2) σ' → distinct σ →
  Forall (tells_nothing (m_Name base)) n1 → ∃ node, σ !! node = Some (entry base).
Proof.
  intros (σ1 & H1 & H2)%path_split Hd Hn. inversion H2 as [|? ? ? ? ? Hs _]; subst.
  apply pass_patched in Hs as (node & Hnode & _). exists node.
  pose proof (pass_names _ _ _ H1) as Hf. pose proof (f_equal (lookup node) Hf) as Hfn.
  rewrite !lookup_fmap, Hnode in Hfn. destruct (σ !! node) as [x|] eqn:Hx; [|done]. injection Hfn as Hfn.
  rewrite (others_leave _ _ _ node x H1) in Hnode; [congruence| |done]. by rewrite <- Hfn.
Qed.

(** A patch of a Machine, by what was heard of it last. *)
Lemma next_patch σ n1 e m n2 base updated lock answer n3 σ' :
  path pass_step σ (n1 ++ e :: n2 ++ Patched base updated lock answer :: n3) σ' → distinct σ →
  answered e = Some m → about e = m_Name base → Forall (tells_nothing (m_Name base)) n2 →
  mark_of base = mark_of m.
Proof.
  intros (σ1 & H1 & H2)%path_split Hd Hm He Hn. inversion H2 as [|? ? σ2 ? ? Hs H3]; subst.
  pose proof (path_app _ _ _ _ _ _ H1 (path_one _ _ _ _ Hs)) as H12.
  destruct Hs as [node x y Hx Hs]. pose proof (entry_answered _ _ _ _ Hs Hm) as ->.
  destruct (entry_about _ _ _ Hs) as [Hax Hay]. simpl in Hay.
  apply path_split in H3 as (σ3 & H3 & H4). inversion H4 as [|? ? ? ? ? Hp _]; subst.
  apply pass_patched in Hp as (node' & Hnode' & _).
  assert (Hn3 : σ3 !! node = Some (entry m)).
  { eapply others_leave; [exact H3| |by rewrite lookup_insert_eq]. simpl. by rewrite Hay, <- Hax, He. }
  assert (node = node') as <-.
  { eapply (distinct_names _ _ (pass_names _ _ _ (path_app _ _ _ _ _ _ H12 H3)) Hd); [done|done|].
    simpl. congruence. }
  rewrite Hn3 in Hnode'. by injection Hnode'.
Qed.

(** ** The marks of the patches *)

Lemma mark_of_restart m : MarkedAction m = Some ActionRestart ↔ mark_of m = ForRestart.
Proof.
  unfold mark_of. split.
  - intros Hm. by rewrite (marked_action_marked _ _ Hm), Hm.
  - destruct (IsMarkedForRemediation m); [|done]. destruct (MarkedAction m) as [a|]; [|done].
    case_decide; [by subst|]. by case_decide.
Qed.

Lemma mark_of_unmarked m : IsMarkedForRemediation m = false ↔ mark_of m = Unmarked.
Proof.
  unfold mark_of. destruct (IsMarkedForRemediation m); [|done]. split; [done|].
  destruct (MarkedAction m); [|done]. by repeat case_decide.
Qed.
End system.


(** ** What code says and hears *)

Section refinement.
Context `{KubeLib} `{!KubeLaws} {W : Type} `{API W} `{!PatchLaws W} `{!Logged W} (r : ClusterReconciler).

Local Abbreviation M := (state (Sys W Memory)).

(** [audits c Q]: whatever the world does, the patches [c] sends are those of the
    exchanges logged, in order, and its result and these exchanges satisfy [Q]. *)
Definition audits {A} (c : M A) (Q : A → list exchange → Prop) : Prop :=
  ∀ s, ∃ l n, trace (c s).2 = trace s ++ l ∧ log (world (c s).2) = log (world s) ++ n ∧
    omap sent l = omap asked n ∧ Q (c s).1 n.

Lemma audits_ret {A} (a : A) (Q : A → list exchange → Prop) : Q a [] → audits (mret a) Q.
Proof. intros HQ s. exists [], []. by rewrite !app_nil_r. Qed.

Lemma audits_bind {A B} (c : M A) (k : A → M B) (Q : A → list exchange → Prop) (Q' : B → list exchange → Prop) :
  audits c Q → (∀ a n, Q a n → audits (k a) (fun b n' => Q' b (n ++ n'))) → audits (c ≫= k) Q'.
Proof.
  intros Hc Hk s. unfold mbind, state_bind. destruct (Hc s) as (l1 & n1 & Ht1 & Hn1 & Hs1 & HQ).
  destruct (c s) as [a s']. simpl in *. destruct (Hk a n1 HQ s') as (l2 & n2 & Ht2 & Hn2 & Hs2 & HQ').
  exists (l1 ++ l2), (n1 ++ n2). rewrite Ht2, Ht1, Hn2, Hn1, !(assoc_L (++)), !omap_app, Hs1, Hs2. done.
Qed.

Lemma audits_weaken {A} (c : M A) (Q Q' : A → list exchange → Prop) :
  audits c Q → (∀ a n, Q a n → Q' a n) → audits c Q'.
Proof. intros Hc HQ s. destruct (Hc s) as (l & n & Ht & Hn & Hs & Ha). exists l, n. auto. Qed.

Lemma audits_yields {A} (c : M A) Q (Q' : A → Prop) :
  audits c Q → yields c Q' → audits c (fun a n => Q a n ∧ Q' a).
Proof. intros Hc HQ s. destruct (Hc s) as (l & n & Ht & Hn & Hs & Ha). exists l, n. eauto 10. Qed.

(** Code that says nothing about Machines. *)
Definition silent {A} (c : M A) : Prop := audits c (fun _ n => n = []).

Lemma silent_ret {A} (a : A) : silent (mret a).
Proof. by apply audits_ret. Qed.

Lemma silent_bind {A B} (c : M A) (k : A → M B) : silent c → (∀ a, silent (k a)) → silent (c ≫= k).
Proof. intros Hc Hk. eapply audits_bind; [exact Hc|]. intros a n ->. apply Hk. Qed.

Lemma silent_bind_ok {A B} (c : M (result error A)) (k : A → M (result error B)) :
  silent c → (∀ a, silent (k a)) → silent (bind_ok c k).
Proof. intros Hc Hk. apply silent_bind; [done|]. intros [a|e]; [apply Hk|apply silent_ret]. Qed.

Lemma silent_call {A} (c : state W A) : unlogged c → silent (call c).
Proof.
  intros Hc s. exists [], []. pose proof (log_other c (world s) Hc) as Hl. unfold call.
  destruct (c (world s)) as [a w]. simpl in *. by rewrite !app_nil_r.
Qed.

Lemma silent_emit e : sent e = None → silent (emit e).
Proof. intros He s. exists [e], []. simpl. by rewrite He, app_nil_r. Qed.

Lemma silent_get_memory : silent get_memory.
Proof. intros s. exists [], []. by rewrite !app_nil_r. Qed.

Lemma silent_put_memory m : silent (put_memory m).
Proof. intros s. exists [], []. simpl. by rewrite !app_nil_r. Qed.

Create HintDb silent.
Hint Resolve silent_ret silent_get_memory silent_put_memory : silent.
Hint Extern 2 (silent (call _)) => (apply silent_call; constructor) : silent.
Hint Extern 2 (silent (emit _)) => (by apply silent_emit) : silent.

Ltac silent_steps :=
  repeat first
    [ solve [auto with silent]
    | lazymatch goal with
      | |- silent (bind_ok _ _) => apply silent_bind_ok; [|intros ?]
      | |- silent (mbind _ _) => apply silent_bind; [|intros ?]
      | |- silent (match ?x with _ => _ end) => destruct x
      end ].

Lemma report_silent news object reason action message : silent (report r news object reason action message).
Proof. unfold report. silent_steps. Qed.

Lemma heldForChecks_silent key m : silent (heldForChecks key m).
Proof. unfold heldForChecks. silent_steps. Qed.

Lemma RecordSkipped_silent dry m skip action reason : silent (RecordSkipped dry m skip action reason).
Proof. unfold RecordSkipped. silent_steps. Qed.

Lemma Answer_silent key name complete reason message : silent (Answer key name complete reason message).
Proof. unfold Answer. cbv zeta. silent_steps. Qed.

Lemma IsPending_silent key name : silent (IsPending key name).
Proof. unfold IsPending. silent_steps. Qed.

Lemma modify_silent f : silent (modify (W:=W) f).
Proof. unfold modify. silent_steps. Qed.

Hint Resolve report_silent heldForChecks_silent RecordSkipped_silent Answer_silent IsPending_silent modify_silent : silent.

(** The code goes along with the system: over one Machine, over the Machine a handler
    may have, and over the Machines of a pass. *)
Definition goes {A} (m : Machine) (c : M A) (machine : A → Machine) : Prop :=
  audits c (fun res n => path entry_step (entry m) n (entry (machine res))).

Lemma goes_ret {A} m (a : A) machine : machine a = m → goes m (mret a) machine.
Proof. intros <-. apply audits_ret. constructor. Qed.

Lemma goes_bind {A B} m (c : M A) (k : A → M B) f g :
  goes m c f → (∀ a, goes (f a) (k a) g) → goes m (c ≫= k) g.
Proof.
  intros Hc Hk. eapply audits_bind; [exact Hc|]. intros a n Hn. eapply audits_weaken; [apply Hk|].
  intros b n' Hn'. exact (path_app _ _ _ _ _ _ Hn Hn').
Qed.

Lemma goes_silent_bind {A B} m (c : M A) (k : A → M B) g :
  silent c → (∀ a, goes m (k a) g) → goes m (c ≫= k) g.
Proof. intros Hc Hk. eapply audits_bind; [exact Hc|]. intros a n ->. apply Hk. Qed.

(** ** Patches *)

Lemma mark_of_annotations m m' :
  m_Annotations m = m_Annotations m' → mark_of m = mark_of m'.
Proof. intros Ha. unfold mark_of, MarkedAction, IsMarkedForRemediation. by rewrite Ha. Qed.

(** The mark of the Machine that answers a patch which sets a mark. *)
Lemma patch_marks base updated w m :
  (SendPatchMachine base updated false w).1 = Ok m → mark_step (mark_of base) false (mark_of updated) →
  mark_of m ≠ Unmarked.
Proof.
  intros Er Hstep. rewrite <- mark_of_unmarked. intros Hm. unfold IsMarkedForRemediation, has_key in Hm.
  assert (Hb : IsMarkedForRemediation base = false) by (apply mark_of_unmarked; by inversion Hstep).
  assert (Hu : IsMarkedForRemediation updated = true).
  { destruct (IsMarkedForRemediation updated) eqn:Hu; [done|]. apply mark_of_unmarked in Hu.
    rewrite Hu in Hstep. inversion Hstep. }
  unfold IsMarkedForRemediation, has_key in Hb, Hu.
  apply bool_decide_eq_false_1 in Hm, Hb. apply bool_decide_eq_true_1 in Hu.
  apply Hm. rewrite (patched_changes _ _ _ _ _ _ Er); [done|]. intros Heq. by rewrite Heq in Hu.
Qed.

(** A patch that takes a step of the system. *)
Lemma patch_goes base updated lock :
  mark_step (mark_of base) lock (mark_of updated) → m_Name updated = m_Name base →
  goes base (patch_machine base updated lock) (fun res => match res with Ok m => m | Err _ => base end).
Proof.
  intros Hstep Hname s. pose proof (log_patched base updated lock (world s)) as Hlog.
  exists [PatchMachine base updated lock], [Patched base updated lock (SendPatchMachine base updated lock (world s)).1].
  unfold patch_machine, mbind, state_bind, emit, call. cbn [world trace memory].
  destruct (SendPatchMachine base updated lock (world s)) as [res w] eqn:E. simpl in Hlog.
  pose proof (f_equal fst E) as Er. simpl in Er.
  destruct res as [m|e]; (split_and!; [done|exact Hlog|done|]); simpl; apply path_one; [|by apply entry_rejected].
  apply entry_accepted; [done|by eapply patched_name|]. destruct lock; [|by eapply patch_marks].
  apply mark_of_annotations. by apply (patched_under_lock _ _ _ _ Er).
Qed.

Lemma mark_of_marked m action reason restart :
  action = ActionRestart ∨ action = ActionRemediate →
  mark_of (set_annotations m (mark_annotations (m_Annotations m) action reason restart)) =
    (if decide (action = ActionRestart) then ForRestart else ForReplacement).
Proof.
  intros Ha. destruct (mark_lookup (m_Annotations m) action reason restart) as (Hr & Hact & _).
  unfold mark_of, MarkedAction, IsMarkedForRemediation, has_key. cbn [set_annotations m_Annotations].
  rewrite Hr, Hact. by destruct Ha as [->| ->].
Qed.

Lemma mark_of_released m :
  mark_of (set_annotations m (release_annotations (m_Annotations m))) = Unmarked.
Proof.
  apply mark_of_unmarked. unfold IsMarkedForRemediation, has_key. apply bool_decide_eq_false_2. simpl.
  unfold release_annotations. intros [v Hv]. rewrite !lookup_delete_Some in Hv. tauto.
Qed.

Lemma mark_of_escalated m reason :
  MarkedAction m = Some ActionRestart →
  mark_of (set_annotations m (escalate_annotations (m_Annotations m) reason)) = ForReplacement.
Proof.
  intros Hm. pose proof (marked_action_marked _ _ Hm) as Hmarked.
  destruct (escalated_lookup (m_Annotations m) reason) as (Hr & Ha & _).
  unfold mark_of, MarkedAction, IsMarkedForRemediation, has_key in *. cbn [set_annotations m_Annotations].
  by rewrite Hr, Ha, Hmarked.
Qed.

(** A patch, and when it is accepted an Event. *)
Lemma patch_then_event_goes {A} m updated lock (ok : Machine → A) (err : error → A)
    (event : Machine → Effect) (machine : A → Machine) :
  mark_step (mark_of m) lock (mark_of updated) → m_Name updated = m_Name m →
  (∀ m', sent (event m') = None) → (∀ m', machine (ok m') = m') → (∀ e, machine (err e) = m) →
  goes m
    (r ← patch_machine m updated lock;
     match r with
     | Err e => mret (err e)
     | Ok m' => emit (event m');; mret (ok m')
     end) machine.
Proof.
  intros Hstep Hname Hev Hok Herr. eapply goes_bind; [by apply patch_goes|].
  intros [m'|e]; [|by apply goes_ret]. apply goes_silent_bind; [by apply silent_emit|].
  intros _. by apply goes_ret.
Qed.

Lemma Release_goes dryRun m reason :
  MarkedAction m = Some ActionRestart → goes m (Release dryRun m reason) fst.
Proof.
  intros Hm. unfold Release. rewrite Hm. destruct (m_Deleting m); [by apply goes_ret|].
  destruct dryRun; [by apply goes_ret|].
  apply (patch_then_event_goes _ _ _ (fun m' => (m', Ok true)) (fun e => (m, Err e))); try done.
  apply mark_of_restart in Hm. rewrite Hm, mark_of_released. constructor.
Qed.

Lemma Escalate_goes dryRun m reason : goes m (Escalate dryRun m reason) fst.
Proof.
  unfold Escalate. destruct (negb _ || _) eqn:Hm; [by apply goes_ret|]. bool_to_prop.
  destruct dryRun; [by apply goes_ret|].
  apply (patch_then_event_goes _ _ _ (fun m' => (m', Ok true)) (fun e => (m, Err e))); try done.
  rewrite mark_of_escalated by done. replace (mark_of m) with ForRestart; [constructor|].
  symmetry. by apply mark_of_restart.
Qed.

Lemma MarkForRemediation_goes dryRun m action reason restart :
  action = ActionRestart ∨ action = ActionRemediate →
  goes m (MarkForRemediation dryRun m action reason restart) fst.
Proof.
  intros Ha. unfold MarkForRemediation. destruct (Guard m) eqn:HG; [by apply goes_ret|].
  destruct dryRun; [by apply goes_ret|].
  apply (patch_then_event_goes _ _ _ (fun m' => (m', Ok None)) (fun e => (m, Err e))); try done.
  rewrite mark_of_marked by done. replace (mark_of m) with Unmarked; [case_decide; constructor|].
  symmetry. by apply mark_of_unmarked, guard_unmarked.
Qed.

(** ** Handling a signal *)

Lemma hand_over_goes cluster sig p cov m node obs previous :
  p_action p = ActionRestart ∨ p_action p = ActionRemediate →
  goes m (hand_over r cluster sig p cov m node obs previous) fst.
Proof.
  intros Ha. unfold hand_over.
  destruct (p_restart p && p_restartUnavailable p).
  { apply goes_silent_bind; [apply report_silent|]. intros _. by apply goes_ret. }
  destruct (negb (p_restart p) && negb (Covered cov)).
  { apply goes_silent_bind; [apply report_silent|]. intros _. by apply goes_ret. }
  apply goes_silent_bind; [destruct (p_restart p); auto with silent|].
  intros [[] shown]; [by apply goes_ret|]. simpl. destruct (r_DryRun r); [by apply goes_ret|].
  eapply goes_bind; [by apply MarkForRemediation_goes|]. intros [m' [|e]]; by apply goes_ret.
Qed.

Lemma remediate_goes cluster checks sig outcome m node obs previous :
  goes m (remediate r cluster checks sig outcome m node obs previous) fst.
Proof.
  unfold remediate. destruct (bool_decide _ && _ && _ && _); [by apply goes_ret|]. cbv zeta.
  set (p := make_plan r cluster outcome (CoverageOf checks m)).
  eapply (goes_bind _ _ _ fst).
  { destruct (negb (p_restart p) && _); [apply Escalate_goes|by apply goes_ret]. }
  intros [m' [esc|e]]; [|by apply goes_ret]. cbn beta iota. cbn [fst]. destruct (Guard m') as [skip|].
  - apply goes_silent_bind; [|intros _; by apply goes_ret].
    case_decide; auto with silent.
  - apply hand_over_goes, make_plan_action.
Qed.

(** The same over the Machine of a node, should it have one. *)
Definition moves (machine : option Machine) (n : list exchange) (machine' : option Machine) : Prop :=
  match machine, machine' with
  | Some m, Some m' => path entry_step (entry m) n (entry m')
  | None, None => n = []
  | _, _ => False
  end.

Definition threads {A} (machine : option Machine) (c : M A) (f : A → option Machine) : Prop :=
  audits c (fun res n => moves machine n (f res)).

Lemma moves_nil machine : moves machine [] machine.
Proof. destruct machine; [constructor|done]. Qed.

Lemma moves_app x n1 y n2 z : moves x n1 y → moves y n2 z → moves x (n1 ++ n2) z.
Proof. destruct x, y, z; simpl; try done; [apply path_app|by intros -> ->]. Qed.

Lemma threads_goes {A} m (c : M A) f : goes m c f → threads (Some m) c (fun res => Some (f res)).
Proof. done. Qed.

Lemma threads_ret {A} machine (a : A) f : f a = machine → threads machine (mret a) f.
Proof. intros <-. apply audits_ret, moves_nil. Qed.

Lemma threads_bind_yields {A B} machine (c : M A) (k : A → M B) f g (Q : A → Prop) :
  threads machine c f → yields c Q → (∀ a, Q a → threads (f a) (k a) g) → threads machine (c ≫= k) g.
Proof.
  intros Hc HQ Hk. eapply audits_bind; [exact (audits_yields _ _ _ Hc HQ)|]. intros a n [Hn Ha].
  eapply audits_weaken; [by apply Hk|]. intros b n'. by apply moves_app.
Qed.

Lemma threads_bind {A B} machine (c : M A) (k : A → M B) f g :
  threads machine c f → (∀ a, threads (f a) (k a) g) → threads machine (c ≫= k) g.
Proof. intros Hc Hk. by apply (threads_bind_yields _ _ _ f g (fun _ => True)). Qed.

Lemma threads_silent_bind {A B} machine (c : M A) (k : A → M B) g :
  silent c → (∀ a, threads machine (k a) g) → threads machine (c ≫= k) g.
Proof. intros Hc Hk. eapply audits_bind; [exact Hc|]. intros a n ->. apply Hk. Qed.

Lemma handle_threads cluster mode checks sig machine node previous :
  threads machine (handle r cluster mode checks sig machine node previous) fst.
Proof.
  unfold handle. cbv zeta. destruct (bool_decide (node = None) && _); [by apply threads_ret|].
  destruct machine as [m|].
  - destruct (out_Decision (decided r mode sig)).
    + apply threads_silent_bind; [apply report_silent|]. intros ?. by apply threads_ret.
    + eapply (threads_bind _ _ _ (fun res => Some res.1)); [apply threads_goes, remediate_goes|].
      intros [m' obs]. by apply threads_ret.
    + eapply (threads_bind _ _ _ (fun res => Some res.1)); [apply threads_goes, remediate_goes|].
      intros [m' obs]. by apply threads_ret.
  - apply threads_silent_bind; [apply report_silent|]. intros ?. by apply threads_ret.
Qed.

(** ** Releasing after an answer *)

(** What was said since [s0], in [n], takes [m] to the Machine of the attempt; until a
    conflict that Machine has a restart mark. *)
Definition releasing (s0 : Sys W Memory) (m : Machine) (x : Sys W Memory * (Machine * bool)) : Prop :=
  ∃ l n, trace x.1 = trace s0 ++ l ∧ log (world x.1) = log (world s0) ++ n ∧ omap sent l = omap asked n ∧
    path entry_step (entry m) n (entry x.2.1).

Lemma release_now_goes s0 m reason s m' c :
  releasing s0 m (s, (m', c)) → MarkedAction m' = Some ActionRestart →
  let x := release_now r reason (s, (m', c)) in
  releasing s0 m x.2 ∧ (x.1 ≠ None → x.2.2.1 = m').
Proof.
  intros (l & n & Ht & Hn & Hs & Hp) Hm. cbv zeta. unfold release_now. simpl in Ht, Hn, Hp.
  destruct (Release_goes (r_DryRun r) m' reason Hm s) as (l' & n' & Ht' & Hn' & Hs' & Hp').
  pose proof (Release_keeps_mark (r_DryRun r) m' reason s) as Hkeep.
  assert (releasing s0 m ((Release (r_DryRun r) m' reason s).2, ((Release (r_DryRun r) m' reason s).1.1, c))) as Hr.
  { exists (l ++ l'), (n ++ n'). simpl. rewrite Ht', Ht, Hn', Hn, !(assoc_L (++)), !omap_app, Hs, Hs'.
    split_and!; [done..|]. exact (path_app _ _ _ _ _ _ Hp Hp'). }
  destruct (Release (r_DryRun r) m' reason s) as [[m2 [b|e]] s2]; simpl in *; (split; [exact Hr|]); [done|].
  intros _. by apply (Hkeep e).
Qed.

Lemma releaseAnswered_goes m reason :
  MarkedAction m = Some ActionRestart → goes m (releaseAnswered r m reason) fst.
Proof.
  intros Hm s. destruct retry_on_conflict_bounded as [k Hk]. unfold releaseAnswered. rewrite Hk.
  set (attempt := release_attempt r (restartMarkOf m) reason).
  enough (releasing s m (retry_times (Datatypes.S k) attempt (s, (m, false))).2) as (l & n & Hl).
  { exists l, n. by destruct (retry_times _ _ _) as [? [? [? ?]]]. }
  apply (retry_times_inv k attempt
    (fun x => releasing s m x ∧ (x.2.2 = false → MarkedAction x.2.1 = Some ActionRestart)) (releasing s m));
    [|split; [exists [], []; rewrite !app_nil_r; repeat split; constructor|done]].
  intros [s' [m' c]] [Hrel Hm']. subst attempt. unfold release_attempt. simpl in Hm'. destruct c.
  - destruct Hrel as (l & n & Ht & Hn & Hs & Hp). simpl in Ht, Hn, Hp.
    pose proof (log_got (machine_key m') (world s')) as Hlog. unfold call.
    destruct (GetMachine (machine_key m') (world s')) as [res w] eqn:Ew. simpl in Hlog.
    pose proof (f_equal fst Ew) as Er. simpl in Er.
    assert (∀ m2, entry_step (entry m') (Got (machine_key m') res) (entry m2) →
      releasing s m (MkSys w (trace s') (memory s'), (m2, true))) as Hgot.
    { intros m2 Hstep. exists l, (n ++ [Got (machine_key m') res]). simpl.
      rewrite Hlog, Hn, (assoc_L (++)), omap_app, Hs. simpl. rewrite app_nil_r. split_and!; [done..|].
      exact (path_app _ _ _ _ _ _ Hp (path_one _ _ _ _ Hstep)). }
    destruct res as [current|e].
    + assert (releasing s m (MkSys w (trace s') (memory s'), (current, true))) as Hcur
        by (apply Hgot, entry_found; [done|by rewrite (got_name _ _ _ Er)]).
      case_decide as Hmark; [by split|].
      destruct (release_now_goes s m reason (MkSys w (trace s') (memory s')) current true) as [Hx Hsame]; [done| |].
      { injection Hmark as Ha _ _. by rewrite Ha. }
      split; [exact Hx|]. intros e He _. split; [exact Hx|]. intros _. rewrite Hsame by congruence.
      injection Hmark as Ha _ _. by rewrite Ha.
    + assert (releasing s m (MkSys w (trace s') (memory s'), (m', true))) by (apply Hgot, entry_not_found; done).
      by split.
  - destruct (release_now_goes s m reason s' m' false) as [Hx Hsame]; [done|by apply Hm'|].
    split; [exact Hx|]. intros e He _. split; [exact Hx|]. intros _. rewrite Hsame by congruence. by apply Hm'.
Qed.

(** ** A pass *)

(** The same over the Machines of a pass. *)
Definition advances {A} (machines : gmap string Machine) (c : M A) (f : A → gmap string Machine) : Prop :=
  audits c (fun res n => path pass_step (entry <$> machines) n (entry <$> f res)).

Lemma advances_ret {A} machines (a : A) f : f a = machines → advances machines (mret a) f.
Proof. intros <-. apply audits_ret. constructor. Qed.

Lemma advances_bind {A B} machines (c : M A) (k : A → M B) f g :
  advances machines c f → (∀ a, advances (f a) (k a) g) → advances machines (c ≫= k) g.
Proof.
  intros Hc Hk. eapply audits_bind; [exact Hc|]. intros a n Hn. eapply audits_weaken; [apply Hk|].
  intros b n' Hn'. exact (path_app _ _ _ _ _ _ Hn Hn').
Qed.

Lemma advances_silent_bind {A B} machines (c : M A) (k : A → M B) g :
  silent c → (∀ a, advances machines (k a) g) → advances machines (c ≫= k) g.
Proof. intros Hc Hk. eapply audits_bind; [exact Hc|]. intros a n ->. apply Hk. Qed.

(** What is done about one node is done to the Machine behind it. *)
Definition put (node : string) (machine : option Machine) (machines : gmap string Machine) :
    gmap string Machine :=
  match machine with Some m => <[node := m]> machines | None => machines end.

Lemma advances_threads {A} machines node (c : M A) f :
  threads (machines !! node) c f → advances machines c (fun res => put node (f res) machines).
Proof.
  intros Hc. eapply audits_weaken; [exact Hc|]. intros res n Hn. unfold moves in Hn.
  destruct (machines !! node) as [m|] eqn:Hm, (f res) as [m'|]; try done; simpl.
  - rewrite fmap_insert. apply (pass_path _ _ (entry m)); [by rewrite lookup_fmap, Hm|done].
  - subst n. constructor.
Qed.

Lemma answer_request_threads key cluster machine sig a node :
  (an_Complete a = true → restart_answers sig machine node) →
  threads machine (answer_request r key cluster machine sig a) id.
Proof.
  intros Hcomplete. unfold answer_request. destruct (r_DryRun r); [by apply threads_ret|].
  apply threads_silent_bind; [apply Answer_silent|]. intros [[]|e]; [|by apply threads_ret..].
  apply threads_silent_bind; [by apply silent_emit|]. intros ?.
  destruct machine as [m|]; [|by apply threads_ret].
  destruct (an_Complete a) eqn:Ha; [|by apply threads_ret].
  destruct Hcomplete as (m1 & n & [= <-] & _ & [Hm _] & _); [done|].
  eapply (threads_bind _ _ _ (fun res => Some res.1)).
  - by apply threads_goes, releaseAnswered_goes.
  - intros [m' err]. by apply threads_ret.
Qed.

Section pass.
Context (key : ObjectKey) (cluster : Cluster) (mode : Mode) (checks : list MachineHealthCheck)
  (nodes : gmap string Node).

(** What [handle_signal] does before it takes note of the outcome. *)
Definition handle_and_answer (sig : Signal) (machine : option Machine) (prev : observation) :
    M (option Machine * observation) :=
  handled ← handle r cluster mode checks sig machine (nodes !! sig_Node sig) prev;
  answered ← (if given (obs_Answer handled.2)
              then answer_request r key cluster handled.1 sig (obs_Answer handled.2)
              else mret handled.1);
  mret (answered, handled.2).

Lemma handle_and_answer_threads sig machine prev : threads machine (handle_and_answer sig machine prev) fst.
Proof.
  eapply threads_bind_yields; [apply handle_threads| |].
  { intros s. exact (proj1 (requests_are_settled r cluster mode checks sig machine (nodes !! sig_Node sig) prev s)). }
  intros [machine' obs] Hans. unfold answer_sound in Hans. simpl in *.
  eapply (threads_bind _ _ _ id); [|intros a; by apply threads_ret].
  destruct (given (obs_Answer obs)) eqn:Hg; [|by apply threads_ret].
  apply (answer_request_threads _ _ _ _ _ (nodes !! sig_Node sig)). intros Hc.
  rewrite Hc in Hans. by destruct Hans as (_ & _ & _ & _ & -> & ?).
Qed.

Lemma handle_signal_eq previous sig ps s :
  handle_signal r key cluster mode checks nodes previous sig ps s =
  (handled ← handle_and_answer sig (ps_machines ps !! sig_Node sig) (default no_observation (previous !! Key sig));
   mret (MkPass (put (sig_Node sig) handled.1 (ps_machines ps)) (<[Key sig := handled.2]> (ps_current ps))
           (ps_asking ps) (ps_unreadable ps))) s.
Proof.
  unfold handle_signal, handle_and_answer, mbind, state_bind.
  destruct (handle _ _ _ _ _ _ _ _ s) as [[machine obs] s1]. simpl.
  by destruct (if given (obs_Answer obs) then _ else _) as [answered s2].
Qed.

Lemma handle_signal_advances previous sig ps :
  advances (ps_machines ps) (handle_signal r key cluster mode checks nodes previous sig ps) ps_machines.
Proof.
  intros s. rewrite handle_signal_eq. revert s. eapply advances_bind.
  - apply (advances_threads _ (sig_Node sig)), handle_and_answer_threads.
  - intros [machine obs]. by apply advances_ret.
Qed.

Lemma signal_step_advances previous sig ps :
  advances (ps_machines ps) (signal_step r key cluster mode checks nodes previous sig ps) ps_machines.
Proof.
  unfold signal_step. case_decide; [apply handle_signal_advances|].
  apply advances_silent_bind; [apply IsPending_silent|].
  intros [[]|e]; [|by apply advances_ret..].
  apply (handle_signal_advances previous sig (MkPass _ _ _ _)).
Qed.

Lemma signal_loop_advances previous signals ps :
  advances (ps_machines ps) (signal_loop r key cluster mode checks nodes previous signals ps) ps_machines.
Proof.
  revert ps. induction signals as [|sig rest IH]; intros ps; [by apply advances_ret|].
  eapply advances_bind; [apply signal_step_advances|]. intros ps'. apply IH.
Qed.

Lemma release_loop_advances source held leftover names machines would :
  advances machines (release_loop r source held leftover names machines would) fst.
Proof.
  revert machines would. induction names as [|node names IH]; intros machines would; [by apply advances_ret|].
  cbn [release_loop]. destruct (machines !! node) as [m|] eqn:Hm; [|apply IH].
  destruct (negb _ || _) eqn:Hskip; [apply IH|]. bool_to_prop.
  eapply (advances_bind _ _ _ (fun res => <[node := res.1]> machines)); [|intros [m' res]; apply IH].
  apply (advances_threads _ node _ (fun res => Some res.1)). rewrite Hm.
  by apply threads_goes, Release_goes.
Qed.

Lemma releaseRestarts_advances source machines current asking :
  advances machines (releaseRestarts r key source machines nodes current asking) id.
Proof.
  unfold releaseRestarts. destruct (holds _ _ _ _) as [held leftover].
  eapply advances_bind; [apply release_loop_advances|]. intros [machines' would].
  apply advances_silent_bind; [apply modify_silent|]. intros _. by apply advances_ret.
Qed.

(** A run of the system from these Machines. *)
Definition run_from (machines : gmap string Machine) (n : list exchange) : Prop :=
  ∃ σ, path pass_step (entry <$> machines) n σ.

Lemma run_from_silent {A} machines (c : M A) : silent c → audits c (fun _ n => run_from machines n).
Proof. intros Hc. eapply audits_weaken; [exact Hc|]. intros a n ->. eexists. constructor. Qed.

Lemma run_from_bind {A B} machines (c : M A) (k : A → M B) f :
  advances machines c f → (∀ a, audits (k a) (fun _ n => run_from (f a) n)) →
  audits (c ≫= k) (fun _ n => run_from machines n).
Proof.
  intros Hc Hk. eapply audits_bind; [exact Hc|]. intros a n1 Hn1. eapply audits_weaken; [apply Hk|].
  intros b n2 [σ Hn2]. exists σ. exact (path_app _ _ _ _ _ _ Hn1 Hn2).
Qed.

Lemma run_from_silent_bind {A B} machines (c : M A) (k : A → M B) :
  silent c → (∀ a, audits (k a) (fun _ n => run_from machines n)) →
  audits (c ≫= k) (fun _ n => run_from machines n).
Proof. intros Hc Hk. eapply audits_bind; [exact Hc|]. intros a n ->. apply Hk. Qed.

Lemma act_on_signals_run_from machines signals :
  audits (act_on_signals r key cluster mode checks machines nodes signals) (fun _ n => run_from machines n).
Proof.
  unfold act_on_signals. apply run_from_silent_bind; [unfold observations; silent_steps|].
  intros prev. eapply run_from_bind; [apply (signal_loop_advances prev signals (MkPass machines ∅ ∅ false))|].
  intros ps. eapply (run_from_bind _ _ _ id).
  { destruct (ps_unreadable ps); [by apply advances_ret|apply releaseRestarts_advances]. }
  intros ms. apply run_from_silent. unfold remember, forgetWaits, nextLook. silent_steps.
Qed.
End pass.

(** ** A reconcile *)

(** The Machines behind nodes that the API server listed for the Cluster. *)
Definition listed (c : Cluster) (machines : gmap string Machine) : Prop :=
  ∃ w items, (ListMachines (cl_Namespace c) {[ClusterNameLabel := cl_Name c]} w).1 = Ok items ∧
    machines = index_machines items.

(** A run of the system from Machines listed for the Cluster, or nothing at all. *)
Definition refines_marks (c : Cluster) (n : list exchange) : Prop :=
  n = [] ∨ ∃ machines, listed c machines ∧ run_from machines n.

Lemma refines_silent {A} c0 (c : M A) : silent c → audits c (fun _ n => refines_marks c0 n).
Proof. intros Hc. eapply audits_weaken; [exact Hc|]. intros a n ->. by left. Qed.

Lemma refines_silent_bind {A B} c0 (c : M A) (k : A → M B) :
  silent c → (∀ a, audits (k a) (fun _ n => refines_marks c0 n)) →
  audits (c ≫= k) (fun _ n => refines_marks c0 n).
Proof. intros Hc Hk. eapply audits_bind; [exact Hc|]. intros a n ->. apply Hk. Qed.

Lemma machinesByNode_listed c0 :
  audits (machinesByNode c0) (fun res n => n = [] ∧
    match res with Ok machines => listed c0 machines | Err _ => True end).
Proof.
  unfold machinesByNode. intros s.
  assert (silent (call (ListMachines (cl_Namespace c0) {[ClusterNameLabel := cl_Name c0]}))) as Hc by auto with silent.
  destruct (Hc s) as (l & n & Ht & Hn & Hs & ->). exists l, [].
  unfold mbind, state_bind, call in *.
  destruct (ListMachines _ _ (world s)) as [[items|e] w] eqn:E; simpl in *; split_and!; try done.
  exists (world s), items. by rewrite E.
Qed.

Lemma poll_rest_run_from key cluster mode signals machines :
  audits
    (checks ←? (match signals with [] => mret (Ok []) | _ => ListHealthChecks cluster end);
     nodes ← (match signals with [] => mret (Ok ∅) | _ => nodesByName key end);
     match nodes with
     | Err _ => mret (Ok (pollInterval r))
     | Ok nodes =>
         live ← (if decide (mode = ModeExternalRemediationRequest ∧ signals ≠ [])
                 then call (GetUncachedClient key) else mret (Ok tt));
         match live with
         | Err _ => mret (Ok (pollInterval r))
         | Ok _ => act_on_signals r key cluster mode checks machines nodes signals
         end
     end) (fun _ n => run_from machines n).
Proof.
  assert (Hret : ∀ a : result error Z, audits (mret a) (fun _ n => run_from machines n))
    by (intros a; apply run_from_silent, silent_ret).
  unfold bind_ok. apply run_from_silent_bind; [unfold ListHealthChecks; silent_steps|].
  intros [checks|e]; [|done]. apply run_from_silent_bind; [unfold nodesByName; silent_steps|].
  intros [nodes|e]; [|done]. apply run_from_silent_bind; [silent_steps|].
  intros [u|e]; [apply act_on_signals_run_from|done].
Qed.

Lemma selectMode_silent key : silent (selectMode (W:=W) (R:=Memory) key).
Proof. unfold selectMode, isServed. silent_steps. Qed.

Lemma source_silent mode key : silent (src_Collect (source (W:=W) (R:=Memory) mode key)).
Proof. destruct mode; simpl; unfold Extrr.Collect, Condition.Collect; silent_steps. Qed.

Lemma poll_refines key cluster : audits (poll r key cluster) (fun _ n => refines_marks cluster n).
Proof.
  assert (Hret : ∀ a : result error Z, audits (mret a) (fun _ n => refines_marks cluster n))
    by (intros a; apply refines_silent, silent_ret).
  unfold poll. apply refines_silent_bind; [apply selectMode_silent|]. intros [mode|e]; [|done].
  apply refines_silent_bind; [unfold noteMode; silent_steps|]. intros _.
  apply refines_silent_bind; [unfold watchRequests; silent_steps|]. intros _.
  apply refines_silent_bind; [apply source_silent|]. intros [signals|e]; [|done].
  unfold bind_ok at 1. eapply audits_bind; [apply machinesByNode_listed|].
  intros [machines|e] n [-> Hlisted]; [|apply Hret].
  eapply audits_weaken; [apply poll_rest_run_from|]. intros a n Hn. right. by exists machines.
Qed.

(** A call, and what follows it from the system it is made in. *)
Lemma audits_call_at {A B} (c : state W A) (k : A → M B) (Q : B → list exchange → Prop) s :
  unlogged c → audits (k (c (world s)).1) Q →
  ∃ l n, trace ((call c ≫= k) s).2 = trace s ++ l ∧ log (world ((call c ≫= k) s).2) = log (world s) ++ n ∧
    omap sent l = omap asked n ∧ Q ((call c ≫= k) s).1 n.
Proof.
  intros Hc Hk. pose proof (log_other c (world s) Hc) as Hlog. unfold mbind, state_bind, call.
  destruct (c (world s)) as [a w]. simpl in *. rewrite <- Hlog. exact (Hk (MkSys w (trace s) (memory s))).
Qed.

(** A reconcile, from the Cluster it reads. *)
Lemma Reconcile_refines key s :
  ∃ l n, trace (Reconcile r key s).2 = trace s ++ l ∧
    log (world (Reconcile r key s).2) = log (world s) ++ n ∧ omap sent l = omap asked n ∧
    (n = [] ∨ ∃ cluster machines, (GetCluster key (world s)).1 = Ok cluster ∧ listed cluster machines ∧
       run_from machines n).
Proof.
  set (Q := fun n => n = [] ∨ ∃ cluster machines,
    (GetCluster key (world s)).1 = Ok cluster ∧ listed cluster machines ∧ run_from machines n).
  assert (Hquiet : ∀ c : M (result error Z), silent c → audits c (fun _ n => Q n)).
  { intros c Hc. eapply audits_weaken; [exact Hc|]. intros a n ->. by left. }
  assert (Hforget : ∀ f (z : Z), silent (modify (W:=W) f;; mret (Ok (E:=error) z))) by (intros; silent_steps).
  unfold Reconcile. apply (audits_call_at (GetCluster key) _ (fun _ n => Q n)); [constructor|].
  subst Q. destruct (GetCluster key (world s)).1 as [cluster|e];
    [|destruct (IsNotFound e); apply Hquiet; [apply Hforget|apply silent_ret]].
  destruct (cl_Deleting cluster); [apply Hquiet, Hforget|].
  destruct (match r_ClusterSelector r with Some _ => _ | None => _ end); [apply Hquiet, Hforget|].
  destruct (annotations_IsPaused cluster); [apply Hquiet, Hforget|].
  eapply audits_bind; [apply silent_call; constructor|]. intros [u|err] n ->.
  - eapply audits_weaken; [apply poll_refines|]. intros a n [Hn|(machines & Hm & Hn)]; [by left|].
    right. by exists cluster, machines.
  - destruct (IsNotConnected err); apply Hquiet; [apply Hforget|apply silent_ret].
Qed.
End refinement.

(** C4: a reconcile refines the state machine of marks. What it says and hears about
    Machines is a run of that system from the Machines the API server listed for the
    Cluster, and the patches it sends are the patches of that run, in order. So every patch
    takes a step of the system (it marks what is not marked, releases a restart or turns it
    into a replacement) from the mark the Machine was listed with or, once anything was
    heard of that Machine in the pass, from the mark of the Machine the API server answered
    last: no Machine is marked that the pass has marked already, none is released or
    escalated twice, and no mark is acted on that has since been seen to be another. *)
Theorem reconcile_refines_marks `{KubeLib} {HL : KubeLaws} {W : Type} `{API W} {HP : PatchLaws W} {HW : Logged W}
    (r : ClusterReconciler) (key : ObjectKey) (s : Sys W Memory) :
  ∃ l n, trace (Reconcile r key s).2 = trace s ++ l ∧
    log (world (Reconcile r key s).2) = log (world s) ++ n ∧ omap sent l = omap asked n ∧
    (n = [] ∨ ∃ cluster machines σ,
       (GetCluster key (world s)).1 = Ok cluster ∧ listed cluster machines ∧
       path pass_step (entry <$> machines) n σ ∧
       (names_differ machines →
        ∀ n1 base updated lock answer n2, n = n1 ++ Patched base updated lock answer :: n2 →
          mark_step (mark_of base) lock (mark_of updated) ∧
          (Forall (tells_nothing (m_Name base)) n1 →
             ∃ node m, machines !! node = Some m ∧ m_Name m = m_Name base ∧ mark_of base = mark_of m) ∧
          ∀ n11 e n12 m, n1 = n11 ++ e :: n12 → about e = m_Name base →
            Forall (tells_nothing (m_Name base)) n12 → answered e = Some m → mark_of base = mark_of m)).
Proof.
  destruct (Reconcile_refines r key s) as (l & n & Ht & Hn & Hs & Hrun). exists l, n. split_and!; [done..|].
  destruct Hrun as [?|(cluster & machines & Hc & Hm & σ & Hp)]; [by left|]. right.
  exists cluster, machines, σ. split_and!; [done..|]. intros Hdiff n1 base updated lock answer n2 ->.
  assert (Hd : distinct (entry <$> machines)).
  { intros node1 node2 x1 x2 H1 H2 Hx. rewrite lookup_fmap in H1, H2.
    apply fmap_Some in H1 as (m1 & Hm1 & ->), H2 as (m2 & Hm2 & ->). by eapply Hdiff. }
  split_and!.
  - apply path_split in Hp as (σ1 & _ & Hp). inversion Hp as [|? ? ? ? ? Hstep _]; subst.
    by apply pass_patched in Hstep as (_ & _ & ?).
  - intros Hf. destruct (first_patch _ _ _ _ _ _ _ _ Hp Hd Hf) as (node & Hnode).
    rewrite lookup_fmap in Hnode. apply fmap_Some in Hnode as (m & Hmn & [= Hname Hmark]). by exists node, m.
  - intros n11 e n12 m -> He Hf Hans. rewrite <- (assoc_L (++)) in Hp. by eapply next_patch.
Qed.

(** ** Witness *)

#[local] Existing Instance lib.
#[local] Existing Instance lib_laws.
#[local] Existing Instance api.

(** The world of the other witnesses, with a log, and two signals for the one Machine: it is
    marked for a restart, and the restart is turned into a replacement. *)
Definition two_faults_node : Node :=
  MkNode "node-1" "boot-1" [MkNodeCondition "GpuXid" "True" "ErrorCode:79 Recommended Action=RESTART_VM;";
    MkNodeCondition "SysLogs" "True" "ErrorCode:120 Recommended Action=REPLACE_VM;"].

Definition two_faults_world : World :=
  MkWorld (Some a_cluster) [a_machine] [a_check] true [] [two_faults_node] [] 0 ∅ [] [] [].

Definition logged_start : Sys (World * list exchange) Memory := MkSys (two_faults_world, []) [] empty_memory.

#[local] Existing Instance recording.
#[local] Existing Instance recorded.

Definition logged_end : Sys (World * list exchange) Memory :=
  (Reconcile (W:=World * list exchange) (a_reconciler false) a_key logged_start).2.

Lemma reconcile_refines_marks_witness :
  (fun e => match e with
    | Patched base updated _ _ => (mark_of base, mark_of updated)
    | Got _ _ => (Foreign, Foreign)
    end) <$> log (world logged_end) = [(Unmarked, ForRestart); (ForRestart, ForReplacement)] ∧
  ∃ cluster machines σ, (GetCluster a_key two_faults_world).1 = Ok cluster ∧ listed (W:=World * list exchange) cluster machines ∧
    path pass_step (entry <$> machines) (log (world logged_end)) σ.
Proof.
  assert (Hp : (fun e => match e with
    | Patched base updated _ _ => (mark_of base, mark_of updated)
    | Got _ _ => (Foreign, Foreign)
    end) <$> log (world logged_end) = [(Unmarked, ForRestart); (ForRestart, ForReplacement)])
    by (vm_compute; reflexivity).
  split; [exact Hp|].
  destruct (reconcile_refines_marks (W:=World * list exchange) (HP:=recording_laws api_patch_laws)
    (a_reconciler false) a_key logged_start) as (l & n & _ & Hn & _ & [->|Hrun]).
  - exfalso. assert (log (world logged_end) = []) as Hn' by exact Hn. rewrite Hn' in Hp. discriminate Hp.
  - assert (log (world logged_end) = n) as Hn' by exact Hn.
    destruct Hrun as (cluster & machines & σ & Hc & Hm & Hpath & _). exists cluster, machines, σ.
    split; [exact Hc|]. split; [exact Hm|]. rewrite Hn'. exact Hpath.
Defined.
