(* ===== verification/Held.v ===== *)
(** * Restarts that wait for the checks

    While the checks of a Machine still show an earlier mark, its restart is held back. What
    holds it is remembered over the polls, and the poll that finds the grace over marks the
    Machine. *)

From S2P Require Import Prelude GoStrings Signal Decision Kube KubeModel WorldModel Calls Condition Extrr Capi Mode ClusterController ClusterFacts ReconcileFacts Memory Progress.
Open Scope stdpp_scope.

(** ** What is remembered of the wait *)

Section waits.
Context `{KubeLib} `{!KubeLaws} {W : Type} `{API W} (L : W → Prop) (HL : stable L (fun A c => api_other c)).
Context (key : ObjectKey) (name : string).

(** As long as [L], with [E] of the wait of the Machine of this name. *)
Definition awaits (E : option checksWait → Prop) (s : Sys W Memory) : Prop :=
  L (world s) ∧ E (waits_of key (memory s) !! name).

#[export] Instance awaits_kept E : KeptOther (awaits E).
Proof.
  constructor; [|by intros e s]. intros A c Hc s [Hs He]. unfold awaits, call.
  pose proof (HL A c _ Hc Hs). by destruct (c (world s)).
Qed.

(** Asking about another Machine leaves the wait alone. *)
Lemma heldForChecks_elsewhere E m : m_Name m ≠ name → keeps (awaits E) (heldForChecks key m).
Proof.
  intros Hne s Hs. unfold heldForChecks, mbind, state_bind, get_memory. simpl.
  destruct (negb (EarlierMarkPending m)).
  - destruct Hs as [Hs He]. split; [exact Hs|]. unfold put_memory, waits_of in *. simpl. rewrite lookup_alter_eq.
    destruct (waiting (memory s) !! key); simpl in *; [by rewrite lookup_delete_ne|done].
  - pose proof (other_call (J:=awaits E) _ Now (others_read _ reads_Now) s Hs) as Hk.
    assert (Hm : memory (call Now s).2 = memory s) by (unfold call; by destruct (Now (world s))).
    destruct (call Now s) as [now s']. simpl in Hk, Hm. destruct (check_wait _ _) as [[held shown] wait].
    destruct Hk as [Hs' He]. split; [exact Hs'|]. simpl. rewrite Hm in He.
    rewrite waits_of_insert, decide_True by done. by rewrite lookup_insert_ne.
Qed.

(** What the answer leaves of the world it leaves of the wait. *)
Lemma Answer_awaits E k request complete reason message :
  keeps (R:=Memory) (fun s => L (world s)) (Answer k request complete reason message) →
  keeps (awaits E) (Answer k request complete reason message).
Proof. intros Ha. apply keeps_and; [exact Ha|]. apply Answer_keeps, (kept_memory (fun m => E (waits_of key m !! name))). Qed.
End waits.

(** ** A look at a Machine whose checks show an earlier mark *)

(** The wait, if it has begun, began at [t] at the latest; it has begun, by then. *)
Definition begun_by (t : Z) (wait : option checksWait) : Prop := ∀ w, wait = Some w → (since w <= t)%Z.
Definition awaited_since (t : Z) (wait : option checksWait) : Prop := ∃ w, wait = Some w ∧ (since w <= t)%Z.

Lemma awaited_begun t wait : awaited_since t wait → begun_by t wait.
Proof. intros (w & -> & Hw) w' [= <-]. done. Qed.

Section look.
Context `{KubeLib} `{!KubeLaws} {W : Type} `{API W} (L : W → Prop) (HL : stable L (fun A c => api_other c)).
Context (key : ObjectKey) (m : Machine) (Hpending : EarlierMarkPending m = true).

Lemma heldForChecks_looks s :
  let now := (Now (world s)).1 in
  let res := check_wait now (waits_of key (memory s) !! m_Name m) in
  (heldForChecks key m s).1.1 = res.1.1 ∧ trace (heldForChecks key m s).2 = trace s ∧
  world (heldForChecks key m s).2 = (Now (world s)).2 ∧
  waits_of key (memory (heldForChecks key m s).2) !! m_Name m = Some res.2.
Proof.
  cbv zeta. unfold heldForChecks, mbind, state_bind, get_memory, call. simpl. rewrite Hpending. simpl.
  destruct (Now (world s)) as [now w]. simpl. destruct (check_wait _ _) as [[held shown] wait]. simpl.
  split_and!; [done..|]. by rewrite waits_of_insert, decide_True, lookup_insert_eq.
Qed.

(** Held, the wait has begun. *)
Lemma looks_begun t : (∀ w, L w → (Now w).1 <= t)%Z →
  held_or_through (awaits L key (m_Name m) (begun_by t)) (awaits L key (m_Name m) (awaited_since t)) key m.
Proof.
  intros Ht s [Hs Hw]. destruct (heldForChecks_looks s) as (_ & Htr & Hworld & Hwait). exists []. rewrite app_nil_r.
  split; [done|]. split; [done|]. intros _. split; [rewrite Hworld; by apply (HL _ _ _ (others_read _ reads_Now))|].
  rewrite Hwait. eexists. split; [done|]. specialize (Ht _ Hs). unfold check_wait.
  destruct (waits_of key (memory s) !! m_Name m) as [w|] eqn:E; [|done]. specialize (Hw w eq_refl).
  destruct (_ <? _)%Z; [done|]. by destruct (over w).
Qed.

(** The grace over, it is let through. *)
Lemma looks_over t : (∀ w, L w → t + earlierMarkGrace <= (Now w).1)%Z →
  held_or_through (awaits L key (m_Name m) (awaited_since t)) (fun _ => False) key m.
Proof.
  intros Ht s [Hs (w & Hw & Hsince)]. destruct (heldForChecks_looks s) as (Hheld & Htr & _ & _). exists []. rewrite app_nil_r.
  split; [done|]. split; [done|]. rewrite Hheld, Hw. specialize (Ht _ Hs). unfold check_wait.
  destruct (Z.ltb_spec (time_Sub (Now (world s)).1 (since w)) earlierMarkGrace) as [Hlt|]; [|by destruct (over w)].
  exfalso. revert Hlt Ht Hsince. unfold time_Sub, earlierMarkGrace, second, min_int64, max_int64. lia.
Qed.
End look.

(** ** A pass *)

(** A signal in sight, the others of whose node are only reported. *)
Record alone_in_view `{KubeLib} {W : Type} `{API W} (r : ClusterReconciler) (key : ObjectKey) (cluster : Cluster)
    (mode : Mode) (nodes : list Node) (requests : list Unstructured) (machines : list Machine)
    (checks : list MachineHealthCheck) (J L : W → Prop) (sig : Signal) (m : Machine) : Prop := {
  alone_sight : in_sight r key cluster mode nodes requests machines checks J L sig m;
  alone_of_node sig' : sig' ∈ signals_in mode nodes requests → sig_Node sig' = sig_Node sig →
    sig' = sig ∨ out_Decision (decided r mode sig') = Report
}.

Section pass.
Context `{KubeLib} `{!KubeLaws} {W : Type} `{API W} `{!PatchLaws W} (r : ClusterReconciler) (key : ObjectKey).
Context (cluster : Cluster) (mode : Mode) (nodes : list Node) (requests : list Unstructured) (machines : list Machine).
Context (checks : list MachineHealthCheck) (J L : W → Prop) (sig : Signal) (m : Machine).
Context (Hview : alone_in_view r key cluster mode nodes requests machines checks J L sig m).
Context (Hkey : cluster_key cluster = key) (Hdry : r_DryRun r = false) (Hmode : mode ≠ ModeReportOnly).
Context (Hnode : sig_Request sig = "" ∨ is_Some (nodes_named nodes !! sig_Node sig)).
Context (Hnames : ∀ node m', index_machines machines !! node = Some m' → m_Name m' = m_Name m → node = sig_Node sig).
Context (Hg : Guard m = None).
Context (Hcall : call_for (out_Decision (Decide (r_Table r) sig)) (restartFallback r cluster).1
  (CoverageOf (cluster_checks cluster checks) m) = Some ActionRestart).

Local Abbreviation cs := (cluster_checks cluster checks).
Local Abbreviation ns := (nodes_named nodes).
Local Abbreviation signals := (signals_in mode nodes requests).
Local Abbreviation waiting_for E := (awaits L key (m_Name m) E).
Local Abbreviation marked := (Exists (marks_for ns sig m ActionRestart)).

(** The Machine is there as it was read, and no other has its name. *)
Definition there (ms : gmap string Machine) : Prop :=
  ms !! sig_Node sig = Some m ∧ ∀ node m', ms !! node = Some m' → m_Name m' = m_Name m → node = sig_Node sig.

Lemma there_names ms ms' :
  there ms → ms' !! sig_Node sig = ms !! sig_Node sig → m_Name <$> ms' = m_Name <$> ms → there ms'.
Proof.
  intros [Hm Hn] He Hnames'. split; [by rewrite He|]. intros node m' Hm' Hname.
  apply (f_equal (.!! node)) in Hnames'. rewrite !lookup_fmap, Hm' in Hnames'. simpl in Hnames'.
  destruct (ms !! node) as [m0|] eqn:E; [|done]. injection Hnames' as Heq. apply (Hn node m0 E). congruence.
Qed.

Lemma there_at_first : there (index_machines machines).
Proof. split; [apply (alone_sight _ _ _ _ _ _ _ _ _ _ _ _ Hview)|exact Hnames]. Qed.

Lemma other_step E previous sig' ps :
  sig' ∈ signals → sig' ≠ sig → there (ps_machines ps) →
  doing (waiting_for E) (signal_step r key cluster mode cs ns previous sig' ps)
    (fun ps' _ s => there (ps_machines ps') ∧ waiting_for E s).
Proof.
  intros Hin Hne Hps. pose proof Hview as [[_ HL _ _ _ _ _ _ _ _] _]. pose proof (awaits_kept L HL key (m_Name m) E) as HK.
  assert (Hans : ∀ complete reason message, keeps (waiting_for E) (Answer key (sig_Request sig') complete reason message))
    by (intros; apply Answer_awaits; by eapply (sight_answers_elsewhere _ _ _ _ _ _ _ _ _ _ _ _ (alone_sight _ _ _ _ _ _ _ _ _ _ _ _ Hview))).
  assert (Helse : elsewhere r mode sig sig').
  { destruct (decide (sig_Node sig' = sig_Node sig)) as [He|]; [right|by left].
    by destruct (alone_of_node _ _ _ _ _ _ _ _ _ _ _ _ Hview sig' Hin He). }
  eapply doing_weaken; [eapply doing_and_yields; [apply (signal_step_other r key cluster mode nodes checks sig (waiting_for E) previous sig' ps Helse)
    |apply signal_step_names]|done|].
  - destruct Helse as [Hother|Hreport]; [|by apply signal_step_reported].
    apply (signal_step_keeps r _ cluster (fun m' => m_Name m' ≠ m_Name m)); [..|exact Hans].
    + intros dry m' reason Hm' s. by rewrite (Escalate_name dry m' reason s).
    + intros m' Hm'. rewrite Hkey. by apply heldForChecks_elsewhere.
    + intros m' Hm' Hname. apply Hother. by apply (proj2 Hps _ m').
  - intros ps' l s (Hn & Hsame & Hs). split; [|done]. by eapply there_names.
Qed.

(** The signal's own turn: the Machine is marked, or the wait goes on. *)
Lemma own_step E Eh previous ps :
  (EarlierMarkPending m = true → held_or_through (waiting_for E) (waiting_for Eh) key m) →
  there (ps_machines ps) →
  doing (waiting_for E) (signal_step r key cluster mode cs ns previous sig ps)
    (fun ps' l s => marked l ∨ there (ps_machines ps') ∧ waiting_for Eh s).
Proof.
  intros Hheld Hps. pose proof Hview as [[_ HL _ _ _ _ _ _ Hpend _] _]. pose proof (awaits_kept L HL key (m_Name m) E) as HK.
  apply (signal_step_does r key cluster mode nodes checks sig (waiting_for E)).
  { destruct Hpend as [?|(obj & Hp & Hget)]; [by left|right]. exists obj. split; [done|]. intros s [Hs _]. by apply Hget. }
  intros ps' Hps'. eapply doing_weaken; [apply (signal_marks_or_waits r key cluster mode cs ns sig m (waiting_for E) Hdry Hmode Hnode (waiting_for Eh))|done|].
  - done.
  - intros _. rewrite Hkey. destruct (EarlierMarkPending m) eqn:Ep; [by apply Hheld|by apply pending_free].
  - exact Hcall.
  - rewrite Hps'. apply Hps.
  - intros ps2 l s [Hl|(-> & Hms & Hs)]; [by left|right]. by rewrite Hms, Hps'.
Qed.

Section first.
Context (t : Z) (Hnow : ∀ w, L w → ((Now w).1 <= t)%Z) (Hpending : EarlierMarkPending m = true).

(** The loop, from the first turn of the signal on and before. *)
Lemma loop_begun E previous l ps :
  (E = begun_by t ∧ sig ∈ l ∨ E = awaited_since t) → (∀ sig', sig' ∈ l → sig' ∈ signals) → there (ps_machines ps) →
  doing (waiting_for E) (signal_loop r key cluster mode cs ns previous l ps)
    (fun ps' l s => marked l ∨ there (ps_machines ps') ∧ waiting_for (awaited_since t) s).
Proof.
  revert E ps. induction l as [|sig' rest IH]; intros E ps HE Hall Hps.
  { destruct HE as [[_ Hin]| ->]; [by apply not_elem_of_nil in Hin|]. apply doing_ret. auto. }
  cbn [signal_loop]. pose proof Hview as [[_ HL _ _ _ _ _ _ _ _] _].
  assert (Hany : ∀ ps', spec (W:=W) (R:=Memory) (fun _ => True) (signal_loop r key cluster mode cs ns previous rest ps') (fun _ => True))
    by (intros; by apply signal_loop_spec).
  assert (Hrest : ∀ E' l1 ps', (E' = begun_by t ∧ sig ∈ rest ∨ E' = awaited_since t) → there (ps_machines ps') →
    doing (waiting_for E') (signal_loop r key cluster mode cs ns previous rest ps')
      (fun ps' l s => marked (l1 ++ l) ∨ there (ps_machines ps') ∧ waiting_for (awaited_since t) s)).
  { intros E' l1 ps' HE' Hps'. eapply doing_weaken; [apply (IH E' ps'); [done|set_solver|done]|done|].
    intros ps2 l2 s [Hl|Hs]; [left; apply Exists_app; by right|by right]. }
  destruct (decide (sig' = sig)) as [->|Hne].
  - eapply doing_bind; [apply (own_step E (awaited_since t)); [intros _|done]|].
    + eapply doing_weaken; [by apply (looks_begun L HL key m Hpending t)| |done].
      intros s [Hs Hw]. split; [done|]. destruct HE as [[-> _]| ->]; [done|by apply awaited_begun].
    + intros ps' l1. apply doing_cases; [intros Hl; apply doing_any; [apply Hany|intros; left; apply Exists_app; by left]|].
      apply doing_pure. intros Hps'. apply Hrest; [by right|done].
  - eapply doing_bind; [apply (other_step E); [apply Hall; by left|done|done]|].
    intros ps' l1. apply doing_pure. intros Hps'. apply Hrest; [|done].
    destruct HE as [[-> Hin]| ->]; [left|by right]. split; [done|]. by apply elem_of_cons in Hin as [->|?].
Qed.

(** An unmarked Machine is not released. *)
Lemma release_loop_unmarked source held leftover names ms would :
  ms !! sig_Node sig = Some m →
  yields (W:=W) (release_loop r source held leftover names ms would) (fun res => res.1 !! sig_Node sig = Some m).
Proof.
  revert ms would. induction names as [|node rest IH]; intros ms would Hm; cbn [release_loop]; [by apply yields_ret|].
  destruct (ms !! node) as [m'|] eqn:Hm'; [|by apply IH]. destruct (_ || _) eqn:Hskip; [by apply IH|].
  apply yields_bind. intros [m2 res]. apply IH. rewrite lookup_insert_ne; [done|]. intros ->.
  rewrite Hm in Hm'. injection Hm' as <-. rewrite (unmarked_not_restarted m Hg) in Hskip. done.
Qed.

Lemma release_awaits E source ms current asking :
  ms !! sig_Node sig = Some m →
  doing (waiting_for E) (releaseRestarts r key source ms ns current asking)
    (fun ms' _ s => ms' !! sig_Node sig = Some m ∧ waiting_for E s).
Proof.
  intros Hm. pose proof Hview as [[_ HL _ _ _ _ _ _ _ _] _]. pose proof (awaits_kept L HL key (m_Name m) E) as HK.
  apply doing_yields; [by apply releaseRestarts_spec|..]; unfold releaseRestarts; destruct (holds _ _ _ _) as [held leftover].
  - apply keeps_bind; [by apply release_loop_keeps|]. intros res. apply keeps_bind; [by intros s|]. intros _. apply keeps_ret.
  - eapply (yields_then _ _ (fun res => res.1 !! sig_Node sig = Some m)); [by apply release_loop_unmarked|]. intros res Hres. apply yields_bind. intros _. by apply yields_ret.
Qed.

(** Forgetting leaves the wait of a Machine that is still shown with the mark. *)
Lemma forgetWaits_awaits E ms :
  ms !! sig_Node sig = Some m → keeps (waiting_for E) (forgetWaits key ms).
Proof.
  intros Hm s [Hs He]. split; [exact Hs|]. unfold forgetWaits, modify, mbind, state_bind, get_memory, put_memory, forget_waits. simpl.
  set (left := filter _ _).
  assert (Hleft : left !! m_Name m = waits_of key (memory s) !! m_Name m).
  { destruct (waits_of key (memory s) !! m_Name m) as [w|] eqn:E0.
    - apply map_lookup_filter_Some. split; [done|]. simpl. unfold pending_names. apply elem_of_list_to_set, list_elem_of_fmap.
      exists m. split; [done|]. apply list_elem_of_filter. split; [done|]. apply list_elem_of_fmap.
      exists (sig_Node sig, m). split; [done|]. by apply elem_of_map_to_list.
    - apply map_lookup_filter_None. by left. }
  unfold waits_of at 1. simpl. case_decide as Hnone.
  - rewrite lookup_delete_eq. simpl. rewrite <- Hleft, Hnone in He. done.
  - rewrite lookup_insert_eq. simpl. by rewrite Hleft.
Qed.

Lemma act_begun :
  doing (waiting_for (begun_by t)) (act_on_signals r key cluster mode cs (index_machines machines) ns signals)
    (fun _ l s => marked l ∨ waiting_for (awaited_since t) s).
Proof.
  pose proof Hview as [[_ HL _ _ _ _ Hsig _ _ _] _]. pose proof (awaits_kept L HL key (m_Name m) (awaited_since t)) as HK.
  unfold act_on_signals. eapply (doing_bind _ _ _ (fun _ l s => waiting_for (begun_by t) s)).
  { intros s Hs. exists []. by rewrite app_nil_r. }
  intros previous l0. eapply doing_bind; [by apply loop_begun; [left|done|apply there_at_first]|].
  intros ps l1. apply doing_cases.
  { intros Hl. apply doing_any; [|intros; left; by rewrite !Exists_app; auto].
    eapply (spec_bind _ _ _ (fun _ => True)); [destruct (ps_unreadable ps); [by apply spec_ret|by apply releaseRestarts_spec]|].
    intros ms' _. eapply spec_bind; [apply modify_spec|]. intros _ _. eapply spec_bind; [apply modify_spec|]. intros _ _.
    eapply spec_bind; [apply nextLook_spec|]. intros next _. by apply spec_ret. }
  apply doing_pure. intros [Hm _].
  eapply (doing_bind _ _ _ (fun ms' _ s => ms' !! sig_Node sig = Some m ∧ waiting_for (awaited_since t) s)).
  { destruct (ps_unreadable ps); [by apply doing_ret|by apply release_awaits]. }
  intros ms' l2. apply doing_pure. intros Hm'.
  eapply doing_weaken; [apply (doing_yields _ _ (fun _ => True))|done|intros a l s [_ Hs]; by right].
  - eapply spec_bind; [apply modify_spec|]. intros _ _. eapply spec_bind; [apply modify_spec|]. intros _ _.
    eapply spec_bind; [apply nextLook_spec|]. intros next _. by apply spec_ret.
  - apply keeps_bind; [by intros s|]. intros _. apply keeps_bind; [by apply forgetWaits_awaits|]. intros _.
    unfold nextLook. keeps_steps.
  - by intros s.
Qed.

Lemma Reconcile_begun (s : Sys W Memory) l :
  J (world s) → begun_by t (waits_of key (memory s) !! m_Name m) → trace (Reconcile r key s).2 = trace s ++ l →
  marked l ∨ awaited_since t (waits_of key (memory (Reconcile r key s).2) !! m_Name m).
Proof.
  intros HJ Hw Ht. pose proof Hview as [[Hst HL _ _ HJL Hact Hsig _ _ _] _].
  destruct (Reconcile_reads r key cluster mode nodes requests machines checks J Hst Hact s HJ)
    as (s' & l0 & E & Ht0 & _ & HJ' & Hm' & _).
  destruct (list_elem_of_split_l _ _ Hsig) as (pre & post & Hsplit & _).
  destruct (pass_sees_all cluster mode nodes requests checks sig pre post Hsplit) as [Hc Hn]. rewrite Hc, Hn in E.
  assert (Hs' : waiting_for (begun_by t) s') by (split; [by apply HJL|by rewrite Hm']).
  destruct (act_begun s' Hs') as (l1 & Ht1 & Hl1). rewrite E in Ht |- *.
  rewrite Ht, Ht0, <- (assoc_L (++)) in Ht1. apply app_inv_head in Ht1 as ->.
  destruct Hl1 as [Hl1|[_ Hl1]]; [left; apply Exists_app; by right|by right].
Qed.
End first.

(** The grace over, the reconcile marks the Machine. *)
Lemma Reconcile_over t (s : Sys W Memory) l :
  (∀ w, L w → (t + earlierMarkGrace <= (Now w).1)%Z) → J (world s) →
  awaited_since t (waits_of key (memory s) !! m_Name m) → trace (Reconcile r key s).2 = trace s ++ l → marked l.
Proof.
  intros Hnow HJ Hw. pose proof Hview as [[Hst HL _ _ HJL Hact Hsig _ Hpend _] _].
  pose proof (awaits_kept L HL key (m_Name m) (awaited_since t)) as HK.
  destruct (list_elem_of_split_l _ _ Hsig) as (pre & post & Hsplit & Hnew).
  apply (Reconcile_sends r key cluster mode nodes requests machines checks J sig Hst Hact pre post Hsplit
    (waiting_for (awaited_since t)) there).
  - destruct Hpend as [?|(obj & Hp & Hget)]; [by left|right]. exists obj. split; [done|]. intros s1 [Hs1 _]. by apply Hget.
  - intros s' HJ' Hm'. split; [by apply HJL|by rewrite Hm'].
  - apply there_at_first.
  - intros previous sig' ps Hin Hps. eapply doing_weaken; [apply (other_step (awaited_since t)); [|by intros ->|exact Hps]|done|by right].
    rewrite Hsplit. set_solver.
  - intros previous ps Hps. apply signal_marks_machine; [done..| |exact Hcall|apply Hps].
    intros _. rewrite Hkey. destruct (EarlierMarkPending m) eqn:Ep; [by apply looks_over|by apply pending_free].
  - exact HJ.
Qed.
End pass.

(** A restart that the guards and the checks let happen, of a Machine no other shares the
    name with. *)
Record restart_called_for `{KubeLib} (r : ClusterReconciler) (key : ObjectKey) (cluster : Cluster) (mode : Mode)
    (nodes : list Node) (machines : list Machine) (checks : list MachineHealthCheck) (sig : Signal) (m : Machine) : Prop := {
  called_key : cluster_key cluster = key;
  called_mode : mode ≠ ModeReportOnly;
  called_node : sig_Request sig = "" ∨ is_Some (nodes_named nodes !! sig_Node sig);
  called_name node m' : index_machines machines !! node = Some m' → m_Name m' = m_Name m → node = sig_Node sig;
  called_guard : Guard m = None;
  called_restart : call_for (out_Decision (Decide (r_Table r) sig)) (restartFallback r cluster).1
    (CoverageOf (cluster_checks cluster checks) m) = Some ActionRestart
}.

(** C10: a restart that has to wait for the checks is not forgotten, and not put off for long.
    While the checks of the Machine behind a node still show an earlier mark, the reconcile
    that sees the signal, and no other of the node that is more than reported, call for its
    restart marks the Machine or leaves it with a wait that began at the latest then. And whatever else the memory came to hold, the reconcile
    that sees the signal again, with this wait begun the grace before, marks the Machine,
    whether or not its checks still show the mark. *)
Theorem held_restart_goes_ahead `{KubeLib} {HK : KubeLaws} {W : Type} `{API W} {HP : PatchLaws W} (r : ClusterReconciler)
    (key : ObjectKey) (s : Sys W Memory) (cluster : Cluster) (mode : Mode) (nodes : list Node)
    (requests : list Unstructured) (machines : list Machine) (checks : list MachineHealthCheck)
    (J L : W → Prop) (sig : Signal) (m : Machine) (t : Z)
    (Hdry : r_DryRun r = false)
    (Hview : alone_in_view r key cluster mode nodes requests machines checks J L sig m) (HJ : J (world s))
    (Hcalled : restart_called_for r key cluster mode nodes machines checks sig m)
    (Hpending : EarlierMarkPending m = true) (Hnow : ∀ w, L w → ((Now w).1 <= t)%Z)
    (Hbegun : begun_by t (waits_of key (memory s) !! m_Name m)) :
  ∃ l, trace (Reconcile r key s).2 = trace s ++ l ∧
    (Exists (marks_for (nodes_named nodes) sig m ActionRestart) l ∨
     ∃ wait, waits_of key (memory (Reconcile r key s).2) !! m_Name m = Some wait ∧ (since wait <= t)%Z ∧
       ∀ (s' : Sys W Memory) cluster' mode' nodes' requests' machines' checks' (J' L' : W → Prop) m',
         alone_in_view r key cluster' mode' nodes' requests' machines' checks' J' L' sig m' → J' (world s') →
         restart_called_for r key cluster' mode' nodes' machines' checks' sig m' → m_Name m' = m_Name m →
         waits_of key (memory s') !! m_Name m = Some wait →
         (∀ w, L' w → (since wait + earlierMarkGrace <= (Now w).1)%Z) →
         ∃ l', trace (Reconcile r key s').2 = trace s' ++ l' ∧
           Exists (marks_for (nodes_named nodes') sig m' ActionRestart) l').
Proof.
  destruct (Reconcile_trace r key s) as [l Ht]. exists l. split; [done|]. destruct Hcalled.
  destruct (Reconcile_begun r key cluster mode nodes requests machines checks J L sig m Hview) with (t := t) (s := s) (l := l)
    as [Hl|(wait & Hwait & Hsince)]; [done..|by left|right]. exists wait. split; [done|]. split; [done|].
  intros s' cluster' mode' nodes' requests' machines' checks' J' L' m' Hview' HJ' [] Hname Hw Hlate.
  destruct (Reconcile_trace r key s') as [l' Ht']. exists l'. split; [done|].
  eapply (Reconcile_over r key cluster' mode' nodes' requests' machines' checks' J' L' sig m' Hview') with (t := since wait);
    [done..| |exact Ht'].
  rewrite Hname, Hw. by exists wait.
Qed.

(** ** Witness: an earlier mark shown for a minute. *)

#[local] Existing Instance lib.
#[local] Existing Instance lib_laws.

Definition earlier_marked : Machine :=
  MkMachine (m_Namespace a_machine) (m_Name a_machine) (m_UID a_machine) (m_ResourceVersion a_machine) false
    (m_Labels a_machine) (m_Annotations a_machine) (m_OwnerReferences a_machine) (m_ClusterName a_machine)
    (m_InfrastructureRef a_machine) (m_NodeRef a_machine)
    [MkCondition MachineHealthCheckSucceededCondition "False" MachineHealthCheckHasRemediateAnnotationReason].

Definition minute (later : bool) : Z := if later then earlierMarkGrace else 0%Z.

#[local] Instance ticking : API bool := unchanged_api (fun _ => earlier_marked) (fun _ => faulty_node) minute false [].

#[local] Instance ticking_patches : PatchLaws bool.
Proof.
  constructor.
  - intros base updated lock w m [= <-]. done.
  - intros base updated lock w m k [= <-]. done.
  - intros base updated w m [= <-]. done.
  - intros key w m. simpl. case_decide as Hk; [|done]. intros [= <-]. by rewrite <- Hk.
Qed.

Lemma ticking_in_view later :
  alone_in_view (a_reconciler false) a_key a_cluster ModeNodeCondition [faulty_node] [] [earlier_marked] [a_check]
    (fun w => w = later) (fun w => w = later) faulty_signal earlier_marked.
Proof.
  constructor; [constructor; try done|].
  - constructor; try (by intros ? ->); by intros A c w' [].
  - by intros A c w' [B c' []| |].
  - by left.
  - by left.
  - intros sig'. unfold signals_in. rewrite faulty_signal_read. intros Hin%list_elem_of_singleton _. by left.
Qed.

Lemma ticking_called_for :
  restart_called_for (a_reconciler false) a_key a_cluster ModeNodeCondition [faulty_node] [earlier_marked] [a_check]
    faulty_signal earlier_marked.
Proof.
  constructor; try done; [by left|]. intros node m' Hm' _. unfold index_machines in Hm'. simpl in Hm'.
  by apply lookup_insert_Some in Hm' as [[<- _]|[_ Hm']].
Qed.

Definition first_look : Sys bool Memory := (Reconcile (a_reconciler false) a_key (MkSys false [] empty_memory)).2.

Lemma held_restart_goes_ahead_witness :
  trace first_look = [RecordEvent (RefCluster a_key) EventNormal EventSignalSourceSelected ActionSelectSource
      (EventNote (mode_string ModeNodeCondition +:+ ": " +:+ mode_describe ModeNodeCondition))] ∧
  Exists (marks_for (nodes_named [faulty_node]) faulty_signal earlier_marked ActionRestart)
    (trace (Reconcile (a_reconciler false) a_key (MkSys true [] (memory first_look))).2).
Proof.
  split; [vm_compute; reflexivity|].
  destruct (held_restart_goes_ahead (a_reconciler false) a_key (MkSys false [] empty_memory) a_cluster ModeNodeCondition
    [faulty_node] [] [earlier_marked] [a_check] (fun w => w = false) (fun w => w = false) faulty_signal earlier_marked 0)
    as (l & Ht & [Hl|(wait & Hwait & _ & Hthen)]).
  - reflexivity.
  - apply ticking_in_view.
  - reflexivity.
  - apply ticking_called_for.
  - vm_compute. reflexivity.
  - intros w ->. simpl. lia.
  - intros w Hw. vm_compute in Hw. discriminate Hw.
  - exfalso. apply list.Exists_exists in Hl as (e & Hin & reason & ->). fold first_look in Ht.
    assert (Hone : trace first_look = [RecordEvent (RefCluster a_key) EventNormal EventSignalSourceSelected ActionSelectSource
      (EventNote (mode_string ModeNodeCondition +:+ ": " +:+ mode_describe ModeNodeCondition))]) by (vm_compute; reflexivity).
    rewrite Hone in Ht. simpl app in Ht. rewrite <- Ht in Hin. apply list_elem_of_singleton in Hin.
    apply (f_equal (fun e => match e with PatchMachine _ _ _ => true | _ => false end)) in Hin. discriminate Hin.
  - fold first_look in Hwait, Hthen.
    assert (Hzero : since wait = 0%Z).
    { vm_compute in Hwait. injection Hwait as <-. reflexivity. }
    destruct (Hthen (MkSys true [] (memory first_look)) a_cluster ModeNodeCondition [faulty_node] [] [earlier_marked] [a_check]
      (fun w => w = true) (fun w => w = true) earlier_marked) as (l' & Ht' & Hl').
    + apply ticking_in_view.
    + reflexivity.
    + apply ticking_called_for.
    + reflexivity.
    + exact Hwait.
    + intros w ->. rewrite Hzero. simpl. lia.
    + rewrite Ht'. exact Hl'.
Defined.
