(* ===== verification/Quarantine.v ===== *)
(** * Requests to quarantine devices (internal/quarantine/quarantine.go)

    What the replace annotation asks for, which of a Machine's devices that is,
    and the names under which devices are quarantined. A Rejection is the error
    [ERejection]. *)

From S2P Require Import Prelude GoStrings Sha256 Kube KubeModel.
Open Scope stdpp_scope.

Definition ReplaceAnnotation := "nvsentinel.petasus.io/replace".
Definition ReplaceStatusAnnotation := "nvsentinel.petasus.io/replace-status".
Definition RequestQuarantine := "quarantine".
Definition StatusQuarantining := "quarantining".
Definition StatusReplacing := "replacing".
Definition rejectedPrefix := "rejected: ".
Definition TaintKey := "nvsentinel.petasus.io/quarantined".
Definition ManagedByLabel := "app.kubernetes.io/managed-by".
Definition ManagedBy := "nvsentinel-capi-remediator".
Definition MachineLabel := "nvsentinel.petasus.io/machine".
Definition MachineNamespaceLabel := "nvsentinel.petasus.io/machine-namespace".
Definition ClusterLabel := "nvsentinel.petasus.io/cluster".
Definition MachineAnnotation := "nvsentinel.petasus.io/machine".
Definition DeviceAnnotation := "nvsentinel.petasus.io/device".
Definition RequestedAtAnnotation := "nvsentinel.petasus.io/requested-at".
Definition rulePrefix := "quarantine-".

Definition RejectedStatus (reason : string) : string := rejectedPrefix +:+ reason.
Definition IsRejected (status : string) : bool := HasPrefix status rejectedPrefix.

Definition ReasonInvalidRequest := "InvalidRequest".
Definition ReasonNotKubeVirt := "NotKubeVirt".
Definition ReasonExternalInfraCluster := "ExternalInfraCluster".
Definition ReasonNoDevices := "NoDevices".
Definition ReasonAmbiguousDevices := "AmbiguousDevices".
Definition ReasonUnknownDevice := "UnknownDevice".
Definition ReasonDeviceTaintRuleUnavailable := "DeviceTaintRuleUnavailable".
Definition ReasonDeviceTaintRuleConflict := "DeviceTaintRuleConflict".
Definition ReasonForbidden := "Forbidden".

Record Device : Type := MkDevice { d_Driver : string; d_Pool : string; d_Name : string }.

#[export] Instance device_eq_dec : EqDecision Device.
Proof. solve_decision. Defined.

(** [Device.String]. *)
Definition device_string (d : Device) : string :=
  d_Driver d +:+ "/" +:+ d_Pool d +:+ "/" +:+ d_Name d.

Definition compare : relation Device := by_keys (fun d => [d_Driver d; d_Pool d; d_Name d]).

#[export] Instance compare_antisymm : AntiSymm (=) compare.
Proof. apply by_keys_antisymm. by intros [] [] [= -> -> ->]. Qed.

(** Appending an element that is not there yet: [slices.Contains] and [append]. *)
Definition add_new {A} `{EqDecision A} (l : list A) (x : A) : list A :=
  if decide (x ∈ l) then l else l ++ [x].

(** [sets.List]. *)
Definition set_list (s : gset string) : list string := sort_by String.le (elements s).

Definition list_devices (ds : list Device) : string := Join (device_string <$> ds) ", ".
Definition device_names (ds : list Device) : string :=
  match ds with [] => "none" | _ => Join (d_Name <$> ds) ", " end.
Definition heldNote (all : list Device) : string :=
  match all with [] => "" | _ => "; it holds " +:+ list_devices all end.

(** [reject], its message formatted. *)
Definition reject (reason message : string) : error := ERejection reason message.

(** ** Reading a request *)

Section request.
Context `{KubeLib}.

(** The loop over the parts of the list. *)
Fixpoint request_names (value : string) (parts : list string) (names : list string) :
    result error (list string) :=
  match parts with
  | [] => Ok names
  | part :: rest =>
      let name := TrimSpace part in
      if decide (name = "")
      then Err (reject ReasonInvalidRequest (Quote value +:+ " lists an empty device name"))
      else request_names value rest (add_new names name)
  end.

Definition ParseRequest (value : string) : result error (list string) :=
  if decide (value = RequestQuarantine) then Ok []
  else match CutPrefix value (RequestQuarantine +:+ ":") with
       | None => Err (reject ReasonInvalidRequest
                   (Quote value +:+ " is neither " +:+ Quote RequestQuarantine +:+ " nor "
                      +:+ Quote (RequestQuarantine +:+ ":") +:+ " followed by device names"))
       | Some names => request_names value (Split names ","%char) []
       end.

(** ** Choosing the devices *)

(** The devices of the drivers, without repeats, sorted. *)
Definition candidates_of (all : list Device) (drivers : gset string) : list Device :=
  sort_by compare
    (foldl (fun out d => if decide (d_Driver d ∈ drivers) then add_new out d else out) [] all).

(** The loop over the names requested. *)
Fixpoint select_named (candidates : list Device) (drivers : gset string) (requested : list string)
    (selected : list Device) : result error (list Device) :=
  match requested with
  | [] => Ok selected
  | name :: rest =>
      match filter (fun d => d_Name d = name) candidates with
      | [] => Err (reject ReasonUnknownDevice
                (Quote name +:+ " is not among the devices of " +:+ Join (set_list drivers) ", "
                   +:+ " the Machine holds: " +:+ device_names candidates))
      | [d] => select_named candidates drivers rest (add_new selected d)
      | matches => Err (reject ReasonAmbiguousDevices
                (Quote name +:+ " names more than one device the Machine holds: " +:+ list_devices matches))
      end
  end.

Definition Select (all : list Device) (drivers : gset string) (requested : list string) :
    result error (list Device) :=
  let candidates := candidates_of all drivers in
  match requested with
  | [] =>
      match candidates with
      | [] => Err (reject ReasonNoDevices
                ("the Machine holds no device of " +:+ Join (set_list drivers) ", " +:+ heldNote all))
      | [_] => Ok candidates
      | _ => Err (reject ReasonAmbiguousDevices
                ("the Machine holds " +:+ pretty (length candidates) +:+ " devices of "
                   +:+ Join (set_list drivers) ", " +:+ ": " +:+ device_names candidates
                   +:+ "; list the ones to quarantine as " +:+ RequestQuarantine
                   +:+ ":<device>[,<device>]"))
      end
  | _ => sort_by compare <$> select_named candidates drivers requested []
  end.

(** ** Names *)

Definition digest (s : string) : string := EncodeToString (take 8 (Sum256 (string_bytes s))).

Definition nul : string := byte_str "000"%char.

Definition RuleName (d : Device) : string :=
  rulePrefix +:+ digest (d_Driver d +:+ nul +:+ d_Pool d +:+ nul +:+ d_Name d).

Definition labelValue (name : string) : string :=
  if decide (len name ≤ LabelValueMaxLength) then name
  else
    let d := digest name in
    of_bytes (take (LabelValueMaxLength - len d - 1) (bytes name)) +:+ "-" +:+ d.
End request.

(** Names are compared, never computed, in proofs. *)
#[global] Arguments digest : simpl never.
#[global] Arguments RuleName : simpl never.

(** ** Properties *)

Lemma elem_of_add_new {A} `{EqDecision A} (l : list A) x y : y ∈ add_new l x ↔ y ∈ l ∨ y = x.
Proof. unfold add_new. case_decide; set_solver. Qed.

Lemma NoDup_add_new {A} `{EqDecision A} (l : list A) x : NoDup l → NoDup (add_new l x).
Proof.
  intros Hl. unfold add_new. case_decide; [done|]. apply NoDup_app.
  split_and!; [done|set_solver|apply NoDup_singleton].
Qed.

Lemma elem_of_foldl_add_new {A} `{EqDecision A} (l acc : list A) y :
  y ∈ foldl add_new acc l ↔ y ∈ acc ∨ y ∈ l.
Proof.
  revert acc. induction l as [|x l IH]; intros acc; simpl; [set_solver|].
  rewrite IH, elem_of_add_new. set_solver.
Qed.

Lemma NoDup_foldl_add_new {A} `{EqDecision A} (l acc : list A) : NoDup acc → NoDup (foldl add_new acc l).
Proof.
  revert acc. induction l as [|x l IH]; intros acc Hacc; simpl; [done|]. by apply IH, NoDup_add_new.
Qed.

Lemma foldl_add_new_fresh {A} `{EqDecision A} (l acc : list A) :
  NoDup (acc ++ l) → foldl add_new acc l = acc ++ l.
Proof.
  revert acc. induction l as [|x l IH]; intros acc Hnd; simpl; [by rewrite app_nil_r|].
  apply NoDup_app in Hnd as (Ha & Hx & [Hxl Hl]%NoDup_cons).
  assert (x ∉ acc) by (intros Hin; apply (Hx _ Hin); set_solver).
  unfold add_new at 2. rewrite decide_False by done. rewrite IH, <- (assoc_L (++)); [done|].
  rewrite <- (assoc_L (++)). apply NoDup_app. split_and!; [done|done|].
  by apply NoDup_cons.
Qed.

Lemma candidates_spec all drivers :
  Sorted compare (candidates_of all drivers) ∧ NoDup (candidates_of all drivers) ∧
  ∀ d, d ∈ candidates_of all drivers ↔ d ∈ all ∧ d_Driver d ∈ drivers.
Proof.
  unfold candidates_of.
  assert (Hg : ∀ acc, NoDup acc →
    let out := foldl (fun out d => if decide (d_Driver d ∈ drivers) then add_new out d else out) acc all in
    NoDup out ∧ ∀ d, d ∈ out ↔ d ∈ acc ∨ d ∈ all ∧ d_Driver d ∈ drivers).
  { induction all as [|x all IH]; intros acc Hacc; simpl; [set_solver|].
    destruct (decide (d_Driver x ∈ drivers)) as [Hx|Hx].
    - destruct (IH (add_new acc x)) as [Hn Hi]; [by apply NoDup_add_new|]. split; [done|].
      intros d. rewrite Hi, elem_of_add_new. set_solver.
    - destruct (IH acc Hacc) as [Hn Hi]. split; [done|]. intros d. rewrite Hi. set_solver. }
  destruct (Hg []) as [Hn Hi]; [constructor|]. split_and!.
  - apply Sorted_sort_by. apply _.
  - by apply NoDup_sort_by.
  - intros d. rewrite elem_of_sort_by, Hi. set_solver.
Qed.

(** Each requested name picks the one candidate of that name. *)
Definition picks (candidates : list Device) (name : string) (d : Device) : Prop :=
  filter (fun d => d_Name d = name) candidates = [d].

Section request_facts.
Context `{KubeLib}.

Lemma select_named_ok candidates drivers requested selected out :
  select_named candidates drivers requested selected = Ok out ↔
  ∃ ds, Forall2 (picks candidates) requested ds ∧ out = foldl add_new selected ds.
Proof.
  revert selected. induction requested as [|name rest IH]; intros selected; simpl.
  { split.
    - intros [= <-]. exists []. by split; [constructor|].
    - by intros (ds & ->%Forall2_nil_inv_l & ->). }
  destruct (filter _ candidates) as [|d [|d2 more]] eqn:E.
  - split; [done|]. intros (ds & (d & ds' & Hp & _ & _)%Forall2_cons_inv_l & _).
    unfold picks in Hp. congruence.
  - rewrite IH. split.
    + intros (ds & Hf & ->). exists (d :: ds). split; [by constructor|done].
    + intros (ds & (d' & ds' & Hp & Hf & ->)%Forall2_cons_inv_l & ->).
      unfold picks in Hp. rewrite E in Hp. simplify_eq. by exists ds'.
  - split; [done|]. intros (ds & (d' & ds' & Hp & _ & _)%Forall2_cons_inv_l & _).
    unfold picks in Hp. congruence.
Qed.

Lemma select_named_err candidates drivers requested selected e :
  NoDup candidates →
  select_named candidates drivers requested selected = Err e →
  ∃ name message, name ∈ requested ∧
    (e = ERejection ReasonUnknownDevice message ∧ (∀ d, d ∈ candidates → d_Name d ≠ name) ∨
     e = ERejection ReasonAmbiguousDevices message ∧
       ∃ d1 d2, d1 ≠ d2 ∧ d1 ∈ candidates ∧ d2 ∈ candidates ∧ d_Name d1 = name ∧ d_Name d2 = name).
Proof.
  intros Hnd. revert selected. induction requested as [|name rest IH]; intros selected; simpl; [done|].
  destruct (filter _ candidates) as [|d [|d2 more]] eqn:E.
  - intros [= <-]. eexists name, _. split; [set_solver|]. left. split; [done|]. intros d Hd Hname.
    assert (Hin : d ∈ filter (fun d => d_Name d = name) candidates) by (by apply list_elem_of_filter).
    rewrite E in Hin. set_solver.
  - intros (name' & message & Hin & He)%IH. exists name', message. split; [set_solver|done].
  - intros [= <-]. eexists name, _. split; [set_solver|]. right. split; [done|].
    assert (Hsub : ∀ x, x ∈ d :: d2 :: more → x ∈ candidates ∧ d_Name x = name).
    { intros x Hx. rewrite <- E in Hx. apply list_elem_of_filter in Hx. tauto. }
    pose proof (NoDup_filter (fun d => d_Name d = name) _ Hnd) as Hndf. rewrite E in Hndf.
    apply NoDup_cons in Hndf as [Hd _].
    destruct (Hsub d), (Hsub d2); [set_solver..|]. exists d, d2. split_and!; try done. set_solver.
Qed.

(** What [Select] selects, and why it rejects. *)
Lemma Select_spec (all : list Device) (drivers : gset string) (requested : list string) :
  let candidate d := d ∈ all ∧ d_Driver d ∈ drivers in
  match Select all drivers requested with
  | Ok sel =>
      Sorted compare sel ∧ NoDup sel ∧ sel ≠ [] ∧ (∀ d, d ∈ sel → candidate d) ∧
      match requested with
      | [] => ∃ d, sel = [d] ∧ ∀ d', candidate d' → d' = d
      | _ => (∀ d, d ∈ sel → d_Name d ∈ requested) ∧
             ∀ name, name ∈ requested → ∃ d, d ∈ sel ∧ d_Name d = name ∧
               ∀ d', candidate d' → d_Name d' = name → d' = d
      end
  | Err e => ∃ reason message, e = ERejection reason message ∧
      (reason = ReasonNoDevices ∧ requested = [] ∧ (∀ d, ¬ candidate d) ∨
       reason = ReasonUnknownDevice ∧ (∃ name, name ∈ requested ∧ ∀ d, candidate d → d_Name d ≠ name) ∨
       reason = ReasonAmbiguousDevices ∧ ∃ d1 d2, d1 ≠ d2 ∧ candidate d1 ∧ candidate d2 ∧
         (requested = [] ∨ d_Name d1 = d_Name d2 ∧ d_Name d1 ∈ requested))
  end.
Proof.
  cbv beta zeta. destruct (candidates_spec all drivers) as (Hs & Hn & Hi).
  unfold Select. set (cands := candidates_of all drivers) in *.
  destruct requested as [|r0 rest].
  - destruct cands as [|d [|d2 more]].
    + eexists _, _. split; [done|]. left. setoid_rewrite <- Hi. split_and!; [done|done|set_solver].
    + split_and!; [done|done|done|set_solver|]. exists d. setoid_rewrite <- Hi. set_solver.
    + eexists _, _. split; [done|]. right; right. split; [done|]. setoid_rewrite <- Hi.
      apply NoDup_cons in Hn as [Hd _]. exists d, d2. split_and!; try set_solver.
  - set (requested := r0 :: rest).
    destruct (select_named cands drivers requested []) as [out|e] eqn:E; simpl; setoid_rewrite <- Hi.
    + apply select_named_ok in E as (ds & Hf & ->).
      assert (Hnd : NoDup (foldl add_new [] ds)) by apply NoDup_foldl_add_new, NoDup_nil_2.
      assert (Hin : ∀ d, d ∈ sort_by compare (foldl add_new [] ds) ↔ d ∈ ds)
        by (intros d; rewrite elem_of_sort_by, elem_of_foldl_add_new; set_solver).
      assert (Hpick : ∀ name d, picks cands name d → d ∈ cands ∧ d_Name d = name ∧
        ∀ d', d' ∈ cands → d_Name d' = name → d' = d).
      { intros name d Hp. unfold picks in Hp.
        assert (Hd : ∀ x, x ∈ filter (fun d => d_Name d = name) cands ↔ x = d)
          by (intros x; rewrite Hp; apply list_elem_of_singleton).
        setoid_rewrite list_elem_of_filter in Hd. naive_solver. }
      split_and!.
      * apply Sorted_sort_by. apply _.
      * by apply NoDup_sort_by.
      * destruct ds as [|d ds']; [by apply Forall2_nil_inv_r in Hf|]. intros Hnil.
        specialize (Hin d). rewrite Hnil in Hin. set_solver.
      * intros d [i Hd]%Hin%list_elem_of_lookup_1.
        destruct (Forall2_lookup_r _ _ _ _ _ Hf Hd) as (name & _ & Hp). by destruct (Hpick _ _ Hp).
      * intros d [i Hd]%Hin%list_elem_of_lookup_1.
        destruct (Forall2_lookup_r _ _ _ _ _ Hf Hd) as (name & Hname & Hp).
        apply Hpick in Hp as (_ & -> & _). by eapply list_elem_of_lookup_2.
      * intros name [i Hname]%list_elem_of_lookup_1.
        destruct (Forall2_lookup_l _ _ _ _ _ Hf Hname) as (d & Hd & Hp).
        apply Hpick in Hp as (Hc & Hnm & Hu). exists d. split_and!; [|done|done].
        apply Hin. by eapply list_elem_of_lookup_2.
    + apply select_named_err in E as (name & message & Hin & [[-> Hu]|[-> (d1 & d2 & ? & ? & ? & <- & ?)]]);
        [| |done]; eexists _, _; (split; [done|]); right; [left|right].
      * split; [done|]. by exists name.
      * split; [done|]. exists d1, d2. split_and!; try done. right. by split.
Qed.

(** C31: a request quarantines exactly the devices it means. What is selected is
    held by the Machine and of the configured drivers, sorted, without repeats and
    never empty: the only such device when the request lists none, or else, for
    every name listed, the only one of that name, and nothing more. Anything else
    is rejected with its reason: no such device, a name no such device has, or one
    that more than one has. *)
Theorem select_exactly (all : list Device) (drivers : gset string) (requested : list string) :
  let candidate d := d ∈ all ∧ d_Driver d ∈ drivers in
  match Select all drivers requested with
  | Ok sel =>
      Sorted compare sel ∧ NoDup sel ∧ sel ≠ [] ∧ (∀ d, d ∈ sel → candidate d) ∧
      match requested with
      | [] => ∃ d, sel = [d] ∧ ∀ d', candidate d' → d' = d
      | _ => (∀ d, d ∈ sel → d_Name d ∈ requested) ∧
             ∀ name, name ∈ requested → ∃ d, d ∈ sel ∧ d_Name d = name ∧
               ∀ d', candidate d' → d_Name d' = name → d' = d
      end
  | Err e => ∃ reason message, e = ERejection reason message ∧
      (reason = ReasonNoDevices ∧ requested = [] ∧ (∀ d, ¬ candidate d) ∨
       reason = ReasonUnknownDevice ∧ (∃ name, name ∈ requested ∧ ∀ d, candidate d → d_Name d ≠ name) ∨
       reason = ReasonAmbiguousDevices ∧ ∃ d1 d2, d1 ≠ d2 ∧ candidate d1 ∧ candidate d2 ∧
         (requested = [] ∨ d_Name d1 = d_Name d2 ∧ d_Name d1 ∈ requested))
  end.
Proof. apply Select_spec. Qed.
End request_facts.

(** ** Requests *)

Section parse.
Context `{KubeLib}.

Lemma request_names_ok value parts names out :
  request_names value parts names = Ok out ↔
  Forall (fun part => TrimSpace part ≠ "") parts ∧ out = foldl add_new names (TrimSpace <$> parts).
Proof.
  revert names. induction parts as [|part rest IH]; intros names; simpl; [naive_solver|].
  case_decide as Ht; rewrite ?IH, Forall_cons; naive_solver.
Qed.

(** A device name a request can list: printable, without a comma. *)
Definition listable (name : string) : Prop :=
  all_bytes plain_byte name = true ∧ has_byte ","%char name = false ∧ name ≠ "".

(** A list of device names is read back as it was written, in order: the value
    that lists them parses to them. *)
Lemma parse_request_roundtrip (names : list string)
    (Hne : names ≠ []) (Hnd : NoDup names) (Hlist : Forall listable names) :
  ParseRequest (RequestQuarantine +:+ ":" +:+ Join names ",") = Ok names.
Proof.
  unfold ParseRequest. rewrite decide_False.
  2:{ intros Heq. apply (f_equal len) in Heq. rewrite !len_app in Heq. simpl in Heq. lia. }
  rewrite <- app_assoc_str, CutPrefix_app. change "," with (byte_str ","%char).
  rewrite Split_Join; [|done|by eapply Forall_impl; [exact Hlist|]; intros n (_ & ? & _)].
  assert (Htrim : TrimSpace <$> names = names).
  { clear Hne Hnd. induction Hlist as [|n names (Hp & _) _ IH]; [done|].
    by rewrite fmap_cons, TrimSpace_plain, IH. }
  apply request_names_ok. rewrite Htrim, foldl_add_new_fresh by done. split; [|done].
  eapply Forall_impl; [exact Hlist|]. intros n (Hp & _ & Hn). by rewrite TrimSpace_plain.
Qed.

(** A request is read strictly. What it parses to are distinct, non-empty
    names, and none only for the bare request; a value that is neither the bare
    request nor starts like a list is rejected, and so is a list with an empty
    name. *)
Lemma parse_request_strict (value : string) :
  match ParseRequest value with
  | Ok names => NoDup names ∧ ("" ∉ names) ∧ (names = [] ↔ value = RequestQuarantine) ∧
      (value = RequestQuarantine ∨ HasPrefix value (RequestQuarantine +:+ ":") = true)
  | Err e => ∃ message, e = ERejection ReasonInvalidRequest message
  end.
Proof.
  unfold ParseRequest. case_decide as Hv; [split_and!; [constructor|set_solver|done|by left]|].
  destruct (CutPrefix value (RequestQuarantine +:+ ":")) as [rest|] eqn:Hc; [|by eexists].
  destruct (request_names value (Split rest ","%char) []) as [names|e] eqn:E.
  - apply request_names_ok in E as [Hf ->]. split_and!.
    + apply NoDup_foldl_add_new, NoDup_nil_2.
    + rewrite elem_of_foldl_add_new. intros [Hin|(part & Heq & Hin)%list_elem_of_fmap]; [set_solver|].
      rewrite Forall_forall in Hf. by apply (Hf _ Hin).
    + split; [|done]. intros Hnil. destruct (Split rest ","%char) as [|p ps] eqn:Es.
      * by apply Split_not_nil in Es.
      * assert (Hp : TrimSpace p ∈ foldl add_new [] (TrimSpace <$> p :: ps))
          by (rewrite elem_of_foldl_add_new; set_solver).
        rewrite Hnil in Hp. set_solver.
    + right. unfold HasPrefix. by rewrite Hc.
  - clear Hc. revert E. generalize ([] : list string). induction (Split rest ","%char) as [|p ps IH];
      intros acc; simpl; [done|]. case_decide; [intros [= <-]; by eexists|apply IH].
Qed.
End parse.

(** ** Label values *)

Lemma len_digest s : len (digest s) = 16.
Proof. unfold digest. by rewrite len_EncodeToString, length_take, length_Sum256. Qed.

Lemma label_value_length `{KubeLib} name : 17 ≤ LabelValueMaxLength → len (labelValue name) ≤ LabelValueMaxLength.
Proof.
  intros Hmax. unfold labelValue. cbv zeta. rewrite len_digest. case_decide; [done|].
  rewrite !len_app, len_digest, len_bytes, bytes_of_bytes, length_take. simpl. lia.
Qed.

(** C38: any object name fits a label. A name within the limit is its own value; a
    longer one keeps its start and ends in a digest of the whole name, and the
    value has exactly the limit's length. *)
Theorem label_value_fits `{KubeLib} (name : string) (Hmax : 17 ≤ LabelValueMaxLength) :
  len (labelValue name) ≤ LabelValueMaxLength ∧
  (len name ≤ LabelValueMaxLength → labelValue name = name) ∧
  (LabelValueMaxLength < len name →
     len (labelValue name) = LabelValueMaxLength ∧
     ∃ start rest, name = start +:+ rest ∧ len start = LabelValueMaxLength - 17 ∧
       labelValue name = start +:+ "-" +:+ digest name).
Proof.
  unfold labelValue. cbv zeta. rewrite len_digest. case_decide as Hlen; [split_and!; [done|done|lia]|].
  set (n := LabelValueMaxLength - 16 - 1).
  assert (Hstart : len (of_bytes (take n (bytes name))) = n).
  { rewrite len_bytes, bytes_of_bytes, length_take, <- len_bytes. lia. }
  assert (Htotal : len (of_bytes (take n (bytes name)) +:+ "-" +:+ digest name) = LabelValueMaxLength).
  { rewrite !len_app, Hstart, len_digest. simpl. lia. }
  split_and!; [lia|lia|]. intros _. split; [done|].
  exists (of_bytes (take n (bytes name))), (of_bytes (drop n (bytes name))).
  split_and!; [by rewrite <- of_bytes_app, take_drop, of_bytes_bytes|lia|done].
Qed.

(** ** Witnesses *)

#[local] Existing Instance lib.

Lemma parse_request_roundtrip_witness : ParseRequest "quarantine:gpu-0,gpu-3" = Ok ["gpu-0"; "gpu-3"].
Proof.
  apply (parse_request_roundtrip ["gpu-0"; "gpu-3"]).
  - discriminate.
  - apply (bool_decide_unpack _). vm_compute. exact I.
  - repeat constructor; discriminate.
Defined.

Lemma label_value_fits_witness : len (labelValue "worker-1") ≤ 63.
Proof.
  destruct (label_value_fits "worker-1") as [Hlen _].
  - apply (bool_decide_unpack _). vm_compute. exact I.
  - exact Hlen.
Defined.
