(* ===== verification/Rules.v ===== *)
(** * Device taint rules (internal/quarantine/rules.go)

    Creating the rule that quarantines a device, making sure one is there, and
    finding those made for a Machine, through the version of DeviceTaintRule the
    cluster serves. *)

From S2P Require Import Prelude GoStrings Kube Capi Quarantine.
Open Scope stdpp_scope.

Definition rule_group := "resource.k8s.io".
Definition rule_kind := "DeviceTaintRule".
Definition ruleVersions : list string := ["v1"; "v1beta2"].
Definition blockingEffects : list string := ["NoSchedule"; "NoExecute"].

Record Owner : Type := MkOwnerOf { o_Namespace : string; o_Name : string; o_Cluster : string }.

(** Whether the devices are what a request that lists the names means. *)
Definition Covers (devices : list Device) (names : list string) : bool :=
  match devices with
  | [] => false
  | _ => forallb (fun name => existsb (fun d => bool_decide (d_Name d = name)) devices) names
  end.

Section rules.
Context `{KubeLib} {W R : Type} `{API W} `{InfraAPI W}.

Local Abbreviation M := (state (Sys W R)).

(** The device a rule selects, a missing field empty, and its taint's effect. *)
Definition rule_selector (rule : Unstructured) : Device :=
  let selector := NestedStringMap (u_Object rule) ["spec"; "deviceSelector"] in
  MkDevice (get selector "driver") (get selector "pool") (get selector "device").

Definition rule_effect (rule : Unstructured) : string :=
  match NestedString (u_Object rule) ["spec"; "taint"; "effect"] with Ok s => s | Err _ => "" end.

Definition blocks (rule : Unstructured) : bool := bool_decide (rule_effect rule ∈ blockingEffects).

(** The device of a rule of this operator that keeps it from being allocated. *)
Definition ruled_device (owner : Owner) (rule : Unstructured) : option Device :=
  if decide (get (u_Annotations rule) MachineAnnotation ≠ o_Namespace owner +:+ "/" +:+ o_Name owner)
  then None
  else
    let d := rule_selector rule in
    if bool_decide (d_Driver d = "") || bool_decide (d_Pool d = "") || bool_decide (d_Name d = "")
       || negb (blocks rule) || bool_decide (u_Name rule ≠ RuleName d)
    then None else Some d.

Definition rule_spec (d : Device) : value :=
  VMap [("deviceSelector", VMap [("driver", VString (d_Driver d)); ("pool", VString (d_Pool d));
                                 ("device", VString (d_Name d))]);
        ("taint", VMap [("key", VString TaintKey); ("value", VString "true");
                        ("effect", VString "NoSchedule")])].

Definition ruleFor (d : Device) (owner : Owner) (now : Z) : Unstructured :=
  MkUnstructured "" (RuleName d) "" 0 None
    (list_to_map [(ManagedByLabel, ManagedBy);
                  (MachineLabel, labelValue (o_Name owner));
                  (MachineNamespaceLabel, labelValue (o_Namespace owner));
                  (ClusterLabel, labelValue (o_Cluster owner))])
    (list_to_map [(MachineAnnotation, o_Namespace owner +:+ "/" +:+ o_Name owner);
                  (DeviceAnnotation, device_string d);
                  (RequestedAtAnnotation, FormatRFC3339 now)])
    [("spec", rule_spec d)].

(** The loop of [kind]: the first version the cluster serves. *)
Fixpoint served_version (versions : list string) : M (result error string) :=
  match versions with
  | [] => mret (Err (reject ReasonDeviceTaintRuleUnavailable
      ("the cluster serves " +:+ rule_kind +:+ "." +:+ rule_group +:+ " in none of the versions "
         +:+ Join ruleVersions ", "
         +:+ "; Kubernetes 1.36 needs the DRADeviceTaintRules feature gate and the "
         +:+ rule_group +:+ "/v1beta2 API enabled")))
  | version :: rest =>
      m ← call (RuleMapping version);
      match m with
      | Mapped => mret (Ok version)
      | NoMatch => served_version rest
      | MappingFailed e =>
          mret (Err (EWrap ("find " +:+ rule_kind +:+ "." +:+ rule_group +:+ " in " +:+ version) e))
      end
  end.

Definition kind : M (result error string) := served_version ruleVersions.

(** What [check] makes of the rule it read. *)
Definition conflict (d : Device) (rule : Unstructured) : bool :=
  bool_decide (rule_selector rule ≠ d) || negb (blocks rule).

Definition check (version : string) (d : Device) : M (result error unit) :=
  r ← call (GetRule version (RuleName d));
  mret (match r with
        | Err e => if IsNotFound e then Err e
                   else Err (EWrap ("get DeviceTaintRule " +:+ RuleName d +:+ " for " +:+ device_string d) e)
        | Ok rule =>
            if conflict d rule
            then Err (reject ReasonDeviceTaintRuleConflict
              ("DeviceTaintRule " +:+ RuleName d +:+ " exists but does not taint " +:+ device_string d
                 +:+ " with one of " +:+ Join blockingEffects ", "))
            else Ok tt
        end).

(** Whether the rule was created. *)
Definition Ensure (d : Device) (owner : Owner) : M (result error bool) :=
  version ←? kind;
  now ← call Now;
  let rule := ruleFor d owner now in
  emit (CreateRule version rule);;
  r ← call (SendCreateRule version rule);
  match r with
  | Ok _ => mret (Ok true)
  | Err e =>
      if IsAlreadyExists e
      then c ← check version d; mret (match c with Ok _ => Ok false | Err e => Err e end)
      else mret (Err (EWrap ("create DeviceTaintRule " +:+ u_Name rule +:+ " for " +:+ device_string d) e))
  end.

Definition Exists (d : Device) : M (result error bool) :=
  version ←? kind;
  c ← check version d;
  mret (match c with
        | Ok _ => Ok true
        | Err e => if IsNotFound e then Ok false else Err e
        end).

Definition Of (owner : Owner) : M (result error (list Device)) :=
  version ←? kind;
  r ← call (ListRules version (list_to_map [(ManagedByLabel, ManagedBy);
                                            (MachineLabel, labelValue (o_Name owner));
                                            (MachineNamespaceLabel, labelValue (o_Namespace owner))]));
  mret (match r with
        | Err e => Err (EWrap ("list the DeviceTaintRules of " +:+ o_Namespace owner +:+ "/" +:+ o_Name owner) e)
        | Ok items => Ok (sort_by compare (omap (ruled_device owner) items))
        end).
End rules.
