(* ===== verification/Locator.v ===== *)
(** * Finding a Machine's devices (internal/quarantine/locator.go)

    [Devices] follows a Cluster API Provider KubeVirt Machine to the running VM,
    its active virt-launcher pods, their ResourceClaims and the devices these were
    allocated. *)

From S2P Require Import Prelude GoStrings Kube Calls Quarantine.
Open Scope stdpp_scope.

Definition kubevirtMachine := "KubevirtMachine".
Definition kubevirtCluster := "KubevirtCluster".
Definition vmi_kind := "VirtualMachineInstance".
Definition vmi_group := "kubevirt.io".
Definition createdByLabel := "kubevirt.io/created-by".
Definition vmiRunning := "Running".

(** The interface [quarantine.Locator], and what those who use it rely on: a locator
    sends nothing, and reaches the world through its calls only. *)
Class Locator (W R : Type) : Type :=
  locate : Cluster → Machine → state (Sys W R) (result error (list Device)).

Class LocatorLaws (W R : Type) `{API W} `{InfraAPI W} `{Locator W R} : Prop := {
  locate_sends_nothing cluster m : spec (fun _ => False) (locate (W:=W) (R:=R) cluster m) (fun _ => True);
  locate_keeps (J : Sys W R → Prop) cluster m : Kept J → KeptInfra J → keeps J (locate cluster m)
}.

(** ** KubeVirtLocator *)

Section locator.
Context `{KubeLib} {W R : Type} `{API W} `{InfraAPI W}.

Local Abbreviation M := (state (Sys W R)).

(** [get]: [Ok None] when the object does not exist. *)
Definition get_object (group kind : string) (key : ObjectKey) : M (result error (option Unstructured)) :=
  m ← call (ProviderMapping group kind);
  match m with
  | NoMatch => mret (Err (reject ReasonNotKubeVirt
                 ("the cluster does not serve " +:+ kind +:+ "." +:+ group)))
  | MappingFailed e => mret (Err (EWrap ("find the version of " +:+ kind +:+ "." +:+ group) e))
  | Mapped =>
      r ← call (GetProviderObject group kind key);
      mret (match r with
            | Ok o => Ok (Some o)
            | Err e => if IsNotFound e then Ok None
                       else Err (EWrap ("get " +:+ kind +:+ " " +:+ key_string key) e)
            end)
  end.

Definition hasSecretRef (o : Unstructured) : bool :=
  match NestedMap (u_Object o) ["spec"; "infraClusterSecretRef"] with
  | Some ref => negb (bool_decide (length ref = 0))
  | None => false
  end.

(** The kind that puts the VM in another cluster, or the empty string. *)
Definition externalInfra (cluster : Cluster) (kvm : Unstructured) : M (result error string) :=
  if hasSecretRef kvm then mret (Ok kubevirtMachine)
  else
    let ref := cl_InfrastructureRef cluster in
    if bool_decide (ref_APIGroup ref ≠ InfrastructureGroup) || bool_decide (ref_Kind ref ≠ kubevirtCluster)
    then mret (Ok "")
    else
      kvc ←? get_object InfrastructureGroup kubevirtCluster (MkKey (cl_Namespace cluster) (ref_Name ref));
      mret (Ok (match kvc with
                | Some kvc => if hasSecretRef kvc then kubevirtCluster else ""
                | None => ""
                end)).

(** [add] of [claimsOf]. *)
Definition add_claim (claims : list string) (name : option string) : list string :=
  match name with
  | Some n => if decide (n = "") then claims else add_new claims n
  | None => claims
  end.

(** Whether a pod's claims count: it has not terminated, and is among the active
    ones when the VMI lists any. *)
Definition active_pod (active : gmap string string) (p : Pod) : bool :=
  negb (bool_decide (pod_Phase p = "Succeeded") || bool_decide (pod_Phase p = "Failed"))
  && (bool_decide (active = ∅) || bool_decide (is_Some (active !! pod_UID p))).

Definition claims_of_pods (active : gmap string string) (pods : list Pod) : list string :=
  foldl (fun claims p =>
           if active_pod active p
           then foldl add_claim claims (pod_SpecClaims p ++ pod_StatusClaims p)
           else claims) [] pods.

Definition claimsOf (vmi : Unstructured) : M (result error (list string)) :=
  let active := NestedStringMap (u_Object vmi) ["status"; "activePods"] in
  r ← call (ListPods (u_Namespace vmi) {[createdByLabel := u_UID vmi]});
  mret (match r with
        | Err e => Err (EWrap ("list the virt-launcher pods of " +:+ u_Namespace vmi +:+ "/" +:+ u_Name vmi) e)
        | Ok pods => Ok (claims_of_pods active pods)
        end).

(** The devices of a claim's allocation results, those of admin access left out. *)
Definition add_result (devices : list Device) (res : AllocationResult) : list Device :=
  if bool_decide (res_AdminAccess res = Some true) then devices
  else add_new devices (MkDevice (res_Driver res) (res_Pool res) (res_Device res)).

(** The loop over the claims. *)
Fixpoint collect_devices (namespace : string) (claims : list string) (devices : list Device) :
    M (result error (list Device)) :=
  match claims with
  | [] => mret (Ok devices)
  | name :: rest =>
      r ← call (GetResourceClaim (MkKey namespace name));
      match r with
      | Err e => if IsNotFound e then collect_devices namespace rest devices
                 else mret (Err (EWrap ("get ResourceClaim " +:+ namespace +:+ "/" +:+ name) e))
      | Ok None => collect_devices namespace rest devices
      | Ok (Some results) => collect_devices namespace rest (foldl add_result devices results)
      end
  end.

Definition no_devices {A} (message : string) : M (result error A) :=
  mret (Err (reject ReasonNoDevices message)).

(** From the VMI on: the VM has to be running. *)
Definition devices_of_vmi (namespace name : string) (vmi : option Unstructured) : M (result error (list Device)) :=
  let vm := "the Machine's VM " +:+ namespace +:+ "/" +:+ name in
  match vmi with
  | None => no_devices (vm +:+ " is not running")
  | Some vmi =>
      match u_DeletionTimestamp vmi with
      | Some _ => no_devices (vm +:+ " is being deleted")
      | None =>
          let phase := match NestedString (u_Object vmi) ["status"; "phase"] with Ok p => p | Err _ => "" end in
          if decide (phase ≠ vmiRunning)
          then no_devices (vm +:+ " is not running (phase " +:+ Quote phase +:+ ")")
          else
            claims ←? claimsOf vmi;
            devices ←? collect_devices namespace claims [];
            mret (Ok (sort_by compare devices))
      end
  end.

Definition Devices (cluster : Cluster) (m : Machine) : M (result error (list Device)) :=
  let ref := m_InfrastructureRef m in
  if bool_decide (ref_APIGroup ref ≠ InfrastructureGroup) || bool_decide (ref_Kind ref ≠ kubevirtMachine)
  then mret (Err (reject ReasonNotKubeVirt
         ("the Machine's infrastructure is a " +:+ ref_Kind ref +:+ " of " +:+ ref_APIGroup ref
            +:+ ", not a " +:+ kubevirtMachine)))
  else
    kvm ←? get_object InfrastructureGroup kubevirtMachine (MkKey (m_Namespace m) (ref_Name ref));
    match kvm with
    | None => no_devices ("the Machine's " +:+ kubevirtMachine +:+ " " +:+ ref_Name ref +:+ " does not exist")
    | Some kvm =>
        external ←? externalInfra cluster kvm;
        if decide (external ≠ "")
        then mret (Err (reject ReasonExternalInfraCluster
               ("the Machine's VM runs in the cluster of the " +:+ external +:+ "'s infraClusterSecretRef")))
        else
          match NestedString (u_Object kvm) ["spec"; "virtualMachineTemplate"; "metadata"; "namespace"] with
          | Err e => mret (Err (EWrap ("read the VM namespace of " +:+ kubevirtMachine +:+ " "
                                         +:+ u_Namespace kvm +:+ "/" +:+ u_Name kvm) e))
          | Ok ns =>
              let vmNamespace := if decide (ns = "") then u_Namespace kvm else ns in
              vmi ←? get_object vmi_group vmi_kind (MkKey vmNamespace (u_Name kvm));
              devices_of_vmi vmNamespace (u_Name kvm) vmi
          end
    end.

(** [KubeVirtLocator] implements [Locator]. *)
#[export] Instance KubeVirtLocator : Locator W R := Devices.
End locator.
