(* ===== verification/LocatorFacts.v ===== *)
(** * What the locator finds

    An abstract description of the devices a Machine's VM holds, read off the API as
    it is, and the proof that [Devices] finds exactly these. *)

From S2P Require Import Prelude GoStrings Kube Calls KubeModel WorldModel Quarantine Rules Locator.
Open Scope stdpp_scope.

(** ** Claims *)

Lemma elem_of_foldl_add_claim names claims n :
  n ∈ foldl add_claim claims names ↔ n ∈ claims ∨ n ≠ "" ∧ Some n ∈ names.
Proof.
  revert claims. induction names as [|x names IH]; intros claims; simpl; [set_solver|]. rewrite IH.
  destruct x as [x|]; simpl; [|set_solver]. case_decide; [set_solver|]. rewrite elem_of_add_new. set_solver.
Qed.

(** The claim names a pod counts for. *)
Definition names_claim (active : gmap string string) (p : Pod) (name : string) : Prop :=
  name ≠ "" ∧ pod_Phase p ≠ "Succeeded" ∧ pod_Phase p ≠ "Failed" ∧
  (active = ∅ ∨ is_Some (active !! pod_UID p)) ∧ (Some name ∈ pod_SpecClaims p ∨ Some name ∈ pod_StatusClaims p).

Lemma active_pod_spec active p :
  active_pod active p = true ↔ pod_Phase p ≠ "Succeeded" ∧ pod_Phase p ≠ "Failed" ∧
    (active = ∅ ∨ is_Some (active !! pod_UID p)).
Proof.
  unfold active_pod. rewrite andb_true_iff, negb_true_iff, orb_false_iff, orb_true_iff,
    !bool_decide_eq_false, !bool_decide_eq_true. tauto.
Qed.

Lemma elem_of_claims_of_pods active pods name :
  name ∈ claims_of_pods active pods ↔ ∃ p, p ∈ pods ∧ names_claim active p name.
Proof.
  unfold claims_of_pods. enough (Hgen : ∀ claims,
    name ∈ foldl (fun claims p => if active_pod active p
                  then foldl add_claim claims (pod_SpecClaims p ++ pod_StatusClaims p) else claims) claims pods ↔
    name ∈ claims ∨ ∃ p, p ∈ pods ∧ names_claim active p name) by (rewrite Hgen; set_solver).
  induction pods as [|p pods IH]; intros claims; simpl; [set_solver|]. rewrite IH.
  assert (Hp : name ∈ (if active_pod active p
      then foldl add_claim claims (pod_SpecClaims p ++ pod_StatusClaims p) else claims) ↔
    name ∈ claims ∨ names_claim active p name).
  { unfold names_claim. pose proof (active_pod_spec active p) as Ha. destruct (active_pod active p).
    - rewrite elem_of_foldl_add_claim, elem_of_app. tauto.
    - split; [tauto|]. intros [?|(_ & ? & ? & ? & _)]; [done|]. enough (false = true) by done. by apply Ha. }
  rewrite Hp. setoid_rewrite elem_of_cons. naive_solver.
Qed.

(** ** Results *)

Definition device_of (res : AllocationResult) : Device := MkDevice (res_Driver res) (res_Pool res) (res_Device res).

Lemma elem_of_add_results devices results d :
  d ∈ foldl add_result devices results ↔
  d ∈ devices ∨ ∃ res, res ∈ results ∧ res_AdminAccess res ≠ Some true ∧ d = device_of res.
Proof.
  revert devices. induction results as [|res results IH]; intros devices; simpl; [set_solver|]. rewrite IH.
  setoid_rewrite elem_of_cons. unfold add_result. case_bool_decide as Ha.
  - naive_solver.
  - rewrite elem_of_add_new. unfold device_of. naive_solver.
Qed.

Lemma NoDup_add_results devices results : NoDup devices → NoDup (foldl add_result devices results).
Proof.
  revert devices. induction results as [|res results IH]; intros devices Hd; simpl; [done|].
  apply IH. unfold add_result. case_bool_decide; [done|]. by apply NoDup_add_new.
Qed.

(** ** What a Machine holds *)

(** The calls of the locator only read. *)
Record only_reads (W : Type) `{InfraAPI W} : Prop := {
  reads_ProviderMapping g k w : (ProviderMapping g k w).2 = w;
  reads_GetProviderObject g k key w : (GetProviderObject g k key w).2 = w;
  reads_ListPods ns ls w : (ListPods ns ls w).2 = w;
  reads_GetResourceClaim key w : (GetResourceClaim key w).2 = w
}.

Section facts.
Context `{KubeLib} {W R : Type} `{API W} `{InfraAPI W}.

(** The VMI [vmi] in namespace [ns] runs the Machine's VM, in this cluster. *)
Record running_vm (w : W) (cluster : Cluster) (m : Machine) (ns : string) (vmi : Unstructured) : Prop := {
  vm_of_kubevirt :
    ref_APIGroup (m_InfrastructureRef m) = InfrastructureGroup ∧
    ref_Kind (m_InfrastructureRef m) = kubevirtMachine;
  vm_of_machine : ∃ kvm template,
    (GetProviderObject InfrastructureGroup kubevirtMachine
       (MkKey (m_Namespace m) (ref_Name (m_InfrastructureRef m))) w).1 = Ok kvm ∧
    hasSecretRef kvm = false ∧
    NestedString (u_Object kvm) ["spec"; "virtualMachineTemplate"; "metadata"; "namespace"] = Ok template ∧
    ns = (if decide (template = "") then u_Namespace kvm else template) ∧
    (GetProviderObject vmi_group vmi_kind (MkKey ns (u_Name kvm)) w).1 = Ok vmi;
  vm_in_this_cluster kvc :
    ref_APIGroup (cl_InfrastructureRef cluster) = InfrastructureGroup →
    ref_Kind (cl_InfrastructureRef cluster) = kubevirtCluster →
    (GetProviderObject InfrastructureGroup kubevirtCluster
       (MkKey (cl_Namespace cluster) (ref_Name (cl_InfrastructureRef cluster))) w).1 = Ok kvc →
    hasSecretRef kvc = false;
  vm_not_deleted : u_DeletionTimestamp vmi = None;
  vm_running : NestedString (u_Object vmi) ["status"; "phase"] = Ok vmiRunning
}.

(** The claim was allocated the device, and not only for administration. *)
Definition allocated (w : W) (ns claim : string) (d : Device) : Prop :=
  ∃ results, (GetResourceClaim (MkKey ns claim) w).1 = Ok (Some results) ∧
    ∃ res, res ∈ results ∧ res_AdminAccess res ≠ Some true ∧ d = device_of res.

(** A claim of one of the VMI's active pods was allocated the device. *)
Definition holds_device (w : W) (ns : string) (vmi : Unstructured) (d : Device) : Prop :=
  ∃ pods p claim,
    (ListPods (u_Namespace vmi) {[createdByLabel := u_UID vmi]} w).1 = Ok pods ∧ p ∈ pods ∧
    names_claim (NestedStringMap (u_Object vmi) ["status"; "activePods"]) p claim ∧
    allocated w ns claim d.

Context (Hread : only_reads W).

(** A call that only reads leaves the system as it is. *)
Lemma call_reads {A} (c : state W A) (s : Sys W R) :
  (c (world s)).2 = world s → call c s = ((c (world s)).1, s).
Proof. intros Hc. unfold call. destruct s as [w t m]. simpl in *. destruct (c w) as [a w']. simpl in *. by subst. Qed.

Lemma exists_cons {A} (P : A → Prop) x l : (∃ y, y ∈ x :: l ∧ P y) ↔ P x ∨ ∃ y, y ∈ l ∧ P y.
Proof. setoid_rewrite elem_of_cons. naive_solver. Qed.

Lemma collect_devices_ok ns claims devices (s : Sys W R) ds :
  (collect_devices ns claims devices s).1 = Ok ds → NoDup devices →
  NoDup ds ∧ ∀ d, d ∈ ds ↔ d ∈ devices ∨ ∃ claim, claim ∈ claims ∧ allocated (world s) ns claim d.
Proof.
  revert devices. induction claims as [|claim claims IH]; intros devices; cbn [collect_devices].
  { intros [= ->] Hd. set_solver. }
  unfold mbind, state_bind. rewrite call_reads by apply (reads_GetResourceClaim _ Hread).
  assert (Hskip : ∀ devices', NoDup devices' → (collect_devices ns claims devices' s).1 = Ok ds →
    (∀ d, d ∈ devices' ↔ d ∈ devices ∨ allocated (world s) ns claim d) →
    NoDup ds ∧ ∀ d, d ∈ ds ↔ d ∈ devices ∨ ∃ c, c ∈ claim :: claims ∧ allocated (world s) ns c d).
  { intros devices' Hd' Hc Hin'. destruct (IH _ Hc Hd') as [Hnd Hin]. split; [done|].
    intros d. rewrite exists_cons, Hin, Hin'. tauto. }
  unfold allocated at 1 in Hskip.
  destruct (GetResourceClaim (MkKey ns claim) (world s)).1 as [[results|]|e] eqn:E.
  - intros Hc Hd. eapply Hskip; [|exact Hc|]; [by apply NoDup_add_results|].
    intros d. rewrite elem_of_add_results. split; [intros [?|?]; eauto|].
    intros [?|(results' & [= ->] & ?)]; auto.
  - intros Hc Hd. eapply Hskip; [exact Hd|exact Hc|]. intros d. split; [auto|]. by intros [?|(? & ? & _)].
  - destruct (IsNotFound e); [|done]. intros Hc Hd. eapply Hskip; [exact Hd|exact Hc|].
    intros d. split; [auto|]. by intros [?|(? & ? & _)].
Qed.

Lemma get_object_ok group kind key (s : Sys W R) :
  (get_object group kind key s).2 = s ∧
  ∀ o, (get_object group kind key s).1 = Ok o →
    match (GetProviderObject group kind key (world s)).1 with
    | Ok u => o = Some u
    | Err e => IsNotFound e = true ∧ o = None
    end.
Proof.
  unfold get_object, mbind, state_bind. rewrite call_reads by apply (reads_ProviderMapping _ Hread).
  destruct (ProviderMapping group kind (world s)).1; [|done..].
  rewrite call_reads by apply (reads_GetProviderObject _ Hread).
  destruct (GetProviderObject group kind key (world s)).1 as [u|e]; simpl; split; try done.
  - by intros o [= <-].
  - intros o. destruct (IsNotFound e); [|done]. by intros [= <-].
Qed.

Lemma externalInfra_ok cluster kvm (s : Sys W R) :
  (externalInfra cluster kvm s).2 = s ∧
  ((externalInfra cluster kvm s).1 = Ok "" →
   hasSecretRef kvm = false ∧ ∀ kvc,
     ref_APIGroup (cl_InfrastructureRef cluster) = InfrastructureGroup →
     ref_Kind (cl_InfrastructureRef cluster) = kubevirtCluster →
     (GetProviderObject InfrastructureGroup kubevirtCluster
        (MkKey (cl_Namespace cluster) (ref_Name (cl_InfrastructureRef cluster))) (world s)).1 = Ok kvc →
     hasSecretRef kvc = false).
Proof.
  unfold externalInfra. destruct (hasSecretRef kvm); [by split|]. cbv zeta.
  destruct (_ || _) eqn:Hk.
  { split; [done|]. intros _. split; [done|]. intros kvc Hg Hc _.
    rewrite orb_true_iff, !bool_decide_eq_true in Hk. naive_solver. }
  unfold bind_ok, mbind, state_bind.
  destruct (get_object_ok InfrastructureGroup kubevirtCluster
    (MkKey (cl_Namespace cluster) (ref_Name (cl_InfrastructureRef cluster))) s) as [Hw Hg].
  destruct (get_object _ _ _ s) as [[o|e] s']; simpl in *; subst s'; [|done]. specialize (Hg o eq_refl).
  split; [done|]. intros Hext. split; [done|]. intros kvc _ _ Hkvc. rewrite Hkvc in Hg. subst o.
  by destruct (hasSecretRef kvc).
Qed.

(** A step of [Devices] that reads: what follows starts where it started. *)
Lemma bind_reads {A B} (c : state (Sys W R) (result error A)) (k : A → state (Sys W R) (result error B)) s b :
  (c s).2 = s → (bind_ok c k s).1 = Ok b → ∃ a, (c s).1 = Ok a ∧ (k a s).1 = Ok b.
Proof.
  intros Hc. unfold bind_ok, mbind, state_bind. destruct (c s) as [[a|e] s']; simpl in *; [|done].
  subst s'. eauto.
Qed.

Lemma devices_of_vmi_ok ns name o (s : Sys W R) ds :
  (devices_of_vmi ns name o s).1 = Ok ds →
  ∃ vmi, o = Some vmi ∧ u_DeletionTimestamp vmi = None ∧
    NestedString (u_Object vmi) ["status"; "phase"] = Ok vmiRunning ∧
    Sorted compare ds ∧ NoDup ds ∧ ∀ d, d ∈ ds ↔ holds_device (world s) ns vmi d.
Proof.
  unfold devices_of_vmi. destruct o as [vmi|]; [|done]. destruct (u_DeletionTimestamp vmi) eqn:Hdel; [done|].
  cbv zeta. case_decide as Hphase; [done|].
  intros (claims & Hclaims & Hds)%bind_reads; [|unfold claimsOf, mbind, state_bind; rewrite call_reads;
    [done|apply (reads_ListPods _ Hread)]].
  unfold bind_ok, mbind at 1, state_bind at 1 in Hds.
  destruct (collect_devices ns claims [] s) as [[devices|e] s'] eqn:Ec; [|done]. injection Hds as <-.
  destruct (collect_devices_ok ns claims [] s devices) as [Hnd Hin]; [by rewrite Ec|constructor|].
  unfold claimsOf, mbind, state_bind in Hclaims. rewrite call_reads in Hclaims by apply (reads_ListPods _ Hread).
  destruct (ListPods (u_Namespace vmi) {[createdByLabel := u_UID vmi]} (world s)).1 as [pods|e] eqn:Ep; [|done].
  injection Hclaims as <-. exists vmi. split_and!; [done|done| |apply Sorted_sort_by, _|by apply NoDup_sort_by|].
  { destruct (NestedString _ _); [by subst|done]. }
  intros d. rewrite elem_of_sort_by, Hin. unfold holds_device. setoid_rewrite elem_of_claims_of_pods. split.
  - intros [[]%elem_of_nil|(claim & (p & Hp & Hc) & Ha)]. by exists pods, p, claim.
  - intros (pods' & p & claim & Hpods & Hp & Hc & Ha). right.
    assert (pods' = pods) as -> by congruence. exists claim. split; [by exists p|done].
Qed.

(** ** The VM that runs is found *)

(** What the locator reads of a Machine's VM can be read: its kinds are served, and an object
    that is not there is the only error. *)
Record readable (w : W) (cluster : Cluster) (ns : string) (vmi : Unstructured) : Prop := {
  readable_kinds group kind :
    (group, kind) ∈ [(InfrastructureGroup, kubevirtMachine); (InfrastructureGroup, kubevirtCluster);
                     (vmi_group, vmi_kind)] →
    (ProviderMapping group kind w).1 = Mapped;
  readable_cluster e :
    (GetProviderObject InfrastructureGroup kubevirtCluster
       (MkKey (cl_Namespace cluster) (ref_Name (cl_InfrastructureRef cluster))) w).1 = Err e → IsNotFound e = true;
  readable_pods : is_ok (ListPods (u_Namespace vmi) {[createdByLabel := u_UID vmi]} w).1 = true;
  readable_claims claim e : (GetResourceClaim (MkKey ns claim) w).1 = Err e → IsNotFound e = true
}.

Lemma bind_reads_ok {A B} (c : state (Sys W R) (result error A)) (k : A → state (Sys W R) (result error B)) s a :
  (c s).1 = Ok a → (c s).2 = s → bind_ok c k s = k a s.
Proof. unfold bind_ok, mbind, state_bind. destruct (c s) as [res s']. simpl. by intros -> ->. Qed.

Lemma get_object_found group kind key (s : Sys W R) o :
  (ProviderMapping group kind (world s)).1 = Mapped →
  (GetProviderObject group kind key (world s)).1 = Ok o → (get_object group kind key s).1 = Ok (Some o).
Proof.
  intros Hm Ho. unfold get_object, mbind, state_bind. rewrite call_reads by apply (reads_ProviderMapping _ Hread).
  rewrite Hm, call_reads by apply (reads_GetProviderObject _ Hread). by rewrite Ho.
Qed.

Lemma collect_devices_total ns claims devices (s : Sys W R) :
  (∀ claim e, (GetResourceClaim (MkKey ns claim) (world s)).1 = Err e → IsNotFound e = true) →
  ∃ ds, collect_devices ns claims devices s = (Ok ds, s).
Proof.
  intros Hc. revert devices. induction claims as [|claim claims IH]; intros devices; cbn [collect_devices]; [by exists devices|].
  unfold mbind, state_bind. rewrite call_reads by apply (reads_GetResourceClaim _ Hread).
  destruct (GetResourceClaim (MkKey ns claim) (world s)).1 as [[results|]|e] eqn:E; [apply IH..|].
  rewrite (Hc _ _ E). apply IH.
Qed.

Lemma externalInfra_here cluster kvm ns vmi (s : Sys W R) :
  readable (world s) cluster ns vmi → hasSecretRef kvm = false →
  (∀ kvc, ref_APIGroup (cl_InfrastructureRef cluster) = InfrastructureGroup →
    ref_Kind (cl_InfrastructureRef cluster) = kubevirtCluster →
    (GetProviderObject InfrastructureGroup kubevirtCluster
       (MkKey (cl_Namespace cluster) (ref_Name (cl_InfrastructureRef cluster))) (world s)).1 = Ok kvc →
    hasSecretRef kvc = false) →
  (externalInfra cluster kvm s).1 = Ok "".
Proof.
  intros Hr Hk Hc. unfold externalInfra. rewrite Hk. cbv zeta. destruct (_ || _) eqn:E; [done|].
  apply orb_false_iff in E as [Hg Hkind]. apply bool_decide_eq_false_1, dec_stable in Hg, Hkind.
  unfold bind_ok, mbind, state_bind, get_object, mbind, state_bind.
  rewrite call_reads by apply (reads_ProviderMapping _ Hread).
  rewrite (readable_kinds _ _ _ _ Hr) by set_solver.
  rewrite call_reads by apply (reads_GetProviderObject _ Hread).
  destruct (GetProviderObject InfrastructureGroup kubevirtCluster _ (world s)).1 as [kvc|e] eqn:Ek; simpl.
  - by rewrite (Hc kvc).
  - by rewrite (readable_cluster _ _ _ _ Hr e Ek).
Qed.

Lemma devices_of_vmi_total ns name cluster vmi (s : Sys W R) :
  readable (world s) cluster ns vmi → u_DeletionTimestamp vmi = None →
  NestedString (u_Object vmi) ["status"; "phase"] = Ok vmiRunning →
  is_ok (devices_of_vmi ns name (Some vmi) s).1 = true.
Proof.
  intros Hr Hdel Hrun. unfold devices_of_vmi. rewrite Hdel, Hrun. cbv zeta. rewrite decide_False by naive_solver.
  assert (Hclaims : ∃ claims, claimsOf vmi s = (Ok claims, s)).
  { unfold claimsOf, mbind, state_bind. rewrite call_reads by apply (reads_ListPods _ Hread).
    pose proof (readable_pods _ _ _ _ Hr) as Hp. destruct (ListPods _ _ (world s)).1 as [pods|e]; [|done]. by eexists. }
  destruct Hclaims as [claims Hclaims]. rewrite (bind_reads_ok _ _ _ claims) by by rewrite Hclaims.
  destruct (collect_devices_total ns claims [] s) as [ds Hds]; [apply (readable_claims _ _ _ _ Hr)|].
  by rewrite (bind_reads_ok _ _ _ ds) by by rewrite Hds.
Qed.

End facts.

(** ** The locator keeps what the interface promises *)

Section laws.
Context `{KubeLib} {W R : Type} `{API W} `{InfraAPI W}.

Lemma collect_devices_spec P namespace claims devices :
  spec (W:=W) (R:=R) P (collect_devices namespace claims devices) (fun _ => True).
Proof.
  revert devices. induction claims as [|name rest IH]; intros devices; [by apply spec_ret|].
  cbn [collect_devices]. eapply spec_bind; [apply spec_call|]. intros [[results|]|e] _; [apply IH..|].
  destruct (IsNotFound e); [apply IH|by apply spec_ret].
Qed.

Lemma collect_devices_keeps (J : Sys W R → Prop) `{!KeptInfra J} namespace claims devices :
  keeps J (collect_devices namespace claims devices).
Proof.
  revert devices. induction claims as [|name rest IH]; intros devices; cbn [collect_devices]; [auto with keeps|].
  apply keeps_bind; [auto with keeps|]. intros [[results|]|e]; [apply IH..|].
  destruct (IsNotFound e); [apply IH|auto with keeps].
Qed.

#[export] Instance KubeVirtLocator_laws : LocatorLaws W R.
Proof.
  constructor.
  - intros cluster m. unfold locate, KubeVirtLocator, Devices, devices_of_vmi, no_devices, externalInfra,
      get_object, claimsOf. cbv zeta. spec_walk; apply collect_devices_spec.
  - intros J cluster m HJ HI. unfold locate, KubeVirtLocator, Devices, devices_of_vmi, no_devices, externalInfra,
      get_object, claimsOf. cbv zeta. keeps_steps; apply collect_devices_keeps; apply _.
Qed.
End laws.
