(* ===== verification/QuarantineController.v ===== *)
(** * The quarantine controller (internal/controller/quarantine_controller.go)

    Carries out an operator's request to replace a Machine: quarantines the devices
    its workload holds and then deletes it. The Machine Go updates in place is
    returned next to the result; a quarantine keeps no memory between requests. *)

From S2P Require Import Prelude GoStrings Kube Capi Quarantine Rules Locator.
Open Scope stdpp_scope.

Definition QuarantineControllerName := "nvsentinel-capi-remediator" +:+ "-quarantine".
Definition ActionQuarantine := "Quarantine".
Definition EventQuarantineRejected := "QuarantineRejected".
Definition EventDevicesQuarantined := "DevicesQuarantined".
Definition EventMachineReplaced := "MachineReplaced".
Definition QuarantineClusterPaused := "ClusterPaused".
Definition QuarantineNotReplaceable := "NotReplaceable".
Definition conflictRetry : Z := 1000000000.

Record MachineQuarantineReconciler : Type := MkQuarantineReconciler {
  q_Drivers : gset string;
  q_DryRun : bool;
  q_ClusterSelector : option (gmap string string → bool)
}.

Definition deviceList (ds : list Device) : string := Join (device_string <$> ds) ", ".
Definition ruleList (ds : list Device) : string :=
  Join ((fun d => device_string d +:+ " (" +:+ RuleName d +:+ ")") <$> ds) ", ".

Section controller.
Context `{KubeLib} {W R : Type} `{API W} `{InfraAPI W} `{!Locator W R} (r : MachineQuarantineReconciler).

Local Abbreviation M := (state (Sys W R)).

Definition ownedByMachineSet (m : Machine) : bool :=
  match GetControllerOf (m_OwnerReferences m) with
  | None => false
  | Some ref =>
      if decide (or_Kind ref ≠ "MachineSet") then false
      else bool_decide (ParseGroup (or_APIVersion ref) = Some ClusterAPIGroup)
  end.

(** The reason and the message; [None] when the Machine may be replaced. *)
Definition guardReplace (cluster : Cluster) (m : Machine) : option (string * string) :=
  let skipped skip := Some (skip_string skip, Message skip) in
  if annotations_IsPaused cluster then Some (QuarantineClusterPaused, "the Cluster is paused")
  else if IsControlPlane m then skipped SkipControlPlane
  else if IsMarkedForRemediation m then
    Some (skip_string SkipAlreadyMarked,
      "the Machine is marked for remediation, so its VM may be restarted with other devices or replaced meanwhile; ask again once the mark is gone")
  else if IsPaused m then skipped SkipPaused
  else if IsOptedOut m then skipped SkipOptedOut
  else if negb (ownedByMachineSet m) then
    Some (QuarantineNotReplaceable, "no MachineSet owns the Machine, so nothing would replace it")
  else None.

Definition set_status (m : Machine) (status : string) : Machine :=
  set_annotations m
    (if decide (status = "") then delete ReplaceStatusAnnotation (m_Annotations m)
     else <[ReplaceStatusAnnotation := status]> (m_Annotations m)).

Definition setStatus (m : Machine) (status : string) : M (Machine * result error unit) :=
  let current := m_Annotations m !! ReplaceStatusAnnotation in
  if bool_decide (status = "") && bool_decide (current = None) || bool_decide (current = Some status)
  then mret (m, Ok tt)
  else
    p ← patch_machine m (set_status m status) true;
    mret (match p with Ok m' => (m', Ok tt) | Err e => (m, Err e) end).

Definition reject_note (request reason message : string) : string :=
  "Replace request " +:+ Quote request +:+ " rejected (" +:+ reason +:+ "): " +:+ message.

Definition reject (m : Machine) (request reason message : string) : M (Machine * result error unit) :=
  if q_DryRun r then mret (m, Ok tt)
  else
    s ← setStatus m (RejectedStatus reason);
    let '(m, res) := s in
    match res with
    | Err e => mret (m, Err e)
    | Ok _ =>
        emit (RecordEvent (RefMachine (machine_key m)) EventWarning EventQuarantineRejected ActionQuarantine
                (EventNote (reject_note request reason message)));;
        mret (m, Ok tt)
    end.

Definition fail (m : Machine) (request : string) (e : error) : M (Machine * result error unit) :=
  if IsConflict e then mret (m, Err e)
  else match as_rejection e with
       | Some (reason, message) => reject m request reason message
       | None => if IsForbidden e then reject m request ReasonForbidden (error_string e)
                 else mret (m, Err e)
       end.

(** [fail] where no devices are returned. *)
Definition fail_devices (m : Machine) (request : string) (e : error) :
    M (Machine * result error (option (list Device))) :=
  f ← fail m request e;
  mret (f.1, match f.2 with Ok _ => Ok None | Err e => Err e end).

(** The loops that make the rules and read them back. *)
Fixpoint ensure_all (ds : list Device) (owner : Owner) : M (result error unit) :=
  match ds with
  | [] => mret (Ok tt)
  | d :: rest => created ←? Ensure d owner; ensure_all rest owner
  end.

(** An [inr] error is returned as it is, an [inl] one goes through [fail]. *)
Fixpoint confirm_all (ds : list Device) : M (result (error + error) unit) :=
  match ds with
  | [] => mret (Ok tt)
  | d :: rest =>
      ok ← Exists d;
      match ok with
      | Err e => mret (Err (inl e))
      | Ok false => mret (Err (inr (ENew ("DeviceTaintRule " +:+ RuleName d +:+ " for " +:+ device_string d
                                            +:+ " is missing right after it was made"))))
      | Ok true => confirm_all rest
      end
  end.

(** [setStatus] unless the status is [StatusReplacing] already. *)
Definition advance (m : Machine) (status next : string) : M (Machine * result error unit) :=
  if decide (status = StatusReplacing) then mret (m, Ok tt) else setStatus m next.

(** [quarantine]; [None] for no devices: rejected, or a dry run. *)
Definition quarantine_devices (cluster : Cluster) (m : Machine) (request : string) (names : list string)
    (status : string) : M (Machine * result error (option (list Device))) :=
  held ← locate cluster m;
  match held ≫= (fun held => Select held (q_Drivers r) names) with
  | Err e => fail_devices m request e
  | Ok devices =>
      if q_DryRun r then mret (m, Ok None)
      else
        s ← advance m status StatusQuarantining;
        let '(m, res) := s in
        match res with
        | Err e => mret (m, Err e)
        | Ok _ =>
            made ← ensure_all devices (MkOwnerOf (m_Namespace m) (m_Name m) (cl_Name cluster));
            match made with
            | Err e => fail_devices m request e
            | Ok _ =>
                confirmed ← confirm_all devices;
                match confirmed with
                | Err (inl e) => fail_devices m request e
                | Err (inr e) => mret (m, Err e)
                | Ok _ =>
                    s ← advance m status StatusReplacing;
                    let '(m, res) := s in
                    match res with
                    | Err e => mret (m, Err e)
                    | Ok _ =>
                        emit (RecordEvent (RefMachine (machine_key m)) EventWarning EventDevicesQuarantined
                          ActionQuarantine (EventNote ("Quarantined with DeviceTaintRules: " +:+ ruleList devices)));;
                        mret (m, Ok (Some devices))
                    end
                end
            end
        end
  end.

(** The deletion, under the preconditions of the Machine as last read or patched. *)
Definition delete_machine (m : Machine) (request : string) (devices : list Device) : M (result error unit) :=
  emit (DeleteMachine m (m_UID m) (m_ResourceVersion m));;
  d ← call (SendDeleteMachine m (m_UID m) (m_ResourceVersion m));
  match d with
  | Err e =>
      if IsNotFound e then mret (Ok tt)
      else f ← fail m request (EWrap ("delete machine " +:+ m_Namespace m +:+ "/" +:+ m_Name m) e); mret f.2
  | Ok _ =>
      emit (RecordEvent (RefMachine (machine_key m)) EventWarning EventMachineReplaced ActionQuarantine
              (EventNote ("Deleted for its MachineSet to replace, with " +:+ deviceList devices +:+ " quarantined")));;
      mret (Ok tt)
  end.

(** The devices of the rules made before, when they cover a request past
    [StatusReplacing]; [None] when it is to be carried out. *)
Definition made_before (cluster : Cluster) (m : Machine) (names : list string) (status : string) :
    M (result error (option (list Device))) :=
  if decide (status = StatusReplacing) then
    made ←? Of (MkOwnerOf (m_Namespace m) (m_Name m) (cl_Name cluster));
    mret (Ok (if Covers made names then Some made else None))
  else mret (Ok None).

(** [replace], from the guards on. *)
Definition carry_out (cluster : Cluster) (m : Machine) (request status : string) : M (result error unit) :=
  match guardReplace cluster m with
  | Some (reason, message) => f ← reject m request reason message; mret f.2
  | None =>
      match ParseRequest request with
      | Err e => f ← fail m request e; mret f.2
      | Ok names =>
          made ← made_before cluster m names status;
          match made with
          | Err e => f ← fail m request e; mret f.2
          | Ok (Some devices) =>
              if q_DryRun r then mret (Ok tt) else delete_machine m request devices
          | Ok None =>
              q ← quarantine_devices cluster m request names status;
              match q.2 with
              | Err e => mret (Err e)
              | Ok None => mret (Ok tt)
              | Ok (Some devices) => delete_machine q.1 request devices
              end
          end
      end
  end.

Definition replace (m : Machine) : M (result error unit) :=
  let status := get (m_Annotations m) ReplaceStatusAnnotation in
  if m_Deleting m then mret (Ok tt)
  else match m_Annotations m !! ReplaceAnnotation with
  | None =>
      if bool_decide (status = "") || q_DryRun r then mret (Ok tt)
      else s ← setStatus m ""; mret s.2
  | Some request =>
      if IsRejected status then mret (Ok tt)
      else
        c ← call (GetCluster (MkKey (m_Namespace m) (m_ClusterName m)));
        match c with
        | Err e =>
            if IsNotFound e then mret (Ok tt)
            else mret (Err (EWrap ("get cluster " +:+ m_Namespace m +:+ "/" +:+ m_ClusterName m) e))
        | Ok cluster =>
            if match q_ClusterSelector r with Some matches => negb (matches (cl_Labels cluster)) | None => false end
            then mret (Ok tt)
            else carry_out cluster m request status
        end
  end.

(** [Ok d] is a reconcile requeued after [d], [Ok 0] one that is not. *)
Definition ReconcileQuarantine (key : ObjectKey) : M (result error Z) :=
  m ← call (GetMachine key);
  match m with
  | Err e => mret (match IgnoreNotFound e with Some e => Err e | None => Ok 0%Z end)
  | Ok m =>
      res ← replace m;
      mret (match res with
            | Ok _ => Ok 0%Z
            | Err e => if IsConflict e then Ok conflictRetry else Err e
            end)
  end.
End controller.

(** ** Watching requests *)

Definition request_keys : list string := [ReplaceAnnotation; ReplaceStatusAnnotation].

Definition replaceRequestChanged (e : watch_event Machine) : bool :=
  match e with
  | CreateEvent m => existsb (has_key (m_Annotations m)) request_keys
  | UpdateEvent old new =>
      existsb (fun k => bool_decide (m_Annotations old !! k ≠ m_Annotations new !! k)) request_keys
  | DeleteEvent _ | GenericEvent _ => false
  end.
