(* ===== verification/QuarantineFacts.v ===== *)
(** * What quarantining devices guarantees

    Rules are found as they are made, the devices a Machine holds, the guards of a
    replacement, what a reconcile may send, and that a Machine is only deleted with
    its devices quarantined: those its VM was found to hold ([running_vm],
    [holds_device]), or those rules were made of for it before ([made_for]). *)

From S2P Require Import Prelude GoStrings Kube Calls KubeModel WorldModel Capi Quarantine Rules Locator LocatorFacts QuarantineController.
Open Scope stdpp_scope.

(** ** Rules *)

Section rules.
Context `{KubeLib} `{!KubeLaws}.

Lemma rule_selector_ruleFor d owner now : rule_selector (ruleFor d owner now) = d.
Proof.
  unfold rule_selector.
  rewrite (nested_string_map_field _ _ [("driver", d_Driver d); ("pool", d_Pool d); ("device", d_Name d)]).
  - unfold get. simpl. by destruct d.
  - repeat constructor; set_solver.
  - done.
Qed.

Lemma blocks_ruleFor d owner now : blocks (ruleFor d owner now) = true.
Proof.
  unfold blocks, rule_effect. rewrite (nested_string_field _ _ "NoSchedule") by done.
  by apply bool_decide_eq_true_2; set_solver.
Qed.
End rules.

Lemma insert_subseteq_iff {A} (m1 m2 : gmap string A) i x :
  m1 !! i = None → <[i := x]> m1 ⊆ m2 ↔ m2 !! i = Some x ∧ m1 ⊆ m2.
Proof.
  intros Hi. split; [|intros [Hx Hm]; by apply insert_subseteq_l]. intros Hm. split.
  - eapply lookup_weaken; [|exact Hm]. by rewrite lookup_insert_eq.
  - etrans; [by apply (insert_subseteq m1 i x)|done].
Qed.

(** What the lookup of a Machine's rules answers, of the rules the API server stores and
    selects by their labels. *)
Lemma of_stored `{KubeLib} {W R : Type} `{API W} `{InfraAPI W} (stored : list Unstructured) (owner : Owner) (s : Sys W R) :
  is_ok (kind s).1 = true →
  (∀ version ls, (ListRules version ls (world (kind s).2)).1 = Ok (filter (fun rule => ls ⊆ u_Labels rule) stored)) →
  ∃ ds, (Of owner s).1 = Ok ds ∧ ∀ d, d ∈ ds ↔ ∃ rule, rule ∈ stored ∧ ruled_device owner rule = Some d ∧
    u_Labels rule !! ManagedByLabel = Some ManagedBy ∧
    u_Labels rule !! MachineLabel = Some (labelValue (o_Name owner)) ∧
    u_Labels rule !! MachineNamespaceLabel = Some (labelValue (o_Namespace owner)).
Proof.
  intros Hk Hlist. unfold Of, bind_ok, call, mbind, state_bind, mret, state_ret. simpl in *.
  destruct (kind s) as [[version|e] s1]; [|done]. simpl in *.
  match goal with |- context [ListRules version ?ls _] => set (labels := ls); specialize (Hlist version labels) end.
  destruct (ListRules version labels (world s1)) as [items w]. simpl in *. subst items.
  eexists. split; [done|]. intros d. rewrite elem_of_sort_by, list_elem_of_omap.
  setoid_rewrite list_elem_of_filter.
  assert (Hsub : ∀ rule, labels ⊆ u_Labels rule ↔ u_Labels rule !! ManagedByLabel = Some ManagedBy ∧
    u_Labels rule !! MachineLabel = Some (labelValue (o_Name owner)) ∧
    u_Labels rule !! MachineNamespaceLabel = Some (labelValue (o_Namespace owner))).
  { intros rule. subst labels. simpl. rewrite !insert_subseteq_iff by done.
    split; [naive_solver|]. intros (? & ? & ?). split_and!; try done. apply map_empty_subseteq. }
  setoid_rewrite Hsub. naive_solver.
Qed.

(** The labels of a rule are those its lookup asks for, and fit a label's limit. *)
Lemma rule_labels `{KubeLib} d owner now :
  let labels := u_Labels (ruleFor d owner now) in
  labels !! ManagedByLabel = Some ManagedBy ∧ labels !! MachineLabel = Some (labelValue (o_Name owner)) ∧
  labels !! MachineNamespaceLabel = Some (labelValue (o_Namespace owner)) ∧
  (LabelValueMaxLength = 63 → map_Forall (fun _ v => len v ≤ 63) labels).
Proof.
  cbv zeta. split_and!; [reflexivity..|]. intros Hmax. cbn [ruleFor u_Labels].
  assert (Hfit : ∀ name, len (labelValue name) ≤ 63) by (intros name; rewrite <- Hmax; apply label_value_length; lia).
  repeat (apply map_Forall_insert_2; [first [apply Hfit|by apply (bool_decide_unpack _); vm_compute]|]).
  apply map_Forall_empty.
Qed.

(** C35: a rule is recognised for what it was made for. The rule made for a device is
    accepted by the check of that device, and its labels are ones the API server takes,
    however long the names they stand for. While the server stores it, the devices looked
    up for the Machine it was made for include its device, whatever the Machine's name;
    and it gives no device to another Machine, not even to one whose labels are the
    same. *)
Theorem rule_roundtrip `{KubeLib} {HL : KubeLaws} {W R : Type} `{API W} `{InfraAPI W}
    (d : Device) (owner owner' : Owner) (now : Z) (stored : list Unstructured) (s : Sys W R)
    (Hd : d_Driver d ≠ "" ∧ d_Pool d ≠ "" ∧ d_Name d ≠ "")
    (Hns : has_byte "/"%char (o_Namespace owner) = false ∧ has_byte "/"%char (o_Namespace owner') = false)
    (Hmax : LabelValueMaxLength = 63)
    (Hserved : is_ok (kind s).1 = true)
    (Hlist : ∀ version ls, (ListRules version ls (world (kind s).2)).1 =
       Ok (filter (fun rule => ls ⊆ u_Labels rule) stored)) :
  let rule := ruleFor d owner now in
  conflict d rule = false ∧
  map_Forall (fun _ value => len value ≤ 63) (u_Labels rule) ∧
  (rule ∈ stored → ∃ ds, (Of owner s).1 = Ok ds ∧ d ∈ ds) ∧
  (¬ (o_Namespace owner' = o_Namespace owner ∧ o_Name owner' = o_Name owner) →
     ∃ ds, (Of owner' s).1 = Ok ds ∧ ∀ d', d' ∈ ds →
       ∃ rule', rule' ∈ stored ∧ rule' ≠ rule ∧ rule_selector rule' = d' ∧
         get (u_Annotations rule') MachineAnnotation = o_Namespace owner' +:+ "/" +:+ o_Name owner').
Proof.
  intros rule. destruct Hd as (Hd & Hp & Hn).
  assert (Hann : get (u_Annotations rule) MachineAnnotation = o_Namespace owner +:+ "/" +:+ o_Name owner).
  { subst rule. unfold get, ruleFor. cbn [u_Annotations]. by rewrite list_to_map_cons, lookup_insert_eq. }
  destruct (rule_labels d owner now) as (Hl1 & Hl2 & Hl3 & Hfit).
  split_and!; [|by apply Hfit| |].
  - unfold conflict. subst rule. rewrite rule_selector_ruleFor, blocks_ruleFor. cbn [negb].
    by rewrite bool_decide_eq_false_2 by tauto.
  - intros Hin. destruct (of_stored stored owner s Hserved Hlist) as (ds & Hds & Hiff). exists ds.
    split; [done|]. apply Hiff. exists rule. split_and!; [done| |done..].
    unfold ruled_device. rewrite decide_False by tauto. cbv zeta. subst rule.
    rewrite rule_selector_ruleFor, blocks_ruleFor. cbn [ruleFor u_Name negb].
    by rewrite !bool_decide_eq_false_2 by tauto.
  - intros Hother. destruct (of_stored stored owner' s Hserved Hlist) as (ds & Hds & Hiff). exists ds.
    split; [done|]. intros d' (rule' & Hin & Hr & _)%Hiff. exists rule'.
    unfold ruled_device in Hr. cbv zeta in Hr. case_decide as Ha; [done|].
    split_and!; [done| |by destruct (_ || _); [|injection Hr]|done].
    intros ->. rewrite Hann in Ha. change "/" with (byte_str "/"%char) in Ha.
    pose proof (Cut_app _ (o_Name owner) _ (proj1 Hns)) as E1.
    pose proof (Cut_app _ (o_Name owner') _ (proj2 Hns)) as E2.
    rewrite Ha, E2 in E1. injection E1 as H1' H2'. by apply Hother.
Qed.

(** The check passes a rule exactly when it selects the very device and carries a blocking
    effect. *)
Lemma conflict_iff `{KubeLib} (rule : Unstructured) (d : Device) :
  conflict d rule = false ↔ rule_selector rule = d ∧ rule_effect rule ∈ blockingEffects.
Proof.
  unfold conflict, blocks. rewrite orb_false_iff, negb_false_iff, bool_decide_eq_true, bool_decide_eq_false.
  split; [|tauto]. intros [Hs Hb]. split; [by apply dec_stable|done].
Qed.

(** The labels a Machine's rules are looked up by. *)
Definition rule_lookup `{KubeLib} (owner : Owner) : gmap string string :=
  list_to_map [(ManagedByLabel, ManagedBy); (MachineLabel, labelValue (o_Name owner));
               (MachineNamespaceLabel, labelValue (o_Namespace owner))].

(** The rule was made for this Machine, by its whole name, and keeps the device it selects,
    and is named after, from being allocated. *)
Definition rule_of `{KubeLib} (owner : Owner) (rule : Unstructured) (d : Device) : Prop :=
  get (u_Annotations rule) MachineAnnotation = o_Namespace owner +:+ "/" +:+ o_Name owner ∧
  rule_selector rule = d ∧ rule_effect rule ∈ blockingEffects ∧ u_Name rule = RuleName d ∧
  d_Driver d ≠ "" ∧ d_Pool d ≠ "" ∧ d_Name d ≠ "".

Lemma ruled_device_iff `{KubeLib} owner rule d : ruled_device owner rule = Some d ↔ rule_of owner rule d.
Proof.
  unfold ruled_device, rule_of, blocks. cbv zeta. case_decide as Ha; [naive_solver|].
  destruct (_ || _) eqn:E.
  - rewrite !orb_true_iff, negb_true_iff, !bool_decide_eq_true, bool_decide_eq_false in E. naive_solver.
  - rewrite !orb_false_iff, negb_false_iff, !bool_decide_eq_false, bool_decide_eq_true in E.
    destruct E as ((((?&?)&?)&?)&Hn). apply dec_stable in Hn. naive_solver.
Qed.

(** ** What is sent *)

(** What only reads sends nothing, so nothing that is not allowed. *)
Section reads.
Context `{KubeLib} {W R : Type} `{API W} `{InfraAPI W} (P : Effect → Prop).

Local Abbreviation any := (fun _ => True).

Lemma bind_ok_spec {A B} (c : state (Sys W R) (result error A)) (k : A → state (Sys W R) (result error B))
    (Q : A → Prop) :
  spec P c (fun res => ∀ a, res = Ok a → Q a) → (∀ a, Q a → spec P (k a) any) → spec P (bind_ok c k) any.
Proof.
  intros Hc Hk. eapply spec_bind; [exact Hc|]. intros [a|e] Ha; [by apply Hk, Ha|by apply spec_ret].
Qed.

Lemma served_version_spec versions :
  spec (W:=W) (R:=R) P (served_version versions) (fun res => ∀ v, res = Ok v → v ∈ versions).
Proof.
  induction versions as [|version rest IH]; [by apply spec_ret|]. cbn [served_version].
  eapply spec_bind; [apply spec_call|]. intros [| |e] _.
  - apply spec_ret. intros v [= <-]. set_solver.
  - eapply spec_weaken; [exact IH|done|]. intros res Hres v Hv. specialize (Hres v Hv). set_solver.
  - by apply spec_ret.
Qed.

Lemma check_spec version d : spec (W:=W) (R:=R) P (check version d) any.
Proof. eapply spec_bind; [apply spec_call|]. intros res _. by apply spec_ret. Qed.

Lemma Exists_spec d : spec (W:=W) (R:=R) P (Exists d) any.
Proof.
  unfold Exists. eapply bind_ok_spec; [apply served_version_spec|]. intros version _.
  eapply spec_bind; [apply check_spec|]. intros c _. by apply spec_ret.
Qed.

Lemma Of_spec owner : spec (W:=W) (R:=R) P (Of owner) any.
Proof.
  unfold Of. eapply bind_ok_spec; [apply served_version_spec|]. intros version _.
  eapply spec_bind; [apply spec_call|]. intros c _. by apply spec_ret.
Qed.

Lemma confirm_all_spec ds : spec (W:=W) (R:=R) P (confirm_all ds) any.
Proof.
  induction ds as [|d ds IH]; [by apply spec_ret|]. cbn [confirm_all].
  eapply spec_bind; [apply Exists_spec|]. intros [[]|e] _; [apply IH|by apply spec_ret..].
Qed.
End reads.

(** A locator sends nothing, so nothing that is not allowed. *)
Lemma locate_spec `{API W} `{InfraAPI W} `{!Locator W R} `{!LocatorLaws W R} (P : Effect → Prop) cluster m : spec (W:=W) (R:=R) P (locate cluster m) (fun _ => True).
Proof. eapply spec_weaken; [apply locate_sends_nothing|by intros e|done]. Qed.

Section effects.
Context `{KubeLib} {W R : Type} `{API W} `{InfraAPI W} `{!Locator W R} `{!LocatorLaws W R}.
Context (r : MachineQuarantineReconciler) (P : Effect → Prop).
Context (HE : q_DryRun r = false → ∀ o t reason action note, P (RecordEvent o t reason action note)).
Context (HS : q_DryRun r = false → ∀ m status, P (PatchMachine m (set_status m status) true)).
Context (HC : q_DryRun r = false → ∀ version d owner now, version ∈ ruleVersions → d_Driver d ∈ q_Drivers r →
  P (CreateRule version (ruleFor d owner now))).
Context (HD : q_DryRun r = false → ∀ m, P (DeleteMachine m (m_UID m) (m_ResourceVersion m))).

Local Abbreviation any := (fun _ => True).

Lemma setStatus_spec m status :
  (q_DryRun r = false) → spec (W:=W) (R:=R) P (setStatus m status) any.
Proof.
  intros Hd. unfold setStatus. cbv zeta. destruct (_ || _); [by apply spec_ret|].
  eapply spec_bind; [by apply patch_machine_spec, HS|]. intros p _. by apply spec_ret.
Qed.

Lemma reject_spec m request reason message :
  spec (W:=W) (R:=R) P (reject r m request reason message) any.
Proof.
  unfold reject. destruct (q_DryRun r) eqn:Hd in |- *; [by apply spec_ret|].
  eapply spec_bind; [by apply setStatus_spec|]. intros [m' [u|e]] _; [|by apply spec_ret].
  eapply spec_bind; [by apply spec_emit, HE|]. intros _ _. by apply spec_ret.
Qed.

Lemma fail_spec m request e : spec (W:=W) (R:=R) P (fail r m request e) any.
Proof.
  unfold fail. destruct (IsConflict e); [by apply spec_ret|].
  destruct (as_rejection e) as [[reason message]|]; [apply reject_spec|].
  destruct (IsForbidden e); [apply reject_spec|by apply spec_ret].
Qed.

(** Devices are only returned outside a dry run. *)
Definition devices_are_live (res : Machine * result error (option (list Device))) : Prop :=
  ∀ ds, res.2 = Ok (Some ds) → q_DryRun r = false.

Lemma fail_devices_spec m request e :
  spec (W:=W) (R:=R) P (fail_devices r m request e) devices_are_live.
Proof.
  eapply spec_bind; [apply fail_spec|]. intros [m' [u|e']] _; by apply spec_ret.
Qed.

Lemma Ensure_spec d owner :
  q_DryRun r = false → d_Driver d ∈ q_Drivers r → spec (W:=W) (R:=R) P (Ensure d owner) any.
Proof.
  intros Hd Hdrv. unfold Ensure. eapply bind_ok_spec; [apply served_version_spec|]. intros version Hv.
  eapply spec_bind; [apply spec_call|]. intros now _. cbv zeta.
  eapply spec_bind; [by apply spec_emit, HC|]. intros _ _.
  eapply spec_bind; [apply spec_call|]. intros [u|e] _; [by apply spec_ret|].
  destruct (IsAlreadyExists e); [|by apply spec_ret].
  eapply spec_bind; [apply check_spec|]. intros c _. by apply spec_ret.
Qed.

Lemma Select_drivers all drivers requested sel d :
  Select all drivers requested = Ok sel → d ∈ sel → d_Driver d ∈ drivers.
Proof.
  intros Hs Hd. pose proof (Select_spec all drivers requested) as Hsel. rewrite Hs in Hsel.
  cbv beta zeta in Hsel. destruct Hsel as (_ & _ & _ & Hc & _). by apply Hc.
Qed.

Lemma ensure_all_spec ds owner :
  q_DryRun r = false → (∀ d, d ∈ ds → d_Driver d ∈ q_Drivers r) →
  spec (W:=W) (R:=R) P (ensure_all ds owner) any.
Proof.
  intros Hd. induction ds as [|d ds IH]; intros Hdrv; [by apply spec_ret|]. cbn [ensure_all].
  eapply spec_bind; [apply Ensure_spec; [done|apply Hdrv; set_solver]|].
  intros [b|e] _; [apply IH; set_solver|by apply spec_ret].
Qed.

Lemma advance_spec m status next : q_DryRun r = false → spec (W:=W) (R:=R) P (advance m status next) any.
Proof. intros Hd. unfold advance. case_decide; [by apply spec_ret|by apply setStatus_spec]. Qed.

Lemma quarantine_devices_spec cluster m request names status :
  spec (W:=W) (R:=R) P (quarantine_devices r cluster m request names status) devices_are_live.
Proof.
  unfold quarantine_devices. eapply spec_bind; [apply locate_spec|]. intros held _.
  destruct (held ≫= _) as [devices|e] eqn:Hsel; [|apply fail_devices_spec].
  assert (Hdrv : ∀ d, d ∈ devices → d_Driver d ∈ q_Drivers r).
  { destruct held as [held|e]; simpl in Hsel; [|done]. intros d. by eapply Select_drivers. }
  destruct (q_DryRun r) eqn:Hd in |- *; [by apply spec_ret|].
  eapply spec_bind; [by apply advance_spec|]. intros [m1 [u1|e]] _; [|by apply spec_ret].
  eapply spec_bind; [by apply ensure_all_spec|]. intros [u2|e] _; [|apply fail_devices_spec].
  eapply spec_bind; [apply confirm_all_spec|].
  intros [u3|[e|e]] _; [|apply fail_devices_spec|by apply spec_ret].
  eapply spec_bind; [by apply advance_spec|]. intros [m2 [u4|e]] _; [|by apply spec_ret].
  eapply spec_bind; [by apply spec_emit, HE|]. intros _ _. apply spec_ret. by intros ds _.
Qed.

Lemma delete_machine_spec m request devices :
  q_DryRun r = false → spec (W:=W) (R:=R) P (delete_machine r m request devices) any.
Proof.
  intros Hd. unfold delete_machine. eapply spec_bind; [by apply spec_emit, HD|]. intros _ _.
  eapply spec_bind; [apply spec_call|]. intros [u|e] _.
  - eapply spec_bind; [by apply spec_emit, HE|]. intros _ _. by apply spec_ret.
  - destruct (IsNotFound e); [by apply spec_ret|].
    eapply spec_bind; [apply fail_spec|]. intros f _. by apply spec_ret.
Qed.

Lemma then_result_spec {A} (c : state (Sys W R) (A * result error unit)) :
  spec P c any → spec P (f ← c; mret f.2) any.
Proof. intros Hc. eapply spec_bind; [exact Hc|]. intros f _. by apply spec_ret. Qed.

Lemma carry_out_spec cluster m request status :
  spec (W:=W) (R:=R) P (carry_out r cluster m request status) any.
Proof.
  unfold carry_out. destruct (guardReplace cluster m) as [[reason message]|].
  { apply then_result_spec, reject_spec. }
  destruct (ParseRequest request) as [names|e]; [|apply then_result_spec, fail_spec].
  eapply (spec_bind _ _ _ any).
  { unfold made_before. case_decide; [|by apply spec_ret]. unfold bind_ok.
    eapply spec_bind; [apply Of_spec|]. intros [made|e] _; by apply spec_ret. }
  intros [[devices|]|e] _; [..|apply then_result_spec, fail_spec].
  - destruct (q_DryRun r) eqn:Hd in |- *; [by apply spec_ret|]. by apply delete_machine_spec.
  - eapply spec_bind; [apply quarantine_devices_spec|]. intros [m' [[ds|]|e]] Hlive; [|by apply spec_ret..].
    apply delete_machine_spec. by apply (Hlive ds).
Qed.

Lemma ReconcileQuarantine_spec key : spec (W:=W) (R:=R) P (ReconcileQuarantine r key) any.
Proof.
  unfold ReconcileQuarantine. eapply spec_bind; [apply spec_call|]. intros [m|e] _; [|by apply spec_ret].
  eapply (spec_bind _ _ _ any); [|intros res _; by apply spec_ret].
  unfold replace. cbv zeta. destruct (m_Deleting m); [by apply spec_ret|].
  destruct (m_Annotations m !! ReplaceAnnotation) as [request|].
  - destruct (IsRejected _); [by apply spec_ret|]. eapply spec_bind; [apply spec_call|].
    intros [cluster|e] _; [|destruct (IsNotFound e); by apply spec_ret].
    destruct (match q_ClusterSelector r with Some _ => _ | None => _ end); [by apply spec_ret|].
    apply carry_out_spec.
  - destruct (bool_decide _ || _) eqn:E; [by apply spec_ret|]. bool_to_prop.
    eapply spec_bind; [by apply setStatus_spec|]. intros s _. by apply spec_ret.
Qed.
End effects.

(** What a reconcile of a replace request may send, whatever the API servers
    answer; in a dry run nothing. A patch changes the request's status annotation
    of a Machine and nothing else, under optimistic locking; a rule is made only
    for a device of the configured drivers, in a version this operator knows; and
    a deletion carries the UID and the resource version of the Machine as it was
    last read or patched, so that a Machine changed meanwhile is not deleted. *)
Lemma quarantine_is_safe `{KubeLib} {W R : Type} `{API W} `{InfraAPI W} `{!Locator W R} {HL : LocatorLaws W R} (r : MachineQuarantineReconciler)
    (key : ObjectKey) :
  spec (W:=W) (R:=R) (fun e => q_DryRun r = false ∧ match e with
      | PatchMachine base updated lock => lock = true ∧
          updated = set_annotations base (m_Annotations updated) ∧
          ∀ k, k ≠ ReplaceStatusAnnotation → m_Annotations updated !! k = m_Annotations base !! k
      | DeleteMachine m uid rv => uid = m_UID m ∧ rv = m_ResourceVersion m
      | CreateRule version rule => version ∈ ruleVersions ∧
          ∃ d owner now, rule = ruleFor d owner now ∧ d_Driver d ∈ q_Drivers r
      | RecordEvent _ _ _ _ _ => True
      | PatchRequestStatus _ _ _ => False
      end) (ReconcileQuarantine r key) (fun _ => True).
Proof.
  apply ReconcileQuarantine_spec.
  - done.
  - intros Hd m status. split_and!; [done|done|done|]. intros k Hk. simpl.
    case_decide; by rewrite ?lookup_delete_ne, ?lookup_insert_ne by done.
  - intros Hd version d owner now Hv Hdrv. split_and!; [done|done|]. by exists d, owner, now.
  - done.
Qed.

(** What the locator finds of a Machine, as long as its calls only read. *)
Lemma devices_found `{KubeLib} {W R : Type} `{API W} `{InfraAPI W} (Hread : only_reads W) (cluster : Cluster)
    (m : Machine) (s : Sys W R) (ds : list Device) :
  (Devices cluster m s).1 = Ok ds →
  Sorted compare ds ∧ NoDup ds ∧
  ∃ ns vmi, running_vm (world s) cluster m ns vmi ∧ ∀ d, d ∈ ds ↔ holds_device (world s) ns vmi d.
Proof.
  unfold Devices. cbv zeta. destruct (_ || _) eqn:Hk; [done|].
  apply orb_false_iff in Hk as [Hg Hkind]. apply bool_decide_eq_false_1, dec_stable in Hg, Hkind.
  intros (kvm & Hkvm & Hds)%bind_reads; [|apply (get_object_ok Hread)].
  pose proof (proj2 (get_object_ok Hread _ _ _ s) _ Hkvm) as Hget. destruct kvm as [kvm|]; [|done].
  destruct (GetProviderObject InfrastructureGroup kubevirtMachine _ (world s)).1 as [kvm'|e] eqn:Ek;
    [|by destruct Hget]. injection Hget as <-.
  apply bind_reads in Hds as (external & Hext & Hds); [|apply (externalInfra_ok Hread)].
  case_decide as He; [done|]. subst external.
  destruct (proj2 (externalInfra_ok Hread cluster kvm s) Hext) as [Hsecret Hcluster].
  destruct (NestedString (u_Object kvm) _) as [template|e] eqn:Et; [|done].
  set (ns := if decide (template = "") then u_Namespace kvm else template) in *.
  apply bind_reads in Hds as (o & Ho & Hds); [|apply (get_object_ok Hread)].
  pose proof (proj2 (get_object_ok Hread _ _ _ s) _ Ho) as Hvmi.
  destruct (devices_of_vmi_ok Hread _ _ _ _ _ Hds) as (vmi & -> & Hdel & Hrun & Hs & Hnd & Hin).
  destruct (GetProviderObject vmi_group vmi_kind _ (world s)).1 as [vmi'|e] eqn:Ev; [|by destruct Hvmi].
  injection Hvmi as <-. split_and!; [done|done|]. exists ns, vmi. split; [|done].
  constructor; [done| |exact Hcluster|done|done].
  exists kvm, template. done.
Qed.

Lemma Select_covers `{KubeLib} all drivers names sel : Select all drivers names = Ok sel → Covers sel names = true.
Proof.
  intros Hs. pose proof (Select_spec all drivers names) as Hsel. rewrite Hs in Hsel. cbv beta zeta in Hsel.
  destruct Hsel as (_ & _ & Hne & _ & Hnames). unfold Covers. destruct sel as [|d0 sel]; [done|].
  apply forallb_forall. intros name Hin%list_elem_of_In. apply existsb_exists.
  destruct names as [|n0 names]; [set_solver|]. destruct Hnames as [_ Hnames].
  destruct (Hnames name Hin) as (d & Hd & Hname & _). exists d.
  split; [by apply list_elem_of_In|by apply bool_decide_eq_true_2].
Qed.

(** ** Patches under optimistic locking *)

Definition set_version (m : Machine) (version : string) : Machine :=
  MkMachine (m_Namespace m) (m_Name m) (m_UID m) version (m_Deleting m) (m_Labels m) (m_Annotations m)
    (m_OwnerReferences m) (m_ClusterName m) (m_InfrastructureRef m) (m_NodeRef m) (m_Conditions m).

(** A patch under optimistic locking is accepted only while the Machine is at the version
    it was computed from, so it is answered with the Machine sent, at its new version. *)
Class VersionLaws (W : Type) `{API W} : Prop := {
  locked_patch base updated w m :
    (SendPatchMachine base updated true w).1 = Ok m → m = set_version updated (m_ResourceVersion m)
}.

(** The same object, whatever its version and its contents. *)
Definition same_machine (m m' : Machine) : Prop := machine_key m' = machine_key m ∧ m_UID m' = m_UID m.

Lemma same_machine_trans m1 m2 m3 : same_machine m1 m2 → same_machine m2 m3 → same_machine m1 m3.
Proof. unfold same_machine. intuition congruence. Qed.

(** ** Devices are quarantined before the Machine is deleted *)

(** The device's rule is in place. *)
Definition ruled `{KubeLib} {W : Type} `{InfraAPI W} (d : Device) (w : W) : Prop :=
  ∃ version rule, (GetRule version (RuleName d) w).1 = Ok rule ∧ conflict d rule = false.

Definition all_ruled `{KubeLib} {W : Type} `{InfraAPI W} (ds : list Device) (w : W) : Prop :=
  ∀ d, d ∈ ds → ruled d w.

(** Nobody takes a rule away while a request is carried out: a call leaves the
    rules that are in place, and a listed rule is there to be read. *)
Record rules_stay `{KubeLib} (W : Type) `{API W} `{InfraAPI W} : Prop := {
  calls_leave_rules d : stable (W:=W) (ruled d) (fun A c => api_call c ∨ infra_call c);
  listed_rules_exist v ls w items rule :
    (ListRules v ls w).1 = Ok items → rule ∈ items → (GetRule v (u_Name rule) w).1 = Ok rule
}.

Section deletion.
Context `{KubeLib} {W R : Type} `{API W} `{InfraAPI W} `{!Locator W R} `{!LocatorLaws W R} (Hstay : rules_stay W).
Context (r : MachineQuarantineReconciler).

Local Abbreviation M := (state (Sys W R)).

Definition is_delete (e : Effect) : Prop := match e with DeleteMachine _ _ _ => True | _ => False end.
Definition deletes_nothing (l : list Effect) : Prop := Forall (fun e => ¬ is_delete e) l.

(** [secures ds c Q]: [c] deletes nothing, leaves the rules of [ds] in place, and
    the rules of the devices [Q] names of its result are in place too. *)
Definition secures {A} (ds : list Device) (c : M A) (Q : A → list Device) : Prop :=
  hoare (all_ruled ds) c (fun a l w => deletes_nothing l ∧ all_ruled (ds ++ Q a) w).

Lemma all_ruled_app ds ds' w : all_ruled (ds ++ ds') w ↔ all_ruled ds w ∧ all_ruled ds' w.
Proof. unfold all_ruled. setoid_rewrite elem_of_app. naive_solver. Qed.

Lemma secures_ret {A} ds (a : A) Q : (∀ d, d ∈ Q a → d ∈ ds) → secures ds (mret a) Q.
Proof.
  intros HQ. apply hoare_ret. intros w Hw. split; [constructor|]. apply all_ruled_app. split; [done|].
  intros d Hd. by apply Hw, HQ.
Qed.

Lemma secures_bind {A B} ds (c : M A) (k : A → M B) Q Q' :
  secures ds c Q → (∀ a, secures (ds ++ Q a) (k a) Q') → secures ds (c ≫= k) Q'.
Proof.
  intros Hc Hk. eapply hoare_bind; [exact Hc|]. intros a l s [Hl Hw].
  destruct (Hk a s Hw) as (l' & Ht & Hl' & Hw'). exists l'. split; [done|].
  split; [by apply Forall_app|]. rewrite !all_ruled_app in *. tauto.
Qed.

Lemma secures_weaken {A} ds (c : M A) Q Q' :
  secures ds c Q → (∀ a d, d ∈ Q' a → d ∈ Q a) → secures ds c Q'.
Proof.
  intros Hc HQ. eapply hoare_weaken; [exact Hc|done|]. intros a l w [Hl Hw]. split; [done|].
  rewrite !all_ruled_app in *. split; [tauto|]. intros d Hd. apply Hw. by apply HQ.
Qed.

Local Abbreviation none := (fun _ => []).

Lemma secures_call {A} ds (c : state W A) :
  (∀ d w, ruled d w → ruled d (c w).2) → secures ds (call c) none.
Proof.
  intros Hc. apply hoare_call. intros w Hw. split; [constructor|]. rewrite app_nil_r.
  intros d Hd. by apply Hc, Hw.
Qed.

Lemma secures_api {A} ds (c : state W A) : api_call c → secures ds (call c) none.
Proof. intros Hc. apply secures_call. intros d w. apply (calls_leave_rules _ Hstay). by left. Qed.

Lemma secures_infra {A} ds (c : state W A) : infra_call c → secures ds (call c) none.
Proof. intros Hc. apply secures_call. intros d w. apply (calls_leave_rules _ Hstay). by right. Qed.

Lemma secures_emit ds e : ¬ is_delete e → secures ds (emit e) none.
Proof.
  intros He. apply hoare_emit. intros w Hw. split; [by repeat constructor|]. by rewrite app_nil_r.
Qed.

(** Where no device is named of the result, [ds] is all there is to keep. *)
Lemma secures_then {A B} ds (c : M A) (k : A → M B) Q :
  secures ds c none → (∀ a, secures ds (k a) Q) → secures ds (c ≫= k) Q.
Proof. intros Hc Hk. eapply secures_bind; [exact Hc|]. intros a. rewrite app_nil_r. apply Hk. Qed.

Lemma secures_nothing {A} ds (a : A) : secures ds (mret a) none.
Proof. apply secures_ret. set_solver. Qed.

Lemma served_version_secures ds versions : secures ds (served_version versions) none.
Proof.
  induction versions as [|version rest IH]; [apply secures_nothing|]. cbn [served_version].
  apply secures_then; [apply secures_infra; constructor|].
  intros [| |e]; [apply secures_nothing|exact IH|apply secures_nothing].
Qed.

(** The device a check passed. *)
Definition checked {A} (d : Device) (res : result error A) : list Device :=
  match res with Ok _ => [d] | Err _ => [] end.

Lemma check_secures ds version d : secures ds (check version d) (checked d).
Proof.
  intros s Hs. exists []. unfold check, mbind, state_bind, call.
  pose proof (λ d' Hd', calls_leave_rules _ Hstay d' _ (GetRule version (RuleName d)) (world s) (or_intror (calls_GetRule _ _)) Hd') as Hkeep.
  destruct (GetRule version (RuleName d) (world s)) as [res w] eqn:E. simpl in *.
  rewrite app_nil_r. split; [done|]. split; [constructor|]. apply all_ruled_app.
  split; [intros d' Hd'; by apply Hkeep, Hs|]. destruct res as [rule|e].
  - destruct (conflict d rule) eqn:Hc; [intros d' Hd'; set_solver|].
    intros d' ->%list_elem_of_singleton. apply Hkeep. exists version, rule. by rewrite E.
  - destruct (IsNotFound e); intros d' Hd'; set_solver.
Qed.

Lemma Ensure_secures ds d owner : secures ds (Ensure d owner) none.
Proof.
  unfold Ensure, bind_ok. apply secures_then; [apply served_version_secures|].
  intros [version|e]; [|apply secures_nothing]. apply secures_then; [apply secures_api; constructor|].
  intros now. cbv zeta. apply secures_then; [apply secures_emit; intros []|]. intros _.
  apply secures_then; [apply secures_infra; constructor|].
  intros [u|e]; [apply secures_nothing|]. destruct (IsAlreadyExists e); [|apply secures_nothing].
  apply secures_then; [|intros c; apply secures_nothing].
  eapply secures_weaken; [apply check_secures|set_solver].
Qed.

Lemma ensure_all_secures ds devices owner : secures ds (ensure_all devices owner) none.
Proof.
  induction devices as [|d devices IH]; [apply secures_nothing|]. cbn [ensure_all]. unfold bind_ok.
  apply secures_then; [apply Ensure_secures|]. intros [b|e]; [exact IH|apply secures_nothing].
Qed.

(** [Exists] answers true only for a device whose rule is in place. *)
Definition confirmed (d : Device) (res : result error bool) : list Device :=
  match res with Ok true => [d] | _ => [] end.

Lemma Exists_secures ds d : secures ds (Exists d) (confirmed d).
Proof.
  unfold Exists, bind_ok. apply secures_then; [apply served_version_secures|].
  intros [version|e]; [|apply secures_ret; simpl; set_solver].
  eapply secures_bind; [apply check_secures|]. intros [u|e]; apply secures_ret; simpl.
  - intros d'. set_solver.
  - destruct (IsNotFound e); simpl; set_solver.
Qed.

Lemma confirm_all_secures ds devices :
  secures ds (confirm_all devices) (fun res => match res with Ok _ => devices | Err _ => [] end).
Proof.
  revert ds. induction devices as [|d devices IH]; intros ds; [apply secures_ret; set_solver|].
  cbn [confirm_all]. eapply secures_bind; [apply Exists_secures|].
  intros [[]|e]; simpl; [|apply secures_ret; set_solver..].
  intros s Hs. destruct (IH (ds ++ [d]) s Hs) as (l & Ht & Hl & Hw). exists l. split; [done|]. split; [done|].
  rewrite !all_ruled_app in *. destruct Hw as [[Hds Hd] Hrest]. split; [by split|].
  destruct (confirm_all devices s).1; [|done]. intros d' [->|Hd']%elem_of_cons; [apply Hd; set_solver|by apply Hrest].
Qed.

(** A step that issues no deletion secures nothing. *)
Lemma secures_spec {A} (c : M A) Q :
  spec (fun e => ¬ is_delete e) c Q → secures [] c none.
Proof.
  intros Hc s _. destruct (Hc s) as [_ (l & Ht & Hl)]. exists l. split; [done|]. split; [done|].
  intros d Hd. set_solver.
Qed.

Lemma patch_machine_secures ds m updated lock : secures ds (patch_machine m updated lock) none.
Proof.
  unfold patch_machine. apply secures_then; [apply secures_emit; intros []|]. intros _.
  apply secures_then; [apply secures_api; constructor|]. intros res. apply secures_nothing.
Qed.

Lemma setStatus_secures ds m status : secures ds (setStatus m status) none.
Proof.
  unfold setStatus. cbv zeta. destruct (_ || _); [apply secures_nothing|].
  apply secures_then; [apply patch_machine_secures|]. intros p. apply secures_nothing.
Qed.

Lemma advance_secures ds m status next : secures ds (advance m status next) none.
Proof. unfold advance. case_decide; [apply secures_nothing|apply setStatus_secures]. Qed.

Lemma reject_secures ds m request reason message : secures ds (reject r m request reason message) none.
Proof.
  unfold reject. destruct (q_DryRun r); [apply secures_nothing|].
  apply secures_then; [apply setStatus_secures|]. intros [m' [u|e]]; [|apply secures_nothing].
  apply secures_then; [apply secures_emit; intros []|]. intros _. apply secures_nothing.
Qed.

Lemma fail_secures ds m request e : secures ds (fail r m request e) none.
Proof.
  unfold fail. destruct (IsConflict e); [apply secures_nothing|].
  destruct (as_rejection e) as [[reason message]|]; [apply reject_secures|].
  destruct (IsForbidden e); [apply reject_secures|apply secures_nothing].
Qed.

(** The devices a step returns. *)
Definition returned (res : Machine * result error (option (list Device))) : list Device :=
  match res.2 with Ok (Some ds) => ds | _ => [] end.

Lemma fail_devices_secures ds m request e : secures ds (fail_devices r m request e) returned.
Proof.
  unfold fail_devices. apply secures_then; [apply fail_secures|].
  intros [m' [u|e']]; apply secures_ret; simpl; set_solver.
Qed.

Lemma quarantine_devices_secures cluster m request names status :
  secures [] (quarantine_devices r cluster m request names status) returned.
Proof.
  unfold quarantine_devices. apply secures_then; [eapply secures_spec, locate_spec|]. intros held.
  destruct (held ≫= _) as [devices|e]; [|apply fail_devices_secures].
  destruct (q_DryRun r); [apply secures_ret; simpl; set_solver|].
  apply secures_then; [apply advance_secures|].
  intros [m1 [u1|e]]; [|apply secures_ret; simpl; set_solver].
  apply secures_then; [apply ensure_all_secures|]. intros [u2|e]; [|apply fail_devices_secures].
  eapply secures_bind; [apply confirm_all_secures|]. simpl.
  intros [u3|[e|e]]; [|apply fail_devices_secures|apply secures_ret; simpl; set_solver].
  apply secures_then; [apply advance_secures|].
  intros [m2 [u4|e]]; [|apply secures_ret; simpl; set_solver].
  apply secures_then; [apply secures_emit; intros []|]. intros _. apply secures_ret. done.
Qed.

Lemma Of_secures owner :
  secures [] (Of owner) (fun res => match res with Ok ds => ds | Err _ => [] end).
Proof.
  unfold Of, bind_ok. apply secures_then; [apply served_version_secures|].
  intros [version|e]; [|apply secures_ret; set_solver]. intros s _. exists [].
  unfold mbind, state_bind, call.
  set (ls := list_to_map _).
  pose proof (listed_rules_exist _ Hstay version ls (world s)) as Hlist.
  pose proof (λ d Hd, calls_leave_rules _ Hstay d _ (ListRules version ls) (world s) (or_intror (calls_ListRules _ _)) Hd) as Hkeep.
  destruct (ListRules version ls (world s)) as [res w]. simpl in *. rewrite app_nil_r.
  split; [done|]. split; [constructor|]. destruct res as [items|e]; [|intros d Hd; set_solver].
  intros d Hd. apply elem_of_sort_by, list_elem_of_omap in Hd as (rule & Hin & Hd).
  apply ruled_device_iff in Hd as (_ & Hsel & Heff & Hname & _).
  apply Hkeep. exists version, rule. rewrite <- Hname. split; [by apply (Hlist items)|by apply conflict_iff].
Qed.

Lemma made_before_secures cluster m names status :
  secures [] (made_before cluster m names status)
    (fun res => match res with Ok (Some ds) => ds | _ => [] end).
Proof.
  unfold made_before. case_decide; [|apply secures_ret; set_solver]. unfold bind_ok.
  eapply secures_bind; [apply Of_secures|]. intros [made|e]; [|apply secures_ret; set_solver].
  apply secures_ret. destruct (Covers made names); simpl; set_solver.
Qed.

(** ** The Machine and the devices a deletion is for *)

Lemma setStatus_same `{!VersionLaws W} m status :
  yields (W:=W) (R:=R) (setStatus m status) (fun res => same_machine m res.1).
Proof.
  unfold setStatus. cbv zeta. destruct (_ || _); [by apply yields_ret|]. intros s.
  unfold patch_machine, mbind, state_bind, emit, call. simpl.
  pose proof (locked_patch m (set_status m status) (world s)) as Hv.
  destruct (SendPatchMachine m (set_status m status) true (world s)) as [[m'|e] w]; simpl in *; [|done].
  by rewrite (Hv m' eq_refl).
Qed.

Lemma advance_same `{!VersionLaws W} m status next :
  yields (W:=W) (R:=R) (advance m status next) (fun res => same_machine m res.1).
Proof. unfold advance. case_decide; [by apply yields_ret|apply setStatus_same]. Qed.

(** What is made of the devices located: those selected come back, outside a dry run, with
    the Machine that was asked to be replaced. *)
Definition selected_of (m : Machine) (names : list string) (held : result error (list Device))
    (res : Machine * result error (option (list Device))) : Prop :=
  ∀ ds, res.2 = Ok (Some ds) → q_DryRun r = false ∧ same_machine m res.1 ∧
    ∃ all, held = Ok all ∧ Select all (q_Drivers r) names = Ok ds.

Lemma quarantine_devices_selected `{!VersionLaws W} cluster m request names status (s : Sys W R) :
  selected_of m names (locate cluster m s).1 (quarantine_devices r cluster m request names status s).1.
Proof.
  unfold quarantine_devices, mbind at 1, state_bind at 1.
  destruct (locate cluster m s) as [held s1]. cbn [fst]. revert s1.
  match goal with |- ∀ s1, selected_of _ _ _ (?c s1).1 => change (yields c (selected_of m names held)) end.
  assert (Hfail : ∀ m' e, yields (W:=W) (R:=R) (fail_devices r m' request e) (selected_of m names held)).
  { intros m' e. unfold fail_devices. apply yields_bind. intros [m2 [u|e2]]; by apply yields_ret. }
  assert (Herr : ∀ m' e, yields (W:=W) (R:=R) (mret (m', Err e)) (selected_of m names held))
    by (intros m' e; by apply yields_ret).
  destruct (held ≫= _) as [devices|e] eqn:Hsel; [|apply Hfail].
  destruct held as [all|e]; [|done]. simpl in Hsel.
  destruct (q_DryRun r) eqn:Hd in |- *; [by apply yields_ret|].
  eapply yields_then; [apply advance_same|]. intros [m1 [u1|e]] Hm1; [|apply Herr].
  apply yields_bind. intros [u2|e]; [|apply Hfail].
  apply yields_bind. intros [u3|[e|e]]; [|apply Hfail|apply Herr].
  eapply yields_then; [apply advance_same|]. intros [m2 [u4|e]] Hm2; [|apply Herr].
  apply yields_bind. intros _. apply yields_ret. intros ds [= <-]. split_and!; [done| |by exists all].
  by eapply same_machine_trans.
Qed.

(** The devices of the rules listed for a Machine, where its request is replacing and they
    are what it means. *)
Definition made_for (owner : Owner) (devices : list Device) (s : Sys W R) : Prop :=
  ∃ version items, (kind s).1 = Ok version ∧
    (ListRules version (rule_lookup owner) (world (kind s).2)).1 = Ok items ∧
    ∀ d, d ∈ devices ↔ ∃ rule, rule ∈ items ∧ rule_of owner rule d.

Lemma made_before_made_for cluster m names status (s : Sys W R) ds :
  (made_before (R:=R) cluster m names status s).1 = Ok (Some ds) →
  status = StatusReplacing ∧ Covers ds names = true ∧
  made_for (MkOwnerOf (m_Namespace m) (m_Name m) (cl_Name cluster)) ds s.
Proof.
  unfold made_before. case_decide as Hs; [|done]. unfold Of, bind_ok, mbind, state_bind, made_for.
  destruct (kind s) as [[version|e] s1] eqn:Ek; [|done]. unfold call. cbn [fst snd].
  change (list_to_map _) with (rule_lookup (MkOwnerOf (m_Namespace m) (m_Name m) (cl_Name cluster))).
  destruct (ListRules _ _ (world s1)) as [[items|e] w] eqn:El; [|done]. cbn.
  destruct (Covers _ names) eqn:Hc; [|done]. intros [= <-]. split_and!; [done|done|].
  exists version, items. split_and!; [done|exact (f_equal fst El)|]. intros d.
  rewrite elem_of_sort_by, list_elem_of_omap. by setoid_rewrite ruled_device_iff.
Qed.

(** Where the devices of a request come from, which begins to be carried out in [s]: from
    the rules made for the Machine before, or from what the locator found of it. *)
Definition devices_of (cluster : Cluster) (m : Machine) (names : list string) (status : string)
    (s : Sys W R) (devices : list Device) : Prop :=
  status = StatusReplacing ∧ Covers devices names = true ∧
    made_for (MkOwnerOf (m_Namespace m) (m_Name m) (cl_Name cluster)) devices s ∨
  ∃ held, (locate cluster m (made_before cluster m names status s).2).1 = Ok held ∧
    Select held (q_Drivers r) names = Ok devices.

(** What a deletion tells: it is of the Machine asked for, the guards passed, and the
    devices of the request are quarantined. *)
Definition deletion_justified (cluster : Cluster) (m : Machine) (request status : string)
    (s : Sys W R) (l : list Effect) (w : W) : Prop :=
  ∀ e, e ∈ l → is_delete e →
  q_DryRun r = false ∧ guardReplace cluster m = None ∧
  ∃ names devices m', ParseRequest request = Ok names ∧
    devices_of cluster m names status s devices ∧ all_ruled devices w ∧
    e = DeleteMachine m' (m_UID m') (m_ResourceVersion m') ∧ same_machine m m'.

Lemma no_deletion (l : list Effect) e : deletes_nothing l → e ∈ l → ¬ is_delete e.
Proof. unfold deletes_nothing. rewrite Forall_forall. auto. Qed.

(** Deleting sends one deletion, and keeps the rules. *)
Lemma delete_machine_hoare ds m request devices :
  hoare (W:=W) (R:=R) (all_ruled ds) (delete_machine r m request devices) (fun _ l w => all_ruled ds w ∧
    ∀ e, e ∈ l → is_delete e → e = DeleteMachine m (m_UID m) (m_ResourceVersion m)).
Proof.
  unfold delete_machine. eapply hoare_bind.
  { apply (hoare_emit _ _ (fun _ l w => all_ruled ds w ∧ l = [DeleteMachine m (m_UID m) (m_ResourceVersion m)])). done. }
  intros u0 l0. eapply hoare_weaken; [|by intros w Hw; exact Hw|intros a l w Hw; exact Hw].
  intros s [Hs ->]. match goal with |- context [trace (?c s).2] => assert (Hsec : secures ds c none) end.
  { apply secures_then; [apply secures_api; constructor|]. intros [u|e].
    - apply secures_then; [apply secures_emit; intros []|]. intros _. apply secures_nothing.
    - destruct (IsNotFound e); [apply secures_nothing|].
      apply secures_then; [apply fail_secures|]. intros f. apply secures_nothing. }
  destruct (Hsec s Hs) as (l & Ht & Hl & Hw). rewrite app_nil_r in Hw. exists l. split; [done|]. split; [done|].
  intros e [->%list_elem_of_singleton|He]%elem_of_app; [done|]. by intros []%(no_deletion l e Hl He).
Qed.

Lemma carry_out_justified `{!VersionLaws W} cluster m request status (s : Sys W R) :
  let s' := (carry_out r cluster m request status s).2 in
  ∃ l, trace s' = trace s ++ l ∧ deletion_justified cluster m request status s l (world s').
Proof.
  assert (Hthen : ∀ (c : M (Machine * result error unit)) (s1 : Sys W R), secures [] c none →
    ∃ l, trace ((f ← c; mret f.2) s1).2 = trace s1 ++ l ∧ deletes_nothing l).
  { intros c s1 Hc. destruct (secures_then [] c (fun f => mret f.2) none Hc (fun f => secures_nothing _ _) s1)
      as (l & Ht & Hl & _); [by intros d Hd%elem_of_nil|]. by exists l. }
  assert (Hno : ∀ l w, deletes_nothing l → deletion_justified cluster m request status s l w)
    by (intros l w Hl e He Hd; by destruct (no_deletion l e Hl He)).
  unfold carry_out. destruct (guardReplace cluster m) as [[reason message]|] eqn:Hg.
  { destruct (Hthen _ s (reject_secures [] m request reason message)) as (l & Ht & Hl). exists l. auto. }
  destruct (ParseRequest request) as [names|e] eqn:Hp.
  2: { destruct (Hthen _ s (fail_secures [] m request e)) as (l & Ht & Hl). exists l. auto. }
  (* the deletion itself *)
  assert (Hdel : ∀ m' ds l s1, q_DryRun r = false → same_machine m m' → trace s1 = trace s ++ l → deletes_nothing l →
    devices_of cluster m names status s ds → all_ruled ds (world s1) →
    ∃ l', trace (delete_machine (R:=R) r m' request ds s1).2 = trace s ++ l' ∧
      deletion_justified cluster m request status s l' (world (delete_machine (R:=R) r m' request ds s1).2)).
  { intros m' ds l s1 Hd Hm Ht Hl Hds Hw. destruct (delete_machine_hoare ds m' request ds s1 Hw) as (l' & Ht' & Hw' & He).
    exists (l ++ l'). split; [by rewrite Ht', Ht, (assoc_L (++))|].
    intros e [He'|He']%elem_of_app Hdele; [by destruct (no_deletion l e Hl He')|].
    split_and!; [done|done|]. exists names, ds, m'. split_and!; auto. }
  unfold mbind, state_bind.
  pose proof (made_before_made_for cluster m names status s) as Hmade.
  pose proof (quarantine_devices_selected cluster m request names status (made_before cluster m names status s).2) as Hsel.
  pose proof (fun Hnil => quarantine_devices_secures cluster m request names status (made_before cluster m names status s).2 Hnil) as Hq.
  assert (Hor : ∀ ds held, (locate cluster m (made_before cluster m names status s).2).1 = Ok held →
    Select held (q_Drivers r) names = Ok ds → devices_of cluster m names status s ds) by (intros; right; eauto).
  destruct (made_before_secures cluster m names status s) as (l1 & Ht1 & Hl1 & Hw1); [by intros d Hd%elem_of_nil|].
  destruct (made_before cluster m names status s) as [made s1]. cbn [fst snd] in *.
  destruct made as [[ds|]|e].
  - destruct (q_DryRun r) eqn:Hd in |- *; [exists l1; auto|]. by apply (Hdel m ds l1); [..|left; apply Hmade|].
  - destruct Hq as (l2 & Ht2 & Hl2 & Hw2); [by intros d Hd%elem_of_nil|]. rewrite Ht1, <- (assoc_L (++)) in Ht2.
    assert (Hl12 : deletes_nothing (l1 ++ l2)) by (by apply Forall_app).
    destruct (quarantine_devices r cluster m request names status s1) as [[m' [[ds|]|e]] s2]; cbn [fst snd] in *; [|eauto..].
    destruct (Hsel ds eq_refl) as (Hd & Hm & all & Hall & Hs). by apply (Hdel m' ds (l1 ++ l2)); eauto.
  - destruct (Hthen _ s1 (fail_secures [] m request e)) as (l2 & Ht2 & Hl2). exists (l1 ++ l2).
    unfold mbind, state_bind in Ht2. rewrite Ht2, Ht1, (assoc_L (++)). split; [done|].
    apply Hno. by apply Forall_app.
Qed.

(** A request that led to a deletion, of the Machine [m] read in [s]. *)
Definition request_justified (m : Machine) (s : Sys W R) (l : list Effect) (w : W) : Prop :=
  ∀ e, e ∈ l → is_delete e →
  ∃ cluster request, let c := call (GetCluster (MkKey (m_Namespace m) (m_ClusterName m))) s in
    c.1 = Ok cluster ∧ match q_ClusterSelector r with Some matches => matches (cl_Labels cluster) = true | None => True end ∧
    m_Deleting m = false ∧ m_Annotations m !! ReplaceAnnotation = Some request ∧
    IsRejected (get (m_Annotations m) ReplaceStatusAnnotation) = false ∧
    ∃ l', e ∈ l' ∧ deletion_justified cluster m request (get (m_Annotations m) ReplaceStatusAnnotation) c.2 l' w.

Lemma replace_justified `{!VersionLaws W} m (s : Sys W R) :
  let s' := (replace r m s).2 in ∃ l, trace s' = trace s ++ l ∧ request_justified m s l (world s').
Proof.
  assert (Hno : ∀ l w, deletes_nothing l → request_justified m s l w)
    by (intros l w Hl e He Hd; by destruct (no_deletion l e Hl He)).
  assert (Hret : ∀ (s1 : Sys W R), trace s1 = trace s → ∃ l, trace s1 = trace s ++ l ∧ request_justified m s l (world s1))
    by (intros s1 Ht; exists []; rewrite app_nil_r; split; [done|]; apply Hno; constructor).
  unfold replace. cbv zeta. destruct (m_Deleting m) eqn:Hdel; [by apply Hret|].
  destruct (m_Annotations m !! ReplaceAnnotation) as [request|] eqn:Hreq.
  - destruct (IsRejected _) eqn:Hrej; [by apply Hret|]. unfold mbind, state_bind.
    destruct (call (GetCluster (MkKey (m_Namespace m) (m_ClusterName m))) s) as [[cluster|e] s1] eqn:Ec.
    all: assert (Ht1 : trace s1 = trace s)
      by (unfold call in Ec; destruct (GetCluster _ _); by injection Ec as _ <-).
    2: { destruct (IsNotFound e); by apply Hret. }
    destruct (match q_ClusterSelector r with Some _ => _ | None => _ end) eqn:Hs; [by apply Hret|].
    destruct (carry_out_justified cluster m request (get (m_Annotations m) ReplaceStatusAnnotation) s1) as (l & Ht & Hj).
    exists l. rewrite Ht, Ht1. split; [done|]. intros e He Hd. exists cluster, request. rewrite Ec. cbv zeta. cbn [fst snd].
    split_and!; [done| |done|done|done|by exists l].
    destruct (q_ClusterSelector r); [by apply negb_false_iff|done].
  - destruct (bool_decide _ || _); [by apply Hret|].
    destruct (secures_then [] _ (fun st => mret st.2) none (setStatus_secures [] m "")
      (fun st => secures_nothing _ _) s) as (l & Ht & Hl & _); [by intros d Hd%elem_of_nil|].
    exists l. auto.
Qed.
End deletion.

(** C3: a Machine is deleted only with its devices quarantined. Provided nobody takes rules
    away meanwhile, a deletion a reconcile sends is of the very Machine it read, as last
    answered, which it found neither being deleted nor rejected before, with a replace
    request, and free to be replaced by every guard for the Cluster it belongs to; and when
    the reconcile is done, every device of that request has a rule that keeps it from being
    allocated. Those devices are never none. They are the ones rules were made of for this
    Machine before, by its whole name, where the request is replacing and they are what it
    means; or the ones selected from all that this Machine's running VM was found to hold. *)
Theorem deleted_only_when_quarantined `{KubeLib} {W R : Type} `{API W} `{InfraAPI W} {HV : VersionLaws W}
    (r : MachineQuarantineReconciler) (key : ObjectKey) (s : Sys W R) (Hstay : rules_stay W) (Hread : only_reads W) :
  let s' := (ReconcileQuarantine r key s).2 in
  ∃ l, trace s' = trace s ++ l ∧
    ∀ e, e ∈ l → is_delete e →
     ∃ m cluster request names devices m',
       let s1 := (call (GetMachine key) s).2 in
       let s2 := (call (GetCluster (MkKey (m_Namespace m) (m_ClusterName m))) s1).2 in
       let status := get (m_Annotations m) ReplaceStatusAnnotation in
       let w3 := world (made_before cluster m names status s2).2 in
       (GetMachine key (world s)).1 = Ok m ∧ m_Deleting m = false ∧
       m_Annotations m !! ReplaceAnnotation = Some request ∧ IsRejected status = false ∧
       (GetCluster (MkKey (m_Namespace m) (m_ClusterName m)) (world s1)).1 = Ok cluster ∧
       match q_ClusterSelector r with Some matches => matches (cl_Labels cluster) = true | None => True end ∧
       guardReplace cluster m = None ∧ ParseRequest request = Ok names ∧
       e = DeleteMachine m' (m_UID m') (m_ResourceVersion m') ∧ same_machine m m' ∧
       (status = StatusReplacing ∧
          made_for (MkOwnerOf (m_Namespace m) (m_Name m) (cl_Name cluster)) devices s2 ∨
        ∃ held ns vmi, running_vm w3 cluster m ns vmi ∧ (∀ d, d ∈ held ↔ holds_device w3 ns vmi d) ∧
          Select held (q_Drivers r) names = Ok devices) ∧
       Covers devices names = true ∧ ∀ d, d ∈ devices → ruled d (world s').
Proof.
  unfold ReconcileQuarantine, mbind, state_bind. cbv zeta.
  assert (Hget : (GetMachine key (world s)).1 = (call (GetMachine key) s).1 ∧
    trace (call (GetMachine key) s).2 = trace s) by (unfold call; by destruct (GetMachine key (world s))).
  destruct (call (GetMachine key) s) as [[m|e] s1], Hget as [Hget Ht1]; cbn [fst snd] in *.
  2: { exists []. split; [by rewrite app_nil_r|]. by intros e' He%elem_of_nil. }
  destruct (replace_justified Hstay r m s1) as (l & Ht & Hj).
  destruct (replace r m s1) as [res s']. cbn [fst snd] in *. exists l.
  split; [rewrite <- Ht1; exact Ht|]. intros e He Hdele. destruct (Hj e He Hdele) as (cluster & request & Hc & Hsel & Hdel & Hreq & Hrej & l' & Hin & Hjust).
  destruct (Hjust e Hin Hdele) as (_ & Hg & names & devices & m' & Hp & Hds & Hruled & Heq & Hm).
  exists m, cluster, request, names, devices, m'.
  assert (Hcl : (GetCluster (MkKey (m_Namespace m) (m_ClusterName m)) (world s1)).1 = Ok cluster)
    by (revert Hc; unfold call; by destruct (GetCluster _ (world s1))).
  repeat (split; [done|]). destruct Hds as [(Hs & Hcov & Hmade)|(held & Hheld & Hselect)].
  - split_and!; [by left|done|done].
  - destruct (devices_found Hread _ _ _ _ Hheld) as (_ & _ & ns & vmi & Hvm & Hin').
    split_and!; [right; by exists held, ns, vmi|by eapply Select_covers|done].
Qed.

(** ** Guards and rejections *)

(** A Machine may be replaced exactly when its Cluster is not paused, it passes
    the guards every remediation goes through, and a MachineSet that would replace
    it controls it. *)
Lemma replace_guards_exactly `{KubeLib} (cluster : Cluster) (m : Machine) (Hdel : m_Deleting m = false) :
  guardReplace cluster m = None ↔
  annotations_IsPaused cluster = false ∧ Guard m = None ∧
  ∃ ref, GetControllerOf (m_OwnerReferences m) = Some ref ∧ or_Kind ref = "MachineSet" ∧
    ParseGroup (or_APIVersion ref) = Some ClusterAPIGroup.
Proof.
  assert (Hown : ownedByMachineSet m = true ↔ ∃ ref, GetControllerOf (m_OwnerReferences m) = Some ref ∧
    or_Kind ref = "MachineSet" ∧ ParseGroup (or_APIVersion ref) = Some ClusterAPIGroup).
  { unfold ownedByMachineSet. destruct (GetControllerOf _) as [ref|]; [|naive_solver].
    destruct (decide (or_Kind ref ≠ "MachineSet")) as [Hk|Hk]; [naive_solver|].
    apply dec_stable in Hk. rewrite bool_decide_eq_true. naive_solver. }
  rewrite <- Hown. unfold guardReplace, Guard. rewrite Hdel. cbv zeta.
  destruct (annotations_IsPaused cluster); [naive_solver|].
  destruct (IsControlPlane m), (IsMarkedForRemediation m), (IsPaused m), (IsOptedOut m),
    (ownedByMachineSet m); simpl; naive_solver.
Qed.

(** A rejection is final until it is removed. Every rejection is recorded as one,
    no status of a request under way reads as one, and a reconcile of a Machine
    whose request was rejected does nothing at all. *)
Lemma rejection_is_final `{KubeLib} {W R : Type} `{API W} `{InfraAPI W} `{!Locator W R} (r : MachineQuarantineReconciler)
    (key : ObjectKey) (s : Sys W R) (m : Machine) (reason : string)
    (Hm : (GetMachine key (world s)).1 = Ok m)
    (Hrequested : is_Some (m_Annotations m !! ReplaceAnnotation))
    (Hstatus : m_Annotations m !! ReplaceStatusAnnotation = Some (RejectedStatus reason)) :
  (ReconcileQuarantine r key s).1 = Ok 0%Z ∧ trace (ReconcileQuarantine r key s).2 = trace s ∧
  IsRejected StatusQuarantining = false ∧ IsRejected StatusReplacing = false.
Proof.
  assert (Hrej : IsRejected (get (m_Annotations m) ReplaceStatusAnnotation) = true).
  { unfold get. rewrite Hstatus. simpl. unfold IsRejected, RejectedStatus. apply HasPrefix_spec. by eexists. }
  destruct Hrequested as [request Hreq].
  assert (Hrun : ∀ s', replace (R:=R) r m s' = (Ok tt, s')).
  { intros s'. unfold replace. cbv zeta. rewrite Hreq, Hrej. by destruct (m_Deleting m). }
  unfold ReconcileQuarantine, mbind, state_bind, call.
  destruct (GetMachine key (world s)) as [res w]. simpl in Hm. subst res. cbn beta iota zeta.
  rewrite Hrun. by split_and!.
Qed.

(** C33: the devices of a Machine are those its running VM holds, in the cluster at hand.
    What the locator finds, as long as its calls only read, is sorted and without
    repeats, and it comes from a VM that runs: a KubevirtMachine's, in this cluster and
    not an external one, whose VMI is neither being deleted nor in any phase but Running.
    A device is found exactly when a claim of an active pod of that VMI was allocated it,
    other than for administration. *)
Theorem devices_found_are_held `{KubeLib} {W R : Type} `{API W} `{InfraAPI W} (cluster : Cluster)
    (m : Machine) (s : Sys W R) (ds : list Device)
    (Hread : only_reads W) (Hok : (Devices cluster m s).1 = Ok ds) :
  Sorted compare ds ∧ NoDup ds ∧
  ∃ ns vmi, running_vm (world s) cluster m ns vmi ∧ ∀ d, d ∈ ds ↔ holds_device (world s) ns vmi d.
Proof. exact (devices_found Hread cluster m s ds Hok). Qed.

(** C34: a VM that runs is found. Where a Machine's KubeVirt VM runs in this cluster and what
    tells so can be read, the locator finds its devices, and it finds exactly those that
    claims of the VM's active pods were allocated. *)
Theorem running_vm_is_found `{KubeLib} {W R : Type} `{API W} `{InfraAPI W} (cluster : Cluster) (m : Machine) (s : Sys W R) (ns : string) (vmi : Unstructured)
    (Hread : only_reads W) (Hvm : running_vm (world s) cluster m ns vmi) (Hr : readable (world s) cluster ns vmi) :
  ∃ ds, (Devices cluster m s).1 = Ok ds ∧ ∀ d, d ∈ ds ↔ holds_device (world s) ns vmi d.
Proof.
  destruct Hvm as [[Hg Hk] (kvm & template & Hkvm & Hsecret & Ht & -> & Hvmi) Hhere Hdel Hrun].
  unfold Devices. cbv zeta. rewrite !bool_decide_eq_false_2 by naive_solver. simpl.
  rewrite (bind_reads_ok _ _ _ (Some kvm)); [|apply (get_object_found Hread); [apply (readable_kinds _ _ _ _ Hr); set_solver|done]
    |apply (get_object_ok Hread)].
  rewrite (bind_reads_ok _ _ _ ""); [|by eapply (externalInfra_here Hread)|apply (externalInfra_ok Hread)].
  rewrite decide_False by naive_solver. rewrite Ht.
  rewrite (bind_reads_ok _ _ _ (Some vmi)); [|apply (get_object_found Hread); [apply (readable_kinds _ _ _ _ Hr); set_solver|done]
    |apply (get_object_ok Hread)].
  pose proof (devices_of_vmi_total Hread _ (u_Name kvm) _ _ s Hr Hdel Hrun) as Hok.
  destruct (devices_of_vmi _ _ _ s).1 as [ds|e] eqn:E; [|done]. exists ds. split; [done|].
  destruct (devices_of_vmi_ok Hread _ _ _ _ _ E) as (vmi' & [= <-] & _ & _ & _ & _ & Hin). exact Hin.
Qed.

(** ** Witnesses

    A worker whose VM holds one GPU, and an operator who asks to replace it. *)

#[local] Existing Instance lib.
#[local] Existing Instance lib_laws.
#[local] Existing Instance api.
#[local] Existing Instance infra.

Definition q_cluster : Cluster :=
  MkCluster "default" "gpu" ∅ ∅ false false
    (MkRef "infrastructure.cluster.x-k8s.io" "KubevirtCluster" "gpu").

Definition q_machine (annotations : gmap string string) : Machine :=
  MkMachine "default" "worker-1" "m-uid" "7" false ∅ annotations
    [MkOwner "cluster.x-k8s.io/v1beta2" "MachineSet" true]
    "gpu" (MkRef "infrastructure.cluster.x-k8s.io" "KubevirtMachine" "worker-1") "node-1" [].

Definition q_object (name : string) (fields : gomap) : Unstructured :=
  MkUnstructured "default" name ("uid-" +:+ name) 1 None ∅ ∅ fields.

Definition q_device : Device := MkDevice "gpu.nvidia.com" "host-1" "gpu-0".

Definition q_world (annotations : gmap string string) : World :=
  MkWorld (Some q_cluster) [q_machine annotations] [] true [] [] [] 0 ∅
    [("KubevirtMachine", q_object "worker-1" [("spec", VMap [])]);
     ("KubevirtCluster", q_object "gpu" [("spec", VMap [])]);
     ("VirtualMachineInstance", q_object "worker-1" [("status", VMap [("phase", VString "Running")])])]
    [MkPod "p-uid" "Running" [] [Some "claim-1"]]
    [(MkKey "default" "claim-1", [MkResult "gpu.nvidia.com" "host-1" "gpu-0" None])].

Definition q_reconciler : MachineQuarantineReconciler :=
  MkQuarantineReconciler {["gpu.nvidia.com"]} false None.

Definition q_start (annotations : gmap string string) : Sys World unit := MkSys (q_world annotations) [] tt.

Definition q_key : ObjectKey := MkKey "default" "worker-1".

(** The Machine is gone, and its device has a rule. *)
Example replaced_end_to_end :
  let s := (ReconcileQuarantine q_reconciler q_key (q_start {[ReplaceAnnotation := "quarantine"]})).2 in
  w_machines (world s) = [] ∧
  rule_selector <$> (snd <$> map_to_list (w_rules (world s))) = [q_device].
Proof. vm_compute. split; reflexivity. Qed.

(** The calls of the concrete world leave its rules, but for the one that adds some. *)
Lemma calls_keep_rules {A} (c : state World A) w :
  api_call c ∨ infra_call c →
  w_rules (c w).2 = w_rules w ∨
  ∃ rule, w_rules w !! u_Name rule = None ∧ w_rules (c w).2 = <[u_Name rule := rule]> (w_rules w).
Proof.
  intros [[]|[]]; simpl; try (by left). destruct (w_rules w !! u_Name rule) eqn:E; simpl; [by left|]. right. eauto.
Qed.

Lemma infra_rules_stay : rules_stay World.
Proof.
  constructor.
  - intros d A c w Hc (version & rule & Hget & Hconf). exists version, rule. split; [|done]. simpl in *.
    destruct (calls_keep_rules c w Hc) as [->|(u & Hu & ->)]; [done|].
    destruct (decide (u_Name u = RuleName d)) as [He|He]; [|by rewrite lookup_insert_ne].
    rewrite <- He, Hu in Hget. done.
  - intros v ls w items rule Hl Hin. simpl in *. simplify_eq.
    apply list_elem_of_omap in Hin as ([n u] & Hu & Heq). simpl in Heq. case_decide as Hn; [|done].
    destruct Hn as [Hn _]. simplify_eq. apply elem_of_map_to_list in Hu. by rewrite Hu.
Qed.

Lemma set_version_own m : set_version m (m_ResourceVersion m) = m.
Proof. by destruct m. Qed.

#[local] Instance api_versions : VersionLaws World.
Proof. constructor. intros base updated w m [= <-]. by rewrite set_version_own. Qed.

Lemma infra_only_reads : only_reads World.
Proof. by constructor. Qed.

Definition asked : gmap string string := {[ReplaceAnnotation := RequestQuarantine]}.

Lemma asked_machine : (GetMachine q_key (world (q_start asked))).1 = Ok (q_machine asked).
Proof. vm_compute. reflexivity. Qed.

Lemma asked_cluster :
  (GetCluster (MkKey (m_Namespace (q_machine asked)) (m_ClusterName (q_machine asked))) (world (call (GetMachine q_key) (q_start asked)).2)).1 = Ok q_cluster.
Proof. vm_compute. reflexivity. Qed.

Definition is_deleteb (e : Effect) : bool := match e with DeleteMachine _ _ _ => true | _ => false end.

Lemma asked_deletion : existsb is_deleteb (trace (ReconcileQuarantine q_reconciler q_key (q_start asked)).2) = true.
Proof. vm_compute. reflexivity. Qed.

Lemma sent_deletion l : existsb is_deleteb l = true → ∃ e, e ∈ l ∧ is_delete e.
Proof.
  intros (e & He & Hd)%existsb_exists. exists e. split; [by apply list_elem_of_In|by destruct e].
Qed.

(** The request is carried out, from the beginning: the device located has its rule when the
    Machine is deleted. *)
Lemma deleted_only_when_quarantined_witness :
  ∃ m' held ns vmi devices,
    let s' := (ReconcileQuarantine q_reconciler q_key (q_start asked)).2 in
    DeleteMachine m' (m_UID m') (m_ResourceVersion m') ∈ trace s' ∧ same_machine (q_machine asked) m' ∧
    running_vm (q_world asked) q_cluster (q_machine asked) ns vmi ∧
    (∀ d, d ∈ held ↔ holds_device (q_world asked) ns vmi d) ∧
    Select held {["gpu.nvidia.com"]} [] = Ok devices ∧ ∀ d, d ∈ devices → ruled d (world s').
Proof.
  destruct (deleted_only_when_quarantined q_reconciler q_key (q_start asked) infra_rules_stay infra_only_reads)
    as (l & Ht & Hj).
  destruct (sent_deletion l) as (e & He & Hd); [pose proof asked_deletion as Hs; rewrite Ht in Hs; exact Hs|].
  destruct (Hj e He Hd) as (m & cluster & request & names & devices & m' & Hm & _ & Hreq & _ & Hc & _ & _ & Hp & -> & Hsame & Hds & _ & Hr).
  rewrite asked_machine in Hm. injection Hm as <-. injection Hreq as <-.
  rewrite asked_cluster in Hc. injection Hc as <-. injection Hp as <-.
  destruct Hds as [[Hs _]|(held & ns & vmi & Hvm & Hheld & Hsel)]; [discriminate Hs|].
  exists m', held, ns, vmi, devices. cbv zeta.
  split; [rewrite Ht; exact He|]. split; [exact Hsame|]. split; [exact Hvm|]. split; [exact Hheld|].
  split; [exact Hsel|exact Hr].
Defined.

(** A Machine's name as long as names may be. *)
Definition long_owner : Owner :=
  MkOwnerOf "default" "gpu-worker-pool-with-a-rather-long-name-for-a-machine-deployment-x7k2p-9qlm4" "gpu".

Definition one_rule (rule : Unstructured) : Sys World unit :=
  MkSys (set_rules (q_world ∅) {[u_Name rule := rule]}) [] tt.

Lemma one_rule_listed rule version ls :
  (ListRules version ls (world (kind (one_rule rule)).2)).1 = Ok (filter (fun rule => ls ⊆ u_Labels rule) [rule]).
Proof.
  simpl. rewrite map_to_list_singleton. simpl. unfold filter. simpl. destruct (decide (ls ⊆ u_Labels rule)) as [Hs|Hs].
  - rewrite decide_True by (split; [reflexivity|exact Hs]). reflexivity.
  - rewrite decide_False by (intros [_ Hs']; exact (Hs Hs')). reflexivity.
Qed.

Lemma rule_roundtrip_witness :
  63 < len (o_Name long_owner) ∧
  ∃ ds, (Of long_owner (one_rule (ruleFor q_device long_owner 0))).1 = Ok ds ∧ q_device ∈ ds.
Proof.
  split; [apply Nat.ltb_lt; vm_compute; reflexivity|].
  assert (is_ok (kind (one_rule (ruleFor q_device long_owner 0))).1 = true) as Hserved by reflexivity.
  destruct (rule_roundtrip q_device long_owner (MkOwnerOf "default" "worker-2" "gpu") 0
           [ruleFor q_device long_owner 0] (one_rule (ruleFor q_device long_owner 0))
           ltac:(repeat split; discriminate) ltac:(split; reflexivity) ltac:(reflexivity) Hserved
           (one_rule_listed (ruleFor q_device long_owner 0))) as (_ & _ & Hfound & _).
  exact (Hfound (list_elem_of_here _ _)).
Defined.

Lemma devices_found_are_held_witness :
  ∃ ns vmi, running_vm (q_world ∅) q_cluster (q_machine ∅) ns vmi ∧ holds_device (q_world ∅) ns vmi q_device.
Proof.
  destruct (devices_found_are_held q_cluster (q_machine ∅) (q_start ∅) [q_device]) as (_ & _ & ns & vmi & Hvm & Hin).
  - constructor; reflexivity.
  - vm_compute. reflexivity.
  - exists ns, vmi. split; [exact Hvm|]. apply Hin, list_elem_of_singleton. reflexivity.
Defined.

Definition q_vmi : Unstructured :=
  q_object "worker-1" [("status", VMap [("phase", VString "Running")])].

Lemma running_vm_is_found_witness :
  ∃ ds, (Devices q_cluster (q_machine ∅) (q_start ∅)).1 = Ok ds ∧ q_device ∈ ds.
Proof.
  destruct (running_vm_is_found q_cluster (q_machine ∅) (q_start ∅) "default" q_vmi) as (ds & Hds & Hin).
  - constructor; reflexivity.
  - constructor; try reflexivity.
    + split; reflexivity.
    + exists (q_object "worker-1" [("spec", VMap [])]), "". repeat split; reflexivity.
    + intros kvc _ _ Hk. vm_compute in Hk. injection Hk as <-. reflexivity.
  - constructor.
    + intros group kind _. reflexivity.
    + intros e He. vm_compute in He. discriminate.
    + reflexivity.
    + intros claim e. cbn. destruct (decide _); cbn; intros He; inversion He; reflexivity.
  - exists ds. split; [exact Hds|]. apply Hin. exists [MkPod "p-uid" "Running" [] [Some "claim-1"]].
    exists (MkPod "p-uid" "Running" [] [Some "claim-1"]), "claim-1". split; [reflexivity|]. split; [by left|].
    split.
    + split; [discriminate|]. split; [discriminate|]. split; [discriminate|]. split; [by left|]. right. by left.
    + exists [MkResult "gpu.nvidia.com" "host-1" "gpu-0" None]. split; [reflexivity|].
      exists (MkResult "gpu.nvidia.com" "host-1" "gpu-0" None). split; [by left|]. split; [discriminate|reflexivity].
Defined.
