(* ===== verification/Requests.v ===== *)
(** * How far a replace request gets

    An abstract machine of one replace request: what it is in, by the status annotation of
    its Machine, and what may be sent from there ([request_run]). A reconcile is a run of
    it ([reconcile_refines_requests]): statuses advance in order, rules are made while the
    request is in progress, and the Machine is deleted last, once, at the version the API
    server last answered it at. *)

From S2P Require Import Prelude GoStrings Kube KubeModel WorldModel Calls Capi Quarantine Rules Locator LocatorFacts QuarantineController QuarantineFacts.
Open Scope stdpp_scope.

(** ** The abstract machine *)

Definition status_of (m : Machine) : string := get (m_Annotations m) ReplaceStatusAnnotation.

(** From one status to the next: a request is rejected at any time before it was, and is
    in progress before its devices are all quarantined. *)
Inductive advances : string → string → Prop :=
| to_quarantining s : IsRejected s = false → s ≠ StatusReplacing → s ≠ StatusQuarantining → advances s StatusQuarantining
| to_replacing : advances StatusQuarantining StatusReplacing
| to_rejected s reason : IsRejected s = false → advances s (RejectedStatus reason).

Definition in_progress (status : string) : Prop := status = StatusQuarantining ∨ status = StatusReplacing.

Section machine.
Context `{KubeLib} {W : Type} `{API W}.
Context (r : MachineQuarantineReconciler) (cluster : Cluster) (request : string).

(** The Machine is one the API server answered with. *)
Definition answered (m : Machine) : Prop :=
  (∃ key w, (GetMachine key w).1 = Ok m) ∨ ∃ base updated w, (SendPatchMachine base updated true w).1 = Ok m.

(** The Machine may be deleted, as it is in this very version. *)
Definition eligible (m : Machine) : Prop :=
  m_Deleting m = false ∧ m_Annotations m !! ReplaceAnnotation = Some request ∧
  guardReplace cluster m = None ∧ is_ok (ParseRequest request) = true.

Definition owner_of (m : Machine) : Owner := MkOwnerOf (m_Namespace m) (m_Name m) (cl_Name cluster).

(** [request_run sent m l]: [l] may be sent for the Machine last answered as [m], a
    deletion having been sent before or not. *)
Inductive request_run : bool → Machine → list Effect → Prop :=
| run_end sent m : request_run sent m []
| run_event sent m o t reason action note l :
    request_run sent m l → request_run sent m (RecordEvent o t reason action note :: l)
| run_refused sent m status : advances (status_of m) status → (sent = true → IsRejected status = true) →
    request_run sent m [PatchMachine m (set_status m status) true]
| run_advance sent m status m' l : advances (status_of m) status → (sent = true → IsRejected status = true) →
    answered m' → m' = set_version (set_status m status) (m_ResourceVersion m') →
    request_run sent m' l → request_run sent m (PatchMachine m (set_status m status) true :: l)
| run_rule m version d now l : in_progress (status_of m) → version ∈ ruleVersions → d_Driver d ∈ q_Drivers r →
    request_run false m l → request_run false m (CreateRule version (ruleFor d (owner_of m) now) :: l)
| run_delete m l : status_of m = StatusReplacing → answered m → eligible m →
    request_run true m l → request_run false m (DeleteMachine m (m_UID m) (m_ResourceVersion m) :: l).

(** What was sent so far leads from one Machine to another. *)
Definition leads (sent : bool) (m m' : Machine) (l : list Effect) : Prop :=
  ∀ rest, request_run sent m' rest → request_run sent m (l ++ rest).

Lemma leads_nil sent m : leads sent m m [].
Proof. by intros rest. Qed.

Lemma leads_app sent m m1 m2 l1 l2 : leads sent m m1 l1 → leads sent m1 m2 l2 → leads sent m m2 (l1 ++ l2).
Proof. intros H1 H2 rest Hr. rewrite <- (assoc_L (++)). by apply H1, H2. Qed.

Lemma leads_run sent m m' l l' : leads sent m m' l → request_run sent m' l' → request_run sent m (l ++ l').
Proof. intros Hl. apply Hl. Qed.

Lemma leads_event sent m o t reason action note : leads sent m m [RecordEvent o t reason action note].
Proof. intros rest Hr. by apply run_event. Qed.

Lemma status_of_set m status version :
  status ≠ "" → status_of (set_version (set_status m status) version) = status.
Proof.
  intros Hs. unfold status_of, get, set_status, set_version. simpl. rewrite decide_False by done.
  by rewrite lookup_insert_eq.
Qed.

Lemma annotation_set_status m status version k :
  k ≠ ReplaceStatusAnnotation →
  m_Annotations (set_version (set_status m status) version) !! k = m_Annotations m !! k.
Proof. intros Hk. simpl. case_decide; by rewrite ?lookup_delete_ne, ?lookup_insert_ne by done. Qed.

Lemma advances_not_empty s s' : advances s s' → s' ≠ "".
Proof. by intros []. Qed.

(** The patches of the status leave what the guards look at alone. *)
Lemma eligible_set_status `{!KubeLaws} m status version :
  eligible m → eligible (set_version (set_status m status) version).
Proof.
  intros (Hd & Hr & Hg & Hp).
  assert (Hk : ∀ k, k ∈ [RemediateMachineAnnotation; PausedAnnotation; MachineSkipRemediationAnnotation] →
    k ≠ ReplaceStatusAnnotation).
  { intros k Hin ->. by apply capi_annotations_foreign in Hin. }
  split_and!; [done| | |done].
  - by rewrite annotation_set_status.
  - rewrite <- Hg. unfold guardReplace, IsControlPlane, IsMarkedForRemediation, IsPaused, IsOptedOut, has_key.
    by rewrite !annotation_set_status by (apply Hk; set_solver).
Qed.

(** The Machine stays the same object. *)
Lemma owner_of_set_status m status version : owner_of (set_version (set_status m status) version) = owner_of m.
Proof. done. Qed.
End machine.

(** ** The code runs the machine *)

Section refinement.
Context `{KubeLib} `{!KubeLaws} {W R : Type} `{API W} `{InfraAPI W} `{!Locator W R} `{!LocatorLaws W R} `{!VersionLaws W}.
Context (r : MachineQuarantineReconciler) (cluster : Cluster) (request : string).

Local Abbreviation M := (state (Sys W R)).
Local Abbreviation run := (request_run (W:=W) r cluster request).
Local Abbreviation leads := (leads (W:=W) r cluster request).

(** The Machine as a step returns it, and what is known of it. *)
Definition known (m m' : Machine) : Prop :=
  answered (W:=W) m' ∧ (eligible cluster request m → eligible cluster request m').

Definition set_to (sent : bool) (m : Machine) (status : string) (res : Machine * result error unit) (l : list Effect) : Prop :=
  match res.2 with
  | Ok _ => leads sent m res.1 l ∧ status_of res.1 = status ∧ known m res.1
  | Err _ => run sent m l
  end.

Lemma silent_runs {A} (c : M A) (Q : A → Prop) : spec (fun _ => False) c Q → runs c (fun a l => Q a ∧ l = []).
Proof.
  intros Hc%spec_runs. eapply runs_weaken; [exact Hc|]. intros a [|e l] [HQ Hl]; [done|].
  by apply Forall_cons in Hl as [[] _].
Qed.

Lemma setStatus_runs sent m status :
  answered (W:=W) m → status ≠ "" → (status_of m ≠ status → advances (status_of m) status) →
  (sent = true → IsRejected status = true) →
  runs (W:=W) (R:=R) (setStatus m status) (set_to sent m status).
Proof.
  intros Hm Hne Hadv Hsent. unfold setStatus. cbv zeta.
  rewrite (bool_decide_eq_false_2 (status = "")) by done. simpl.
  case_bool_decide as Hcur.
  { apply runs_ret. split_and!; [apply leads_nil|by simpl; unfold status_of, get; rewrite Hcur|done..]. }
  assert (Hs : status_of m ≠ status).
  { unfold status_of, get. intros E. apply Hcur. by destruct (m_Annotations m !! ReplaceStatusAnnotation); simpl in E; subst. }
  specialize (Hadv Hs).
  unfold patch_machine. intros s. exists [PatchMachine m (set_status m status) true].
  unfold mbind, state_bind, emit, call. simpl.
  destruct (SendPatchMachine m (set_status m status) true (world s)) as [res w] eqn:E.
  assert (Hp : ∀ m', res = Ok m' →
    answered (W:=W) m' ∧ m' = set_version (set_status m status) (m_ResourceVersion m')).
  { intros m' ->. split; [right; do 3 eexists; by rewrite E|]. eapply locked_patch. by rewrite E. }
  destruct res as [m'|e]; simpl; (split; [done|]).
  - destruct (Hp m' eq_refl) as [Ha Hv]. split_and!.
    + intros rest Hrest. by eapply run_advance.
    + rewrite Hv. by apply status_of_set.
    + split; [done|]. intros He. rewrite Hv. by apply eligible_set_status.
  - by apply run_refused.
Qed.

Lemma reject_runs sent m asked reason message :
  answered (W:=W) m → IsRejected (status_of m) = false →
  runs (W:=W) (R:=R) (reject r m asked reason message) (fun _ l => run sent m l).
Proof.
  intros Hm Hs. unfold reject. destruct (q_DryRun r); [apply runs_ret; constructor|].
  eapply runs_bind; [apply (setStatus_runs sent); [done|done|by intros _; apply to_rejected|]|].
  { intros _. apply HasPrefix_spec. by eexists. }
  intros [m' [u|e]] l Hl; [|apply runs_ret; by rewrite app_nil_r].
  eapply runs_bind; [apply runs_emit|]. intros _ l' ->. apply runs_ret. rewrite app_nil_r.
  apply Hl. apply run_event, run_end.
Qed.

Lemma fail_runs sent m asked e :
  answered (W:=W) m → IsRejected (status_of m) = false →
  runs (W:=W) (R:=R) (fail r m asked e) (fun _ l => run sent m l).
Proof.
  intros Hm Hs. unfold fail. destruct (IsConflict e); [apply runs_ret, run_end|].
  destruct (as_rejection e) as [[reason message]|]; [by apply reject_runs|].
  destruct (IsForbidden e); [by apply reject_runs|apply runs_ret, run_end].
Qed.

(** Where the result of the failure is passed on. *)
Lemma fail_then_runs {A} sent m asked e (f : Machine * result error unit → A) :
  answered (W:=W) m → IsRejected (status_of m) = false →
  runs (W:=W) (R:=R) (x ← fail r m asked e; mret (f x)) (fun _ l => run sent m l).
Proof.
  intros Hm Hs. eapply runs_bind; [by apply (fail_runs sent)|]. intros x l Hl. apply runs_ret. by rewrite app_nil_r.
Qed.

Lemma in_progress_not_rejected s : in_progress s → IsRejected s = false.
Proof. by intros [->| ->]. Qed.

Lemma ensure_runs m d :
  in_progress (status_of m) → d_Driver d ∈ q_Drivers r →
  runs (W:=W) (R:=R) (Ensure d (owner_of cluster m)) (fun _ l => leads false m m l).
Proof.
  intros Hs Hd. unfold Ensure, bind_ok.
  eapply runs_bind; [apply silent_runs, served_version_spec|].
  intros [version|e] l [Hv ->]; [|apply runs_ret, leads_nil].
  eapply runs_bind; [apply runs_call|]. intros now l ->. cbv zeta.
  eapply runs_bind; [apply runs_emit|]. intros _ l ->.
  assert (Hrule : leads false m m [CreateRule version (ruleFor d (owner_of cluster m) now)])
    by (intros rest Hrest; by apply run_rule; [|apply Hv|..]).
  eapply runs_bind; [apply runs_call|]. intros [u|e] l ->; [by apply runs_ret|].
  destruct (IsAlreadyExists e); [|by apply runs_ret].
  eapply runs_bind; [apply silent_runs, check_spec|]. intros c l [_ ->]. by apply runs_ret.
Qed.

Lemma ensure_all_runs m ds :
  in_progress (status_of m) → (∀ d, d ∈ ds → d_Driver d ∈ q_Drivers r) →
  runs (W:=W) (R:=R) (ensure_all ds (owner_of cluster m)) (fun _ l => leads false m m l).
Proof.
  intros Hs. induction ds as [|d ds IH]; intros Hd; cbn [ensure_all]; [apply runs_ret, leads_nil|].
  eapply runs_bind; [apply ensure_runs; [done|apply Hd; set_solver]|].
  intros [b|e] l Hl; [|apply runs_ret; by rewrite app_nil_r].
  eapply runs_weaken; [apply IH; set_solver|]. intros res l' Hl'. by eapply leads_app.
Qed.
(** The next status, unless the request is past all of them. *)
Lemma advance_runs m status next :
  answered (W:=W) m → (status = StatusReplacing → status_of m = StatusReplacing) →
  next ≠ "" → (status ≠ StatusReplacing → status_of m ≠ next → advances (status_of m) next) →
  runs (W:=W) (R:=R) (advance m status next)
    (set_to false m (if decide (status = StatusReplacing) then StatusReplacing else next)).
Proof.
  intros Hm Hs Hne Hadv. unfold advance. case_decide; [|by apply setStatus_runs; auto].
  apply runs_ret. split_and!; [apply leads_nil|by apply Hs|done..].
Qed.

(** What carrying the request out leaves: devices, and the Machine ready to be deleted. *)
Definition secured (m : Machine) (res : Machine * result error (option (list Device))) (l : list Effect) : Prop :=
  match res.2 with
  | Ok (Some _) => leads false m res.1 l ∧ known m res.1 ∧ status_of res.1 = StatusReplacing
  | _ => run false m l
  end.

Lemma fail_devices_runs m m' asked e l :
  leads false m m' l → answered (W:=W) m' → IsRejected (status_of m') = false →
  runs (W:=W) (R:=R) (fail_devices r m' asked e) (fun res l' => secured m res (l ++ l')).
Proof.
  intros Hl Hm Hs. unfold fail_devices. eapply runs_bind; [by apply (fail_runs false)|].
  intros [m2 [u|e']] l' Hl'; apply runs_ret; unfold secured; simpl; rewrite app_nil_r; by apply Hl.
Qed.

Lemma quarantine_devices_runs m asked names :
  answered (W:=W) m → IsRejected (status_of m) = false →
  runs (W:=W) (R:=R) (quarantine_devices r cluster m asked names (status_of m)) (secured m).
Proof.
  intros Hm Hrej. set (status := status_of m). unfold quarantine_devices.
  eapply runs_bind; [apply silent_runs, locate_spec|]. intros held l0 [_ ->]. cbn [app].
  destruct (held ≫= _) as [devices|e] eqn:Hsel; [|by apply (fail_devices_runs m m _ _ []); [apply leads_nil|..]].
  assert (Hdrv : ∀ d, d ∈ devices → d_Driver d ∈ q_Drivers r).
  { destruct held as [held|e]; simpl in Hsel; [|done]. intros d. by eapply Select_drivers. }
  destruct (q_DryRun r); [apply runs_ret, run_end|].
  eapply runs_bind; [apply advance_runs; [done|done|done|intros; by apply to_quarantining]|].
  intros [m1 [u1|e]] l1 Hl1; [|apply runs_ret; unfold secured; simpl; by rewrite app_nil_r].
  destruct Hl1 as (Hl1 & Hs1 & Hk1). simpl in Hl1, Hs1, Hk1.
  assert (Hp1 : in_progress (status_of m1)) by (rewrite Hs1; case_decide; [by right|by left]).
  eapply runs_bind; [by apply ensure_all_runs|]. intros made l2 Hl2.
  pose proof (leads_app _ _ _ _ _ _ _ _ _ Hl1 Hl2) as Hl12.
  assert (Hfail : ∀ e, runs (W:=W) (R:=R) (fail_devices r m1 asked e) (fun res l => secured m res (l1 ++ l2 ++ l))).
  { intros e. eapply runs_weaken; [apply (fail_devices_runs m m1 asked e _ Hl12)|].
    - apply Hk1.
    - by apply in_progress_not_rejected.
    - intros res l. cbv beta. by rewrite <- (assoc_L (++)). }
  destruct made as [u2|e]; [|apply Hfail].
  eapply runs_bind; [apply silent_runs, confirm_all_spec|]. intros confirmed l3 [_ ->]. cbn [app].
  destruct confirmed as [u3|[e|e]]; [|apply Hfail|].
  2: { apply runs_ret. unfold secured. simpl. rewrite (assoc_L (++)). apply Hl12, run_end. }
  eapply runs_bind.
  { apply (advance_runs m1 status StatusReplacing); [apply Hk1|intros E; rewrite Hs1, E; by rewrite decide_True|done|].
    intros E _. rewrite Hs1, decide_False by done. apply to_replacing. }
  intros [m2 [u4|e]] l4 Hl4; simpl in Hl4.
  2: { apply runs_ret. unfold secured. simpl. rewrite app_nil_r, (assoc_L (++)). by apply Hl12. }
  destruct Hl4 as (Hl4 & Hs4 & Hk4). simpl in Hl4, Hs4, Hk4.
  eapply runs_bind; [apply runs_emit|]. intros _ l5 ->. apply runs_ret. unfold secured. simpl.
  rewrite !(assoc_L (++)). split_and!.
  - eapply leads_app; [by eapply leads_app|apply leads_event].
  - split; [apply Hk4|]. intros He. by apply Hk4, Hk1.
  - rewrite Hs4. by case_decide.
Qed.

Lemma delete_machine_runs m asked devices :
  answered (W:=W) m → eligible cluster request m → status_of m = StatusReplacing →
  runs (W:=W) (R:=R) (delete_machine r m asked devices) (fun _ l => run false m l).
Proof.
  intros Hm He Hs. unfold delete_machine. eapply runs_bind; [apply runs_emit|]. intros _ l0 ->.
  assert (Hdel : ∀ l, run true m l → run false m ([DeleteMachine m (m_UID m) (m_ResourceVersion m)] ++ l))
    by (intros l Hl; by apply run_delete).
  eapply runs_bind; [apply runs_call|]. intros [u|e] l ->; cbn [app].
  - eapply runs_bind; [apply runs_emit|]. intros _ l1 ->. apply runs_ret. apply (Hdel [_]). apply run_event, run_end.
  - destruct (IsNotFound e); [apply runs_ret, (Hdel []), run_end|].
    eapply runs_weaken; [apply (fail_then_runs true); [done|by rewrite Hs]|]. intros a l Hl. by apply (Hdel l).
Qed.

Lemma carry_out_runs m :
  answered (W:=W) m → m_Deleting m = false → m_Annotations m !! ReplaceAnnotation = Some request →
  IsRejected (status_of m) = false →
  runs (W:=W) (R:=R) (carry_out r cluster m request (status_of m)) (fun _ l => run false m l).
Proof.
  intros Hm Hdel Hreq Hrej. unfold carry_out.
  destruct (guardReplace cluster m) as [[reason message]|] eqn:Hg.
  { eapply runs_bind; [by apply (reject_runs false)|]. intros f l Hl. apply runs_ret. by rewrite app_nil_r. }
  destruct (ParseRequest request) as [names|e] eqn:Hp; [|by apply fail_then_runs].
  assert (He : eligible cluster request m) by (split_and!; [done|done|done|by rewrite Hp]).
  assert (Hmade : runs (W:=W) (R:=R) (made_before cluster m names (status_of m))
    (fun res l => l = [] ∧ ∀ ds, res = Ok (Some ds) → status_of m = StatusReplacing)).
  { unfold made_before. case_decide as Hs; [|apply runs_ret; by split]. unfold bind_ok.
    eapply runs_bind; [apply silent_runs, Of_spec|]. intros [made|e] l [_ ->]; by apply runs_ret. }
  eapply runs_bind; [exact Hmade|]. intros [[devices|]|e] l [-> Hs]; cbn [app].
  - destruct (q_DryRun r); [apply runs_ret, run_end|]. apply delete_machine_runs; [done|done|by eapply Hs].
  - eapply runs_bind; [by apply quarantine_devices_runs|]. intros [m' [[ds|]|e]] l Hl; unfold secured in Hl; simpl in Hl.
    + destruct Hl as (Hl & Hk & Hs'). eapply runs_weaken; [apply delete_machine_runs; [apply Hk|by apply Hk|done]|].
      intros a l' Hl'. by apply Hl.
    + apply runs_ret. by rewrite app_nil_r.
    + apply runs_ret. by rewrite app_nil_r.
  - by apply fail_then_runs.
Qed.
End refinement.

(** What a reconcile of a Machine sends, as a run of the machine, or the removal of the
    status of a request that is gone. *)
Inductive request_trace `{KubeLib} {W : Type} `{API W} (r : MachineQuarantineReconciler) (m : Machine) :
    list Effect → Prop :=
| trace_empty : request_trace r m []
| trace_gone : m_Annotations m !! ReplaceAnnotation = None →
    request_trace r m [PatchMachine m (set_status m "") true]
| trace_run request cluster (w : W) l :
    m_Annotations m !! ReplaceAnnotation = Some request → IsRejected (status_of m) = false →
    (GetCluster (MkKey (m_Namespace m) (m_ClusterName m)) w).1 = Ok cluster →
    (∀ matches, q_ClusterSelector r = Some matches → matches (cl_Labels cluster) = true) →
    request_run (W:=W) r cluster request false m l → request_trace r m l.

Lemma replace_runs `{KubeLib} `{!KubeLaws} {W R : Type} `{API W} `{InfraAPI W} `{!Locator W R} `{!LocatorLaws W R}
    `{!VersionLaws W} (r : MachineQuarantineReconciler) (m : Machine) :
  answered (W:=W) m → m_Deleting m = false →
  runs (W:=W) (R:=R) (replace r m) (fun _ l => request_trace (W:=W) r m l).
Proof.
  intros Hm Hdel. unfold replace. cbv zeta. rewrite Hdel.
  destruct (m_Annotations m !! ReplaceAnnotation) as [request|] eqn:Hreq.
  - destruct (IsRejected _) eqn:Hrej; [apply runs_ret; constructor|]. fold (status_of m) in Hrej |- *.
    intros s. unfold mbind, state_bind. unfold call at 1.
    destruct (GetCluster (MkKey (m_Namespace m) (m_ClusterName m)) (world s)) as [[cluster|e] w] eqn:Ec.
    2: { exists []. rewrite app_nil_r. split; [|constructor]. by destruct (IsNotFound e). }
    destruct (match q_ClusterSelector r with Some _ => _ | None => _ end) eqn:Hsel.
    { exists []. rewrite app_nil_r. split; [done|constructor]. }
    destruct (carry_out_runs r cluster request m Hm Hdel Hreq Hrej (MkSys w (trace s) (memory s))) as (l & Ht & Hl).
    exists l. split; [exact Ht|]. apply (trace_run r m request cluster (world s)); [done|done|by rewrite Ec| |done].
    intros matches Hq. rewrite Hq in Hsel. by apply negb_false_iff.
  - destruct (bool_decide _ || _) eqn:E; [apply runs_ret; constructor|].
    unfold setStatus. cbv zeta. destruct (_ || _) in |- *.
    { eapply runs_bind; [by apply runs_ret with (Q := fun _ l => l = [])|]. intros s l ->. apply runs_ret. constructor. }
    unfold patch_machine. intros s. exists [PatchMachine m (set_status m "") true].
    unfold mbind, state_bind, emit, call. simpl.
    destruct (SendPatchMachine m (set_status m "") true (world s)) as [[m'|e] w]; (split; [done|by constructor]).
Qed.

Lemma runs_requests `{KubeLib} {HK : KubeLaws} {W R : Type} `{API W} `{InfraAPI W} `{!Locator W R}
    {HL : LocatorLaws W R} {HV : VersionLaws W} (r : MachineQuarantineReconciler) (key : ObjectKey) (s : Sys W R) :
  ∃ l, trace (ReconcileQuarantine r key s).2 = trace s ++ l ∧
    (l ≠ [] → ∃ m, (GetMachine key (world s)).1 = Ok m ∧ m_Deleting m = false ∧ request_trace (W:=W) r m l).
Proof.
  unfold ReconcileQuarantine, mbind, state_bind. unfold call at 1.
  destruct (GetMachine key (world s)) as [[m|e] w] eqn:Em; [|exists []; by rewrite app_nil_r].
  destruct (m_Deleting m) eqn:Hdel.
  { exists []. rewrite app_nil_r. unfold replace. by rewrite Hdel. }
  assert (Hm : answered (W:=W) m) by (left; exists key, (world s); by rewrite Em).
  destruct (replace_runs (R:=R) r m Hm Hdel (MkSys w (trace s) (memory s))) as (l & Ht & Hl).
  destruct (replace r m _) as [res s']. exists l. split; [exact Ht|]. intros _. by exists m.
Qed.

(** C5: a reconcile of a replace request is a run of the request machine. From the Machine
    as it was read, not being deleted, the status moves from nothing over quarantining to
    replacing, and to a rejection from where it was not rejected; each patch is made
    of, and locked to, the Machine as it was last answered; rules are made for this Machine
    while it is quarantining or replacing; the Machine is deleted at the version last
    answered, in replacing, with every guard passed by that very version; and after that
    nothing is sent but the rejection of a deletion that is not allowed, and Events. *)
Theorem reconcile_refines_requests `{KubeLib} {HK : KubeLaws} {W R : Type} `{API W} `{InfraAPI W} `{!Locator W R}
    {HL : LocatorLaws W R} {HV : VersionLaws W} (r : MachineQuarantineReconciler) (key : ObjectKey) (s : Sys W R) :
  ∃ l, trace (ReconcileQuarantine r key s).2 = trace s ++ l ∧
    (l ≠ [] → ∃ m, (GetMachine key (world s)).1 = Ok m ∧ m_Deleting m = false ∧ request_trace (W:=W) r m l).
Proof. exact (runs_requests r key s). Qed.

(** ** Deleting what was decided on *)

(** The deletions sent: the UID and the resource version each is conditional on. *)
Definition deletions (l : list Effect) : list (string * string) :=
  omap (fun e => match e with DeleteMachine _ uid version => Some (uid, version) | _ => None end) l.

(** What the API server ever stored of Machines: what it answers is stored, and a UID and a
    resource version identify one state of one object. *)
Record storage {W : Type} `{API W} (stored : Machine → Prop) : Prop := {
  stored_once x y : stored x → stored y → m_UID x = m_UID y → m_ResourceVersion x = m_ResourceVersion y → x = y;
  stored_got key w m : (GetMachine key w).1 = Ok m → stored m;
  stored_patched base updated w m : (SendPatchMachine base updated true w).1 = Ok m → stored m
}.

Section races.
Context `{KubeLib} {W : Type} `{API W} (stored : Machine → Prop) (Hst : storage (W:=W) stored).
Context (r : MachineQuarantineReconciler) (cluster : Cluster) (request : string).

(** Whatever the server stored under the UID and the version may be deleted. *)
Definition safe_to_delete (p : string * string) : Prop :=
  ∀ x, stored x → m_UID x = p.1 → m_ResourceVersion x = p.2 →
    status_of x = StatusReplacing ∧ eligible cluster request x.

Lemma request_run_deletions sent m l :
  request_run (W:=W) r cluster request sent m l →
  length (deletions l) ≤ (if sent then 0 else 1) ∧ Forall safe_to_delete (deletions l).
Proof.
  induction 1 as [| | | | |m l Hs Ha He _ [IHl IHs]]; simpl in *; try (split; [lia|by constructor]); try done.
  split; [lia|]. constructor; [|done]. intros x Hx Hu Hv. simpl in *.
  assert (Hm : stored m) by (destruct Ha as [(k & w & Hg)|(b & u & w & Hp)];
    [by eapply stored_got|by eapply stored_patched]).
  by rewrite (stored_once _ Hst x m).
Qed.
End races.

(** C2: a Machine is deleted as it was decided on, whatever happens meanwhile: a reconcile
    sends at most one deletion, and the API server, which deletes only a Machine with the
    UID and at the version the deletion names, finds there a Machine that is not being
    deleted, still asks to be replaced, by a request that can be read, is replacing, and
    passes every guard for the Cluster it was read with: a Machine marked, paused, opted
    out or no longer asking by the time the deletion arrives is not deleted. *)
Theorem deletion_is_race_free `{KubeLib} {HK : KubeLaws} {W R : Type} `{API W} `{InfraAPI W} `{!Locator W R}
    {HL : LocatorLaws W R} {HV : VersionLaws W} (stored : Machine → Prop) (Hst : storage (W:=W) stored)
    (r : MachineQuarantineReconciler) (key : ObjectKey) (s : Sys W R) :
  ∃ l, trace (ReconcileQuarantine r key s).2 = trace s ++ l ∧
    (deletions l = [] ∨
     ∃ uid version m request cluster (w : W), deletions l = [(uid, version)] ∧
       (GetMachine key (world s)).1 = Ok m ∧
       (GetCluster (MkKey (m_Namespace m) (m_ClusterName m)) w).1 = Ok cluster ∧
       ∀ x, stored x → m_UID x = uid → m_ResourceVersion x = version →
         m_Deleting x = false ∧ m_Annotations x !! ReplaceAnnotation = Some request ∧
         is_ok (ParseRequest request) = true ∧ status_of x = StatusReplacing ∧ guardReplace cluster x = None).
Proof.
  destruct (runs_requests r key s) as (l & Ht & Hl). exists l. split; [done|].
  destruct (decide (l = [])) as [->|Hne]; [by left|].
  destruct (Hl Hne) as (m & Hm & _ & [|Hgone|request cluster w l' Hreq Hrej Hc Hsel Hrun]); [by left..|].
  destruct (request_run_deletions stored Hst _ _ _ _ _ _ Hrun) as [Hlen Hsafe].
  destruct (deletions l') as [|[uid version] [|]] eqn:Ed; [by left|right|simpl in Hlen; lia].
  exists uid, version, m, request, cluster, w. split_and!; [done|done|done|].
  intros x Hx Hu Hv. apply Forall_cons in Hsafe as [Hsafe _].
  destruct (Hsafe x Hx Hu Hv) as (? & ? & ? & ? & ?). done.
Qed.

(** ** The way to the end of a request *)

(** How many status changes may still come. *)
Definition steps_left (status : string) : nat :=
  if IsRejected status then 0
  else if decide (status = StatusReplacing) then 1
  else if decide (status = StatusQuarantining) then 2 else 3.

(** The status changes sent: from which status to which. *)
Definition status_changes (l : list Effect) : list (string * string) :=
  omap (fun e => match e with PatchMachine base updated _ => Some (status_of base, status_of updated) | _ => None end) l.

Definition headway (change : string * string) : Prop := steps_left change.2 < steps_left change.1.

Lemma advances_headway s s' : advances s s' → headway (s, s').
Proof.
  unfold headway. simpl. destruct 1 as [s Hr H1 H2| |s reason Hr].
  - unfold steps_left at 2. rewrite Hr, !decide_False by done. vm_compute. lia.
  - vm_compute. lia.
  - assert (Hrej : IsRejected (RejectedStatus reason) = true) by (apply HasPrefix_spec; by eexists).
    unfold steps_left. rewrite Hrej, Hr. repeat case_decide; lia.
Qed.

Lemma status_of_set_plain m status : status ≠ "" → status_of (set_status m status) = status.
Proof. exact (status_of_set m status ""). Qed.

(** Each change is measured from the status the one before led to. *)
Lemma run_headway `{KubeLib} {W : Type} `{API W} r cluster request sent m l :
  request_run (W:=W) r cluster request sent m l →
  Forall headway (status_changes l) ∧ length (status_changes l) ≤ steps_left (status_of m).
Proof.
  induction 1 as [| |sent m status Hadv|sent m status m' l Hadv _ _ Hm' _ [IHh IHl]| |];
    cbn [status_changes omap list_omap] in *; try (split; [done|simpl; lia]); try done;
    pose proof (advances_headway _ _ Hadv) as Hh;
    rewrite (status_of_set_plain _ status) by (by eapply advances_not_empty);
    unfold headway in Hh; simpl in Hh.
  - split; [by repeat constructor|simpl; lia].
  - split; [by constructor|]. rewrite Hm', status_of_set in IHl by (by eapply advances_not_empty).
    simpl. fold (status_changes l). lia.
Qed.

(** C18: a replace request comes to an end: each status change a reconcile sends, but the
    removal of the status of a request that is gone, lowers the number of changes that
    may still come, which is three before the first, one in replacing and none once
    rejected; and a reconcile sends no more of them than are left from the status the
    Machine was read in. So as long as nobody else writes the status, a request changes
    status three times at most and never goes back to a status it left. *)
Theorem request_makes_headway `{KubeLib} {HK : KubeLaws} {W R : Type} `{API W} `{InfraAPI W} `{!Locator W R}
    {HL : LocatorLaws W R} {HV : VersionLaws W} (r : MachineQuarantineReconciler) (key : ObjectKey) (s : Sys W R) (m : Machine) :
  (GetMachine key (world s)).1 = Ok m →
  ∃ l, trace (ReconcileQuarantine r key s).2 = trace s ++ l ∧
    (m_Annotations m !! ReplaceAnnotation = None ∧ l = [PatchMachine m (set_status m "") true] ∨
     Forall headway (status_changes l) ∧ length (status_changes l) ≤ steps_left (status_of m)).
Proof.
  intros Hm. destruct (runs_requests r key s) as (l & Ht & Hl). exists l. split; [done|].
  destruct (decide (l = [])) as [->|Hne]; [right; split; [constructor|simpl; lia]|].
  destruct (Hl Hne) as (m' & Hm' & _ & Htrace). rewrite Hm in Hm'. injection Hm' as <-.
  destruct Htrace as [|Hgone|request cluster w l' _ _ _ _ Hrun]; [done|by left|right]. by eapply run_headway.
Qed.

(** ** Witnesses *)

#[local] Existing Instance lib.
#[local] Existing Instance lib_laws.
#[local] Existing Instance api.
#[local] Existing Instance infra.

#[local] Existing Instance api_versions.

Lemma reconcile_refines_requests_witness :
  ∃ l, trace (ReconcileQuarantine q_reconciler q_key (q_start asked)).2 = [] ++ l ∧
    request_trace (W:=World) q_reconciler (q_machine asked) l.
Proof.
  destruct (reconcile_refines_requests q_reconciler q_key (q_start asked)) as (l & Ht & Hl).
  exists l. split; [exact Ht|]. destruct Hl as (m & Hm & _ & Hrun).
  - intros ->. apply (f_equal length) in Ht. vm_compute in Ht. discriminate.
  - vm_compute in Hm. injection Hm as <-. exact Hrun.
Defined.

Lemma request_makes_headway_witness :
  ∃ l, trace (ReconcileQuarantine q_reconciler q_key (q_start asked)).2 = [] ++ l ∧ Forall headway (status_changes l).
Proof.
  destruct (request_makes_headway q_reconciler q_key (q_start asked) (q_machine asked) asked_machine) as (l & Ht & Hl).
  exists l. split; [exact Ht|]. destruct Hl as [[Hgone _]|[Hh _]]; [vm_compute in Hgone; discriminate|exact Hh].
Defined.

(** The states of one Machine's history on the way to its deletion: a patch is accepted when
    it makes the next state from the current one. *)
Definition next_status (n : nat) : string :=
  match n with 0 => "" | 1 => StatusQuarantining | _ => StatusReplacing end.

Definition state_at (n : nat) : Machine := set_version (set_status (q_machine asked) (next_status n)) (pretty n).

Definition lift {S A} (c : state World A) : state (S * World) A :=
  fun p => let '(a, w) := c p.2 in (a, (p.1, w)).

#[local] Instance versioned : API (nat * World) := {|
  GetCluster := fun k => lift (@GetCluster World api k);
  GetMachine := fun k p => (if decide (machine_key (state_at p.1) = k) then Ok (state_at p.1) else Err not_found, p);
  ListMachines := fun ns ls => lift (@ListMachines World api ns ls);
  ListMachineHealthChecks := fun ns => lift (@ListMachineHealthChecks World api ns);
  SendPatchMachine := fun base updated lock p =>
    if decide (base = state_at p.1 ∧ updated = set_status base (next_status (S p.1)))
    then (Ok (state_at (S p.1)), (S p.1, p.2)) else (Err (EApi Conflict "conflict"), p);
  SendDeleteMachine := fun m uid version => lift (@SendDeleteMachine World api m uid version);
  GetClient := fun k => lift (@GetClient World api k);
  GetUncachedClient := fun k => lift (@GetUncachedClient World api k);
  WatchRequests := fun k => lift (@WatchRequests World api k);
  WorkloadMapping := fun k gvk => lift (@WorkloadMapping World api k gvk);
  ListNodes := fun k => lift (@ListNodes World api k);
  ListRequests := fun k => lift (@ListRequests World api k);
  GetRequest := fun k name => lift (@GetRequest World api k name);
  SendPatchRequestStatus := fun k base updated => lift (@SendPatchRequestStatus World api k base updated);
  Now := lift (@Now World api)
|}.

#[local] Instance versioned_infra {S} : InfraAPI (S * World) := {|
  RuleMapping := fun v => lift (@RuleMapping World infra v);
  SendCreateRule := fun v rule => lift (@SendCreateRule World infra v rule);
  GetRule := fun v name => lift (@GetRule World infra v name);
  ListRules := fun v ls => lift (@ListRules World infra v ls);
  ProviderMapping := fun g k => lift (@ProviderMapping World infra g k);
  GetProviderObject := fun g k key => lift (@GetProviderObject World infra g k key);
  ListPods := fun ns ls => lift (@ListPods World infra ns ls);
  GetResourceClaim := fun key => lift (@GetResourceClaim World infra key)
|}.

Lemma state_at_next n version :
  set_version (set_status (state_at n) (next_status (S n))) version
  = set_version (set_status (q_machine asked) (next_status (S n))) version.
Proof.
  destruct n as [|[|n]]; unfold state_at, set_version, set_status, set_annotations; simpl; f_equal;
    try by rewrite insert_insert_eq.
Qed.

#[local] Instance versioned_versions : VersionLaws (nat * World).
Proof.
  constructor. intros base updated [n w] m. simpl. case_decide as Hd; [|done]. destruct Hd as [-> ->].
  intros [= <-]. symmetry. apply state_at_next.
Qed.

Lemma versioned_storage : storage (W:=nat * World) (fun x => ∃ n, x = state_at n).
Proof.
  constructor.
  - intros x y [n ->] [k ->] _ Hv. unfold state_at in Hv. simpl in Hv. by apply (inj pretty) in Hv as ->.
  - intros key [n w] m. simpl. case_decide; [|done]. intros [= <-]. by exists n.
  - intros base updated [n w] m. simpl. case_decide; [|done]. intros [= <-]. by exists (S n).
Qed.

Definition a_history : Sys (nat * World) unit := MkSys (0, q_world asked) [] tt.

(** The Machine at version 2, replacing, is deleted, and none at another version. *)
Lemma deletion_is_race_free_witness :
  ∃ l, trace (ReconcileQuarantine q_reconciler q_key a_history).2 = [] ++ l ∧
    ∃ version, deletions l = [("m-uid", version)] ∧
      ∀ n, m_ResourceVersion (state_at n) = version → status_of (state_at n) = StatusReplacing.
Proof.
  destruct (deletion_is_race_free (fun x => ∃ n, x = state_at n) versioned_storage q_reconciler q_key a_history) as (l & Ht & Hl).
  exists l. split; [exact Ht|].
  assert (Hd : deletions l = [("m-uid", "2")]) by (simpl app in Ht; rewrite <- Ht; vm_compute; reflexivity).
  destruct Hl as [Hnone|(uid & version & m & request & cluster & w & Hd' & _ & _ & Hx)].
  - rewrite Hd in Hnone. discriminate.
  - rewrite Hd in Hd'. injection Hd' as <- <-. exists "2". split; [exact Hd|].
    intros n Hn. apply (Hx (state_at n)); [exists n; reflexivity|reflexivity|exact Hn].
Defined.
