(* ===== verification/Replacement.v ===== *)
(** * A replace request is carried out

    The other half of [deleted_only_when_quarantined]: where nothing stands in its way
    ([obliging]), a request is carried out by the reconcile that reads it, from whatever
    status it got to before, until its Machine is gone from the API server. *)

From S2P Require Import Prelude GoStrings Kube KubeModel WorldModel Calls Capi Quarantine Rules Locator LocatorFacts QuarantineController QuarantineFacts Requests.
Open Scope stdpp_scope.

(** The device's rule is in place, in the version the cluster serves. *)
Definition ruled_in `{KubeLib} {W : Type} `{InfraAPI W} (version : string) (d : Device) (w : W) : Prop :=
  ∃ rule, (GetRule version (RuleName d) w).1 = Ok rule ∧ conflict d rule = false.

Section obliging.
Context `{KubeLib} {W R : Type} `{API W} `{InfraAPI W} `{!Locator W R}.

(** Nothing stands in the way of the devices [ds] of the Machine [m], as long as [J]: the
    Cluster can be read, DeviceTaintRules are served in [version] alone, the Machine is
    found to hold [held], a rule that is made is there to be read or was there before, and
    what is read or made for the request leaves all this as it is.

    [stored] is the Machine as the API server stores it, which nobody else writes. Patches
    are under optimistic locking, and deletions under the preconditions they carry: what is
    known is only that a patch of the Machine as it is stored is accepted, and its answer
    stored, and that a deletion that names the UID and the version stored is. *)
Record obliging (J : W → Prop) (stored : W → option Machine) (version : string) (cluster : Cluster) (m : Machine)
    (held ds : list Device) : Prop := {
  obliging_reads {A} (c : state W A) w : api_read c → J w → J (c w).2 ∧ stored (c w).2 = stored w;
  obliging_cluster w : J w → (GetCluster (MkKey (m_Namespace m) (m_ClusterName m)) w).1 = Ok cluster;
  obliging_patch base updated w : J w → stored w = Some base →
    ∃ m', (SendPatchMachine base updated true w).1 = Ok m' ∧
      J (SendPatchMachine base updated true w).2 ∧ stored (SendPatchMachine base updated true w).2 = Some m';
  obliging_delete m' w : J w → stored w = Some m' →
    let d := SendDeleteMachine m' (m_UID m') (m_ResourceVersion m') w in d.1 = Ok tt ∧ stored d.2 = None;
  obliging_served v w : J w →
    (RuleMapping v w).1 = (if decide (v = version) then Mapped else NoMatch) ∧
    J (RuleMapping v w).2 ∧ stored (RuleMapping v w).2 = stored w;
  obliging_held s : J (world s) → (locate (R:=R) cluster m s).1 = Ok held ∧
    J (world (locate (R:=R) cluster m s).2) ∧ stored (world (locate (R:=R) cluster m s).2) = stored (world s);
  obliging_create d owner now w : J w → d ∈ ds →
    let '(res, w') := SendCreateRule version (ruleFor d owner now) w in
    J w' ∧ stored w' = stored w ∧ ruled_in version d w' ∧
    match res with Ok _ => True | Err e => IsAlreadyExists e = true end;
  obliging_read name w : J w → J (GetRule version name w).2 ∧ stored (GetRule version name w).2 = stored w;
  obliging_list ls w : J w → is_ok (ListRules version ls w).1 = true ∧
    J (ListRules version ls w).2 ∧ stored (ListRules version ls w).2 = stored w;
  obliging_stay d : stable (W:=W) (ruled_in version d) (fun A c => api_call c ∨ infra_call c)
}.
End obliging.

Section carried_out.
Context `{KubeLib} `{!KubeLaws} {W R : Type} `{API W} `{InfraAPI W} `{!Locator W R} `{!LocatorLaws W R} `{!VersionLaws W}.
Context (r : MachineQuarantineReconciler) (J : W → Prop) (stored : W → option Machine) (version : string)
  (cluster : Cluster) (m0 : Machine) (held ds : list Device).
Context (Hdry : q_DryRun r = false) (Hversion : version ∈ ruleVersions).
Context (Hob : obliging (R:=R) J stored version cluster m0 held ds).
Context (t0 : list Effect).

(** The Machine [m] is stored, the rules of [done] are there, and nothing sent is taken
    back. *)
Definition good (m : Machine) (done : list Device) (s : Sys W R) : Prop :=
  J (world s) ∧ stored (world s) = Some m ∧ (∀ d, d ∈ done → ruled_in version d (world s)) ∧ t0 `prefix_of` trace s.

Lemma keeps_emit_good (m : Machine) done e : keeps (good m done) (emit e).
Proof. intros s (HJ & Hm & Hd & Ht). split_and!; [done|done|done|]. by apply prefix_app_r. Qed.

(** A call that answers [Q] as long as [J], and leaves the Machine. *)
Lemma good_call {A} m done (c : state W A) (Q : A → Prop) :
  api_call c ∨ infra_call c → (∀ w, J w → Q (c w).1 ∧ J (c w).2 ∧ stored (c w).2 = stored w) →
  triple (good m done) (call c) (fun a s => Q a ∧ good m done s).
Proof.
  intros Hc HQ s (HJ & Hm & Hd & Ht). unfold call. destruct (HQ _ HJ) as (HQa & HJ' & Hm').
  assert (Hs : ∀ d, d ∈ done → ruled_in version d (c (world s)).2)
    by (intros d Hin; by apply (obliging_stay _ _ _ _ _ _ _ Hob d A c _ Hc), Hd).
  destruct (c (world s)) as [a w]. simpl in *. split; [done|]. split_and!; simpl; [done|by etrans|done|done].
Qed.

Lemma good_api {A} m done (c : state W A) (Q : A → Prop) :
  api_read c → (∀ w, J w → Q (c w).1) → triple (good m done) (call c) (fun a s => Q a ∧ good m done s).
Proof.
  intros Hc HQ. apply good_call; [left; by apply other_calls, others_read|]. intros w HJ.
  split; [by apply HQ|]. by apply (obliging_reads _ _ _ _ _ _ _ Hob).
Qed.

(** Sequencing under [good]. *)
Lemma good_bind {A B} m done (c : state (Sys W R) A) (k : A → state (Sys W R) B) (Q : A → Prop) G Q' :
  triple (good m done) c (fun a s => Q a ∧ G a s) → (∀ a, Q a → triple (G a) (k a) Q') →
  triple (good m done) (c ≫= k) Q'.
Proof.
  intros Hc Hk. eapply triple_bind; [exact Hc|]. intros a s [Ha Hs]. by apply Hk.
Qed.

Lemma good_ret {A} m done (a : A) (Q : A → Prop) : Q a → triple (good m done) (mret a) (fun a s => Q a ∧ good m done s).
Proof. intros HQ. by apply triple_ret. Qed.

Lemma served_version_good m done versions :
  version ∈ versions →
  triple (good m done) (served_version (W:=W) (R:=R) versions) (fun res s => res = Ok version ∧ good m done s).
Proof.
  induction versions as [|v versions IH]; intros Hin; [set_solver|]. cbn [served_version].
  eapply good_bind; [apply (good_call _ _ _ (fun a => a = if decide (v = version) then Mapped else NoMatch));
    [right; constructor|apply (obliging_served _ _ _ _ _ _ _ Hob)]|].
  intros a ->. case_decide as Hv; [apply good_ret; by rewrite Hv|]. apply IH. set_solver.
Qed.

Lemma kind_good m done : triple (good m done) (kind (W:=W) (R:=R)) (fun res s => res = Ok version ∧ good m done s).
Proof. by apply served_version_good. Qed.

Lemma check_good m done d :
  d ∈ done → triple (good m done) (check (W:=W) (R:=R) version d) (fun res s => res = Ok tt ∧ good m done s).
Proof.
  intros Hd s Hs. unfold check, mbind, state_bind.
  pose proof (good_call m done (GetRule version (RuleName d)) (fun _ => True) (or_intror (calls_GetRule _ _))
    (fun w Hw => conj I (obliging_read _ _ _ _ _ _ _ Hob _ w Hw)) s Hs) as [_ Hk].
  destruct Hs as (_ & _ & Hr & _). destruct (Hr d Hd) as (rule & Hget & Hconf). unfold call in *.
  destruct (GetRule version (RuleName d) (world s)) as [res w]. simpl in *. subst res. by rewrite Hconf.
Qed.

Lemma Ensure_good m done d owner :
  d ∈ ds → triple (good m done) (Ensure (W:=W) (R:=R) d owner) (fun res s => is_ok res = true ∧ good m (d :: done) s).
Proof.
  intros Hd. unfold Ensure, bind_ok. eapply good_bind; [apply kind_good|]. intros res ->.
  eapply good_bind; [apply (good_api _ _ _ (fun _ => True)); [constructor|done]|]. intros now _. cbv zeta.
  eapply triple_bind; [apply triple_keeps, keeps_emit_good|]. intros ?.
  eapply (good_bind _ _ _ _ (fun res => match res with Ok _ => True | Err e => IsAlreadyExists e = true end)
    (fun _ => good m (d :: done))).
  { intros s (HJ & Hm & Hr & Ht). unfold call.
    pose proof (obliging_create _ _ _ _ _ _ _ Hob d owner now (world s) HJ Hd) as Hc.
    assert (Hkeep : ∀ d', d' ∈ done → ruled_in version d' (SendCreateRule version (ruleFor d owner now) (world s)).2).
    { intros d' Hin. apply (obliging_stay _ _ _ _ _ _ _ Hob d' _ (SendCreateRule version (ruleFor d owner now))); [|by apply Hr].
      right. constructor. }
    destruct (SendCreateRule _ _ (world s)) as [res w]. destruct Hc as (HJ' & Hm' & Hruled & Hres). split; [exact Hres|].
    split_and!; simpl; [done|by etrans| |done]. intros d' [->|Hin]%elem_of_cons; [done|by apply Hkeep]. }
  intros [u|e] He; [by apply good_ret|]. rewrite He.
  eapply good_bind; [apply check_good; set_solver|]. intros c ->. by apply good_ret.
Qed.

Lemma good_weaken m done done' s : (∀ d, d ∈ done' → d ∈ done) → good m done s → good m done' s.
Proof. intros Hin (HJ & Hm & Hr & Ht). split_and!; [done|done| |done]. intros d Hd. by apply Hr, Hin. Qed.

Lemma ensure_all_good m done devices owner :
  (∀ d, d ∈ devices → d ∈ ds) →
  triple (good m done) (ensure_all (W:=W) (R:=R) devices owner) (fun res s => is_ok res = true ∧ good m (devices ++ done) s).
Proof.
  revert done. induction devices as [|d devices IH]; intros done Hin; cbn [ensure_all]; [by apply good_ret|].
  unfold bind_ok. eapply (good_bind _ _ _ _ (fun res => is_ok res = true) (fun _ => good m (d :: done)));
    [apply Ensure_good, Hin; set_solver|]. intros [b|e] Hok; [|done].
  eapply triple_weaken; [apply (IH (d :: done)); set_solver|done|].
  intros a s [Ha Hs]. split; [done|]. eapply good_weaken; [|exact Hs]. intros d'. set_solver.
Qed.

Lemma confirm_all_good m done devices :
  (∀ d, d ∈ devices → d ∈ done) →
  triple (good m done) (confirm_all (W:=W) (R:=R) devices) (fun res s => res = Ok tt ∧ good m done s).
Proof.
  induction devices as [|d devices IH]; intros Hin; cbn [confirm_all]; [by apply good_ret|].
  eapply (good_bind _ _ _ _ (fun res => res = Ok true) (fun _ => good m done)).
  - unfold Exists, bind_ok. eapply good_bind; [apply kind_good|]. intros res ->.
    eapply good_bind; [apply check_good, Hin; set_solver|]. intros c ->. by apply good_ret.
  - intros res ->. apply IH. set_solver.
Qed.

(** The Machine a step returns is the one stored then, the same object as before. *)
Definition set_well (done : list Device) (res : Machine * result error unit) (s : Sys W R) : Prop :=
  (res.2 = Ok tt ∧ same_machine m0 res.1) ∧ good res.1 done s.

Lemma setStatus_good (m : Machine) done status :
  same_machine m0 m → triple (good m done) (setStatus (W:=W) (R:=R) m status) (set_well done).
Proof.
  intros Hm. unfold setStatus. cbv zeta. destruct (_ || _) in |- *; [by apply triple_ret|].
  intros s (HJ & Hst & Hr & Ht). unfold patch_machine, mbind, state_bind, emit, call. cbn [world trace memory].
  destruct (obliging_patch _ _ _ _ _ _ _ Hob m (set_status m status) (world s) HJ Hst) as (m' & Hp & HJ' & Hst').
  pose proof (locked_patch m (set_status m status) _ _ Hp) as Hv.
  assert (Hr' : ∀ d, d ∈ done → ruled_in version d (SendPatchMachine m (set_status m status) true (world s)).2).
  { intros d Hin. apply (obliging_stay _ _ _ _ _ _ _ Hob d _ _ (world s)); [left; constructor|by apply Hr]. }
  destruct (SendPatchMachine _ _ _ (world s)) as [res w']. simpl in *. subst res.
  split; [|split_and!; [done|done|done|by apply prefix_app_r]].
  split; [done|]. eapply same_machine_trans; [exact Hm|]. by rewrite Hv.
Qed.

Lemma advance_good (m : Machine) done status next :
  same_machine m0 m → triple (good m done) (advance (W:=W) (R:=R) m status next) (set_well done).
Proof.
  intros Hm. unfold advance. case_decide; [|by apply setStatus_good].
  by apply triple_ret.
Qed.

(** The deletion of the Machine, at the version it was stored at, was sent since and
    accepted. *)
Definition deletion_sent (s : Sys W R) : Prop :=
  stored (world s) = None ∧
  ∃ l m, trace s = t0 ++ l ∧ DeleteMachine m (m_UID m) (m_ResourceVersion m) ∈ l ∧ same_machine m0 m.

Lemma delete_machine_good (m : Machine) done asked devices :
  same_machine m0 m →
  triple (good m done) (delete_machine (W:=W) (R:=R) r m asked devices) (fun res s => res = Ok tt ∧ deletion_sent s).
Proof.
  intros Hm s (HJ & Hst & _ & [l0 Ht0]). unfold delete_machine, mbind, state_bind, emit, call. cbn [world trace memory].
  destruct (obliging_delete _ _ _ _ _ _ _ Hob m (world s) HJ Hst) as [Hd Hgone].
  destruct (SendDeleteMachine m _ _ (world s)) as [res w]. simpl in *. subst res. simpl.
  split; [done|]. split; [done|]. rewrite Ht0. eexists (l0 ++ [_; _]), m. split; [by rewrite <- !(assoc_L (++))|].
  split; [|done]. apply elem_of_app. right. left.
Qed.

(** The devices come back, and the Machine to delete. *)
Definition quarantined (res : Machine * result error (option (list Device))) : Prop :=
  res.2 = Ok (Some ds) ∧ same_machine m0 res.1.

Lemma quarantine_devices_good done asked names status :
  Select held (q_Drivers r) names = Ok ds →
  triple (good m0 done) (quarantine_devices r cluster m0 asked names status)
    (fun res s => quarantined res ∧ good res.1 ds s).
Proof.
  intros Hsel. unfold quarantine_devices.
  eapply (good_bind _ _ _ _ (fun res => res = Ok held) (fun _ => good m0 [])).
  { intros s (HJ & Hm & Hr & [l0 Ht0]). destruct (obliging_held _ _ _ _ _ _ _ Hob s HJ) as (Hh & HJ' & Hm').
    split; [done|]. split_and!; [done|by rewrite Hm'|set_solver|].
    destruct (locate_spec (fun _ => True) cluster m0 s) as [_ (l & Ht & _)]. rewrite Ht, Ht0. by do 2 apply prefix_app_r. }
  intros res ->. cbn [mbind result_bind]. rewrite Hsel, Hdry.
  eapply good_bind; [by apply advance_good|]. intros [m1 res] [Hres Hm1]. simpl in *. subst res.
  eapply (good_bind _ _ _ _ _ (fun _ => _)); [by apply ensure_all_good|]. intros [u|e] Hok; [|done].
  eapply (good_bind _ _ _ _ _ (fun _ => _)); [apply confirm_all_good; set_solver|]. intros res ->.
  eapply good_bind; [by apply advance_good|]. intros [m2 res] [Hres Hm2]. simpl in *. subst res.
  eapply triple_bind; [apply triple_keeps, keeps_emit_good|]. intros ?.
  apply triple_ret. intros s Hs. split; [done|]. eapply good_weaken; [|exact Hs]. set_solver.
Qed.

Lemma carry_out_good names request status :
  guardReplace cluster m0 = None → ParseRequest request = Ok names → Select held (q_Drivers r) names = Ok ds →
  triple (good m0 []) (carry_out r cluster m0 request status) (fun res s => res = Ok tt ∧ deletion_sent s).
Proof.
  intros Hg Hp Hsel. unfold carry_out. rewrite Hg, Hp.
  eapply (good_bind _ _ _ _ (fun res => is_ok res = true) (fun _ => good m0 [])).
  { unfold made_before. case_decide; [|by apply good_ret]. unfold Of, bind_ok.
    eapply (good_bind _ _ _ _ (fun res => is_ok res = true) (fun _ => good m0 [])).
    - eapply good_bind; [apply kind_good|]. intros res ->.
      eapply good_bind; [apply (good_call _ _ _ (fun res => is_ok res = true));
        [right; constructor|apply (obliging_list _ _ _ _ _ _ _ Hob)]|].
      intros [items|e] Hok; [by apply good_ret|done].
    - intros [made|e] Hok; [by apply good_ret|done]. }
  intros [[devices|]|e] Hok; [| |done].
  - rewrite Hdry. by apply delete_machine_good.
  - eapply good_bind; [by apply quarantine_devices_good|]. intros [m' res] [Hres Hm']. simpl in *. subst res.
    by apply delete_machine_good.
Qed.
End carried_out.

(** C13: a replace request that can be carried out is, by the reconcile that reads it. For a
    Machine that is not being deleted, carries a request that can be read and was not
    rejected, passes every guard, and holds devices the request selects, where nothing
    stands in the way of quarantining them, the reconcile succeeds and the Machine is gone
    from the API server. The deletion was sent for this very object, and accepted, so it
    names the version the Machine was stored at after the patches of its status; whether
    the reconcile begins with the request or finds it quarantining or replacing, with the
    rules made before or without. *)
Theorem replace_request_is_carried_out `{KubeLib} {HK : KubeLaws} {W R : Type} `{API W} `{InfraAPI W} `{!Locator W R}
    {HL : LocatorLaws W R} {HV : VersionLaws W} (r : MachineQuarantineReconciler) (key : ObjectKey) (s : Sys W R)
    (J : W → Prop) (stored : W → option Machine) (version : string) (cluster : Cluster) (m : Machine)
    (request : string) (names : list string) (held ds : list Device)
    (Hdry : q_DryRun r = false) (Hversion : version ∈ ruleVersions)
    (Hob : obliging (R:=R) J stored version cluster m held ds) (HJ : J (world s)) (Hst : stored (world s) = Some m)
    (Hm : (GetMachine key (world s)).1 = Ok m) (Hdel : m_Deleting m = false)
    (Hreq : m_Annotations m !! ReplaceAnnotation = Some request)
    (Hrej : IsRejected (get (m_Annotations m) ReplaceStatusAnnotation) = false)
    (Hselected : ∀ matches, q_ClusterSelector r = Some matches → matches (cl_Labels cluster) = true)
    (Hg : guardReplace cluster m = None) (Hp : ParseRequest request = Ok names)
    (Hsel : Select held (q_Drivers r) names = Ok ds) :
  (ReconcileQuarantine r key s).1 = Ok 0%Z ∧ stored (world (ReconcileQuarantine r key s).2) = None ∧
  ∃ l m', trace (ReconcileQuarantine r key s).2 = trace s ++ l ∧
    DeleteMachine m' (m_UID m) (m_ResourceVersion m') ∈ l ∧ same_machine m m'.
Proof.
  enough (Ht : triple (good (R:=R) J stored version (trace s) m []) (replace r m)
    (fun res s' => res = Ok tt ∧ deletion_sent stored m (trace s) s')).
  { destruct (obliging_reads _ _ _ _ _ _ _ Hob _ (world s) (reads_GetMachine key) HJ) as [HJ' Hst'].
    set (s1 := MkSys (GetMachine key (world s)).2 (trace s) (memory s)).
    assert (Hrun : ReconcileQuarantine r key s = (x ← replace r m; mret (match x with
        | Ok _ => Ok 0%Z | Err e => if IsConflict e then Ok conflictRetry else Err e end)) s1).
    { subst s1. unfold ReconcileQuarantine, mbind at 1, state_bind at 1. unfold call at 1.
      destruct (GetMachine key (world s)) as [res w]. simpl in Hm. by subst res. }
    rewrite Hrun. destruct (Ht s1) as (Hres & Hgone & l & m' & Htr & Hin & Hk & Hu);
      [split_and!; simpl; [done|by etrans|set_solver|done]|].
    unfold mbind, state_bind. destruct (replace r m s1) as [res s']. simpl in *. subst res. split_and!; [done|done|].
    exists l, m'. rewrite <- Hu. by split_and!. }
  unfold replace. cbv zeta. rewrite Hdel, Hreq, Hrej.
  eapply (good_bind J stored version (trace s) _ _ _ _ (fun res => res = Ok cluster) (fun _ => good J stored version (trace s) m []));
    [eapply (good_api _ _ _ _ _ _ _ Hob); [constructor|apply (obliging_cluster _ _ _ _ _ _ _ Hob)]|].
  intros res ->.
  assert (Hs : match q_ClusterSelector r with Some matches => negb (matches (cl_Labels cluster)) | None => false end = false)
    by (destruct (q_ClusterSelector r); [by rewrite Hselected|done]).
  rewrite Hs. by eapply carry_out_good.
Qed.

(** ** Witness

    An API server that keeps the one Machine under its version: a patch is accepted only of
    the Machine as it is stored, and given a new version, and a deletion only of the UID
    and the version stored. *)

#[local] Existing Instance lib.
#[local] Existing Instance lib_laws.
#[local] Existing Instance versioned_infra.

#[local] Instance locking : API (option Machine * World) := {|
  GetCluster := fun k => lift (@GetCluster World api k);
  GetMachine := fun k p => (match p.1 with
    | Some m => if decide (machine_key m = k) then Ok m else Err not_found
    | None => Err not_found
    end, p);
  ListMachines := fun ns ls => lift (@ListMachines World api ns ls);
  ListMachineHealthChecks := fun ns => lift (@ListMachineHealthChecks World api ns);
  SendPatchMachine := fun base updated lock p =>
    if decide (p.1 = Some base)
    then let m := set_version updated (m_ResourceVersion base +:+ "'") in (Ok m, (Some m, p.2))
    else (Err (EApi Conflict "conflict"), p);
  SendDeleteMachine := fun m uid version p =>
    if decide ((fun m => (m_UID m, m_ResourceVersion m)) <$> p.1 = Some (uid, version))
    then (Ok tt, (None, p.2)) else (Err (EApi Conflict "conflict"), p);
  GetClient := fun k => lift (@GetClient World api k);
  GetUncachedClient := fun k => lift (@GetUncachedClient World api k);
  WatchRequests := fun k => lift (@WatchRequests World api k);
  WorkloadMapping := fun k gvk => lift (@WorkloadMapping World api k gvk);
  ListNodes := fun k => lift (@ListNodes World api k);
  ListRequests := fun k => lift (@ListRequests World api k);
  GetRequest := fun k name => lift (@GetRequest World api k name);
  SendPatchRequestStatus := fun k base updated => lift (@SendPatchRequestStatus World api k base updated);
  Now := lift (@Now World api)
|}.

#[local] Instance locking_versions : VersionLaws (option Machine * World).
Proof. constructor. intros base updated p m. simpl. case_decide; [|done]. by intros [= <-]. Qed.

Lemma locking_reads {A} (c : state (option Machine * World) A) p : api_read c → (c p).2 = p.
Proof. destruct p as [m w]. by destruct 1. Qed.

(** The worlds with the VM of [q_world], in which the device has no rule or one that blocks
    it. *)
Definition with_vm (p : option Machine * World) : Prop :=
  ∃ rules, p.2 = set_rules (q_world asked) rules ∧
    ∀ rule, rules !! RuleName q_device = Some rule → conflict q_device rule = false.

Lemma with_vm_held (s : Sys (option Machine * World) unit) :
  with_vm (world s) → Devices q_cluster (q_machine asked) s = (Ok [q_device], s).
Proof. destruct s as [[o w] t []]. intros (rules & Hw & _). simpl in Hw. subst w. vm_compute. reflexivity. Qed.

Lemma made_rule_blocks owner now : conflict q_device (ruleFor q_device owner now) = false.
Proof. vm_compute. reflexivity. Qed.

Lemma locking_keeps_rules {A} (c : state (option Machine * World) A) p :
  api_call c ∨ infra_call c →
  w_rules (c p).2.2 = w_rules p.2 ∨
  ∃ rule, w_rules p.2 !! u_Name rule = None ∧ w_rules (c p).2.2 = <[u_Name rule := rule]> (w_rules p.2).
Proof.
  destruct p as [m w]. intros [Hc|Hc]; [left; destruct Hc; simpl; try case_decide; done|].
  destruct Hc as [|v rule| | | | | |]; try (by left). unfold SendCreateRule, versioned_infra, lift, SendCreateRule, infra.
  cbn [fst snd]. destruct (w_rules w !! u_Name rule) eqn:E; [by left|right]. by exists rule.
Qed.

Lemma with_vm_obliges :
  obliging (R:=unit) with_vm fst "v1" q_cluster (q_machine asked) [q_device] [q_device].
Proof.
  constructor.
  - intros A c p Hc Hp. by rewrite locking_reads.
  - intros [o w] (rules & Hw & _). simpl in Hw. subst w. vm_compute. reflexivity.
  - intros base updated [o w] Hp Ho. simpl in *. rewrite decide_True by done. by eexists.
  - intros m' [o w] Hp Ho. simpl in *. subst o. by rewrite decide_True.
  - intros v p Hp. by destruct p.
  - intros s Hs. unfold locate, KubeVirtLocator. by rewrite (with_vm_held s Hs).
  - intros d owner now [o w] (rules & Hw & Hrules) ->%list_elem_of_singleton. simpl in Hw. subst w.
    unfold SendCreateRule, versioned_infra, lift, SendCreateRule, infra. cbn [w_rules set_rules snd fst].
    change (u_Name (ruleFor q_device owner now)) with (RuleName q_device).
    destruct (rules !! RuleName q_device) as [rule|] eqn:E.
    + split; [exists rules; split; [done|]; intros rule'; rewrite E; apply Hrules|]. split; [done|]. split; [|reflexivity].
      exists rule. split; [|by apply Hrules]. cbn. by rewrite E.
    + split; [|split; [done|split; [|done]]].
      * eexists. split; [reflexivity|]. intros rule. rewrite lookup_insert_eq. intros [= <-]. apply made_rule_blocks.
      * exists (ruleFor q_device owner now). split; [|apply made_rule_blocks]. cbn. by rewrite lookup_insert_eq.
  - intros name p Hp. by destruct p.
  - intros ls p Hp. by destruct p.
  - intros d A c p Hc (rule & Hget & Hconf). exists rule. split; [|done]. simpl in *.
    destruct (locking_keeps_rules c p Hc) as [->|(u & Hu & ->)]; [done|].
    destruct (decide (u_Name u = RuleName d)) as [He|He]; [|by rewrite lookup_insert_ne].
    rewrite <- He, Hu in Hget. done.
Qed.

(** The request as it is made, before anything was done for it. *)
Definition a_request : Sys (option Machine * World) unit := MkSys (Some (q_machine asked), q_world asked) [] tt.

Lemma replace_request_is_carried_out_witness :
  (ReconcileQuarantine q_reconciler q_key a_request).1 = Ok 0%Z ∧
  (world (ReconcileQuarantine q_reconciler q_key a_request).2).1 = None ∧
  ∃ l m', trace (ReconcileQuarantine q_reconciler q_key a_request).2 = [] ++ l ∧
    DeleteMachine m' "m-uid" (m_ResourceVersion m') ∈ l ∧ same_machine (q_machine asked) m'.
Proof.
  apply (replace_request_is_carried_out q_reconciler q_key a_request with_vm fst "v1" q_cluster
    (q_machine asked) RequestQuarantine [] [q_device] [q_device]).
  - reflexivity.
  - by left.
  - exact with_vm_obliges.
  - exists ∅. split; [reflexivity|]. intros rule Hr. vm_compute in Hr. discriminate.
  - reflexivity.
  - vm_compute. reflexivity.
  - reflexivity.
  - vm_compute. reflexivity.
  - vm_compute. reflexivity.
  - intros matches Hq. discriminate.
  - vm_compute. reflexivity.
  - vm_compute. reflexivity.
  - vm_compute. reflexivity.
Defined.

(** Two patches came before it: the deletion names the version the second was answered
    with. *)
Example deletion_names_last_version :
  deletions (trace (ReconcileQuarantine q_reconciler q_key a_request).2) = [("m-uid", "7''")].
Proof. vm_compute. reflexivity. Qed.
