(* ===== verification/Setup.v ===== *)
(** * Registering the controllers (SetupWithManager of internal/controller/)

    What wakes the reconcile of each controller: a [registration] is what SetupWithManager
    builds with controller-runtime, and [enqueued] the keys an event of the primary
    object puts on the queue. [ControllerRuntime] stands for the predicates of that
    library and of Cluster API. The watch on a workload cluster's requests is
    [requestWatch]. Informers deliver what they observe of an object, one observation
    after the other, as events ([delivery]). *)

From S2P Require Import Prelude GoStrings Kube KubeModel Extrr Capi ClusterController Quarantine QuarantineController.
Open Scope stdpp_scope.

Class ControllerRuntime : Type := {
  GenerationChangedPredicate : watch_event Cluster → bool;
  ClusterPausedTransitions : watch_event Cluster → bool;
  predicate_Or : ∀ {O : Type}, list (watch_event O → bool) → watch_event O → bool;
  NewPredicateFuncs : ∀ {O : Type}, (O → bool) → watch_event O → bool
}.

Class ControllerRuntimeLaws `{ControllerRuntime} : Prop := {
  generation_created c : GenerationChangedPredicate (CreateEvent c) = true;
  predicate_Or_exists {O} (ps : list (watch_event O → bool)) e : predicate_Or ps e = existsb (fun p => p e) ps;
  new_predicate_funcs {O} (f : O → bool) e : NewPredicateFuncs f e = f (event_object e)
}.

(** ** Registrations *)

(** A controller: its name, the predicate of the objects it is for, the filter of all its
    watches, its source of Clusters from the cluster cache, and its workers. *)
Record registration (O : Type) : Type := MkRegistration {
  reg_Name : string;
  reg_For : watch_event O → bool;
  reg_EventFilter : option (watch_event O → bool);
  reg_ClusterSource : option (string * (Cluster → list ObjectKey));
  reg_MaxConcurrentReconciles : nat
}.
Arguments MkRegistration {O} reg_Name reg_For reg_EventFilter reg_ClusterSource reg_MaxConcurrentReconciles.
Arguments reg_Name {O} r.
Arguments reg_For {O} r.
Arguments reg_EventFilter {O} r.
Arguments reg_ClusterSource {O} r.
Arguments reg_MaxConcurrentReconciles {O} r.

(** An event of an object enqueues its key when it passes the filter and the predicate;
    one of the cluster cache's source enqueues what the map function gives, unfiltered. *)
Definition enqueued {O} (reg : registration O) (key_of : O → ObjectKey) (e : watch_event O) : list ObjectKey :=
  if match reg_EventFilter reg with Some f => f e | None => true end && reg_For reg e
  then [key_of (event_object e)] else [].

Definition source_enqueued {O} (reg : registration O) (c : Cluster) : list ObjectKey :=
  match reg_ClusterSource reg with Some (_, map) => map c | None => [] end.

Section setup.
Context `{ControllerRuntime}.

Definition set_watching (r : ClusterReconciler) : ClusterReconciler :=
  MkReconciler (r_Table r) (r_DryRun r) (r_PollInterval r) (r_ClusterSelector r) (r_RestartFallback r) true.

Definition cluster_registration (r : ClusterReconciler) (workers : nat) : registration Cluster :=
  MkRegistration ControllerName
    (predicate_Or [GenerationChangedPredicate; ClusterPausedTransitions])
    (match r_ClusterSelector r with
     | Some matches => Some (NewPredicateFuncs (fun c => matches (cl_Labels c)))
     | None => None
     end)
    (Some (ControllerName, clusterToRequest)) workers.

Definition quarantine_registration (workers : nat) : registration Machine :=
  MkRegistration QuarantineControllerName replaceRequestChanged None None workers.
End setup.

(** The watch of [watchRequests]: its name, its map function and its predicates. *)
Record watcher (O : Type) : Type := MkWatcher {
  watch_Name : string;
  watch_Handler : O → list ObjectKey;
  watch_Predicates : list (watch_event O → bool)
}.
Arguments MkWatcher {O} watch_Name watch_Handler watch_Predicates.
Arguments watch_Name {O} w.
Arguments watch_Handler {O} w.
Arguments watch_Predicates {O} w.

Definition requestWatch `{KubeLib} (cluster : ObjectKey) : watcher Unstructured :=
  MkWatcher requestWatchName (fun _ => [cluster]) [requestBecamePending].

Definition watch_enqueued {O} (w : watcher O) (e : watch_event O) : list ObjectKey :=
  if forallb (fun p => p e) (watch_Predicates w) then watch_Handler w (event_object e) else [].

(** ** What informers deliver *)

(** The event of one observation of an object, [None] when it does not exist, after
    another; and whether the predicate lets it through. *)
Definition delivery {O} (old new : option O) : option (watch_event O) :=
  match old, new with
  | None, Some o => Some (CreateEvent o)
  | Some o, Some o' => Some (UpdateEvent o o')
  | Some o, None => Some (DeleteEvent o)
  | None, None => None
  end.

Definition delivered {O} (p : watch_event O → bool) (old new : option O) : bool :=
  match delivery old new with Some e => p e | None => false end.

(** The observation before the [i]th of a history, which starts with nothing observed. *)
Definition before {O} (history : list (option O)) (i : nat) : option O :=
  match i with 0 => None | S j => mjoin (history !! j) end.

(** ** Properties *)

Section spells.
Context {O B : Type} `{EqDecision B} (p : watch_event O → bool) (f : option O → B).
Context (Hp : ∀ old new, f new ≠ f None → f old ≠ f new → delivered p old new = true).

(** A predicate that lets every change of [f] through fires at the start of each spell in
    which [f] stays what it is, unless that is what it is of nothing. *)
Lemma spell_is_delivered (history : list (option O)) (i : nat) (o : O) :
  history !! i = Some (Some o) → f (Some o) ≠ f None →
  ∃ j o', j ≤ i ∧ history !! j = Some (Some o') ∧ delivered p (before history j) (Some o') = true ∧
    ∀ k, j ≤ k ≤ i → f (mjoin (history !! k)) = f (Some o).
Proof.
  revert o. induction i as [|i IH]; intros o Hi Hf.
  { exists 0, o. split_and!; [done|done|apply Hp; naive_solver|]. intros k Hk. replace k with 0 by lia. by rewrite Hi. }
  assert (Hlast : ∀ k, S i ≤ k ≤ S i → f (mjoin (history !! k)) = f (Some o))
    by (intros k Hk; replace k with (S i) by lia; by rewrite Hi).
  destruct (decide (f (mjoin (history !! i)) = f (Some o))) as [He|Hne].
  - destruct (history !! i) as [[o1|]|] eqn:E; [|by simpl in He..]. simpl in He.
    destruct (IH o1 eq_refl) as (j & o' & Hj & Ho & Hd & Hk); [congruence|]. exists j, o'.
    split_and!; [lia|done|done|]. intros k Hk'. destruct (decide (k = S i)) as [->|]; [apply Hlast; lia|].
    rewrite Hk by lia. done.
  - exists (S i), o. split_and!; [lia|done|by apply Hp|done].
Qed.
End spells.

Definition pending_now `{KubeLib} (o : option Unstructured) : bool :=
  match o with Some obj => Pending obj | None => false end.

(** C27: a request does not wait to be read: whatever the watch of a workload cluster
    observes of a request, whenever the request waits for the operator an event that
    began that very spell of waiting woke the reconcile of its Cluster. And nothing else
    wakes it: of all events, exactly the creation of a request that waits and the update
    of one that did not wait before wake the reconcile, and that of this Cluster alone;
    not a deletion, not a generic event, nor the operator's own answer in particular. *)
Theorem pending_request_wakes_its_cluster `{KubeLib} {HL : KubeLaws} (cluster : ObjectKey)
    (history : list (option Unstructured)) :
  (∀ i obj, history !! i = Some (Some obj) → request_waits obj →
     ∃ j obj', j ≤ i ∧ history !! j = Some (Some obj') ∧
       watch_enqueued (requestWatch cluster) <$> delivery (before history j) (Some obj') = Some [cluster] ∧
       ∀ k, j ≤ k ≤ i → ∃ obj'', history !! k = Some (Some obj'') ∧ request_waits obj'') ∧
  (∀ e key, key ∈ watch_enqueued (requestWatch cluster) e ↔ key = cluster ∧
     match e with
     | CreateEvent obj => request_waits obj
     | UpdateEvent old new => ¬ request_waits old ∧ request_waits new
     | DeleteEvent _ | GenericEvent _ => False
     end) ∧
  (∀ old obj complete reason message now, request_waits obj →
     watch_enqueued (requestWatch cluster) (UpdateEvent old (answered_object obj complete reason message now)) = []).
Proof.
  setoid_rewrite <- Pending_request_waits. unfold watch_enqueued. simpl. split_and!.
  - intros i obj Hi Hpend.
    destruct (spell_is_delivered requestBecamePending pending_now) with (history := history) (i := i) (o := obj)
      as (j & obj' & Hj & Hobj & Hd & Hk); [|done|simpl; congruence|].
    + intros old [new|]; unfold delivered; simpl; [|done].
      destruct old as [old|]; simpl; destruct (Pending new); try done. by destruct (Pending old).
    + exists j, obj'. split_and!; [done|done| |].
      * unfold delivered in Hd. destruct (delivery _ _) as [e|]; [|done]. simpl. by rewrite Hd.
      * intros k Hkk. specialize (Hk k Hkk). simpl in Hk. rewrite Hpend in Hk.
        destruct (history !! k) as [[o|]|]; simpl in Hk; eauto; done.
  - intros e key. destruct e as [o|old new|o|o]; simpl; rewrite <- ?Pending_request_waits;
      [destruct (Pending o)|destruct (Pending old), (Pending new)| |];
      simpl; rewrite ?list_elem_of_singleton, ?elem_of_nil; naive_solver.
  - intros old obj complete reason message now Hpend.
    rewrite (pending_answered obj), andb_false_r by done. done.
Qed.

(** The request of a Machine and how far it got. *)
Definition request_and_status (o : option Machine) : option string * option string :=
  match o with
  | Some m => (m_Annotations m !! ReplaceAnnotation, m_Annotations m !! ReplaceStatusAnnotation)
  | None => (None, None)
  end.

Lemma request_change_is_delivered old new :
  request_and_status new ≠ request_and_status None → request_and_status old ≠ request_and_status new →
  delivered replaceRequestChanged old new = true.
Proof.
  destruct new as [new|]; [|done]. intros Hn Ho.
  destruct old as [old|]; unfold delivered; simpl in *; rewrite orb_false_r; apply orb_true_iff.
  - rewrite !bool_decide_eq_true. destruct (decide (m_Annotations old !! ReplaceAnnotation = m_Annotations new !! ReplaceAnnotation)); [|auto].
    right. congruence.
  - unfold has_key. destruct (m_Annotations new !! ReplaceAnnotation), (m_Annotations new !! ReplaceStatusAnnotation); auto.
Qed.

(** C28: a replace request is carried out without being asked for twice: whatever is
    observed of a Machine, whenever it carries a request an event woke its reconcile when
    this request and the status it has now were first seen together, and neither
    changed since. *)
Theorem replace_request_wakes_its_machine (workers : nat) (history : list (option Machine)) (i : nat)
    (m : Machine) (Hi : history !! i = Some (Some m)) (Hreq : is_Some (m_Annotations m !! ReplaceAnnotation)) :
  ∃ j m', j ≤ i ∧ history !! j = Some (Some m') ∧
    enqueued (quarantine_registration workers) machine_key <$> delivery (before history j) (Some m')
      = Some [machine_key m'] ∧
    ∀ k, j ≤ k ≤ i → request_and_status (mjoin (history !! k)) = request_and_status (Some m).
Proof.
  destruct (spell_is_delivered replaceRequestChanged request_and_status request_change_is_delivered history i m)
    as (j & m' & Hj & Hm & Hd & Hk); [done|destruct Hreq as [s Hs]; simpl; rewrite Hs; congruence|].
  exists j, m'. split_and!; [done|done| |done].
  unfold delivered in Hd. unfold enqueued. simpl. destruct (before history j); simpl in *; by rewrite Hd.
Qed.

(** ** Witnesses *)

#[local] Existing Instance lib.

Definition asking_request (status : string) : Unstructured :=
  MkUnstructured "" "req-1" "" 1 None ∅ ∅
    [("status", VMap [("conditions", VList [VMap [("type", VString ConditionOwnershipReleased);
                                                  ("status", VString status)]])])].

(** A request that is seen, released to the operator, and seen again. *)
Definition request_history : list (option Unstructured) :=
  [None; Some (asking_request "False"); Some (asking_request "True"); Some (asking_request "True")].

#[local] Existing Instance lib_laws.

Lemma asking_request_waits : request_waits (asking_request "True").
Proof. apply Pending_request_waits. vm_compute. reflexivity. Qed.

Lemma pending_request_wakes_its_cluster_witness :
  ∃ j obj, j ≤ 3 ∧ request_history !! j = Some (Some obj) ∧
    watch_enqueued (requestWatch (MkKey "default" "gpu")) <$> delivery (before request_history j) (Some obj)
      = Some [MkKey "default" "gpu"].
Proof.
  destruct (pending_request_wakes_its_cluster (HL:=lib_laws) (MkKey "default" "gpu") request_history) as [Hw _].
  destruct (Hw 3 (asking_request "True")) as (j & obj & Hj & Hobj & Hd & _);
    [reflexivity|exact asking_request_waits|].
  exists j, obj. split; [exact Hj|]. split; [exact Hobj|exact Hd].
Defined.

Definition asking_machine (annotations : gmap string string) : Machine :=
  MkMachine "default" "worker-1" "uid" "1" false ∅ annotations [] "gpu" (MkRef "" "" "") "node-1" [].

Definition machine_history : list (option Machine) :=
  [Some (asking_machine ∅); Some (asking_machine {[ReplaceAnnotation := RequestQuarantine]})].

Lemma replace_request_wakes_its_machine_witness :
  ∃ j m, j ≤ 1 ∧ machine_history !! j = Some (Some m) ∧
    enqueued (quarantine_registration 1) machine_key <$> delivery (before machine_history j) (Some m)
      = Some [machine_key m].
Proof.
  destruct (replace_request_wakes_its_machine 1 machine_history 1
    (asking_machine {[ReplaceAnnotation := RequestQuarantine]})) as (j & m & Hj & Hm & Hd & _).
  - reflexivity.
  - apply (bool_decide_unpack _). vm_compute. exact I.
  - exists j, m. split; [exact Hj|]. split; [exact Hm|exact Hd].
Defined.
