(* ===== verification/Main.v ===== *)
(** * The manager command (cmd/manager/main.go)

    [main] reads the flags, and with a valid configuration sets up the manager, the
    cluster cache and the controllers, and starts. A process keeps what it set up with the
    framework and which controllers it registered; a call of the framework is an
    interface that may fail. The values of the flags are those package flag read, the
    defaults [default_flags]. [labels_Parse] and [IsDNS1123Subdomain] are
    apimachinery's: the latter gives the complaints about a name, none when it is valid. *)

From S2P Require Import Prelude GoStrings Decision Kube Extrr Capi ClusterController Quarantine QuarantineController Setup.
Open Scope stdpp_scope.

(** ** Quarantine drivers *)

Section drivers.
Context `{KubeLib} (IsDNS1123Subdomain : string → list string).

(** The loop over the names. *)
Fixpoint driver_names (parts : list string) (drivers : gset string) : result error (gset string) :=
  match parts with
  | [] => Ok drivers
  | part :: rest =>
      let name := TrimSpace part in
      if decide (name = "") then driver_names rest drivers
      else match IsDNS1123Subdomain name with
           | [] => driver_names rest ({[name]} ∪ drivers)
           | errs => Err (ENew ("driver " +:+ Quote name +:+ ": " +:+ Join errs "; "))
           end
  end.

Definition parseDrivers (s : string) : result error (gset string) :=
  match driver_names (Split s ","%char) ∅ with
  | Err e => Err e
  | Ok drivers => if decide (drivers = ∅) then Err (ENew "--device-quarantine needs at least one driver")
                  else Ok drivers
  end.

Lemma driver_names_spec parts drivers :
  match driver_names parts drivers with
  | Ok out => (∀ n, n ∈ out ↔ n ∈ drivers ∨ n ≠ "" ∧ n ∈ TrimSpace <$> parts) ∧
      ∀ n, n ∈ TrimSpace <$> parts → n ≠ "" → IsDNS1123Subdomain n = []
  | Err _ => ∃ n, n ∈ TrimSpace <$> parts ∧ n ≠ "" ∧ IsDNS1123Subdomain n ≠ []
  end.
Proof.
  revert drivers. induction parts as [|part rest IH]; intros drivers; cbn [driver_names]; [set_solver|].
  rewrite fmap_cons. case_decide as Hn.
  - specialize (IH drivers). destruct (driver_names rest drivers) as [out|e]; [|set_solver].
    destruct IH as [Hi Hv]. split; [intros n; rewrite Hi; set_solver|set_solver].
  - destruct (IsDNS1123Subdomain (TrimSpace part)) as [|err errs] eqn:E.
    + specialize (IH ({[TrimSpace part]} ∪ drivers)).
      destruct (driver_names rest _) as [out|e]; [|set_solver].
      destruct IH as [Hi Hv]. split; [intros n; rewrite Hi; set_solver|].
      intros n [->|Hin]%elem_of_cons Hne; auto.
    + exists (TrimSpace part). split_and!; [set_solver|done|]. by rewrite E.
Qed.

(** The drivers read are the names listed, and only valid ones: a list parses
    exactly when it names a driver at all and every name it lists is valid, blanks
    and repeats aside, and then to the set of its names. *)
Lemma parse_drivers_exactly (s : string) :
  let listed n := n ≠ "" ∧ n ∈ TrimSpace <$> Split s ","%char in
  match parseDrivers s with
  | Ok drivers => drivers ≠ ∅ ∧ ∀ n, (n ∈ drivers ↔ listed n) ∧ (n ∈ drivers → IsDNS1123Subdomain n = [])
  | Err _ => (∀ n, ¬ listed n) ∨ ∃ n, listed n ∧ IsDNS1123Subdomain n ≠ []
  end.
Proof.
  cbv beta zeta. unfold parseDrivers. pose proof (driver_names_spec (Split s ","%char) ∅) as Hd.
  destruct (driver_names (Split s ","%char) ∅) as [out|e]; [|right; naive_solver].
  destruct Hd as [Hi Hv]. case_decide as He.
  - left. intros n Hn. assert (n ∈ out) by (apply Hi; by right). set_solver.
  - split; [done|]. intros n. split; [rewrite Hi; set_solver|].
    intros [?|[Hne Hin]]%Hi; [set_solver|auto].
Qed.
End drivers.

(** ** The configuration *)

(** The flags, by the names of their variables; the poll interval in nanoseconds. *)
Record flags : Type := MkFlags {
  f_metricsAddr : string;
  f_probeAddr : string;
  f_clusterSelector : string;
  f_restartFallback : string;
  f_decisions : string;
  f_quarantineDrivers : string;
  f_leaderElect : bool;
  f_dryRun : bool;
  f_deviceQuarantine : bool;
  f_pollInterval : Z
}.

Definition default_flags : flags :=
  MkFlags "0" ":8081" "" (fallback_string RestartFallbackReport) "" "" false true false DefaultPollInterval.

Abbreviation selector := (gmap string string → bool).

(** What main makes of the flags. *)
Record config : Type := MkConfig {
  c_selector : option selector;
  c_fallback : RestartFallback;
  c_table : Table;
  c_drivers : gset string
}.

(** What is handed to the framework. [ByObject] restricts the Cluster informer; a
    [reader] is the manager's cached client or its API reader. *)
Inductive reader : Type := GetClientReader | GetAPIReader.

Record ManagerOptions : Type := MkManagerOptions {
  mo_MetricsBindAddress : string;
  mo_HealthProbeBindAddress : string;
  mo_LeaderElection : bool;
  mo_LeaderElectionID : string;
  mo_LeaderElectionReleaseOnCancel : bool;
  mo_ByObject : option selector
}.

Record ClusterCacheOptions : Type := MkClusterCacheOptions {
  cco_SecretClient : reader;
  cco_StripManagedFields : bool;
  cco_UserAgent : string;
  cco_DisableFor : list string;
  cco_MaxConcurrentReconciles : nat
}.

(** The clients of KubeVirtLocator and of Rules. *)
Record QuarantineClients : Type := MkQuarantineClients {
  locator_Client : reader;
  rules_Client : reader;
  rules_Reader : reader
}.

Inductive setup : Type :=
| NewManager (o : ManagerOptions)
| SetupClusterCache (o : ClusterCacheOptions)
| BuildClusterController (r : ClusterReconciler) (reg : registration Cluster)
| CompleteQuarantineController (q : MachineQuarantineReconciler) (clients : QuarantineClients)
    (reg : registration Machine)
| AddHealthzCheck (name : string)
| AddReadyzCheck (name : string)
| Start.

(** How the process ends: by os.Exit(1) after the message, or by returning. *)
Inductive exit : Type :=
| Exited (message : string) (cause : error + table_error)
| Returned.

Inductive controller : Type :=
| RunsCluster (r : ClusterReconciler)
| RunsQuarantine (q : MachineQuarantineReconciler).

(** The process: the world, the calls of the framework it made, the controllers
    registered with the manager, and the notices about its flags it logged. *)
Record Process (W : Type) : Type := MkProcess {
  p_world : W;
  p_attempted : list setup;
  p_controllers : list controller;
  p_notices : list (string * list string)
}.
Arguments MkProcess {W} p_world p_attempted p_controllers p_notices.
Arguments p_world {W} p.
Arguments p_attempted {W} p.
Arguments p_controllers {W} p.
Arguments p_notices {W} p.

Class Manager (W : Type) : Type := perform : setup → state W (option error).

(** The controller a step registers when it succeeds. SetupWithManager sets the request
    watcher of the reconciler it built the controller with. *)
Definition registered (s : setup) : option controller :=
  match s with
  | BuildClusterController r _ => Some (RunsCluster (set_watching r))
  | CompleteQuarantineController q _ _ => Some (RunsQuarantine q)
  | _ => None
  end.

Section manager.
Context `{KubeLib} `{ControllerRuntime} {W : Type} `{Manager W}.
Context (labels_Parse : string → result error selector) (IsDNS1123Subdomain : string → list string).

Local Abbreviation P := (state (Process W)).

Definition attempt (s : setup) : P (option error) := fun p =>
  let '(e, w) := perform s (p_world p) in
  (e, MkProcess w (p_attempted p ++ [s])
        (match e with None => p_controllers p ++ option_list (registered s) | Some _ => p_controllers p end)
        (p_notices p)).

Definition note (message : string) (names : list string) : P unit := fun p =>
  (tt, MkProcess (p_world p) (p_attempted p) (p_controllers p) (p_notices p ++ [(message, names)])).

(** [if err := ...; err != nil { setupLog.Error(err, message); os.Exit(1) }]. *)
Definition orExit (s : setup) (message : string) (k : P exit) : P exit :=
  e ← attempt s;
  match e with Some e => mret (Exited message (inl e)) | None => k end.

Definition read_selector (f : flags) : result error (option selector) :=
  if decide (f_clusterSelector f = "") then Ok None else Some <$> labels_Parse (f_clusterSelector f).

(** The drivers, nil without --device-quarantine. *)
Definition read_drivers (f : flags) : P (result error (gset string)) :=
  if f_deviceQuarantine f then mret (parseDrivers IsDNS1123Subdomain (f_quarantineDrivers f))
  else
    (if decide (f_quarantineDrivers f = "") then mret tt
     else note "--quarantine-drivers is ignored without --device-quarantine" []);;
    mret (Ok ∅).

Definition custom_note : string :=
  "the decision table has entries for actions NVSentinel does not recommend itself; they apply to custom actions of exactly these names".

(** Up to the manager: the configuration, or the exit of an invalid flag. *)
Definition configure (f : flags) : P (exit + config) :=
  match read_selector f with
  | Err e => mret (inl (Exited "invalid --cluster-selector" (inl e)))
  | Ok selector =>
      match ParseRestartFallback (f_restartFallback f) with
      | Err e => mret (inl (Exited "invalid --restart-fallback" (inl e)))
      | Ok fallback =>
          match ParseOverrides (f_decisions f) with
          | Err e => mret (inl (Exited "invalid --decisions" (inr e)))
          | Ok overrides =>
              match New overrides with
              | Err e => mret (inl (Exited "invalid --decisions" (inr e)))
              | Ok table =>
                  (match CustomActions table with [] => mret tt | custom => note custom_note custom end);;
                  drivers ← read_drivers f;
                  mret (match drivers with
                        | Err e => inl (Exited "invalid --quarantine-drivers" (inl e))
                        | Ok drivers => inr (MkConfig selector fallback table drivers)
                        end)
              end
          end
      end
  end.

Definition manager_options (f : flags) (c : config) : ManagerOptions :=
  MkManagerOptions (f_metricsAddr f) (f_probeAddr f) (f_leaderElect f)
    (ControllerName +:+ "." +:+ AnnotationPrefix) true (c_selector c).

Definition cluster_cache_options : ClusterCacheOptions :=
  MkClusterCacheOptions GetAPIReader true ControllerName ["ConfigMap"; "Secret"] 10.

Definition cluster_reconciler (f : flags) (c : config) : ClusterReconciler :=
  MkReconciler (c_table c) (f_dryRun f) (f_pollInterval f) (c_selector c) (Some (c_fallback c)) false.

Definition quarantine_reconciler (f : flags) (c : config) : MachineQuarantineReconciler :=
  MkQuarantineReconciler (c_drivers c) (f_dryRun f) (c_selector c).

Definition quarantine_clients : QuarantineClients :=
  MkQuarantineClients GetAPIReader GetClientReader GetAPIReader.

(** From the health checks on. *)
Definition serve : P exit :=
  orExit (AddHealthzCheck "healthz") "unable to set up health check" (
  orExit (AddReadyzCheck "readyz") "unable to set up ready check" (
  orExit Start "manager exited" (mret Returned))).

(** From the manager on. *)
Definition run (f : flags) (c : config) : P exit :=
  orExit (NewManager (manager_options f c)) "unable to create manager" (
  orExit (SetupClusterCache cluster_cache_options) "unable to set up cluster cache" (
  let r := cluster_reconciler f c in
  orExit (BuildClusterController r (cluster_registration r 1)) "unable to set up controller" (
  if f_deviceQuarantine f then
    orExit (CompleteQuarantineController (quarantine_reconciler f c) quarantine_clients
              (quarantine_registration 1)) "unable to set up controller" serve
  else serve))).

Definition main (f : flags) : P exit :=
  c ← configure f;
  match c with inl x => mret x | inr c => run f c end.
End manager.
