(* ===== verification/MainFacts.v ===== *)
(** * What the manager starts

    [main] against the list of steps it takes ([steps]): an invalid flag stops it before
    the first, a failing step at that step. The controllers it registers run under the
    flags, whatever world they find. *)

From S2P Require Import Prelude GoStrings Decision Kube KubeModel Extrr Capi ClusterController ReconcileFacts Quarantine Rules Locator QuarantineController QuarantineFacts Setup Main.
Open Scope stdpp_scope.

Section main.
Context `{KubeLib} `{ControllerRuntime} {W : Type} `{Manager W}.
Context (labels_Parse : string → result error selector) (IsDNS1123Subdomain : string → list string).

(** The configuration of valid flags. *)
Definition config_of (f : flags) : option config :=
  match read_selector labels_Parse f, ParseRestartFallback (f_restartFallback f),
        ParseOverrides (f_decisions f) ≫= New,
        (if f_deviceQuarantine f then parseDrivers IsDNS1123Subdomain (f_quarantineDrivers f) else Ok ∅) with
  | Ok selector, Ok fallback, Ok table, Ok drivers => Some (MkConfig selector fallback table drivers)
  | _, _, _, _ => None
  end.

(** What a valid configuration sets up, in order. *)
Definition steps (f : flags) (c : config) : list setup :=
  [NewManager (manager_options f c); SetupClusterCache cluster_cache_options;
   BuildClusterController (cluster_reconciler f c) (cluster_registration (cluster_reconciler f c) 1)]
  ++ (if f_deviceQuarantine f
      then [CompleteQuarantineController (quarantine_reconciler f c) quarantine_clients (quarantine_registration 1)]
      else [])
  ++ [AddHealthzCheck "healthz"; AddReadyzCheck "readyz"; Start].

Implicit Types (p : Process W) (l : list setup).

(** The framework answers every step of [l] without an error, one after the other. *)
Inductive succeed : W → list setup → W → Prop :=
| succeed_nil w : succeed w [] w
| succeed_cons w st w1 l w2 : perform st w = (None, w1) → succeed w1 l w2 → succeed w (st :: l) w2.

(** The steps [l] are taken in order up to the first the framework fails: the process
    returns when it fails none, and otherwise exits with the error it answered. *)
Definition ends l (x : exit) p p' : Prop :=
  ∃ l1 l2, l = l1 ++ l2 ∧ p_attempted p' = p_attempted p ++ l1 ∧
    (x = Returned ∧ l2 = [] ∧ succeed (p_world p) l1 (p_world p') ∧
       p_controllers p' = p_controllers p ++ omap registered l ∨
     ∃ l0 st w message e, l1 = l0 ++ [st] ∧ succeed (p_world p) l0 w ∧
       perform st w = (Some e, p_world p') ∧ x = Exited message (inl e) ∧
       p_controllers p' = p_controllers p ++ omap registered l0).

Lemma ends_nil p : ends [] Returned p p.
Proof.
  exists [], []. split_and!; [done|by rewrite app_nil_r|left]. rewrite app_nil_r.
  split_and!; [done|done|constructor|done].
Qed.

Lemma ends_orExit l s message (k : state (Process W) exit) p :
  (∀ p', ends l (k p').1 p' (k p').2) → ends (s :: l) (orExit s message k p).1 p (orExit s message k p).2.
Proof.
  intros Hk. unfold orExit, attempt, mbind, state_bind.
  destruct (perform s (p_world p)) as [[e|] w] eqn:Ep; simpl.
  - exists [s], l. split_and!; [done|done|]. right. exists [], s, (p_world p), message, e.
    rewrite app_nil_r. split_and!; [done|constructor|done..].
  - set (p' := MkProcess _ _ _ _). destruct (Hk p') as (l1 & l2 & -> & Ha & Hend).
    exists (s :: l1), l2. split_and!; [done|by rewrite Ha; simpl; rewrite <- (assoc_L (++))|].
    assert (Hc : ∀ l', omap registered (s :: l') = option_list (registered s) ++ omap registered l')
      by (intros l'; simpl; by destruct (registered s)).
    destruct Hend as [(Hx & -> & Hs & Hr)|(l0 & s' & w' & m & e & -> & Hs & Hp & Hx & Hr)]; [left|right].
    + split_and!; [done|done|by eapply succeed_cons|]. by rewrite Hr, Hc, (assoc_L (++)).
    + exists (s :: l0), s', w', m, e. split_and!; [done|by eapply succeed_cons|done|done|].
      by rewrite Hr, Hc, (assoc_L (++)).
Qed.

Lemma run_ends f c p : ends (steps f c) (run f c p).1 p (run f c p).2.
Proof.
  unfold run, serve, steps. simpl. do 3 (apply ends_orExit; intros ?).
  destruct (f_deviceQuarantine f); simpl; repeat (apply ends_orExit; intros ?); apply ends_nil.
Qed.

Lemma configure_spec f p :
  let '(r, p') := configure labels_Parse IsDNS1123Subdomain f p in
  p_world p' = p_world p ∧ p_attempted p' = p_attempted p ∧ p_controllers p' = p_controllers p ∧
  match r with
  | inr c => config_of f = Some c
  | inl x => config_of f = None ∧ ∃ message cause, x = Exited message cause
  end.
Proof.
  unfold configure, config_of, read_drivers. destruct (read_selector _ f); simpl; [|eauto 8].
  destruct (ParseRestartFallback _); simpl; [|eauto 8]. destruct (ParseOverrides _) as [ov|]; simpl; [|eauto 8].
  destruct (New ov); simpl; [|eauto 8]. unfold mbind, state_bind.
  destruct (CustomActions _); simpl; (destruct (f_deviceQuarantine f);
    [destruct (parseDrivers _ _)|case_decide]); simpl; eauto 8.
Qed.

Lemma main_ends (f : flags) (w : W) :
  let '(x, p) := main labels_Parse IsDNS1123Subdomain f (MkProcess w [] [] []) in
  match config_of f with
  | None => p_world p = w ∧ p_attempted p = [] ∧ p_controllers p = [] ∧
      ∃ message cause, x = Exited message cause
  | Some c => ends (steps f c) x (MkProcess w [] [] []) p
  end.
Proof.
  unfold main, mbind, state_bind. pose proof (configure_spec f (MkProcess w [] [] [])) as Hc.
  destruct (configure _ _ f _) as [[x|c] p]; simpl in Hc; destruct Hc as (Hw & Ha & Hr & Hc).
  - destruct Hc as [-> ?]. simpl. auto.
  - rewrite Hc. pose proof (run_ends f c p) as He. unfold ends in *. rewrite Hw, Ha, Hr in He.
    by destruct (run f c p).
Qed.

(** C20: the manager comes up as its flags say or not at all. With an invalid flag it exits
    before it calls anything; with valid ones it takes the steps of the configuration in
    order, up to the first the framework answers with an error: it then exits with that
    very error, and it returns only when the framework answered every step without one.
    The controllers registered are those whose step succeeded, the quarantine controller
    with --device-quarantine only. *)
Theorem main_takes_the_steps (f : flags) (w : W) :
  let '(x, p) := main labels_Parse IsDNS1123Subdomain f (MkProcess w [] [] []) in
  match config_of f with
  | None => p_world p = w ∧ p_attempted p = [] ∧ p_controllers p = [] ∧
      ∃ message cause, x = Exited message cause
  | Some c => ∃ l1 l2, steps f c = l1 ++ l2 ∧ p_attempted p = l1 ∧
      (x = Returned ∧ l2 = [] ∧ succeed w l1 (p_world p) ∧ p_controllers p = omap registered (steps f c) ∨
       ∃ l0 st w1 message e, l1 = l0 ++ [st] ∧ succeed w l0 w1 ∧ perform st w1 = (Some e, p_world p) ∧
         x = Exited message (inl e) ∧ p_controllers p = omap registered l0)
  end.
Proof. exact (main_ends f w). Qed.

(** The controllers main registers have the settings of the configuration. *)
Lemma registered_from_flags f w ct :
  ct ∈ p_controllers (main labels_Parse IsDNS1123Subdomain f (MkProcess w [] [] [])).2 →
  ∃ c, config_of f = Some c ∧
    (ct = RunsCluster (set_watching (cluster_reconciler f c)) ∨
     ct = RunsQuarantine (quarantine_reconciler f c) ∧ f_deviceQuarantine f = true).
Proof.
  pose proof (main_ends f w) as Hm. destruct (main _ _ f _) as [x p]. simpl. intros Hin.
  destruct (config_of f) as [c|]; [|destruct Hm as (_ & _ & Hr & _); rewrite Hr in Hin; set_solver].
  exists c. split; [done|]. destruct Hm as (l1 & l2 & Hs & _ & Hm).
  assert (∃ s, s ∈ steps f c ∧ registered s = Some ct) as (st & Hst & Hreg).
  { destruct Hm as [(_ & _ & _ & Hr)|(l0 & s' & w' & m & e & -> & _ & _ & _ & Hr)]; rewrite Hr in Hin;
      apply list_elem_of_omap in Hin as (st & Hst & Hreg); exists st; [done|]. rewrite Hs. set_solver. }
  unfold steps in Hst. destruct (f_deviceQuarantine f); simpl in Hst; set_unfold in Hst; naive_solver.
Qed.
End main.

(** An unselected Cluster is left alone. *)
Lemma unselected_sends_nothing `{KubeLib} {W : Type} `{API W} (r : ClusterReconciler) key (s : Sys W Memory)
    matches cluster :
  r_ClusterSelector r = Some matches → (GetCluster key (world s)).1 = Ok cluster →
  matches (cl_Labels cluster) = false → trace (Reconcile r key s).2 = trace s.
Proof.
  intros Hs Hc Hm. unfold Reconcile, mbind, state_bind, call.
  destruct (GetCluster key (world s)) as [res w]. simpl in Hc. subst res. rewrite Hs, Hm. simpl.
  by destruct (cl_Deleting cluster).
Qed.

Lemma quarantine_dry_run `{KubeLib} {W R : Type} `{API W} `{InfraAPI W} `{!Locator W R} `{!LocatorLaws W R}
    (q : MachineQuarantineReconciler) key (s : Sys W R) :
  q_DryRun q = true → trace (ReconcileQuarantine q key s).2 = trace s.
Proof.
  intros Hd. destruct (ReconcileQuarantine_spec q (fun _ => False)) with (key := key) (s := s)
    as [_ (l & -> & Hl)]; [congruence..|].
  destruct l as [|e l]; [by rewrite app_nil_r|]. by apply Forall_cons in Hl as [[] _].
Qed.

Lemma quarantine_drivers `{KubeLib} {W R : Type} `{API W} `{InfraAPI W} `{!Locator W R} `{!LocatorLaws W R}
    (q : MachineQuarantineReconciler) key (s : Sys W R) :
  ∃ l, trace (ReconcileQuarantine q key s).2 = trace s ++ l ∧
    Forall (fun e => match e with
      | CreateRule _ rule => ∃ d owner now, rule = ruleFor d owner now ∧ d_Driver d ∈ q_Drivers q
      | _ => True
      end) l.
Proof.
  refine (proj2 (ReconcileQuarantine_spec q (fun e => match e with
      | CreateRule _ rule => ∃ d owner now, rule = ruleFor d owner now ∧ d_Driver d ∈ q_Drivers q
      | _ => True
      end) _ _ _ _ key s)); [done|done| |done].
  intros _ version d owner now _ Hd. by exists d, owner, now.
Qed.

(** What a controller sends, under the flags the manager was started with. *)
Definition keeps_to `{KubeLib} (parse : string → result error selector) (IsDNS1123Subdomain : string → list string)
    (f : flags) (ct : controller) : Prop :=
  match ct with
  | RunsCluster r => ∀ (W : Type) (A : API W) (key : ObjectKey) (s : Sys W Memory),
      (f_dryRun f = true → trace (Reconcile r key s).2 = trace s) ∧
      (∀ cluster matches, f_clusterSelector f ≠ "" → parse (f_clusterSelector f) = Ok matches →
         (GetCluster key (world s)).1 = Ok cluster → matches (cl_Labels cluster) = false →
         trace (Reconcile r key s).2 = trace s)
  | RunsQuarantine q => f_deviceQuarantine f = true ∧
      ∀ (W R : Type) (A : API W) (I : InfraAPI W) (L : Locator W R), LocatorLaws W R →
      ∀ (key : ObjectKey) (s : Sys W R),
      (f_dryRun f = true → trace (ReconcileQuarantine q key s).2 = trace s) ∧
      ∃ l, trace (ReconcileQuarantine q key s).2 = trace s ++ l ∧
        Forall (fun e => match e with
          | CreateRule _ rule => ∃ d owner now, rule = ruleFor d owner now ∧
              d_Driver d ∈ TrimSpace <$> Split (f_quarantineDrivers f) ","%char ∧
              d_Driver d ≠ "" ∧ IsDNS1123Subdomain (d_Driver d) = []
          | _ => True
          end) l
  end.

(** C21: what the operator was told on its command line holds for everything it runs: a
    controller the manager starts sends nothing in a dry run, which is the default, in
    whatever world it runs; the cluster controller sends nothing for a Cluster
    outside --cluster-selector; and the quarantine controller, which is there with
    --device-quarantine only, makes rules for devices of the drivers listed in
    --quarantine-drivers alone. *)
Theorem started_controllers_keep_to_the_flags `{KubeLib} {HL : KubeLaws} `{ControllerRuntime} {W : Type} `{Manager W}
    (labels_Parse : string → result error selector) (IsDNS1123Subdomain : string → list string)
    (f : flags) (w : W) :
  f_dryRun default_flags = true ∧
  Forall (keeps_to labels_Parse IsDNS1123Subdomain f)
    (p_controllers (main labels_Parse IsDNS1123Subdomain f (MkProcess w [] [] [])).2).
Proof.
  split; [done|]. apply Forall_forall. intros ct (c & Hc & Hct)%registered_from_flags.
  unfold config_of in Hc. destruct (read_selector _ f) as [sel|] eqn:Es; [|done].
  destruct (ParseRestartFallback _); [|done]. destruct (_ ≫= New); [|done].
  destruct Hct as [->|[-> Hq]]; simpl.
  - destruct (if f_deviceQuarantine f then _ else _); [|done]. injection Hc as <-.
    intros W' A key s. split; [intros Hd; by apply silent_in_dry_run|].
    intros cluster matches Hne Hp Hg Hm. eapply unselected_sends_nothing; [|done..]. simpl.
    unfold read_selector in Es. rewrite decide_False, Hp in Es by done. by injection Es as <-.
  - rewrite Hq in Hc. pose proof (parse_drivers_exactly IsDNS1123Subdomain (f_quarantineDrivers f)) as Hd.
    destruct (parseDrivers _ _) as [drivers|]; [|done]. injection Hc as <-. destruct Hd as [_ Hd].
    split; [done|]. intros W' R A I L HLoc key s. split; [intros Hdry; by apply quarantine_dry_run|].
    destruct (quarantine_drivers (quarantine_reconciler f (MkConfig sel a a0 drivers)) key s) as (l & -> & Hl).
    exists l. split; [done|]. eapply Forall_impl; [exact Hl|]. intros [| | | |]; try done.
    intros (d & owner & now & -> & Hin). simpl in Hin. destruct (Hd (d_Driver d)) as [Hlist Hvalid].
    exists d, owner, now. apply Hlist in Hin as Hl'. naive_solver.
Qed.

(** ** Witnesses: a manager whose framework never fails. *)

#[local] Existing Instance lib.
#[local] Existing Instance lib_laws.
#[local] Instance runtime : ControllerRuntime := {|
  GenerationChangedPredicate := fun e => match e with UpdateEvent _ _ => false | _ => true end;
  ClusterPausedTransitions := fun e =>
    match e with UpdateEvent old new => negb (Bool.eqb (cl_SpecPaused old) (cl_SpecPaused new)) | _ => false end;
  predicate_Or := fun O ps e => existsb (fun p => p e) ps;
  NewPredicateFuncs := fun O f e => f (event_object e)
|}.
#[local] Instance framework : Manager unit := fun _ w => (None, w).

Definition a_parser (s : string) : result error selector :=
  Ok (fun ls => bool_decide (ls !! "environment" = Some s)).

Definition some_flags : flags :=
  MkFlags "0" ":8081" "gpu" "replace" "COMPONENT_RESET=restart" "gpu.nvidia.com" true true true 0.

Definition some_process : Process unit :=
  (main a_parser (fun _ => []) some_flags (MkProcess tt [] [] [])).2.

Example the_manager_starts :
  (main a_parser (fun _ => []) some_flags (MkProcess tt [] [] [])).1 = Returned ∧
  length (p_controllers some_process) = 2 ∧
  option_map (fun c => out_Decision (Decide (c_table c)
      (Signal.MkSignal Signal.OriginNodeCondition "n" "c" "" ["COMPONENT_RESET"] [] [] false "")))
    (config_of a_parser (fun _ => []) some_flags) = Some Restart.
Proof. vm_compute. split_and!; reflexivity. Qed.

Definition is_cluster_controller (ct : controller) : bool := match ct with RunsCluster _ => true | _ => false end.

Lemma started_controllers_keep_to_the_flags_witness :
  ∃ r q, p_controllers some_process = [RunsCluster r; RunsQuarantine q] ∧
    keeps_to a_parser (fun _ => []) some_flags (RunsCluster r) ∧
    keeps_to a_parser (fun _ => []) some_flags (RunsQuarantine q).
Proof.
  destruct (started_controllers_keep_to_the_flags a_parser (fun _ => []) some_flags tt) as [_ Hall].
  fold some_process in Hall.
  assert (Hk : is_cluster_controller <$> p_controllers some_process = [true; false])
    by (vm_compute; reflexivity).
  destruct (p_controllers some_process) as [|[r|r] [|[q|q] [|]]]; try discriminate Hk.
  exists r, q. split; [reflexivity|].
  inversion_clear Hall as [|? ? H1 Hrest]. inversion_clear Hrest as [|? ? H2 _]. split; assumption.
Defined.
