(* ===== verification/Operator.v ===== *)
(** * The operator at work

    What [main] registered, running: reconciles of both controllers for any objects in
    any order, whatever becomes of the clusters before, between and during them, and a
    process that dies and comes back with nothing remembered. What holds of everything the
    operator ever sends is an invariant of these steps. *)

From S2P Require Import Prelude GoStrings Decision Kube KubeModel WorldModel Calls Extrr Capi Mode ClusterController ReconcileFacts Memory Quarantine Rules Locator LocatorFacts QuarantineController QuarantineFacts Requests Setup Main MainFacts.
Open Scope stdpp_scope.

(** ** Steps *)

(** The clusters, everything sent so far, and what the two controllers remember. *)
Record Operator (W R : Type) : Type := MkOperator {
  o_world : W;
  o_sent : list Effect;
  o_memory : Memory;
  o_located : R
}.
Arguments MkOperator {W R} o_world o_sent o_memory o_located.
Arguments o_world {W R} o.
Arguments o_sent {W R} o.
Arguments o_memory {W R} o.
Arguments o_located {W R} o.

Section operator.
Context `{KubeLib} {W R : Type} `{API W} `{InfraAPI W} `{!Locator W R}.

Definition starting (w : W) (x : R) : Operator W R := MkOperator w [] empty_memory x.

Definition after_poll (r : ClusterReconciler) (key : ObjectKey) (o : Operator W R) : Operator W R :=
  let s := (Reconcile r key (MkSys (o_world o) (o_sent o) (o_memory o))).2 in
  MkOperator (world s) (trace s) (memory s) (o_located o).

Definition after_replace (q : MachineQuarantineReconciler) (key : ObjectKey) (o : Operator W R) : Operator W R :=
  let s := (ReconcileQuarantine q key (MkSys (o_world o) (o_sent o) (o_located o))).2 in
  MkOperator (world s) (trace s) (o_memory o) (memory s).

Inductive op_step (cts : list controller) (o : Operator W R) : Operator W R → Prop :=
| poll_cluster r key : RunsCluster r ∈ cts → op_step cts o (after_poll r key o)
| replace_machine q key : RunsQuarantine q ∈ cts → op_step cts o (after_replace q key o)
| world_moves w : op_step cts o (MkOperator w (o_sent o) (o_memory o) (o_located o))
| process_restarts x : op_step cts o (MkOperator (o_world o) (o_sent o) empty_memory x).

(** ** What may ever be sent *)

(** Of the quarantine controller: a status moves on under optimistic locking; a rule is of a
    device of the drivers; and what the server keeps under the UID and the version a deletion
    names asks to be replaced, is replacing, and may be. *)
Definition quarantine_lawful (drivers : string → Prop) (stored : Machine → Prop) (e : Effect) : Prop :=
  match e with
  | PatchMachine base updated lock => lock = true ∧ m_Deleting base = false ∧
      m_Annotations base !! ReplaceAnnotation = None ∧ updated = set_status base "" ∨
      lock = true ∧ ∃ status, advances (status_of base) status ∧ updated = set_status base status
  | CreateRule version rule => version ∈ ruleVersions ∧
      ∃ d owner now, rule = ruleFor d owner now ∧ drivers (d_Driver d)
  | DeleteMachine _ uid version =>
      ∀ x, stored x → m_UID x = uid → m_ResourceVersion x = version →
        m_Deleting x = false ∧ status_of x = StatusReplacing ∧
        (∃ request, m_Annotations x !! ReplaceAnnotation = Some request ∧ is_ok (ParseRequest request) = true) ∧
        ∃ cluster (w : W), (GetCluster (MkKey (m_Namespace x) (m_ClusterName x)) w).1 = Ok cluster ∧
          guardReplace cluster x = None
  | RecordEvent _ _ _ _ _ => True
  | PatchRequestStatus _ _ _ => False
  end.

(** Of the cluster controller. *)
Definition cluster_lawful (e : Effect) : Prop :=
  match e with
  | PatchMachine base updated lock => patch_is_safe base updated lock
  | PatchRequestStatus _ base updated =>
      Pending base = true ∧ ∃ complete reason message now, updated = answered_object base complete reason message now
  | RecordEvent _ _ _ _ _ => True
  | DeleteMachine _ _ _ | CreateRule _ _ => False
  end.

Definition lawful (IsDNS1123Subdomain : string → list string) (f : flags) (stored : Machine → Prop) (e : Effect) : Prop :=
  f_dryRun f = false ∧
  (cluster_lawful e ∨
   f_deviceQuarantine f = true ∧
   quarantine_lawful (fun name => name ≠ "" ∧ IsDNS1123Subdomain name = [] ∧
                        name ∈ TrimSpace <$> Split (f_quarantineDrivers f) ","%char) stored e).

Record sound (IsDNS1123Subdomain : string → list string) (f : flags) (stored : Machine → Prop)
    (cts : list controller) (o : Operator W R) : Prop := {
  sound_sent : Forall (lawful IsDNS1123Subdomain f stored) (o_sent o);
  sound_memory r : RunsCluster r ∈ cts → well_formed r (o_memory o)
}.
End operator.

(** ** The controllers send what is lawful *)

Section sending.
Context `{KubeLib} `{!KubeLaws} {W : Type} `{API W}.

Lemma Reconcile_lawful (r : ClusterReconciler) key :
  spec (W:=W) (fun e => r_DryRun r = false ∧ cluster_lawful e) (Reconcile r key) (fun _ => True).
Proof. eapply spec_weaken; [apply reconcile_effects| |done]. by intros []. Qed.

Context (stored : Machine → Prop) (Hst : storage (W:=W) stored) (q : MachineQuarantineReconciler).

Lemma request_run_lawful request cluster sent m l (w : W) :
  (GetCluster (MkKey (m_Namespace m) (m_ClusterName m)) w).1 = Ok cluster →
  request_run (W:=W) q cluster request sent m l → Forall (quarantine_lawful (W:=W) (.∈ q_Drivers q) stored) l.
Proof.
  intros Hc Hrun. induction Hrun as [|sent m o t reason action note l _ IH|sent m status|sent m status m' l Ha _ _ Hm' _ IH|m version d now l _ Hv Hd _ IH|m l Hs Ha He _ IH].
  - constructor.
  - constructor; [done|by apply IH].
  - apply Forall_singleton. right. split; [done|]. by exists status.
  - constructor; [right; split; [done|]; by exists status|]. apply IH. by rewrite Hm'.
  - constructor; [|by apply IH]. split; [done|]. by exists d, (owner_of cluster m), now.
  - constructor; [|by apply IH]. intros x Hx Hu Hv.
    assert (Hm : stored m) by (destruct Ha as [(k & w' & Hg)|(b & u & w' & Hp)];
      [by eapply stored_got|by eapply stored_patched]).
    rewrite (stored_once _ Hst x m) by done. destruct He as (Hdel & Hask & Hg & Hp).
    split_and!; [done|done|by exists request|by exists cluster, w].
Qed.

Lemma ReconcileQuarantine_lawful {R : Type} `{InfraAPI W} `{!Locator W R} `{!LocatorLaws W R} `{!VersionLaws W} key (s : Sys W R) :
  ∃ l, trace (ReconcileQuarantine q key s).2 = trace s ++ l ∧
    Forall (quarantine_lawful (W:=W) (.∈ q_Drivers q) stored) l ∧ (q_DryRun q = true → l = []).
Proof.
  destruct (runs_requests q key s) as (l & Ht & Hl). exists l. split; [done|]. split.
  - destruct (decide (l = [])) as [->|Hne]; [constructor|].
    destruct (Hl Hne) as (m & Hm & Hdel & [|Hgone|request cluster w l' _ _ Hc _ Hrun]); [constructor| |].
    + apply Forall_singleton. left. by split_and!.
    + by eapply request_run_lawful.
  - intros Hd. rewrite (quarantine_dry_run q key s Hd) in Ht. apply (app_inv_head (trace s)). by rewrite app_nil_r.
Qed.
End sending.

(** ** Soundness is kept *)

(** The quarantine controller's drivers are valid names the flag lists. *)
Lemma quarantine_settings `{KubeLib} (labels_Parse : string → result error selector)
    (IsDNS1123Subdomain : string → list string) f c name :
  config_of labels_Parse IsDNS1123Subdomain f = Some c → f_deviceQuarantine f = true → name ∈ c_drivers c →
  name ≠ "" ∧ IsDNS1123Subdomain name = [] ∧ name ∈ TrimSpace <$> Split (f_quarantineDrivers f) ","%char.
Proof.
  unfold config_of. intros Hc Hq. rewrite Hq in Hc. destruct (read_selector _ f); [|done].
  destruct (ParseRestartFallback _); [|done]. destruct (_ ≫= New); [|done].
  pose proof (parse_drivers_exactly IsDNS1123Subdomain (f_quarantineDrivers f)) as Hd.
  destruct (parseDrivers _ _) as [drivers|]; [|done]. injection Hc as <-. destruct Hd as [_ Hd].
  destruct (Hd name) as [Hlist Hvalid]. simpl. intros Hin. apply Hlist in Hin as Hl. naive_solver.
Qed.

Section running.
Context `{KubeLib} `{!KubeLaws} `{ControllerRuntime} {W R : Type} `{API W} `{InfraAPI W} `{!Locator W R}.
Context `{!LocatorLaws W R} `{!VersionLaws W}.
Context (Hname : ∀ key w cluster, (GetCluster (W:=W) key w).1 = Ok cluster → cluster_key cluster = key).
Context (stored : Machine → Prop) (Hst : storage (W:=W) stored).
Context (labels_Parse : string → result error selector) (IsDNS1123Subdomain : string → list string) (f : flags).
Context {P : Type} `{Manager P} (p : P).

Local Abbreviation cts := (p_controllers (main labels_Parse IsDNS1123Subdomain f (MkProcess p [] [] [])).2).
Local Abbreviation is_sound := (sound (W:=W) (R:=R) IsDNS1123Subdomain f stored cts).

Lemma sound_starting w x : is_sound (starting w x).
Proof. constructor; [constructor|]. intros r _. apply wf_empty. Qed.

Lemma sound_step o o' : op_step cts o o' → is_sound o → is_sound o'.
Proof.
  intros Hstep [Hsent Hmem]. destruct Hstep as [r key Hr|q key Hq|w|x].
  - apply registered_from_flags in Hr as Hr'. destruct Hr' as (c & Hc & [[= Er]|[? _]]); [|done].
    set (s := MkSys (o_world o) (o_sent o) (o_memory o)).
    destruct (Reconcile_lawful r key s) as [_ (l & Ht & Hl)].
    assert (Hwf : well_formed r (memory (Reconcile r key s).2)) by (apply Reconcile_triple; [done|by apply Hmem]).
    constructor; unfold after_poll; simpl; fold s.
    + rewrite Ht. apply Forall_app. split; [done|]. eapply Forall_impl; [exact Hl|].
      intros e [Hd He]. split; [by rewrite Er in Hd|by left].
    + intros r' Hr'. apply registered_from_flags in Hr' as (c' & Hc' & [[= Er']|[? _]]); [|done].
      rewrite Hc in Hc'. injection Hc' as <-. by rewrite Er', <- Er.
  - apply registered_from_flags in Hq as (c & Hc & [?|[[= Eq] Hon]]); [done|].
    set (s := MkSys (o_world o) (o_sent o) (o_located o)).
    destruct (ReconcileQuarantine_lawful stored Hst q key s) as (l & Ht & Hl & Hdry).
    constructor; unfold after_replace; simpl; fold s; [|exact Hmem].
    rewrite Ht. apply Forall_app. split; [done|]. apply Forall_forall. intros e He.
    rewrite Forall_forall in Hl. specialize (Hl e He). split.
    + destruct (f_dryRun f) eqn:Hd; [|done]. rewrite Hdry in He by (by rewrite Eq). by apply not_elem_of_nil in He.
    + right. split; [done|]. destruct e; try done. destruct Hl as (Hv & d & owner & now & -> & Hd).
      split; [done|]. exists d, owner, now. split; [done|]. rewrite Eq in Hd. by eapply quarantine_settings.
  - by constructor.
  - constructor; [done|]. intros r _. apply wf_empty.
Qed.

Lemma reachable_sound w x o : rtc (op_step cts) (starting w x) o → is_sound o.
Proof.
  revert o. apply rtc_ind_r; [apply sound_starting|]. intros o1 o2 _ Hstep. by apply sound_step.
Qed.
End running.

(** C6: whatever the operator runs into and however often its process starts over, with the
    flags it was started with everything it has ever sent is lawful. In a dry run that is
    nothing. A patch of a Machine is the marking of a Machine that passes every guard, the
    release or the replacement of this operator's own restart mark, under optimistic locking,
    or, with --device-quarantine only, the next status of a replace request; requests are
    answered while pending; rules are made for devices of the drivers listed; and the server
    finds under the UID and the version of every deletion a Machine that asks to be replaced,
    is replacing, and passes every guard for its Cluster. And what is remembered makes sense
    at any time. *)
Theorem everything_sent_is_lawful `{KubeLib} {HK : KubeLaws} `{ControllerRuntime} {W R : Type} `{API W} `{InfraAPI W}
    `{!Locator W R} {HL : LocatorLaws W R} {HV : VersionLaws W}
    (Hname : ∀ key w cluster, (GetCluster (W:=W) key w).1 = Ok cluster → cluster_key cluster = key)
    (stored : Machine → Prop) (Hst : storage (W:=W) stored)
    (labels_Parse : string → result error selector) (IsDNS1123Subdomain : string → list string) (f : flags)
    {P : Type} `{Manager P} (p : P) (w : W) (x : R) (o : Operator W R) :
  let cts := p_controllers (main labels_Parse IsDNS1123Subdomain f (MkProcess p [] [] [])).2 in
  rtc (op_step cts) (starting w x) o →
  Forall (lawful (W:=W) IsDNS1123Subdomain f stored) (o_sent o) ∧ (f_dryRun f = true → o_sent o = []) ∧
  ∀ r, RunsCluster r ∈ cts → well_formed r (o_memory o).
Proof.
  intros cts Hrun. destruct (reachable_sound Hname stored Hst labels_Parse IsDNS1123Subdomain f p w x o Hrun) as [Hsent Hmem].
  split_and!; [done| |done]. intros Hd. destruct (o_sent o) as [|e l]; [done|].
  apply Forall_cons in Hsent as [[Hdry _] _]. congruence.
Qed.

(** ** Witness: a process that starts over and finds a Machine to replace. *)

#[local] Existing Instance lib.
#[local] Existing Instance lib_laws.
#[local] Existing Instance versioned.
#[local] Existing Instance versioned_infra.
#[local] Existing Instance versioned_versions.
#[local] Existing Instance runtime.
#[local] Existing Instance framework.

Definition working_flags : flags :=
  MkFlags "0" ":8081" "" "report" "" "gpu.nvidia.com" false false true 0.

Definition working : list controller :=
  p_controllers (main a_parser (fun _ => []) working_flags (MkProcess tt [] [] [])).2.

Example quarantine_runs : working !! 1 = Some (RunsQuarantine q_reconciler).
Proof. vm_compute. reflexivity. Qed.

Lemma versioned_names key w cluster : (GetCluster (W:=nat * World) key w).1 = Ok cluster → cluster_key cluster = key.
Proof. intros Hc. apply (api_names_clusters key w.2). by destruct w. Qed.

Definition replaced : Operator (nat * World) unit :=
  after_replace q_reconciler q_key
    (MkOperator (0, q_world asked) [] empty_memory tt).

Lemma everything_sent_is_lawful_witness :
  ∃ version, deletions (o_sent replaced) = [("m-uid", version)] ∧
    Forall (lawful (W:=nat * World) (fun _ => []) working_flags (fun x => ∃ n, x = state_at n)) (o_sent replaced).
Proof.
  exists "2". split; [vm_compute; reflexivity|].
  refine (proj1 (everything_sent_is_lawful versioned_names (fun x => ∃ n, x = state_at n) versioned_storage a_parser
    (fun _ => []) working_flags tt (0, q_world asked) tt replaced _)).
  eapply rtc_l; [apply (process_restarts _ _ tt)|]. apply rtc_once. apply replace_machine.
  eapply list_elem_of_lookup_2. exact quarantine_runs.
Defined.
